(** * Resume-tailoring service: a shallow embedding of [lambda_function.py]

    The development follows the layout of the Python module:

    - [PyStr]: the [str] methods the module uses ([lower], [strip],
      [split], [splitlines], [find], [replace], [isupper], [istitle], ...);
    - [Re]: the fragment of [re] the module's patterns need, as a
      backtracking matcher that lists matches in priority order;
    - the contact and section-order extractors;
    - the guardrail builder [_ai_tailor_resume_html] with its generation
      backend as an oracle and a log of the calls made;
    - the plaintext extractor, the web text fetcher, the quota check of the
      upload and tailor handlers and the skill-scoring route.

    A Python [str] is modelled as the [string] of its UTF-8 encoding.  The
    [str] methods and character classes below are those of ASCII text: a
    byte above 127 counts as an uncased symbol that is neither a blank nor
    a digit, and lengths and offsets count bytes.  On ASCII text the
    definitions agree with Python's Unicode-aware methods; the statements
    that depend on how a text is cased, split into words or lines, or
    measured are made for ASCII text ([ascii_text]).  The two characters
    outside ASCII that the module itself names, the bullet and the dash of
    the strip set of [_normalize_heading], are handled as their encodings
    ([strip_set]).  Python exceptions are modelled by the [outcome] type. *)

From Stdlib Require Import String Ascii List ZArith NArith Lia Bool.
From Stdlib Require Import DecimalString Floats Uint63.
From stdpp Require Import gmap strings.

Set Warnings "-register-all".

Local Open Scope N_scope.

(* stdpp seals [String.append] against [simpl]; the proofs below unfold it. *)
#[local] Arguments String.append !_ _ / : simpl nomatch.

(** ** Python [str] methods on ASCII text *)
Module PyStr.

Definition code (c : ascii) : N := N_of_ascii c.

Definition chr (n : N) : ascii := ascii_of_N n.

(** [str.isspace] on one ASCII character: TAB, LF, VT, FF, CR, FS, GS, RS,
    US and the space. *)
Definition is_space (c : ascii) : bool :=
  let n := code c in ((9 <=? n) && (n <=? 13)) || ((28 <=? n) && (n <=? 32)).

Definition is_upper (c : ascii) : bool :=
  let n := code c in (65 <=? n) && (n <=? 90).

Definition is_lower (c : ascii) : bool :=
  let n := code c in (97 <=? n) && (n <=? 122).

Definition is_alpha (c : ascii) : bool := is_upper c || is_lower c.

Definition is_digit (c : ascii) : bool :=
  let n := code c in (48 <=? n) && (n <=? 57).

Definition lower_char (c : ascii) : ascii :=
  if is_upper c then chr (code c + 32) else c.

(** [s.lower()] *)
Fixpoint lower (s : string) : string :=
  match s with
  | EmptyString => EmptyString
  | String c s' => String (lower_char c) (lower s')
  end.

(** [len(s)] *)
Definition len (s : string) : nat := String.length s.

(** [bool(s)]: a string is truthy when it is not empty. *)
Definition truthy (s : string) : bool :=
  match s with EmptyString => false | String _ _ => true end.

(** [a or b] on strings. *)
Definition or_else (a b : string) : string := if truthy a then a else b.

(** [s.startswith(p)] *)
Fixpoint startswith (p s : string) : bool :=
  match p, s with
  | EmptyString, _ => true
  | String _ _, EmptyString => false
  | String a p', String b s' => if Ascii.eqb a b then startswith p' s' else false
  end.

(** [p in s] *)
Fixpoint contains (p s : string) : bool :=
  startswith p s ||
  match s with
  | EmptyString => false
  | String _ s' => contains p s'
  end.

(** [s.find(p)], with Python's [-1] when [p] does not occur. *)
Fixpoint find (p s : string) : Z :=
  if startswith p s then 0%Z
  else match s with
       | EmptyString => (-1)%Z
       | String _ s' => let i := find p s' in
                        if (i <? 0)%Z then (-1)%Z else (i + 1)%Z
       end.

(** [s[:n]] for [n >= 0] *)
Fixpoint slice_to (n : nat) (s : string) : string :=
  match n, s with
  | S k, String c s' => String c (slice_to k s')
  | _, _ => EmptyString
  end.

(** [s[n:]] for [n >= 0] *)
Fixpoint slice_from (n : nat) (s : string) : string :=
  match n, s with
  | S k, String _ s' => slice_from k s'
  | _, _ => s
  end.

(** [s.lstrip()] and [s.rstrip()] over a set of characters given as a
    predicate; [s.strip()] strips both ends. *)
Fixpoint lstrip_by (p : ascii -> bool) (s : string) : string :=
  match s with
  | String c s' => if p c then lstrip_by p s' else s
  | EmptyString => EmptyString
  end.

Fixpoint rstrip_by (p : ascii -> bool) (s : string) : string :=
  match s with
  | EmptyString => EmptyString
  | String c s' =>
      match rstrip_by p s' with
      | EmptyString => if p c then EmptyString else String c EmptyString
      | r => String c r
      end
  end.

Definition strip_by (p : ascii -> bool) (s : string) : string :=
  rstrip_by p (lstrip_by p s).

Definition strip (s : string) : string := strip_by is_space s.

Fixpoint mem_char (c : ascii) (chars : string) : bool :=
  match chars with
  | EmptyString => false
  | String d r => Ascii.eqb c d || mem_char c r
  end.

(** [s.strip(chars)] and [s.rstrip(chars)] *)
Definition strip_chars (chars s : string) : string :=
  strip_by (fun c => mem_char c chars) s.

Definition rstrip_chars (chars s : string) : string :=
  rstrip_by (fun c => mem_char c chars) s.

(** [s.strip(chars)] for a [chars] that names characters outside ASCII.
    In the encoded text such a character is a run of bytes, so the set is
    given as the list of the encodings of its characters, none of them
    empty; one character of the set is removed at a time, from the front
    and then, on the reversed text, from the back.  [fuel] bounds the
    number of characters removed. *)
Definition starts_with_one (set : list string) (s : string) : option string :=
  List.find (fun u => startswith u s) set.

Fixpoint lstrip_set_aux (fuel : nat) (set : list string) (s : string) : string :=
  match fuel with
  | O => s
  | S k =>
      match starts_with_one set s with
      | Some u => lstrip_set_aux k set (slice_from (String.length u) s)
      | None => s
      end
  end.

Definition lstrip_set (set : list string) (s : string) : string :=
  lstrip_set_aux (String.length s) set s.

Fixpoint rev_string (acc s : string) : string :=
  match s with
  | EmptyString => acc
  | String c s' => rev_string (String c acc) s'
  end.

Definition reversed (s : string) : string := rev_string EmptyString s.

Definition rstrip_set (set : list string) (s : string) : string :=
  reversed (lstrip_set (map reversed set) (reversed s)).

Definition strip_set (set : list string) (s : string) : string :=
  rstrip_set set (lstrip_set set s).

(** [s.endswith(":")] and [s[:-1]] *)
Fixpoint ends_with_char (d : ascii) (s : string) : bool :=
  match s with
  | EmptyString => false
  | String c EmptyString => Ascii.eqb c d
  | String _ s' => ends_with_char d s'
  end.

Fixpoint drop_last (s : string) : string :=
  match s with
  | EmptyString => EmptyString
  | String _ EmptyString => EmptyString
  | String c s' => String c (drop_last s')
  end.

(** [s.split()]: the maximal runs of non-blank characters. [cur] is the
    word being read, reversed. *)
Fixpoint split_ws_aux (cur : string) (s : string) : list string :=
  match s with
  | EmptyString =>
      match cur with EmptyString => [] | _ => [rev_string EmptyString cur] end
  | String c s' =>
      if is_space c then
        match cur with
        | EmptyString => split_ws_aux EmptyString s'
        | _ => rev_string EmptyString cur :: split_ws_aux EmptyString s'
        end
      else split_ws_aux (String c cur) s'
  end.

Definition split (s : string) : list string := split_ws_aux EmptyString s.

(** [sep.join(l)] *)
Fixpoint join (sep : string) (l : list string) : string :=
  match l with
  | [] => EmptyString
  | [x] => x
  | x :: r => x +:+ sep +:+ join sep r
  end.

(** [s.splitlines()]: the ASCII line boundaries are LF, CR, CR LF, VT, FF,
    FS, GS and RS; a trailing boundary opens no further line. *)
Definition is_linebreak (c : ascii) : bool :=
  let n := code c in ((10 <=? n) && (n <=? 13)) || ((28 <=? n) && (n <=? 30)).

Fixpoint splitlines_aux (cur : string) (s : string) : list string :=
  match s with
  | EmptyString =>
      match cur with EmptyString => [] | _ => [rev_string EmptyString cur] end
  | String c s' =>
      if is_linebreak c then
        rev_string EmptyString cur ::
        match s' with
        | String d s'' =>
            if (code c =? 13) && (code d =? 10)
            then splitlines_aux EmptyString s''
            else splitlines_aux EmptyString s'
        | EmptyString => []
        end
      else splitlines_aux (String c cur) s'
  end.

Definition splitlines (s : string) : list string := splitlines_aux EmptyString s.

(** [s.replace(old, new)]: every non-overlapping occurrence, left to right.
    [skip] counts the characters of an occurrence still to be dropped. *)
Fixpoint replace_aux (old new : string) (skip : nat) (s : string) : string :=
  match s with
  | EmptyString => EmptyString
  | String c s' =>
      match skip with
      | S k => replace_aux old new k s'
      | O =>
          if startswith old s
          then new +:+ replace_aux old new (String.length old - 1) s'
          else String c (replace_aux old new 0 s')
      end
  end.

(** With an empty [old] Python puts [new] before every character and at
    the end. *)
Fixpoint intersperse (new s : string) : string :=
  match s with
  | EmptyString => new
  | String c s' => new +:+ String c (intersperse new s')
  end.

Definition replace (old new s : string) : string :=
  match old with
  | EmptyString => intersperse new s
  | _ => replace_aux old new 0 s
  end.

(** [s.isupper()]: some cased character and no lowercase one. *)
Fixpoint existsb_str (p : ascii -> bool) (s : string) : bool :=
  match s with
  | EmptyString => false
  | String c s' => p c || existsb_str p s'
  end.

Definition isupper (s : string) : bool :=
  existsb_str is_upper s && negb (existsb_str is_lower s).

(** [s.istitle()]: uppercase characters only after uncased ones, lowercase
    characters only after cased ones, and some cased character. *)
Fixpoint istitle_aux (cased previous_is_cased : bool) (s : string) : bool :=
  match s with
  | EmptyString => cased
  | String ch s' =>
      if is_upper ch then
        if previous_is_cased then false else istitle_aux true true s'
      else if is_lower ch then
        if previous_is_cased then istitle_aux true true s' else false
      else istitle_aux cased false s'
  end.

Definition istitle (s : string) : bool := istitle_aux false false s.

(** The double quote and the characters the sources write with escapes. *)
Definition dq : string := String (chr 34) EmptyString.
Definition nl : string := String (chr 10) EmptyString.
Definition tab : string := String (chr 9) EmptyString.

(** [html.escape(s)] with its default [quote=True]. *)
Fixpoint escape (s : string) : string :=
  match s with
  | EmptyString => EmptyString
  | String c s' =>
      (if code c =? 38 then "&amp;"
       else if code c =? 60 then "&lt;"
       else if code c =? 62 then "&gt;"
       else if code c =? 34 then "&quot;"
       else if code c =? 39 then "&#x27;"
       else String c EmptyString) +:+ escape s'
  end.

End PyStr.

Import PyStr.

(** ** The fragment of [re] used by the module

    Quantifiers range over character classes, as in every pattern of the
    module.  [mlens r s] lists the lengths of the matches of [r] at the
    start of [s] in the order in which Python's backtracking matcher tries
    them, so its head is the match [re] reports. *)
Module Re.

Inductive regex : Type :=
| Eps
| Cls (p : ascii -> bool)
| Seq (r1 r2 : regex)
| Alt (r1 r2 : regex)
| Opt (r : regex)
| Rep (greedy : bool) (p : ascii -> bool) (lo : nat) (hi : option nat).

(** Length of the longest prefix of [s] whose characters satisfy [p]. *)
Fixpoint run (p : ascii -> bool) (s : string) : nat :=
  match s with
  | String c s' => if p c then S (run p s') else O
  | EmptyString => O
  end.

Definition rep_upper (p : ascii -> bool) (hi : option nat) (s : string) : nat :=
  match hi with
  | Some h => Nat.min h (run p s)
  | None => run p s
  end.

Definition rep_lens (greedy : bool) (p : ascii -> bool) (lo : nat)
    (hi : option nat) (s : string) : list nat :=
  let up := seq lo (S (rep_upper p hi s) - lo) in
  if greedy then rev up else up.

Fixpoint mlens (r : regex) (s : string) : list nat :=
  match r with
  | Eps => [O]
  | Cls p =>
      match s with
      | String c _ => if p c then [1%nat] else []
      | EmptyString => []
      end
  | Seq r1 r2 =>
      flat_map (fun n => map (Nat.add n) (mlens r2 (slice_from n s))) (mlens r1 s)
  | Alt r1 r2 => mlens r1 s ++ mlens r2 s
  | Opt r1 => mlens r1 s ++ [O]
  | Rep g p lo hi => rep_lens g p lo hi s
  end.

(** [pattern.search(s)]: the first position, from the left, at which the
    pattern matches, with the length of the match found there. *)
Fixpoint search_from (r : regex) (i : nat) (s : string) : option (nat * nat) :=
  match mlens r s with
  | n :: _ => Some (i, n)
  | [] =>
      match s with
      | String _ s' => search_from r (S i) s'
      | EmptyString => None
      end
  end.

Definition search (r : regex) (s : string) : option (nat * nat) :=
  search_from r O s.

(** [m.group(0) if m else ""] *)
Definition group0_or_empty (r : regex) (s : string) : string :=
  match search r s with
  | Some (i, n) => slice_to n (slice_from i s)
  | None => EmptyString
  end.

(** [pattern.findall(s)] for a pattern without groups, and
    [re.sub(pattern, repl, s)] for a constant [repl].  Both scan from the
    left and resume after each match; [skip] counts the characters of the
    last match still to be passed.  None of the module's patterns matches
    the empty string. *)
Fixpoint findall_aux (r : regex) (skip : nat) (s : string) : list string :=
  match s with
  | EmptyString => []
  | String _ s' =>
      match skip with
      | S k => findall_aux r k s'
      | O =>
          match mlens r s with
          | n :: _ => slice_to n s :: findall_aux r (n - 1) s'
          | [] => findall_aux r O s'
          end
      end
  end.

Definition findall (r : regex) (s : string) : list string := findall_aux r O s.

Fixpoint sub_aux (r : regex) (repl : string) (skip : nat) (s : string) : string :=
  match s with
  | EmptyString => EmptyString
  | String c s' =>
      match skip with
      | S k => sub_aux r repl k s'
      | O =>
          match mlens r s with
          | n :: _ => repl +:+ sub_aux r repl (n - 1) s'
          | [] => String c (sub_aux r repl O s')
          end
      end
  end.

Definition sub (r : regex) (repl s : string) : string := sub_aux r repl O s.

(** Character classes and literals under [re.I]. *)
Definition ci (c : ascii) : ascii -> bool :=
  fun x => Ascii.eqb (lower_char x) (lower_char c).

Fixpoint lit_ci (s : string) : regex :=
  match s with
  | EmptyString => Eps
  | String c s' => Seq (Cls (ci c)) (lit_ci s')
  end.

Definition one_of (chars : string) : ascii -> bool :=
  fun x => mem_char x chars.

Definition any_char : ascii -> bool := fun _ => true.

(** *** What it means for a word to match *)
Fixpoint all_str (p : ascii -> bool) (w : string) : bool :=
  match w with
  | EmptyString => true
  | String c w' => p c && all_str p w'
  end.

Definition within (hi : option nat) (n : nat) : Prop :=
  match hi with Some h => (n <= h)%nat | None => True end.

Inductive matches : regex -> string -> Prop :=
| M_eps : matches Eps EmptyString
| M_cls p c : p c = true -> matches (Cls p) (String c EmptyString)
| M_seq r1 r2 w1 w2 :
    matches r1 w1 -> matches r2 w2 -> matches (Seq r1 r2) (w1 +:+ w2)
| M_alt_l r1 r2 w : matches r1 w -> matches (Alt r1 r2) w
| M_alt_r r1 r2 w : matches r2 w -> matches (Alt r1 r2) w
| M_opt_some r w : matches r w -> matches (Opt r) w
| M_opt_none r : matches (Opt r) EmptyString
| M_rep g p lo hi w :
    all_str p w = true -> (lo <= String.length w)%nat ->
    within hi (String.length w) -> matches (Rep g p lo hi) w.

End Re.

Import Re.

(** ** Exceptions

    A Python call either returns a value or raises.  Of the exception
    classes only [botocore.exceptions.ClientError] is told apart by the
    module; it carries the code and the message of
    [e.response["Error"]].  Every exception modelled here derives from
    [Exception]. *)
Inductive exn : Type :=
| ClientError (code message operation : string)
| OtherError (text : string).

(** [str(e)] *)
Definition str_exn (e : exn) : string :=
  match e with
  | ClientError code message operation =>
      "An error occurred (" +:+ code +:+ ") when calling the " +:+ operation +:+
      " operation: " +:+ message
  | OtherError text => text
  end.

Inductive outcome (A : Type) : Type :=
| Returned (a : A)
| Raised (e : exn).
Arguments Returned {A} a.
Arguments Raised {A} e.

Definition bind {A B : Type} (x : outcome A) (f : A -> outcome B) : outcome B :=
  match x with
  | Returned a => f a
  | Raised e => Raised e
  end.

Notation "'do' x <- c1 ; c2" := (bind c1 (fun x => c2))
  (at level 10, x name, c1 at level 100, c2 at level 200).

(** [try: body except Exception as e: handler(e)] *)
Definition try_except {A : Type} (body : outcome A) (handler : exn -> outcome A)
    : outcome A :=
  match body with
  | Returned a => Returned a
  | Raised e => handler e
  end.

Definition returns {A : Type} (x : outcome A) : bool :=
  match x with Returned _ => true | Raised _ => false end.

(** ** Contact extractor *)

Definition alnum (c : ascii) : bool := is_alpha c || is_digit c.
Definition is_char (c : ascii) : ascii -> bool := fun x => Ascii.eqb x c.

(** [[A-Z0-9._%+\-]+@[A-Z0-9.\-]+\.[A-Z]{2,}] under [re.I] *)
Definition email_local (c : ascii) : bool := alnum c || one_of "._%+-" c.
Definition email_domain (c : ascii) : bool := alnum c || one_of ".-" c.

Definition CONTACT_EMAIL_RE : regex :=
  Seq (Rep true email_local 1 None)
   (Seq (Cls (is_char "@"))
    (Seq (Rep true email_domain 1 None)
     (Seq (Cls (is_char "."))
          (Rep true is_alpha 2 None)))).

(** [(?:(?:\+?\d{1,3}[\s\-\.])?(?:\(?\d{3}\)?[\s\-\.])?\d{3}[\s\-\.]\d{4})] *)
Definition phone_sep (c : ascii) : bool := is_space c || one_of "-." c.

Definition CONTACT_PHONE_RE : regex :=
  Seq (Opt (Seq (Opt (Cls (is_char "+")))
            (Seq (Rep true is_digit 1 (Some 3%nat)) (Cls phone_sep))))
   (Seq (Opt (Seq (Opt (Cls (is_char "(")))
              (Seq (Rep true is_digit 3 (Some 3%nat))
               (Seq (Opt (Cls (is_char ")"))) (Cls phone_sep)))))
    (Seq (Rep true is_digit 3 (Some 3%nat))
     (Seq (Cls phone_sep) (Rep true is_digit 4 (Some 4%nat))))).

(** [(?:https?://|www\.)\S+] under [re.I] *)
Definition LINK_RE : regex :=
  Seq (Alt (Seq (lit_ci "http") (Seq (Opt (Cls (ci "s"))) (lit_ci "://")))
           (lit_ci "www."))
      (Rep true (fun c => negb (is_space c)) 1 None).

(** [education|experience|projects|skills] under [re.I] *)
Definition KEYWORD_RE : regex :=
  Alt (lit_ci "education")
   (Alt (lit_ci "experience") (Alt (lit_ci "projects") (lit_ci "skills"))).

Record contact_bits : Type := {
  name : string;
  email : string;
  phone : string;
  links : list string;
}.

(** [[ln.strip() for ln in text.splitlines() if ln.strip()]] *)
Definition nonblank_lines (text : string) : list string :=
  map strip (List.filter (fun ln => truthy (strip ln)) (splitlines text)).

(** The [for ln in lines[:6]] loop: the first line without a section
    keyword, and [""] when the loop ends without a [break]. *)
Fixpoint name_scan (lines : list string) : string :=
  match lines with
  | [] => EmptyString
  | ln :: rest =>
      match search KEYWORD_RE ln with
      | None => ln
      | Some _ => name_scan rest
      end
  end.

(** One round of the [for u in links] loop over [(uniq_links, seen)]. *)
Definition uniq_step (st : list string * gset string) (u : string)
    : list string * gset string :=
  if decide (u ∈ st.2) then st else (st.1 ++ [u], {[u]} ∪ st.2).

Definition uniq (l : list string) : list string :=
  (fold_left uniq_step l ([], ∅)).1.

Definition _extract_contact_bits (resume_text : string) : contact_bits :=
  let text := strip resume_text in
  let lines := nonblank_lines text in
  let name := name_scan (firstn 6 lines) in
  let links := findall LINK_RE text in
  let uniq_links := uniq links in
  {| name := slice_to 120 name;
     email := group0_or_empty CONTACT_EMAIL_RE text;
     phone := group0_or_empty CONTACT_PHONE_RE text;
     links := firstn 5 uniq_links |}.

Definition _ensure_invariants_present (html : string) (invariants : contact_bits)
    : bool :=
  if negb (truthy html) then false
  else
    let ok := true in
    let ok := if truthy (name invariants)
              then ok && contains (lower (name invariants)) (lower html) else ok in
    let ok := if truthy (email invariants)
              then ok && contains (lower (email invariants)) (lower html) else ok in
    ok.

(** ** Section-order detection *)

Definition SECTION_CANON : list string :=
  ["header"; "summary"; "objective"; "skills"; "technical skills"; "experience";
   "work experience"; "professional experience"; "projects"; "education";
   "certifications"; "awards"; "publications"; "activities"; "volunteering"].

(** The strip set of [_normalize_heading]: the space, the tab, the colon,
    the hyphen, the bullet U+2022 (bytes E2 80 A2) and the dash U+2014
    (bytes E2 80 94). *)
Definition BULLET : string :=
  String (chr 226) (String (chr 128) (String (chr 162) EmptyString)).

Definition EM_DASH : string :=
  String (chr 226) (String (chr 128) (String (chr 148) EmptyString)).

Definition HEADING_STRIP : list string := [" "; tab; ":"; "-"; BULLET; EM_DASH].

(** [h.strip(" \t:-•—").strip()] and [" ".join(h.split())] *)
Definition _normalize_heading (h : string) : string :=
  let h := strip (strip_set HEADING_STRIP h) in
  join " " (split h).

Definition in_list (x : string) (l : list string) : bool :=
  existsb (String.eqb x) l.

Definition _looks_like_heading (line : string) : bool :=
  let s := strip line in
  if (80 <? String.length s)%nat || (String.length s <? 3)%nat then false
  else
    let s := if ends_with_char ":" s then drop_last s else s in
    let words := split s in
    if (length words <=? 6)%nat && (isupper s || istitle s) then true
    else in_list (lower s) SECTION_CANON.

(** [h.lower().rstrip(":")] *)
Definition heading_key (h : string) : string := rstrip_chars ":" (lower h).

(** One round of the first loop over [(order, seen)], and of the second
    over [(dedup, seen2)]. *)
Definition order_step (st : list string * gset string) (raw : string)
    : list string * gset string :=
  if _looks_like_heading raw then
    let h := _normalize_heading raw in
    let k := heading_key h in
    if decide (k ∈ st.2) then st else (st.1 ++ [h], {[k]} ∪ st.2)
  else st.

Definition dedup_step (st : list string * gset string) (h : string)
    : list string * gset string :=
  let k := heading_key h in
  if decide (k ∈ st.2) then st else (st.1 ++ [h], {[k]} ∪ st.2).

Definition _detect_section_order (resume_text : string) : list string :=
  let order := (fold_left order_step (splitlines resume_text) ([], ∅)).1 in
  let dedup := (fold_left dedup_step order ([], ∅)).1 in
  firstn 12 dedup.

(** ** Guardrail builder

    Non-ASCII characters of the module's literals stand here as their
    UTF-8 bytes. *)

(** [repr] of a string and of a list of strings, as the f-string of the
    prompt prints the order keys. *)
Definition hex_digit (n : N) : ascii :=
  if n <? 10 then chr (48 + n) else chr (87 + n).

Definition repr_char (q c : ascii) : string :=
  let n := code c in
  if Ascii.eqb c q || (n =? 92) then String (chr 92) (String c EmptyString)
  else if n =? 9 then "\t"
  else if n =? 10 then "\n"
  else if n =? 13 then "\r"
  else if (n <? 32) || (n =? 127)
       then "\x" +:+ String (hex_digit (n / 16)) (String (hex_digit (n mod 16)) EmptyString)
  else String c EmptyString.

Fixpoint repr_body (q : ascii) (s : string) : string :=
  match s with
  | EmptyString => EmptyString
  | String c s' => repr_char q c +:+ repr_body q s'
  end.

Definition repr_str (s : string) : string :=
  let q := if contains "'" s && negb (contains dq s) then chr 34 else chr 39 in
  String q (repr_body q s) +:+ String q EmptyString.

Definition repr_list (l : list string) : string :=
  "[" +:+ join ", " (map repr_str l) +:+ "]".

Definition MAX_TEXT : nat := Z.to_nat 20000.

Definition css : string :=
  "<style>" +:+ nl +:+ "body{font-family:system-ui,-apple-system,Segoe " +:+
  "UI,Roboto,Helvetica,Arial,sans-serif;background:#0b1220;colo" +:+
  "r:#e6eaf2;margin:24px}" +:+ nl +:+
  ".card{background:#121a2b;border:1px solid " +:+
  "#223154;border-radius:14px;padding:22px;max-width:900px;marg" +:+
  "in:auto}" +:+ nl +:+ "h1,h2{margin:0 0 10px} h1{font-size:28px} " +:+
  "h2{font-size:18px;margin-top:22px}" +:+ nl +:+
  "ul{margin:8px 0 0 18px}" +:+ nl +:+ "li{color:#fff}" +:+ nl +:+
  "</style>" +:+ nl.

Definition system : string :=
  "You are a precise, ATS-friendly resume editor." +:+ nl +:+
  "HARD RULES:" +:+ nl +:+
  "• Do NOT invent or change facts: company names, job titles, " +:+
  "locations, date ranges, degrees, school names." +:+ nl +:+
  "• Keep the original EXPERIENCE role scaffolding " +:+
  "(employer/title/location/dates) exactly." +:+ nl +:+
  "• Rewrite ONLY the bullet points to emphasize JD keywords; " +:+
  "keep counts similar (3–6/role) and realistic." +:+ nl +:+
  "• If a field is missing in the source, omit it rather than " +:+
  "fabricating." +:+ nl +:+
  "• Output a COMPLETE, valid HTML document (<!doctype " +:+
  "html>…</html>) with modest inline CSS. No code fences." +:+ nl +:+
  "• Bullets (<li>) must render with white text (set inline " +:+
  "CSS or parent style)." +:+ nl +:+
  "• **Preserve the original SECTION ORDER exactly as " +:+ "provided.**".

Definition invariant_block (invariants : contact_bits) : string :=
  let invariant_lines :=
    (if truthy (name invariants) then ["- Name: " +:+ name invariants] else []) ++
    (if truthy (email invariants) then ["- Email: " +:+ email invariants] else []) ++
    (if truthy (phone invariants) then ["- Phone: " +:+ phone invariants] else []) ++
    (match links invariants with
     | [] => []
     | _ => ["- Links: " +:+ join ", " (links invariants)]
     end) in
  or_else (join nl invariant_lines) "- (no explicit header invariants found)".

Definition user_prompt (invariants : contact_bits) (section_order : list string)
    (resume_text job_text interests : string) : string :=
  let invariant_block := invariant_block invariants in
  let order_display :=
    match section_order with
    | [] => "(not detected)"
    | _ => join " > " section_order
    end in
  let order_strict := map heading_key section_order in
  "Produce a tailored resume as HTML." +:+ nl +:+ nl +:+
  "HEADER INVARIANTS (must appear verbatim if present; omit " +:+
  "blank lines):" +:+ nl +:+ invariant_block +:+ nl +:+ nl +:+
  "ORIGINAL SECTION ORDER (must be preserved as-is, including " +:+
  "unfamiliar/custom sections):" +:+ nl +:+ order_display +:+ nl +:+ nl +:+
  "Normalized order keys (for strict compliance):" +:+ nl +:+
  (repr_list order_strict) +:+ nl +:+ nl +:+ "EXPERIENCE INVARIANTS:" +:+
  nl +:+ "- Read the Experience section in the RESUME TEXT and copy " +:+
  "employer names, job titles, locations, and date ranges " +:+
  "EXACTLY as written." +:+ nl +:+
  "- Rewrite only the bullets under each role; incorporate JD " +:+
  "keywords naturally without keyword-stuffing." +:+ nl +:+ nl +:+
  "STYLE:" +:+ nl +:+
  "- Sections present in the source must appear in the SAME " +:+
  "ORDER. Do not add new sections unless present in the source." +:+ nl +:+
  "- Concise, metric-oriented bullets where authentic." +:+ nl +:+
  "- Use <ul><li> for bullets and ensure <li> text is white " +:+
  "via CSS." +:+ nl +:+ nl +:+
  "RESUME TEXT (raw/extracted, may be partial):" +:+ nl +:+ "-----" +:+
  nl +:+ slice_to MAX_TEXT resume_text +:+ nl +:+ "-----" +:+ nl +:+ nl +:+
  "JOB DESCRIPTION (sanitized):" +:+ nl +:+ "-----" +:+ nl +:+
  slice_to MAX_TEXT job_text +:+ nl +:+ "-----" +:+ nl +:+ nl +:+
  "Candidate interests/keywords: " +:+ or_else interests "(none)" +:+ nl.

Definition retry_suffix : string :=
  nl +:+ nl +:+
  "IMPORTANT: Your previous draft missed invariants and/or " +:+
  "original section order. Regenerate and:" +:+ nl +:+
  "- Include header invariants verbatim if present." +:+ nl +:+
  "- Keep EXACT section order as listed; do not rename or " +:+
  "reorder sections." +:+ nl +:+
  "- Keep employer/title/location/date scaffolding exactly; " +:+
  "only rewrite bullets.".

(** The deterministic rendering returned when no credential is set: the
    f-string of the source, its fixed opening lines first. *)
Definition fallback_head : string :=
  "<!doctype html>" +:+ nl +:+ "<html lang=" +:+ dq +:+ "en" +:+ dq +:+
  "><meta charset=" +:+ dq +:+ "utf-8" +:+ dq +:+ " />" +:+ nl +:+
  "<title>Tailored Resume (AI disabled)</title>" +:+ nl +:+ "<style>" +:+
  nl +:+ "body{font-family:system-ui,-apple-system,Segoe " +:+
  "UI,Roboto,Helvetica,Arial,sans-serif;background:#0b1220;colo" +:+
  "r:#e6eaf2;margin:24px}" +:+ nl +:+
  ".card{background:#121a2b;border:1px solid " +:+
  "#223154;border-radius:14px;padding:22px;max-width:900px;marg" +:+
  "in:auto}" +:+ nl +:+ "h1,h2{margin:0 0 10px} h1{font-size:28px} " +:+
  "h2{font-size:18px;margin-top:22px} ul{margin:8px 0 0 18px}" +:+ nl +:+
  ".muted{color:#9aa6be;font-size:13px}" +:+ nl +:+ "li{color:#fff}" +:+
  nl +:+ "</style>" +:+ nl +:+ "<div class=" +:+ dq +:+ "card" +:+ dq +:+
  ">" +:+ nl.

Definition fallback_html (invariants : contact_bits) (resume_text : string) : string :=
  let safe_resume := replace ">" "&gt;" (replace "<" "&lt;" resume_text) in
  fallback_head +:+
  "<h1>" +:+
  (escape (or_else (name invariants) "Your Name")) +:+ "</h1>" +:+ nl +:+
  "<div class=" +:+ dq +:+ "muted" +:+ dq +:+ ">" +:+
  (escape (or_else (email invariants) "")) +:+ " " +:+
  (escape (or_else (phone invariants) "")) +:+ "</div>" +:+ nl +:+
  "<p class=" +:+ dq +:+ "muted" +:+ dq +:+ ">" +:+
  (join " • " (map escape (links invariants))) +:+ "</p>" +:+ nl +:+
  "<h2>Original (not parsed)</h2>" +:+ nl +:+ "<pre style=" +:+ dq +:+
  "white-space:pre-wrap" +:+ dq +:+ ">" +:+ safe_resume +:+ "</pre>" +:+
  nl +:+ "</div>" +:+ nl +:+ "</html>".

(** The generation backend.  [chat_completion n system user] is the outcome
    of the [n]-th HTTP exchange of the request: the content of the first
    choice, or the exception raised (transport error, timeout, a status
    other than 200, an unreadable body). *)
Record tailor_env : Type := {
  OPENAI_API_KEY : option string;
  OPENAI_MAX_RETRIES : Z;
  chat_completion : nat -> string -> string -> outcome string;
}.

Record chat_call : Type := { sent_system : string; sent_user : string }.

(** The effects of the builder: the generation calls made so far. *)
Definition world : Type := list chat_call.

Definition _http_chat_completion (env : tailor_env) (system_msg user_msg : string)
    (w : world) : outcome string * world :=
  (bind (chat_completion env (length w) system_msg user_msg)
        (fun content => Returned (strip content)),
   w ++ [{| sent_system := system_msg; sent_user := user_msg |}]).

Definition _order_ok_loop (text_l : string) : Z -> list string -> bool :=
  fix loop (pos : Z) (hs : list string) : bool :=
    match hs with
    | [] => true
    | h :: rest =>
        let idx := find (rstrip_chars ":" (lower (_normalize_heading h))) text_l in
        if (idx =? -1)%Z || (idx <? pos)%Z then false else loop idx rest
    end.

Definition _order_ok (section_order : list string) (_html : string) : bool :=
  match section_order with
  | [] => true
  | _ => _order_ok_loop (lower _html) (-1)%Z section_order
  end.

Definition error_page (e : exn) : string :=
  let safe := escape (str_exn e) in
  "<!doctype html><html><head>" +:+ css +:+
  "</head><body><div class='card'><h2>Tailor error</h2><p " +:+
  "class='muted'>OpenAI request failed or timed out.</p><pre>" +:+ safe +:+
  "</pre></div></body></html>".

(** The statements of [_call_once] that follow its [try] block. *)
Definition post_process (html : string) : string :=
  let html :=
    if negb (contains "<!doctype" (lower html))
    then "<!doctype html>" +:+ nl +:+ html else html in
  if negb (contains "<style" (lower html)) then
    if contains "<head>" html then
      replace "<head>" ("<head>" +:+ nl +:+ css) html
    else
      let body_part := if negb (contains "<html" (lower html)) then html else "" in
      "<!doctype html><html><head>" +:+ css +:+ "</head><body>" +:+
      or_else body_part html +:+ "</body></html>"
  else if negb (contains "li{color" html) then
    replace "</style>" ("li{color:#fff}" +:+ nl +:+ "</style>") html
  else html.

Definition _call_once (env : tailor_env) (prompt_user : string) (w : world)
    : string * world :=
  let (r, w') := _http_chat_completion env system prompt_user w in
  let attempt :=
    bind r (fun html =>
      if negb (truthy html) then Raised (OtherError "empty completion")
      else Returned html) in
  match attempt with
  | Raised e => (error_page e, w')
  | Returned html => (post_process html, w')
  end.

Definition has_key (k : option string) : bool :=
  match k with Some s => truthy s | None => false end.

Definition _ai_tailor_resume_html (env : tailor_env)
    (resume_text job_text interests : string) (w : world) : string * world :=
  let invariants := _extract_contact_bits resume_text in
  let section_order := _detect_section_order resume_text in
  if negb (has_key (OPENAI_API_KEY env)) then
    (fallback_html invariants resume_text, w)
  else
    let user := user_prompt invariants section_order resume_text job_text interests in
    let (html, w1) := _call_once env user w in
    if (0 <? OPENAI_MAX_RETRIES env)%Z &&
       (negb (_ensure_invariants_present html invariants) ||
        negb (_order_ok section_order html))
    then
      let retry_user := user +:+ retry_suffix in
      let (html2, w2) := _call_once env retry_user w1 in
      if _ensure_invariants_present html2 invariants && _order_ok section_order html2
      then (html2, w2)
      else (html, w2)
    else (html, w1).

(** Both checks of the builder on one output: the header invariants
    and the section order. *)
Definition verified (invariants : contact_bits) (section_order : list string)
    (html : string) : bool :=
  _ensure_invariants_present html invariants && _order_ok section_order html.

(** *** What verification is meant to establish

    [occurs_at p s i]: [p] occurs in [s] at offset [i]; [position p s i]:
    [i] is the offset of the leftmost occurrence. *)
Definition occurs_at (p s : string) (i : nat) : Prop :=
  exists a b, s = a +:+ p +:+ b /\ String.length a = i.

Definition position (p s : string) (i : nat) : Prop :=
  occurs_at p s i /\ forall j, occurs_at p s j -> (i <= j)%nat.

(** A case-insensitive substring. *)
Definition appears_ci (needle html : string) : Prop :=
  exists a b, lower html = a +:+ lower needle +:+ b.

Fixpoint nondecreasing (l : list nat) : Prop :=
  match l with
  | a :: (b :: _) as r => (a <= b)%nat /\ nondecreasing r
  | _ => True
  end.

Definition header_present (invariants : contact_bits) (html : string) : Prop :=
  (name invariants <> EmptyString -> appears_ci (name invariants) html) /\
  (email invariants <> EmptyString -> appears_ci (email invariants) html).

(** Every heading has a position in the lowercased output, and the
    positions of consecutive headings do not decrease. *)
Definition order_kept (section_order : list string) (html : string) : Prop :=
  exists ps : list nat,
    Forall2 (fun h i =>
      position (rstrip_chars ":" (lower (_normalize_heading h))) (lower html) i)
      section_order ps /\
    nondecreasing ps.

(** The text after the first statement of the post-processing: a doctype
    line is put in front unless ["<!doctype"] occurs somewhere in it. *)
Definition with_doctype (html : string) : string :=
  if negb (contains "<!doctype" (lower html))
  then "<!doctype html>" +:+ nl +:+ html else html.

(** The text with every ["<"] and [">"] written as an entity, character by
    character. *)
Fixpoint escape_angle (s : string) : string :=
  match s with
  | EmptyString => EmptyString
  | String c s' =>
      (if Ascii.eqb c "<" then "&lt;"
       else if Ascii.eqb c ">" then "&gt;"
       else String c EmptyString) +:+ escape_angle s'
  end.

(** *** Matches of a pattern inside a text

    [match_at r s i w]: the word [w] matches [r] and stands in [s] at
    offset [i]. *)
Definition match_at (r : regex) (s : string) (i : nat) (w : string) : Prop :=
  exists a b, s = a +:+ w +:+ b /\ String.length a = i /\ matches r w.

(** *** What the extractors are meant to compute *)

Definition KEYWORDS : list string :=
  ["education"; "experience"; "projects"; "skills"].

(** Some keyword is a substring of the line, without regard to case. *)
Definition has_keyword (ln : string) : bool :=
  existsb (fun k => contains k (lower ln)) KEYWORDS.

Definition first_or_empty (o : option string) : string :=
  match o with Some s => s | None => EmptyString end.

(** The entries of [l] at their first occurrence, by key: an entry is kept
    and the later entries with its key are dropped. *)
Fixpoint first_by (key : string -> string) (l : list string) : list string :=
  match l with
  | [] => []
  | x :: r =>
      x :: List.filter (fun y => negb (String.eqb (key y) (key x))) (first_by key r)
  end.

Definition first_seen (l : list string) : list string := first_by (fun x => x) l.

(** A line counts as a heading when, trimmed, it has 3 to 80 characters
    and, with one trailing colon removed, either has at most six words and
    is uppercase or title-case, or is, lowercased, a canonical section
    name. *)
Definition heading_spec (line : string) : Prop :=
  let s := strip line in
  (3 <= String.length s <= 80)%nat /\
  let s' := if ends_with_char ":" s then drop_last s else s in
  ((length (split s') <= 6)%nat /\ (isupper s' = true \/ istitle s' = true)) \/
  In (lower s') SECTION_CANON.

(** The normalized headings of a text, line by line, repeats included. *)
Definition heading_lines (resume_text : string) : list string :=
  map _normalize_heading (List.filter _looks_like_heading (splitlines resume_text)).

(** ** Plaintext extractor

    [pypdf] is outside the module: a reader is what [PdfReader] hands back
    for the bytes, with the attributes the extractor reads.  Each may raise. *)
Record pdf_page : Type := { extract_text : outcome (option string) }.

Record pdf_reader : Type := {
  is_encrypted : bool;
  decrypt : string -> outcome Z;
  pages : outcome (list pdf_page);
}.

(** [sum(len(x) for x in out)] *)
Definition total_len (out : list string) : nat :=
  fold_right (fun x n => (String.length x + n)%nat) O out.

(** The loop over the pages.  [total > max_chars * 1.1] is written over the
    integers; for the default 20000, the only value the module passes, the
    two comparisons agree. *)
Fixpoint pages_loop (max_chars : nat) (out : list string) (ps : list pdf_page)
    : outcome (list string) :=
  match ps with
  | [] => Returned out
  | page :: rest =>
      do t <- extract_text page;
      let out := out ++ [match t with Some x => or_else x "" | None => "" end] in
      if (11 * max_chars <? 10 * total_len out)%nat then Returned out
      else pages_loop max_chars out rest
  end.

(** The body of the [try] block, the early [return] of the inner handler
    included. *)
Definition extract_pdf_body (PdfReader : list Byte.byte -> outcome pdf_reader)
    (data : list Byte.byte) (max_chars : nat) : outcome string :=
  do reader <- PdfReader data;
  let rest :=
    do ps <- pages reader;
    do out <- pages_loop max_chars [] ps;
    let text := strip (join nl out) in
    Returned (if truthy text then slice_to max_chars text
              else "[PDF had no extractable text]") in
  if is_encrypted reader then
    match decrypt reader "" with
    | Raised _ => Returned "[PDF is encrypted; text not extracted]"
    | Returned _ => rest
    end
  else rest.

Definition _extract_pdf_text (PdfReader : list Byte.byte -> outcome pdf_reader)
    (data : list Byte.byte) (max_chars : nat) : outcome string :=
  try_except (extract_pdf_body PdfReader data max_chars)
    (fun e => Returned ("[Could not extract PDF text: " +:+ str_exn e +:+ "]")).

(** ** Web text fetcher

    [fetch url] stands for building the request, opening it and decoding
    the body, any of which may raise; [unescape] is [html.unescape]. *)
Record web : Type := {
  fetch : string -> outcome string;
  unescape : string -> string;
}.

(** [(?is)<(script|style).*?>.*?</\1>]: the back-reference is written out,
    one alternative per tag name, in the order of the group. *)
Definition tag_block (tag : string) : regex :=
  Seq (lit_ci ("<" +:+ tag))
   (Seq (Rep false any_char 0 None)
    (Seq (Cls (is_char ">"))
     (Seq (Rep false any_char 0 None) (lit_ci ("</" +:+ tag +:+ ">"))))).

Definition SCRIPT_STYLE_RE : regex := Alt (tag_block "script") (tag_block "style").

(** [(?s)<[^>]+>] *)
Definition TAG_RE : regex :=
  Seq (Cls (is_char "<"))
   (Seq (Rep true (fun c => negb (Ascii.eqb c ">")) 1 None) (Cls (is_char ">"))).

Definition fetch_body (net : web) (url : string) : outcome string :=
  do html <- fetch net url;
  let html := sub SCRIPT_STYLE_RE " " html in
  let text := sub TAG_RE " " html in
  let text := unescape net (join " " (split text)) in
  Returned (if truthy text then slice_to MAX_TEXT text
            else "[Fetched page had no visible text]").

Definition _get_text_from_url (net : web) (url : string) : outcome string :=
  if negb (truthy url) then Returned "[No job URL provided]"
  else try_except (fetch_body net url)
         (fun e => Returned ("[Could not fetch JD: " +:+ str_exn e +:+ "]")).

(** ** Requests, responses and the stores *)

(** A JSON value, as [json.loads] builds it and [json.dumps] prints it. *)
Inductive jval : Type :=
| JNull
| JBool (b : bool)
| JNum (n : Z)
| JFloat (f : float)
| JStr (s : string)
| JList (l : list jval)
| JObj (m : gmap string jval).

(** [bool(v)] *)
Definition jtruthy (v : jval) : bool :=
  match v with
  | JNull => false
  | JBool b => b
  | JNum n => negb (n =? 0)%Z
  | JFloat f => negb (PrimFloat.eqb f 0%float)
  | JStr s => truthy s
  | JList l => match l with [] => false | _ => true end
  | JObj m => match map_to_list m with [] => false | _ => true end
  end.

Definition obj (fields : list (string * jval)) : jval := JObj (list_to_map fields).

(** [_resp(code, obj)]; the body is [json.dumps(obj)] and the only header
    is the content type, so the object stands for the body here. *)
Record response : Type := { statusCode : Z; payload : jval }.

Definition _resp (code : Z) (o : jval) : response :=
  {| statusCode := code; payload := o |}.

(** [body.get(k)], which only a dict has. *)
Definition dict_get (body : jval) (k : string) : outcome (option jval) :=
  match body with
  | JObj m => Returned (m !! k)
  | _ => Raised (OtherError "AttributeError: object has no attribute 'get'")
  end.

(** [v or d] and [(...).strip()], which only a string has. *)
Definition or_default (v : option jval) (d : jval) : jval :=
  match v with
  | Some x => if jtruthy x then x else d
  | None => d
  end.

Definition str_strip (v : jval) : outcome string :=
  match v with
  | JStr s => Returned (strip s)
  | _ => Raised (OtherError "AttributeError: object has no attribute 'strip'")
  end.

(** [(body.get(k) or d).strip()] *)
Definition field (body : jval) (k d : string) : outcome string :=
  do v <- dict_get body k;
  str_strip (or_default v (JStr d)).

(** A stored document, with the two attributes the tailor handler reads. *)
Record document : Type := {
  doc_s3Key : option string;
  doc_contentType : option string;
}.

(** The collaborators of the handlers.  Each operation is the outcome of
    the call the handler makes with these arguments; [uuid4] is indexed by
    the place of the call in the handler.  [scan_count] lists the pages of
    a counting scan, the first page apart: a page other than the last
    carries a [LastEvaluatedKey].  [BUCKET] is the bucket the environment
    names, on which the three object operations work. *)
Record services : Type := {
  query_count : string -> outcome Z;
  scan_count : string -> outcome Z * list (outcome Z);
  get_item : string -> string -> outcome (option document);
  scan_item : string -> string -> outcome (list document);
  put_item : jval -> outcome unit;
  put_object : string -> list Byte.byte -> string -> outcome unit;
  get_object : string -> outcome (list Byte.byte);
  generate_presigned_url : string -> outcome string;
  b64decode : jval -> outcome (list Byte.byte);
  b64decode_text : string -> outcome string;
  decode_utf8 : list Byte.byte -> string;
  json_loads : string -> option jval;
  guess_type : string -> option string;
  uuid4 : nat -> string;
  time_now : Z;
  BUCKET : string;
  PdfReader : list Byte.byte -> outcome pdf_reader;
  net : web;
  ai : tailor_env;
}.

Definition MAX_DOCS_PER_USER : Z := 10.
Definition ALLOWED_EXTS : list string := ["pdf"; "doc"; "docx"; "txt"].

Record event : Type := { ev_body : option string; isBase64Encoded : bool }.

Definition _get_body (sv : services) (ev : event) : outcome jval :=
  do body <-
    (if isBase64Encoded ev then
       match ev_body ev with
       | Some b => do t <- b64decode_text sv b; Returned (Some t)
       | None => Raised (OtherError "TypeError: argument should be a bytes-like object")
       end
     else Returned (ev_body ev));
  match json_loads sv (or_else (match body with Some b => b | None => "" end) "{}") with
  | Some v => Returned v
  | None => Raised (OtherError "Request body must be valid JSON.")
  end.

(** [s.rsplit(d, 1)[-1]] and [s.rsplit(d, 1)[0]] *)
Fixpoint after_last (d : ascii) (s : string) : string :=
  match s with
  | EmptyString => EmptyString
  | String c s' =>
      if mem_char d s' then after_last d s'
      else if Ascii.eqb c d then s' else s
  end.

Fixpoint before_last (d : ascii) (s : string) : string :=
  match s with
  | EmptyString => EmptyString
  | String c s' =>
      if mem_char d s' then String c (before_last d s')
      else if Ascii.eqb c d then EmptyString else s
  end.

Definition _basename (key : string) : string := after_last "/" key.

Definition _ext (filename : string) : string :=
  if mem_char "." filename then after_last "." (lower filename) else "".

Definition str_of_Z (z : Z) : string := NilZero.string_of_int (Z.to_int z).

Definition _find_doc_by_id (sv : services) (user_id document_id : string)
    : outcome (option document) :=
  let scan := do items <- scan_item sv user_id document_id; Returned (head items) in
  match get_item sv user_id document_id with
  | Returned (Some item) => Returned (Some item)
  | Returned None => scan
  | Raised (ClientError _ _ _) => scan
  | Raised e => Raised e
  end.

(** The [while True] loop of the counting scan, one round per page. *)
Fixpoint scan_total (total : Z) (page : outcome Z) (more : list (outcome Z))
    : outcome Z :=
  do n <- page;
  match more with
  | [] => Returned (total + n)%Z
  | next :: rest => scan_total (total + n)%Z next rest
  end.

Definition _count_docs_for_user (sv : services) (user_id : string) : outcome Z :=
  match query_count sv user_id with
  | Returned n => Returned n
  | Raised (ClientError err msg op) =>
      if String.eqb err "ValidationException" ||
         contains "Query condition missed key schema" msg
      then scan_total 0 (scan_count sv user_id).1 (scan_count sv user_id).2
      else Raised (ClientError err msg op)
  | Raised e => Raised e
  end.

(** The quota check of both handlers:
    [try: if _count_docs_for_user(user_id) >= MAX_DOCS_PER_USER: return _resp(429, ...)]
    [except Exception: pass].  [Some r] is the early return. *)
Definition quota_gate (sv : services) (user_id message : string) : option response :=
  match _count_docs_for_user sv user_id with
  | Returned n =>
      if (MAX_DOCS_PER_USER <=? n)%Z
      then Some (_resp 429 (obj [("error", JStr message)]))
      else None
  | Raised _ => None
  end.

Definition TEN_MB : nat := Z.to_nat (10 * 1024 * 1024).

(** The statements of [handle_upload_resume] behind the quota check. *)
Definition upload_rest (sv : services) (user_id filename : string)
    (content_b64 : jval) : outcome response :=
  match b64decode sv content_b64 with
  | Raised _ => Returned (_resp 400 (obj [("error", JStr "contentBase64 is not valid base64")]))
  | Returned data =>
      if (TEN_MB <? length data)%nat
      then Returned (_resp 413 (obj [("error", JStr "File too large (>10MB)")]))
      else
        let content_type :=
          match guess_type sv filename with
          | Some t => or_else t "application/octet-stream"
          | None => "application/octet-stream"
          end in
        let key := "resumes/" +:+ user_id +:+ "/" +:+ filename in
        match put_object sv key data content_type with
        | Raised (ClientError c m o) =>
            Returned (_resp 500 (obj [("error", JStr "Upload failed");
                                      ("detail", JStr (str_exn (ClientError c m o)))]))
        | Raised e => Raised e
        | Returned _ =>
            let doc_id := uuid4 sv 1 in
            let now := time_now sv in
            do _ <- put_item sv (obj [("userId", JStr user_id); ("documentId", JStr doc_id);
                                      ("type", JStr "resume_original"); ("s3Key", JStr key);
                                      ("contentType", JStr content_type);
                                      ("size", JNum (Z.of_nat (length data)));
                                      ("createdAt", JNum now)]);
            do url <- generate_presigned_url sv key;
            Returned (_resp 200 (obj [("ok", JBool true); ("documentId", JStr doc_id);
                                      ("bucket", JStr (BUCKET sv)); ("s3Key", JStr key);
                                      ("size", JNum (Z.of_nat (length data)));
                                      ("contentType", JStr content_type);
                                      ("createdAt", JNum now); ("url", JStr url)]))
        end
  end.

Definition handle_upload_resume (sv : services) (body : jval) : outcome response :=
  do user_id <- field body "userId" "demo";
  do filename <- field body "filename" ("resume-" +:+ uuid4 sv 0 +:+ ".txt");
  do content_b64 <- dict_get body "contentBase64";
  if negb (truthy user_id && truthy filename && jtruthy (or_default content_b64 JNull))
  then Returned (_resp 400 (obj [("error", JStr "Fields required: userId, filename, contentBase64")]))
  else
    let ext := _ext filename in
    if negb (in_list ext ALLOWED_EXTS)
    then Returned (_resp 415 (obj [("error", JStr "Unsupported file type. Allowed: PDF, DOC, DOCX, TXT")]))
    else
      match quota_gate sv user_id "Doc limit reached (10)." with
      | Some r => Returned r
      | None => upload_rest sv user_id filename (or_default content_b64 JNull)
      end.

Definition PDF_MAGIC : list Byte.byte := [Byte.x25; Byte.x50; Byte.x44; Byte.x46].

Fixpoint bytes_startswith (p data : list Byte.byte) : bool :=
  match p, data with
  | [], _ => true
  | _ :: _, [] => false
  | a :: p', b :: d' => Byte.eqb a b && bytes_startswith p' d'
  end.

(** The [try] block of [handle_tailor] that reads the source document;
    whatever raises inside it leaves the sentinel as the resume text. *)
Definition read_resume (sv : services) (src_key src_ct : string) : string :=
  let body :=
    do data <- get_object sv src_key;
    if String.eqb src_ct "application/pdf" || bytes_startswith PDF_MAGIC data then
      _extract_pdf_text (PdfReader sv) data MAX_TEXT
    else if startswith "text/" src_ct ||
            in_list src_ct ["application/json"; "application/xml"] then
      Returned (slice_to MAX_TEXT (decode_utf8 sv data))
    else Returned ("[Original content-type " +:+ src_ct +:+ " not parsed]") in
  match body with
  | Returned text => text
  | Raised _ => "[Could not fetch original resume bytes]"
  end.

(** The statements of [handle_tailor] behind the quota check. *)
Definition tailor_rest (sv : services) (user_id source_doc_id job_url interests : string)
    : outcome response :=
  do item <- _find_doc_by_id sv user_id source_doc_id;
  match item with
  | None =>
      Returned (_resp 404 (obj [("error", JStr "Source document not found");
                                ("documentId", JStr source_doc_id)]))
  | Some item =>
      let src_ct :=
        match doc_contentType item with
        | Some t => t
        | None => "application/octet-stream"
        end in
      match doc_s3Key item with
      | None | Some EmptyString =>
          Returned (_resp 400 (obj [("error", JStr "Source item missing s3Key")]))
      | Some src_key =>
          let resume_text := read_resume sv src_key src_ct in
          do job_text <- _get_text_from_url (net sv) job_url;
          let html := (_ai_tailor_resume_html (ai sv) resume_text job_text interests []).1 in
          let html_bytes := String.list_byte_of_string html in
          let base := before_last "." (_basename src_key) in
          let now := time_now sv in
          let html_key :=
            "resumes/" +:+ user_id +:+ "/tailored/" +:+ base +:+ "__tailored_" +:+
            str_of_Z now +:+ ".html" in
          match put_object sv html_key html_bytes "text/html; charset=utf-8" with
          | Raised (ClientError c m o) =>
              Returned (_resp 500 (obj [("error", JStr "S3 put failed");
                                        ("detail", JStr (str_exn (ClientError c m o)))]))
          | Raised e => Raised e
          | Returned _ =>
              let new_doc_id := uuid4 sv 0 in
              do _ <- put_item sv
                (obj [("userId", JStr user_id); ("documentId", JStr new_doc_id);
                      ("type", JStr "resume_tailored"); ("s3Key", JStr html_key);
                      ("contentType", JStr "text/html");
                      ("size", JNum (Z.of_nat (length html_bytes)));
                      ("sourceDocumentId", JStr source_doc_id); ("jobUrl", JStr job_url);
                      ("interests", JStr (or_else interests "")); ("createdAt", JNum now)]);
              do url <- generate_presigned_url sv html_key;
              Returned (_resp 200
                (obj [("ok", JBool true); ("documentId", JStr new_doc_id);
                      ("s3Key", JStr html_key); ("createdAt", JNum now);
                      ("type", JStr "resume_tailored"); ("url", JStr url);
                      ("contentType", JStr "text/html")]))
          end
      end
  end.

Definition handle_tailor (sv : services) (ev : event) : outcome response :=
  do body <- _get_body sv ev;
  do user_id <- field body "userId" "demo";
  do source_doc_id <- field body "documentId" "";
  do job_url <- field body "jobUrl" "";
  do interests <- field body "interests" "";
  if negb (truthy user_id && truthy source_doc_id && truthy job_url)
  then Returned (_resp 400 (obj [("error", JStr "Fields required: userId, documentId, jobUrl")]))
  else
    match quota_gate sv user_id "Document limit reached (10)" with
    | Some r => Returned r
    | None => tailor_rest sv user_id source_doc_id job_url interests
    end.

(** ** The skill-scoring route *)

(** [a / b] on integers: the float nearest to the quotient, or
    [ZeroDivisionError].  The conversion is exact below [2^53], far above
    any number of skills a request can carry. *)
Definition float_of_Z (z : Z) : float := PrimFloat.of_uint63 (Uint63.of_Z z).

Definition py_truediv (a b : Z) : outcome float :=
  if (b =? 0)%Z then Raised (OtherError "division by zero")
  else Returned (float_of_Z a / float_of_Z b)%float.

(** Rounding to the nearest integer, ties to even. *)
Definition round_half_even (num den : Z) : Z :=
  let q := (num / den)%Z in
  let r := (num mod den)%Z in
  match (2 * r ?= den)%Z with
  | Lt => q
  | Gt => (q + 1)%Z
  | Eq => if Z.even q then q else (q + 1)%Z
  end.

(** [round(x, 3)]: the float nearest to the decimal with three places that
    is nearest to the exact value of [x], ties to even; written for the
    range of a coverage, [0 <= x <= 1]. *)
Definition round3 (x : float) : float :=
  match Prim2SF x with
  | S754_finite s m e =>
      let k := if (0 <=? e)%Z then (Zpos m * 2 ^ e * 1000)%Z
               else round_half_even (Zpos m * 1000) (2 ^ (- e)) in
      let r := (float_of_Z k / float_of_Z 1000)%float in
      if s then (- r)%float else r
  | _ => x
  end.

(** [map(str.lower, v)] over what [v] iterates to: the items of a list, the
    characters of a string, the keys of a dict; [str.lower] refuses an item
    that is no string, and other values do not iterate. *)
Fixpoint lower_items (l : list jval) : outcome (list string) :=
  match l with
  | [] => Returned []
  | JStr s :: r => do t <- lower_items r; Returned (lower s :: t)
  | _ :: _ => Raised (OtherError "TypeError: descriptor 'lower' requires a 'str' object")
  end.

Fixpoint chars (s : string) : list string :=
  match s with
  | EmptyString => []
  | String c s' => String c EmptyString :: chars s'
  end.

Definition lower_set (v : jval) : outcome (gset string) :=
  match v with
  | JList l => do t <- lower_items l; Returned (list_to_set t)
  | JStr s => Returned (list_to_set (map lower (chars s)))
  | JObj m => Returned (list_to_set (map (fun kv => lower kv.1) (map_to_list m)))
  | _ => Raised (OtherError "TypeError: object is not iterable")
  end.

(** [coverage] and [score] of two sets of skills. *)
Definition score_divisor (required : gset string) : Z :=
  Z.max 1 (Z.of_nat (size required)).

Definition skill_score (resume required : gset string) : outcome (float * float) :=
  do coverage <- py_truediv (Z.of_nat (size (resume ∩ required))) (score_divisor required);
  let score := round3 coverage in
  Returned (score, coverage).

(** The branch of [lambda_handler] for [POST /score] and [/match/score]. *)
Definition handle_score (sv : services) (ev : event) : outcome response :=
  do body <- _get_body sv ev;
  do rs <- dict_get body "resumeSkills";
  do qs <- dict_get body "requiredSkills";
  do resume <- lower_set (match rs with Some v => v | None => JList [] end);
  do required <- lower_set (match qs with Some v => v | None => JList [] end);
  do sc <- skill_score resume required;
  Returned (_resp 200 (obj [("score", JFloat sc.1); ("coverage", JFloat sc.2)])).

(** The same services with a count query that answers [n] for every
    owner. *)
Definition with_count (sv : services) (n : Z) : services :=
  {| query_count := fun _ => Returned n;
     scan_count := scan_count sv;
     get_item := get_item sv;
     scan_item := scan_item sv;
     put_item := put_item sv;
     put_object := put_object sv;
     get_object := get_object sv;
     generate_presigned_url := generate_presigned_url sv;
     b64decode := b64decode sv;
     b64decode_text := b64decode_text sv;
     decode_utf8 := decode_utf8 sv;
     json_loads := json_loads sv;
     guess_type := guess_type sv;
     uuid4 := uuid4 sv;
     time_now := time_now sv;
     BUCKET := BUCKET sv;
     PdfReader := PdfReader sv;
     net := net sv;
     ai := ai sv |}.

(** ** Auxiliary definitions of the proofs *)

(** A pattern none of whose character classes accepts a blank. *)
Fixpoint blank_free (r : regex) : Prop :=
  match r with
  | Eps => True
  | Cls p => forall c, is_space c = true -> p c = false
  | Seq r1 r2 => blank_free r1 /\ blank_free r2
  | Alt r1 r2 => blank_free r1 /\ blank_free r2
  | Opt r1 => blank_free r1
  | Rep _ p _ _ => forall c, is_space c = true -> p c = false
  end.

(** A pattern that matches neither at a blank nor at the end of the text. *)
Definition starts_nonblank (r : regex) : Prop :=
  mlens r EmptyString = [] /\
  forall c s, is_space c = true -> mlens r (String c s) = [].

(** The order loop started below offset [pos]. *)
Fixpoint chain (pos : Z) (ps : list nat) : Prop :=
  match ps with
  | [] => True
  | i :: r => (pos <= Z.of_nat i)%Z /\ chain (Z.of_nat i) r
  end.

(** Replacing a one-character [old] rewrites the text character by
    character. *)
Fixpoint subst_char (d : ascii) (new s : string) : string :=
  match s with
  | EmptyString => EmptyString
  | String c s' =>
      (if Ascii.eqb d c then new else String c EmptyString) +:+ subst_char d new s'
  end.

(** The loop body shared by the three deduplicating loops. *)
Definition seen_step (key : string -> string)
    (st : list string * gset string) (h : string) : list string * gset string :=
  if decide (key h ∈ st.2) then st else (st.1 ++ [h], {[key h]} ∪ st.2).

Definition fresh (key : string -> string) (seen : gset string) (y : string) : bool :=
  negb (bool_decide (key y ∈ seen)).

Definition other_key (key : string -> string) (x y : string) : bool :=
  negb (String.eqb (key y) (key x)).

(** The trimmed non-blank lines among [lines]. *)
Definition keep_line (ln : string) : bool := truthy (strip ln).

Definition trimmed_lines (lines : list string) : list string :=
  map strip (List.filter keep_line lines).

(** ** Sample inputs for the examples *)

Definition sample_resume : string :=
  "Jane Doe" +:+ nl +:+ "jane.doe@example.com | 555-123-4567 | www.jane.dev" +:+ nl +:+
  nl +:+ "EXPERIENCE" +:+ nl +:+ "Acme Corp, Engineer" +:+ nl +:+
  "Education:" +:+ nl +:+ "State University" +:+ nl +:+ "experience" +:+ nl.

(** A backend whose first answer lacks the name and whose second answer
    carries the header and the sections in order. *)
Definition demo_env : tailor_env :=
  {| OPENAI_API_KEY := Some "sk-demo";
     OPENAI_MAX_RETRIES := 1;
     chat_completion := fun n _ _ =>
       match n with
       | O => Returned "<html><body><p>Hello</p></body></html>"
       | _ => Returned
           ("<html><head></head><body><h1>Jane Doe</h1><p>jane.doe@example.com</p>" +:+
            "<h2>EXPERIENCE</h2><p>Acme Corp, Engineer</p>" +:+
            "<h2>Education</h2><p>State University</p></body></html>")
       end |}.

Definition no_key_env : tailor_env :=
  {| OPENAI_API_KEY := None; OPENAI_MAX_RETRIES := 1;
     chat_completion := fun _ _ _ => Raised (OtherError "unreachable") |}.

(** A reader for an encrypted document whose [decrypt] raises, and the
    reader of bytes that are no PDF. *)
Definition locked_reader : pdf_reader :=
  {| is_encrypted := true;
     decrypt := fun _ => Raised (OtherError "unsupported encryption");
     pages := Raised (OtherError "File has not been decrypted") |}.

Definition sample_PdfReader (data : list Byte.byte) : outcome pdf_reader :=
  match data with
  | [] => Raised (OtherError "Cannot read an empty file")
  | Byte.x25 :: _ => Returned locked_reader
  | _ => Raised (OtherError "EOF marker not found")
  end.

(** A resolver that refuses, as [urllib] does, a URL without a scheme,
    naming the URL in its message. *)
Definition scheme_web : web :=
  {| fetch := fun url => Raised (OtherError ("unknown url type: " +:+ repr_str url));
     unescape := fun s => s |}.

Fixpoint repeat_string (n : nat) (s : string) : string :=
  match n with
  | O => EmptyString
  | S k => s +:+ repeat_string k s
  end.

Definition page_web : web :=
  {| fetch := fun url =>
       if String.eqb url "https://jobs.example/1"
       then Returned ("<html><head><style>p{}</style><SCRIPT>var a='<b>';</script></head>" +:+
                      "<body><h1>Data   Engineer</h1>" +:+ nl +:+ "<p>SQL, Python</p></body></html>")
       else Raised (OtherError "<urlopen error timed out>");
     unescape := fun s => s |}.

(** Services whose count query fails, with small stand-ins for the other
    collaborators. *)
Definition demo_services (count : outcome Z) : services :=
  {| query_count := fun _ => count;
     scan_count := fun _ => (Returned 0%Z, []);
     get_item := fun _ _ => Returned None;
     scan_item := fun _ _ => Returned [];
     put_item := fun _ => Returned tt;
     put_object := fun _ _ _ => Returned tt;
     get_object := fun _ => Raised (ClientError "NoSuchKey" "missing" "GetObject");
     generate_presigned_url := fun key => Returned ("https://s3.example/" +:+ key);
     b64decode := fun v =>
       match v with
       | JStr s => Returned (String.list_byte_of_string s)
       | _ => Raised (OtherError "TypeError")
       end;
     b64decode_text := fun s => Returned s;
     decode_utf8 := String.string_of_list_byte;
     json_loads := fun _ =>
       Some (obj [("userId", JStr "u1"); ("documentId", JStr "d1");
                  ("jobUrl", JStr "https://jobs.example/1")]);
     guess_type := fun _ => Some "text/plain";
     uuid4 := fun n => "00000000-0000-4000-8000-00000000000" +:+ str_of_Z (Z.of_nat n);
     time_now := 1700000000%Z;
     BUCKET := "resume-bucket";
     PdfReader := sample_PdfReader;
     net := page_web;
     ai := no_key_env |}.

Definition upload_body : jval :=
  obj [("userId", JStr " u1 "); ("filename", JStr "cv.TXT"); ("contentBase64", JStr "aGVsbG8=")].

Definition score_services (body : jval) : services :=
  {| query_count := query_count (demo_services (Returned 0%Z));
     scan_count := scan_count (demo_services (Returned 0%Z));
     get_item := get_item (demo_services (Returned 0%Z));
     scan_item := scan_item (demo_services (Returned 0%Z));
     put_item := put_item (demo_services (Returned 0%Z));
     put_object := put_object (demo_services (Returned 0%Z));
     get_object := get_object (demo_services (Returned 0%Z));
     generate_presigned_url := generate_presigned_url (demo_services (Returned 0%Z));
     b64decode := b64decode (demo_services (Returned 0%Z));
     b64decode_text := b64decode_text (demo_services (Returned 0%Z));
     decode_utf8 := decode_utf8 (demo_services (Returned 0%Z));
     json_loads := fun _ => Some body;
     guess_type := guess_type (demo_services (Returned 0%Z));
     uuid4 := uuid4 (demo_services (Returned 0%Z));
     time_now := time_now (demo_services (Returned 0%Z));
     BUCKET := BUCKET (demo_services (Returned 0%Z));
     PdfReader := PdfReader (demo_services (Returned 0%Z));
     net := net (demo_services (Returned 0%Z));
     ai := ai (demo_services (Returned 0%Z)) |}.

(** ** The router and the remaining routes *)

(** [s.upper()] *)
Definition upper_char (c : ascii) : ascii :=
  if is_lower c then chr (code c - 32) else c.

Fixpoint upper (s : string) : string :=
  match s with
  | EmptyString => EmptyString
  | String c s' => String (upper_char c) (upper s')
  end.

(** The event of a request, with the parts the router and the routes
    read: [event["requestContext"]["http"]["method"]], [httpMethod],
    [rawPath], [path], [queryStringParameters] and, in [req_event], the
    body with its encoding flag.  [None] is an absent key; the gateway
    passes strings. *)
Record request : Type := {
  req_http_method : option string;
  req_httpMethod : option string;
  req_rawPath : option string;
  req_path : option string;
  req_query : option (gmap string string);
  req_event : event;
}.

(** What a route hands back: the dictionary of [_resp], the HTML answer of
    the document route, or the bare answer of the preflight. *)
Inductive reply : Type :=
| Json (r : response)
| Html (code : Z) (body : string)
| Bare (code : Z) (body : string).

Definition status_of (r : reply) : Z :=
  match r with
  | Json r => statusCode r
  | Html code _ => code
  | Bare code _ => code
  end.

(** [(event.get("requestContext", {}).get("http", {}).get("method")
      or event.get("httpMethod", "GET")).upper()] *)
Definition request_method (req : request) : string :=
  upper
    (match req_http_method req with
     | Some (String c m) => String c m
     | _ => match req_httpMethod req with Some m => m | None => "GET" end
     end).

(** [while path.startswith("//"): path = path[1:]] *)
Fixpoint collapse_slashes (path : string) : string :=
  match path with
  | String a (String b _ as rest) =>
      if Ascii.eqb a "/" && Ascii.eqb b "/" then collapse_slashes rest else path
  | _ => path
  end.

(** [event.get("rawPath") or event.get("path", "/")], then the loop and
    the removal of one closing slash. *)
Definition normalize_path (path : string) : string :=
  let path := collapse_slashes path in
  if ends_with_char "/" path && negb (String.eqb path "/") then drop_last path
  else path.

Definition request_path (req : request) : string :=
  normalize_path
    (match req_rawPath req with
     | Some (String c p) => String c p
     | _ => match req_path req with Some p => p | None => "/" end
     end).

(** [qs = event.get("queryStringParameters") or {}] and
    [(qs.get(k) or d)] *)
Definition qs_get (qs : option (gmap string string)) (k : string) : option string :=
  match qs with Some m => m !! k | None => None end.

Definition qs_or (qs : option (gmap string string)) (k d : string) : string :=
  match qs_get qs k with Some s => or_else s d | None => d end.

(** The collaborators of the routes below, beside those of [services]:
    DynamoDB items are the attribute maps the table returns.
    [probe_tcp_tls] is the TLS handshake of the diagnostics with the
    round-trip time it measures, [probe_models] the status of the request
    to the model list; a probe that raises does so before its step is
    recorded. *)
Record stores : Type := {
  core : services;
  query_items : string -> outcome (list (gmap string jval));
  scan_user_items : string -> outcome (list (gmap string jval));
  presign_item : jval -> outcome string;
  read_item : string -> string -> outcome (option (gmap string jval));
  scan_one : string -> string -> outcome (list (gmap string jval));
  delete_object : jval -> outcome unit;
  delete_item : jval -> jval -> outcome unit;
  put_application : jval -> outcome unit;
  probe_tcp_tls : outcome Z;
  probe_models : outcome Z;
}.

(** *** Diagnostics *)

Definition handle_diag (st : stores) : response :=
  let a :=
    match probe_tcp_tls st with
    | Returned rtt => (true, [obj [("tcp_tls", JStr "ok"); ("rtt_ms", JNum rtt)]])
    | Raised e => (false, [obj [("tcp_tls", JStr ("error: " +:+ str_exn e))]])
    end in
  let b :=
    match probe_models st with
    | Returned status => (a.1, a.2 ++ [obj [("models_http_status", JNum status)]])
    | Raised e => (false, a.2 ++ [obj [("models_error", JStr (str_exn e))]])
    end in
  _resp (if b.1 then 200 else 500) (obj [("ok", JBool b.1); ("steps", JList b.2)]).

(** *** The stored HTML of a document *)

Definition handle_get_document_html (sv : services) (req : request) : outcome reply :=
  let qs := req_query req in
  let user_id := strip (qs_or qs "userId" "demo") in
  let doc_id := strip (qs_or qs "documentId" "") in
  if negb (truthy user_id && truthy doc_id)
  then Returned (Json (_resp 400 (obj [("error", JStr "Missing userId or documentId")])))
  else
    do item <- _find_doc_by_id sv user_id doc_id;
    match item with
    | None => Returned (Json (_resp 404 (obj [("error", JStr "Document not found")])))
    | Some item =>
        if negb (startswith "text/html"
                   (match doc_contentType item with Some t => t | None => "" end))
        then Returned (Json (_resp 415 (obj [("error", JStr "Document is not text/html")])))
        else
          match doc_s3Key item with
          | None | Some EmptyString =>
              Returned (Json (_resp 500 (obj [("error", JStr "Document missing s3Key")])))
          | Some key =>
              match get_object sv key with
              | Raised e =>
                  Returned (Json (_resp 500 (obj [("error", JStr "Failed to read S3 object");
                                                  ("detail", JStr (str_exn e))])))
              | Returned body_bytes => Returned (Html 200 (decode_utf8 sv body_bytes))
              end
          end
    end.

(** *** Applications *)

Definition handle_create_application (st : stores) (body : jval) : outcome response :=
  do user_id <- field body "userId" "demo";
  do job <- dict_get body "jobId";
  let job_id := or_default job (JStr (uuid4 (core st) 0)) in
  do score <- dict_get body "score";
  do status <- dict_get body "status";
  let item :=
    obj [("userId", JStr user_id); ("jobId", job_id);
         ("score", match score with Some v => v | None => JNum 0 end);
         ("status", match status with Some v => v | None => JStr "CREATED" end);
         ("createdAt", JNum (time_now (core st)))] in
  do _ <- put_application st item;
  Returned (_resp 200 item).

(** *** The list of documents *)

(** One round of the loop that signs the items; an item without ["s3Key"]
    and a signing that raises leave the item as it is. *)
Definition add_url (st : stores) (it : gmap string jval) : gmap string jval :=
  match it !! "s3Key" with
  | Some k =>
      match presign_item st k with
      | Returned u => <["url" := JStr u]> it
      | Raised _ => it
      end
  | None => it
  end.

Definition list_reply (st : stores) (items : list (gmap string jval)) : response :=
  _resp 200 (obj [("items", JList (map (fun it => JObj (add_url st it)) items));
                  ("count", JNum (Z.of_nat (length items)))]).

Definition handle_list_documents (st : stores) (req : request) : outcome response :=
  let user_id := strip (qs_or (req_query req) "userId" "demo") in
  match query_items st user_id with
  | Returned items => Returned (list_reply st items)
  | Raised (ClientError err msg op) =>
      if String.eqb err "ValidationException" ||
         contains "Query condition missed key schema" msg
      then do items <- scan_user_items st user_id; Returned (list_reply st items)
      else Returned (_resp 500 (obj [("error", JStr "DynamoDB query failed");
                                     ("detail", JStr (str_exn (ClientError err msg op)))]))
  | Raised e => Raised e
  end.

(** *** Deleting a document *)

(** The body as the route reads it: whatever fails while decoding or
    parsing leaves the empty dictionary. *)
Definition delete_body (sv : services) (ev : event) : jval :=
  match ev_body ev with
  | Some (String c b) =>
      match (if isBase64Encoded ev then b64decode_text sv (String c b)
             else Returned (String c b)) with
      | Returned t =>
          match json_loads sv (or_else t "{}") with
          | Some v => v
          | None => obj []
          end
      | Raised _ => obj []
      end
  | _ => obj []
  end.

(** [(body.get(k) or qs.get(k) or d).strip()] *)
Definition pick (body : jval) (qs : option (gmap string string)) (k d : string)
    : outcome string :=
  do v <- dict_get body k;
  str_strip (or_default v (JStr (qs_or qs k d))).

(** [bool(item)] for what [res.get("Item")] gives. *)
Definition item_truthy (item : option (gmap string jval)) : bool :=
  match item with Some m => jtruthy (JObj m) | None => false end.

(** The reads of the route: [get_item], and the scan when it found
    nothing. *)
Definition lookup_for_delete (st : stores) (user_id document_id : string)
    : outcome (option (gmap string jval)) :=
  do item <- read_item st user_id document_id;
  if item_truthy item then Returned item
  else
    do items <- scan_one st user_id document_id;
    Returned (match items with it :: _ => Some it | [] => item end).

(** [item["userId"]] *)
Definition item_attr (item : gmap string jval) (k : string) : outcome jval :=
  match item !! k with
  | Some v => Returned v
  | None => Raised (OtherError ("KeyError: " +:+ repr_str k))
  end.

(** The [try] block that deletes the index entry, by the keys of the item
    read or else by those of the request; its value is [ddb_deleted]. *)
Definition delete_index (st : stores) (user_id document_id : string)
    (item : option (gmap string jval)) : outcome bool :=
  let by_request :=
    if truthy document_id then
      do _ <- delete_item st (JStr user_id) (JStr document_id);
      Returned true
    else Returned false in
  match item with
  | Some m =>
      if jtruthy (JObj m) then
        do u <- item_attr m "userId";
        do d <- item_attr m "documentId";
        do _ <- delete_item st u d;
        Returned true
      else by_request
  | None => by_request
  end.

(** [document_id or (item.get("documentId") if item else None)] *)
Definition reported_id (document_id : string) (item : option (gmap string jval)) : jval :=
  if truthy document_id then JStr document_id
  else match item with
       | Some m =>
           if jtruthy (JObj m)
           then match m !! "documentId" with Some v => v | None => JNull end
           else JNull
       | None => JNull
       end.

Definition delete_finish (st : stores) (user_id document_id : string)
    (item : option (gmap string jval)) (explicit_key : jval) (s3_deleted : bool)
    : outcome response :=
  match delete_index st user_id document_id item with
  | Raised (ClientError c m o) =>
      Returned (_resp 500 (obj [("error", JStr "DynamoDB delete failed");
                                ("detail", JStr (str_exn (ClientError c m o)))]))
  | Raised e => Raised e
  | Returned ddb_deleted =>
      Returned (_resp 200
        (obj [("ok", JBool true); ("s3Deleted", JBool s3_deleted);
              ("ddbDeleted", JBool ddb_deleted); ("s3Key", explicit_key);
              ("userId", JStr user_id);
              ("documentId", reported_id document_id item)]))
  end.

(** The statements behind the lookup: the object is deleted, then the
    index entry. *)
Definition delete_rest (st : stores) (user_id document_id : string)
    (item : option (gmap string jval)) (explicit_key : jval) : outcome response :=
  if jtruthy explicit_key then
    match delete_object st explicit_key with
    | Returned _ => delete_finish st user_id document_id item explicit_key true
    | Raised (ClientError c m o) =>
        if negb (in_list c ["NoSuchKey"; "AccessDenied"])
        then Returned (_resp 500 (obj [("error", JStr "S3 delete failed");
                                       ("detail", JStr (str_exn (ClientError c m o)))]))
        else delete_finish st user_id document_id item explicit_key false
    | Raised e => Raised e
    end
  else delete_finish st user_id document_id item explicit_key false.

Definition handle_delete_document (st : stores) (req : request) : outcome response :=
  let body := delete_body (core st) (req_event req) in
  let qs := req_query req in
  do user_id <- pick body qs "userId" "demo";
  do document_id <- pick body qs "documentId" "";
  do explicit_key <- pick body qs "s3Key" "";
  if negb (truthy user_id && (truthy document_id || truthy explicit_key))
  then Returned (_resp 400 (obj [("error", JStr "Fields required: userId AND (documentId OR s3Key)")]))
  else if negb (truthy explicit_key) then
    match lookup_for_delete st user_id document_id with
    | Raised (ClientError c m o) =>
        Returned (_resp 500 (obj [("error", JStr "DynamoDB read failed");
                                  ("detail", JStr (str_exn (ClientError c m o)))]))
    | Raised e => Raised e
    | Returned item =>
        if negb (item_truthy item)
        then Returned (_resp 200 (obj [("ok", JBool true);
                                       ("message", JStr "Document not found; nothing to delete")]))
        else
          delete_rest st user_id document_id item
            (match item with
             | Some m => match m !! "s3Key" with Some v => v | None => JStr "" end
             | None => JStr ""
             end)
    end
  else delete_rest st user_id document_id None (JStr explicit_key).

(** *** The router *)

Definition as_json (r : outcome response) : outcome reply :=
  do x <- r; Returned (Json x).

Definition lambda_handler (st : stores) (req : request) : outcome reply :=
  let sv := core st in
  let method := request_method req in
  let path := request_path req in
  let ev := req_event req in
  if String.eqb method "OPTIONS" then Returned (Bare 200 "")
  else if String.eqb method "GET" && String.eqb path "/health" then
    Returned (Json (_resp 200 (obj [("ok", JBool true); ("service", JStr "resume-assistant")])))
  else if String.eqb method "GET" && String.eqb path "/diag" then
    Returned (Json (handle_diag st))
  else if String.eqb method "POST" && in_list path ["/score"; "/match/score"] then
    as_json (handle_score sv ev)
  else if String.eqb method "POST" && String.eqb path "/upload/resume" then
    as_json (do body <- _get_body sv ev; handle_upload_resume sv body)
  else if String.eqb method "POST" && String.eqb path "/applications" then
    as_json (do body <- _get_body sv ev; handle_create_application st body)
  else if String.eqb method "GET" && String.eqb path "/documents" then
    as_json (handle_list_documents st req)
  else if in_list method ["DELETE"; "POST"] && String.eqb path "/documents/delete" then
    as_json (handle_delete_document st req)
  else if String.eqb method "POST" && String.eqb path "/tailor" then
    as_json (handle_tailor sv ev)
  else if String.eqb method "GET" && String.eqb path "/documents/html" then
    handle_get_document_html sv req
  else
    Returned (Json (_resp 404 (obj [("error", JStr "Not found"); ("path", JStr path);
                                    ("method", JStr method)]))).

(** The routing table, pair by pair. *)
Definition ROUTES : list (string * string) :=
  [("GET", "/health"); ("GET", "/diag"); ("POST", "/score"); ("POST", "/match/score");
   ("POST", "/upload/resume"); ("POST", "/applications"); ("GET", "/documents");
   ("DELETE", "/documents/delete"); ("POST", "/documents/delete"); ("POST", "/tailor");
   ("GET", "/documents/html")].

Definition routed (method path : string) : bool :=
  existsb (fun r => String.eqb method r.1 && String.eqb path r.2) ROUTES.

(** The same request under another [rawPath]. *)
Definition with_rawPath (req : request) (p : string) : request :=
  {| req_http_method := req_http_method req;
     req_httpMethod := req_httpMethod req;
     req_rawPath := Some p;
     req_path := req_path req;
     req_query := req_query req;
     req_event := req_event req |}.

(** *** What the routes are meant to establish *)

(** The listed item [it'] is the stored item [it], but for a ["url"]
    attribute that, when the item was signed, holds the signed address of
    its ["s3Key"]. *)
Definition signed_from (st : stores) (it it' : gmap string jval) : Prop :=
  delete "url" it' = delete "url" it /\
  (it' = it \/
   exists k u, it !! "s3Key" = Some k /\ presign_item st k = Returned u /\
               it' !! "url" = Some (JStr u)).

(** A text whose blanks are single spaces between words: it neither
    begins nor ends with a blank, and each blank is one space that follows
    a character that is no blank.  [prev_blank] tells whether the text
    read so far ended with a blank, or is empty. *)
Fixpoint single_spaced_from (prev_blank : bool) (s : string) : bool :=
  match s with
  | EmptyString => negb prev_blank
  | String c s' =>
      if is_space c
      then negb prev_blank && Ascii.eqb c " " && single_spaced_from true s'
      else single_spaced_from false s'
  end.

Definition single_spaced (s : string) : bool :=
  match s with
  | EmptyString => true
  | _ => single_spaced_from true s
  end.

(** A word: not empty and without a blank. *)
Definition is_word (w : string) : Prop :=
  w <> "" /\ all_str (fun c => negb (is_space c)) w = true.

(** The blanks of the text are spaces and tabs. *)
Definition plain_blanks (s : string) : bool :=
  all_str (fun c => negb (is_space c) || one_of (" " +:+ tab) c) s.

(** The blanks of the text are spaces, tabs and line boundaries. *)
Definition plain_text (s : string) : bool :=
  all_str (fun c => negb (is_space c) || one_of (" " +:+ tab) c || is_linebreak c) s.

(** The shortest and the longest word a pattern matches ([None]: no
    bound), and that every character class of a pattern lies within [q]. *)
Fixpoint min_len (r : regex) : nat :=
  match r with
  | Eps => 0
  | Cls _ => 1
  | Seq r1 r2 => min_len r1 + min_len r2
  | Alt r1 r2 => Nat.min (min_len r1) (min_len r2)
  | Opt _ => 0
  | Rep _ _ lo _ => lo
  end.

Fixpoint max_len (r : regex) : option nat :=
  match r with
  | Eps => Some O
  | Cls _ => Some 1%nat
  | Seq r1 r2 =>
      match max_len r1, max_len r2 with
      | Some a, Some b => Some (a + b)%nat
      | _, _ => None
      end
  | Alt r1 r2 =>
      match max_len r1, max_len r2 with
      | Some a, Some b => Some (Nat.max a b)
      | _, _ => None
      end
  | Opt r1 => max_len r1
  | Rep _ _ _ hi => hi
  end.

Fixpoint classes_within (q : ascii -> bool) (r : regex) : Prop :=
  match r with
  | Eps => True
  | Cls p => forall c, p c = true -> q c = true
  | Seq r1 r2 => classes_within q r1 /\ classes_within q r2
  | Alt r1 r2 => classes_within q r1 /\ classes_within q r2
  | Opt r1 => classes_within q r1
  | Rep _ p _ _ => forall c, p c = true -> q c = true
  end.

(** The characters of a phone number: digits, the separators, and the plus
    sign and the parentheses. *)
Definition phone_char (c : ascii) : bool :=
  is_digit c || phone_sep c || one_of "+()" c.

(** *** Auxiliary definitions of the proofs about the phone pattern *)

(** The match lengths of [r] followed by what [k] lists for the rest of
    the text: [mlens (Seq r1 r2)] is [mlens_then r1 (mlens r2)]. *)
Definition mlens_then (r : regex) (k : string -> list nat) (s : string) : list nat :=
  flat_map (fun n => map (Nat.add n) (k (slice_from n s))) (mlens r s).

(** A pattern whose repetitions range over classes without a blank. *)
Fixpoint reps_blank_free (r : regex) : Prop :=
  match r with
  | Eps => True
  | Cls _ => True
  | Seq r1 r2 => reps_blank_free r1 /\ reps_blank_free r2
  | Alt r1 r2 => reps_blank_free r1 /\ reps_blank_free r2
  | Opt r1 => reps_blank_free r1
  | Rep _ p _ _ => forall c, is_space c = true -> p c = false
  end.

(** [k] does not see blanks appended to the text and lists nothing on a
    text of blanks. *)
Definition ignores_trailing_blanks (k : string -> list nat) : Prop :=
  (forall w x, all_str is_space w = true -> k (x +:+ w) = k x) /\
  (forall u, all_str is_space u = true -> k u = []).

(** ** Sample requests and stores for the examples *)

Definition demo_stores : stores :=
  {| core := demo_services (Returned 0%Z);
     query_items := fun _ => Returned [];
     scan_user_items := fun _ => Returned [];
     presign_item := fun _ => Raised (OtherError "no credentials");
     read_item := fun _ _ => Returned None;
     scan_one := fun _ _ => Returned [];
     delete_object := fun _ => Returned tt;
     delete_item := fun _ _ => Returned tt;
     put_application := fun _ => Returned tt;
     probe_tcp_tls := Returned 12%Z;
     probe_models := Raised (OtherError "HTTP Error 401: Unauthorized") |}.

Definition get_request (path : string) : request :=
  {| req_http_method := Some "get";
     req_httpMethod := None;
     req_rawPath := Some path;
     req_path := None;
     req_query := None;
     req_event := {| ev_body := None; isBase64Encoded := false |} |}.

Definition delete_request : request :=
  {| req_http_method := Some "delete";
     req_httpMethod := None;
     req_rawPath := Some "/documents/delete/";
     req_path := None;
     req_query := Some {["documentId" := "d9"]};
     req_event := {| ev_body := None; isBase64Encoded := false |} |}.

(** A reader of two pages: the first holds twelve characters, the second
    cannot be extracted. *)
Definition budget_reader : pdf_reader :=
  {| is_encrypted := false;
     decrypt := fun _ => Returned 0%Z;
     pages := Returned [{| extract_text := Returned (Some "abcdefghijkl") |};
                        {| extract_text := Raised (OtherError "broken page") |}] |}.

(** Services whose table has no key on the owner: the count query is
    refused and the scan answers in three pages. *)
Definition paged_services : services :=
  let d :=
    demo_services
      (Raised (ClientError "ValidationException"
                 "Query condition missed key schema element: userId" "Query")) in
  {| query_count := query_count d;
     scan_count := fun _ => (Returned 4%Z, [Returned 5%Z; Returned 3%Z]);
     get_item := get_item d;
     scan_item := scan_item d;
     put_item := put_item d;
     put_object := put_object d;
     get_object := get_object d;
     generate_presigned_url := generate_presigned_url d;
     b64decode := b64decode d;
     b64decode_text := b64decode_text d;
     decode_utf8 := decode_utf8 d;
     json_loads := json_loads d;
     guess_type := guess_type d;
     uuid4 := uuid4 d;
     time_now := time_now d;
     BUCKET := BUCKET d;
     PdfReader := PdfReader d;
     net := net d;
     ai := ai d |}.

(** ** The vocabulary of the statements on text

    The notions below describe a text in the words of the specification.
    They are written on [string], its append and the character classes
    alone: none of them uses a [str] method of [PyStr] or a function of
    the matcher. *)

(** A text of ASCII characters: the texts on which the [str] methods
    modelled here are Python's. *)
Definition ascii_char (c : ascii) : bool := code c <? 128.

Definition ascii_text (s : string) : bool := all_str ascii_char s.

(** *** Letter case

    Two characters are the same letter when they are equal or one is an
    upper-case letter and the other its lower-case form, 32 codes higher;
    two texts are the same up to letter case when they are so character
    by character. *)
Definition same_letter (a b : ascii) : bool :=
  Ascii.eqb a b ||
  (is_upper a && (code b =? code a + 32)) ||
  (is_upper b && (code a =? code b + 32)).

Fixpoint same_ci (u v : string) : bool :=
  match u, v with
  | EmptyString, EmptyString => true
  | String a u', String b v' => same_letter a b && same_ci u' v'
  | _, _ => false
  end.

(** [l] is [s] in lower case. *)
Definition lowercase_of (s l : string) : Prop :=
  same_ci l s = true /\ all_str (fun c => negb (is_upper c)) l = true.

(** [needle] stands in [s] at offset [i], up to letter case; it occurs in
    [s]; [i] is the offset of its leftmost occurrence. *)
Definition occurs_ci_at (needle s : string) (i : nat) : Prop :=
  exists a w b, s = a +:+ w +:+ b /\ String.length a = i /\ same_ci w needle = true.

Definition occurs_ci (needle s : string) : Prop := exists i, occurs_ci_at needle s i.

Definition first_ci (needle s : string) (i : nat) : Prop :=
  occurs_ci_at needle s i /\ forall j, occurs_ci_at needle s j -> (i <= j)%nat.

(** *** Edges, words and lines *)

Definition begins_with (u t : string) : Prop := exists x, t = u +:+ x.
Definition ends_with (u t : string) : Prop := exists x, t = x +:+ u.

(** A run of characters of a set, each given by its encoding. *)
Inductive run_of (set : list string) : string -> Prop :=
| run_nil : run_of set EmptyString
| run_cons u l : In u set -> run_of set l -> run_of set (u +:+ l).

(** [t] is [s] without the characters of the set at its two ends. *)
Definition stripped_of (set : list string) (s t : string) : Prop :=
  exists l r, s = l +:+ t +:+ r /\ run_of set l /\ run_of set r /\
    (forall u, In u set -> ~ begins_with u t) /\
    (forall u, In u set -> ~ ends_with u t).

(** [t] is [s] without the blanks at its two ends. *)
Definition trimmed (s t : string) : Prop :=
  exists l r, s = l +:+ t +:+ r /\
    all_str is_space l = true /\ all_str is_space r = true /\
    (forall c x, t = String c x -> is_space c = false) /\
    (forall x c, t = x +:+ String c EmptyString -> is_space c = false).

(** The words of a text, in order: the runs of characters that are no
    blanks, each as long as it can be. *)
Inductive words_of : string -> list string -> Prop :=
| words_end b : all_str is_space b = true -> words_of b []
| words_next b w rest ws :
    all_str is_space b = true ->
    w <> EmptyString -> all_str (fun c => negb (is_space c)) w = true ->
    (forall c x, rest = String c x -> is_space c = true) ->
    words_of rest ws ->
    words_of (b +:+ w +:+ rest) (w :: ws).

(** The lines of a text, in order.  A line ends at a line-break character,
    a carriage return with the line feed behind it counting as one
    boundary; the text behind the last boundary is a line unless it is
    empty. *)
Definition no_break (l : string) : bool :=
  all_str (fun c => negb (is_linebreak c)) l.

Inductive lines_of : string -> list string -> Prop :=
| lines_end : lines_of EmptyString []
| lines_last l : l <> EmptyString -> no_break l = true -> lines_of l [l]
| lines_crlf l rest ls :
    no_break l = true -> lines_of rest ls ->
    lines_of (l +:+ String (chr 13) (String (chr 10) rest)) (l :: ls)
| lines_next l c rest ls :
    no_break l = true -> is_linebreak c = true ->
    (code c = 13 -> forall x, rest <> String (chr 10) x) ->
    lines_of rest ls ->
    lines_of (l +:+ String c rest) (l :: ls).

(** The entries of a list that have a property, in order. *)
Inductive those {A : Type} (P : A -> Prop) : list A -> list A -> Prop :=
| those_nil : those P [] []
| those_keep x l k : P x -> those P l k -> those P (x :: l) (x :: k)
| those_drop x l k : ~ P x -> those P l k -> those P (x :: l) k.

(** The first [n] characters of [s], or all of [s] when it has fewer. *)
Definition cut_to (n : nat) (s t : string) : Prop :=
  exists rest, s = t +:+ rest /\
    (String.length t = n \/ (rest = EmptyString /\ (String.length t <= n)%nat)).

(** Some character of the text has the property. *)
Definition has_char (p : ascii -> bool) (s : string) : Prop :=
  exists a c b, s = a +:+ String c b /\ p c = true.

(** *** Headings *)

(** Upper case: some letter is upper case and none is lower case.  Title
    case: there is a letter, every upper-case letter stands at the start
    or behind a character that is no letter, and every lower-case letter
    stands behind a letter. *)
Definition upper_case (s : string) : Prop :=
  has_char is_upper s /\ ~ has_char is_lower s.

Definition behind_letter (a : string) : Prop :=
  exists a' d, a = a' +:+ String d EmptyString /\ is_alpha d = true.

Definition title_case (s : string) : Prop :=
  has_char is_alpha s /\
  forall a c b, s = a +:+ String c b ->
    (is_upper c = true -> ~ behind_letter a) /\
    (is_lower c = true -> behind_letter a).

(** A line is a heading when, trimmed, it has 3 to 80 characters and,
    one closing colon apart, either has at most six words and is upper
    case or title case, or is a canonical section name up to letter
    case. *)
Definition is_heading (line : string) : Prop :=
  exists t s,
    trimmed line t /\ (3 <= String.length t <= 80)%nat /\
    (t = s +:+ ":" \/ (t = s /\ ~ ends_with ":" t)) /\
    ((exists ws, words_of s ws /\ (length ws <= 6)%nat /\
                 (upper_case s \/ title_case s)) \/
     (exists c, In c SECTION_CANON /\ same_ci s c = true)).

(** The normal form of a heading: the characters of the strip set are
    removed at both ends, then the blanks at both ends, and the words that
    are left stand one space apart. *)
Definition normal_form (h n : string) : Prop :=
  exists t u ws,
    stripped_of HEADING_STRIP h t /\ trimmed t u /\ words_of u ws /\
    n = String.concat " " ws.

(** The key of a normalized heading: its lower-case form without the
    colons at its end. *)
Definition key_of (n k : string) : Prop :=
  exists l colons,
    lowercase_of n l /\ l = k +:+ colons /\
    all_str (is_char ":") colons = true /\ ~ ends_with ":" k.

Definition heading_key_of (h k : string) : Prop :=
  exists n, normal_form h n /\ key_of n k.

(** The entries of a list at their first occurrence by key: an entry is
    kept, and the later entries with its key are dropped. *)
Fixpoint firsts {A : Type} (key : A -> string) (l : list A) : list A :=
  match l with
  | [] => []
  | x :: r => x :: List.filter (fun y => negb (String.eqb (key y) (key x))) (firsts key r)
  end.

(** *** What verification establishes

    The name and the email, where not empty, occur in the output up to
    letter case; every heading has a key, every key occurs in the output
    up to letter case, and the offsets of the leftmost occurrences of
    consecutive keys do not decrease. *)
Definition header_shown (invariants : contact_bits) (html : string) : Prop :=
  (name invariants <> EmptyString -> occurs_ci (name invariants) html) /\
  (email invariants <> EmptyString -> occurs_ci (email invariants) html).

Definition order_shown (section_order : list string) (html : string) : Prop :=
  exists (keys : list string) (ps : list nat),
    Forall2 heading_key_of section_order keys /\
    Forall2 (fun k i => first_ci k html i) keys ps /\
    nondecreasing ps.

(** *** What the contact extractor finds *)

(** The trimmed lines that are not blank. *)
Inductive nonblank_of : list string -> list string -> Prop :=
| nonblank_nil : nonblank_of [] []
| nonblank_skip l ls ts :
    all_str is_space l = true -> nonblank_of ls ts -> nonblank_of (l :: ls) ts
| nonblank_keep l t ls ts :
    trimmed l t -> t <> EmptyString -> nonblank_of ls ts ->
    nonblank_of (l :: ls) (t :: ts).

(** The line holds one of the four section keywords, up to letter case. *)
Definition names_section (ln : string) : Prop :=
  exists k, In k KEYWORDS /\ occurs_ci k ln.

(** [x] is the first entry of [l] without the property. *)
Definition first_without (P : string -> Prop) (l : list string) (x : string) : Prop :=
  exists pre post, l = pre ++ x :: post /\ Forall P pre /\ ~ P x.

(** The matches of a pattern in a text, scanned from the left: each match
    is the longest one at the leftmost offset at which the pattern
    matches, is not empty, and the scan goes on behind it. *)
Inductive scan (r : regex) : string -> list string -> Prop :=
| scan_none s : (forall i w, ~ match_at r s i w) -> scan r s []
| scan_hit a w rest ws :
    matches r w -> w <> EmptyString ->
    (forall j w', match_at r (a +:+ w +:+ rest) j w' -> (String.length a <= j)%nat) ->
    (forall w', match_at r (a +:+ w +:+ rest) (String.length a) w' ->
                (String.length w' <= String.length w)%nat) ->
    scan r rest ws ->
    scan r (a +:+ w +:+ rest) (w :: ws).


(** ** A document that refuses the empty password

    The bytes of a PDF of one empty page, encrypted by the standard
    security handler with a user password that is not empty, and what
    [pypdf] hands back for them: the document reports encryption,
    [decrypt("")] returns 0 ([PasswordType.NOT_DECRYPTED]) without raising,
    and reading the pages raises [FileNotDecryptedError]. *)
Definition password_pdf_text : string :=
  join nl
    ["%PDF-1.4";
     "1 0 obj";
     "<< /Type /Catalog /Pages 2 0 R >>";
     "endobj";
     "2 0 obj";
     "<< /Type /Pages /Kids [3 0 R] /Count 1 >>";
     "endobj";
     "3 0 obj";
     "<< /Type /Page /Parent 2 0 R /MediaBox [0 0 612 792] >>";
     "endobj";
     "4 0 obj";
     "<< /Filter /Standard /V 1 /R 2 /P -44";
     "/O <1f2e3d4c5b6a79881f2e3d4c5b6a79881f2e3d4c5b6a79881f2e3d4c5b6a7988>";
     "/U <a1b2c3d4e5f60718a1b2c3d4e5f60718a1b2c3d4e5f60718a1b2c3d4e5f60718> >>";
     "endobj";
     "xref";
     "0 5";
     "0000000000 65535 f ";
     "0000000009 00000 n ";
     "0000000058 00000 n ";
     "0000000115 00000 n ";
     "0000000186 00000 n ";
     "trailer";
     "<< /Size 5 /Root 1 0 R /Encrypt 4 0 R";
     "/ID [<0123456789abcdef0123456789abcdef> <0123456789abcdef0123456789abcdef>] >>";
     "startxref";
     "382";
     "%%EOF"] +:+ nl.

Definition password_pdf : list Byte.byte :=
  String.list_byte_of_string password_pdf_text.

Definition password_reader : pdf_reader :=
  {| is_encrypted := true;
     decrypt := fun _ => Returned 0%Z;
     pages := Raised (OtherError "File has not been decrypted") |}.

Definition pypdf_sample (data : list Byte.byte) : outcome pdf_reader :=
  if String.eqb (String.string_of_list_byte data) password_pdf_text
  then Returned password_reader
  else Raised (OtherError "EOF marker not found").

(** ** Auxiliary definitions of the proofs on headings *)

(** Title case read from the middle of a text: [prev] tells whether the
    character before was a letter, [cased] whether a letter was seen. *)
Definition behind_letter_from (prev : bool) (a : string) : Prop :=
  (a = "" /\ prev = true) \/ behind_letter a.

Definition titled_from (cased prev : bool) (s : string) : Prop :=
  (cased = true \/ has_char is_alpha s) /\
  forall a c b, s = a +:+ String c b ->
    (is_upper c = true -> ~ behind_letter_from prev a) /\
    (is_lower c = true -> behind_letter_from prev a).

(** ** Auxiliary definitions of the proofs on patterns *)

(** The match the matcher tries first is the longest at its place. *)
Definition head_longest (r : regex) : Prop :=
  forall s n rest m, mlens r s = n :: rest -> In m rest -> (m <= n)%nat.

(** * Properties of the embedding *)

(** ** Examples of the [str] methods *)
Example lower_ex : lower "Jane DOE <A@b.Co>" = "jane doe <a@b.co>".
Proof. reflexivity. Qed.

Example split_ex : split "  Work   Experience " = ["Work"; "Experience"].
Proof. reflexivity. Qed.

Example splitlines_ex :
  splitlines ("a" +:+ nl +:+ nl +:+ "b" +:+ nl) = ["a"; ""; "b"].
Proof. reflexivity. Qed.

Example replace_ex : replace "<" "&lt;" "a<b<<c" = "a&lt;b&lt;&lt;c".
Proof. reflexivity. Qed.

Example find_ex : find "cd" "abcdcd" = 2%Z /\ find "x" "abc" = (-1)%Z.
Proof. split; reflexivity. Qed.

Example strip_ex : strip "  a b  " = "a b" /\ rstrip_chars ":" "skills::" = "skills".
Proof. split; reflexivity. Qed.

Example istitle_ex :
  istitle "Work Experience" = true /\ istitle "Work experience" = false /\
  istitle "A1b" = false /\ isupper "SKILLS & TOOLS" = true.
Proof. repeat split; reflexivity. Qed.

(** ** Facts about slices and the substring tests *)
Section StringFacts.

Lemma slice_to_from (n : nat) (s : string) : slice_to n s +:+ slice_from n s = s.
Proof.
  revert s; induction n as [|n IH]; intros [|c s]; simpl; try reflexivity.
  now rewrite IH.
Qed.

Lemma length_slice_to (n : nat) (s : string) :
  (n <= String.length s)%nat -> String.length (slice_to n s) = n.
Proof.
  revert s; induction n as [|n IH]; intros [|c s]; simpl; intros H;
    try reflexivity; try lia.
  rewrite IH; [reflexivity | lia].
Qed.

Lemma length_slice_to_le (n : nat) (s : string) :
  (String.length (slice_to n s) <= n)%nat.
Proof.
  revert s; induction n as [|n IH]; intros [|c s]; simpl; try lia.
  specialize (IH s); lia.
Qed.

Lemma length_slice_from (n : nat) (s : string) :
  String.length (slice_from n s) = (String.length s - n)%nat.
Proof.
  revert s; induction n as [|n IH]; intros [|c s]; simpl; try reflexivity.
  apply IH.
Qed.

Lemma length_app (a b : string) :
  String.length (a +:+ b) = (String.length a + String.length b)%nat.
Proof. induction a as [|c a IH]; simpl; [reflexivity | now rewrite IH]. Qed.

Lemma app_assoc_s (a b c : string) : (a +:+ b) +:+ c = a +:+ (b +:+ c).
Proof. induction a as [|x a IH]; simpl; [reflexivity | now rewrite IH]. Qed.

Lemma app_empty_r (a : string) : a +:+ "" = a.
Proof. induction a as [|x a IH]; simpl; [reflexivity | now rewrite IH]. Qed.

Lemma slice_to_app_exact (a b : string) : slice_to (String.length a) (a +:+ b) = a.
Proof. induction a as [|x a IH]; simpl; [now destruct b | now rewrite IH]. Qed.

Lemma slice_from_app_exact (a b : string) : slice_from (String.length a) (a +:+ b) = b.
Proof. induction a as [|x a IH]; simpl; [reflexivity | exact IH]. Qed.

Lemma slice_to_add (n k : nat) (s : string) :
  slice_to (n + k) s = slice_to n s +:+ slice_to k (slice_from n s).
Proof.
  revert s; induction n as [|n IH]; intros s; simpl.
  - reflexivity.
  - destruct s as [|c s]; simpl.
    + now destruct k.
    + now rewrite IH.
Qed.

Lemma slice_to_all (n : nat) (s : string) :
  (String.length s <= n)%nat -> slice_to n s = s.
Proof.
  revert s; induction n as [|n IH]; intros [|c s]; simpl; intros H;
    try reflexivity; try lia.
  rewrite IH; [reflexivity | lia].
Qed.

Lemma startswith_spec (p s : string) :
  startswith p s = true <-> exists r, s = p +:+ r.
Proof.
  revert s; induction p as [|a p IH]; intros s; simpl.
  - split; [intros _; now exists s | reflexivity].
  - destruct s as [|b s].
    + split; [discriminate | intros [r Hr]; discriminate].
    + destruct (Ascii.eqb_spec a b) as [->|Hne].
      * rewrite IH. split; intros [r Hr]; exists r; [now rewrite Hr | now injection Hr].
      * split; [discriminate | intros [r Hr]; injection Hr; intros; congruence].
Qed.

Lemma contains_spec (p s : string) :
  contains p s = true <-> exists a b, s = a +:+ p +:+ b.
Proof.
  induction s as [|c s IH]; simpl.
  - rewrite orb_false_r, startswith_spec. split.
    + intros [r Hr]. now exists "", r.
    + intros [a [b H]]. destruct a; simpl in H; [now exists b | discriminate].
  - rewrite orb_true_iff, startswith_spec, IH. split.
    + intros [[r Hr] | [a [b H]]].
      * now exists "", r.
      * exists (String c a), b. simpl. now rewrite H.
    + intros [[|x a] [b H]]; simpl in H.
      * left. now exists b.
      * right. injection H as -> H. now exists a, b.
Qed.

Lemma contains_app_l (p a b : string) :
  contains p a = true -> contains p (a +:+ b) = true.
Proof.
  rewrite !contains_spec. intros [x [y ->]].
  exists x, (y +:+ b). now rewrite !app_assoc_s.
Qed.

Lemma contains_app_r (p a b : string) :
  contains p b = true -> contains p (a +:+ b) = true.
Proof.
  rewrite !contains_spec. intros [x [y ->]].
  exists (a +:+ x), y. now rewrite !app_assoc_s.
Qed.

Lemma lower_app (a b : string) : lower (a +:+ b) = lower a +:+ lower b.
Proof. induction a as [|c a IH]; simpl; [reflexivity | now rewrite IH]. Qed.

Lemma length_lower (s : string) : String.length (lower s) = String.length s.
Proof. induction s as [|c s IH]; simpl; [reflexivity | now rewrite IH]. Qed.

End StringFacts.

(** ** Examples of the extractors *)
Example contact_ex :
  _extract_contact_bits sample_resume =
  {| name := "Jane Doe"; email := "jane.doe@example.com";
     phone := "555-123-4567"; links := ["www.jane.dev"] |}.
Proof. vm_compute. reflexivity. Qed.

Example order_ex :
  _detect_section_order sample_resume =
  ["Jane Doe"; "EXPERIENCE"; "Acme Corp, Engineer"; "Education";
   "State University"].
Proof. vm_compute. reflexivity. Qed.

(** ** The guardrail builder: retry and adoption *)
Section Retry.

Variable env : tailor_env.

Lemma call_once_log (prompt_user : string) (w : world) :
  (_call_once env prompt_user w).2 =
  w ++ [{| sent_system := system; sent_user := prompt_user |}].
Proof.
  unfold _call_once, _http_chat_completion.
  destruct (chat_completion env (length w) system prompt_user) as [content|e]; simpl.
  - destruct (truthy (strip content)); reflexivity.
  - reflexivity.
Qed.

Lemma retry_condition (invariants : contact_bits) (section_order : list string)
    (html : string) :
  negb (_ensure_invariants_present html invariants) ||
  negb (_order_ok section_order html) = negb (verified invariants section_order html).
Proof. unfold verified. now rewrite negb_andb. Qed.

(** Without a permitted retry, or when the first output passes both checks,
    the first output is returned after one call. *)
Lemma single_call_when_no_retry (resume_text job_text interests : string) (w : world) :
  has_key (OPENAI_API_KEY env) = true ->
  let invariants := _extract_contact_bits resume_text in
  let section_order := _detect_section_order resume_text in
  let user := user_prompt invariants section_order resume_text job_text interests in
  (OPENAI_MAX_RETRIES env <= 0)%Z \/
  verified invariants section_order (_call_once env user w).1 = true ->
  _ai_tailor_resume_html env resume_text job_text interests w = _call_once env user w.
Proof.
  intros Hkey invariants section_order user Hcase.
  unfold _ai_tailor_resume_html. rewrite Hkey. cbn [negb].
  fold invariants section_order user.
  clearbody invariants section_order user.
  destruct (_call_once env user w) as [html w1] eqn:Hfirst. cbn [fst] in Hcase.
  rewrite retry_condition.
  destruct Hcase as [Hle | Hok].
  - replace (0 <? OPENAI_MAX_RETRIES env)%Z with false by (symmetry; apply Z.ltb_ge; lia).
    reflexivity.
  - rewrite Hok. cbn [negb]. now rewrite andb_false_r.
Qed.

End Retry.

(** C1. When a retry is permitted and the first post-processed output fails
    the header-invariant check or the section-order check, the builder makes
    exactly one further generation call, with the amended prompt, and
    returns the retry's output when that output passes both checks and the
    first output otherwise; it returns in either case. *)
Theorem retry_once_adopts_only_verified
    (env : tailor_env) (resume_text job_text interests : string) (w : world) :
  has_key (OPENAI_API_KEY env) = true ->
  (0 < OPENAI_MAX_RETRIES env)%Z ->
  let invariants := _extract_contact_bits resume_text in
  let section_order := _detect_section_order resume_text in
  let user := user_prompt invariants section_order resume_text job_text interests in
  let first := _call_once env user w in
  let second := _call_once env (user +:+ retry_suffix) first.2 in
  verified invariants section_order first.1 = false ->
  _ai_tailor_resume_html env resume_text job_text interests w =
  (if verified invariants section_order second.1 then second.1 else first.1,
   w ++ [{| sent_system := system; sent_user := user |};
         {| sent_system := system; sent_user := user +:+ retry_suffix |}]).
Proof.
  intros Hkey Hretry invariants section_order user first second Hfail.
  unfold _ai_tailor_resume_html. rewrite Hkey. cbn [negb].
  fold invariants section_order user.
  pose proof (call_once_log env user w) as Hlog1.
  pose proof (call_once_log env (user +:+ retry_suffix) first.2) as Hlog2.
  fold first in Hlog1. fold second in Hlog2.
  clearbody invariants section_order user.
  subst first. destruct (_call_once env user w) as [html w1] eqn:Hfirst.
  cbn [fst snd] in *. rewrite retry_condition, Hfail.
  replace (0 <? OPENAI_MAX_RETRIES env)%Z with true by (symmetry; apply Z.ltb_lt; lia).
  cbn [negb andb]. subst second.
  destruct (_call_once env (user +:+ retry_suffix) w1) as [html2 w2] eqn:Hsecond.
  cbn [fst snd] in *. fold (verified invariants section_order html2).
  subst w2 w1. rewrite <- app_assoc. cbn [app].
  destruct (verified invariants section_order html2); reflexivity.
Qed.

Lemma retry_once_adopts_only_verified_witness :
  let invariants := _extract_contact_bits sample_resume in
  let section_order := _detect_section_order sample_resume in
  let user := user_prompt invariants section_order sample_resume "job" "" in
  let first := _call_once demo_env user [] in
  let second := _call_once demo_env (user +:+ retry_suffix) first.2 in
  _ai_tailor_resume_html demo_env sample_resume "job" "" [] =
  (if verified invariants section_order second.1 then second.1 else first.1,
   [] ++ [{| sent_system := system; sent_user := user |};
          {| sent_system := system; sent_user := user +:+ retry_suffix |}]).
Proof.
  apply (retry_once_adopts_only_verified demo_env sample_resume "job" "" []).
  - reflexivity.
  - reflexivity.
  - vm_compute. reflexivity.
Defined.

Example retry_adopted :
  verified (_extract_contact_bits sample_resume) (_detect_section_order sample_resume)
    (_ai_tailor_resume_html demo_env sample_resume "job" "" []).1 = true /\
  length (_ai_tailor_resume_html demo_env sample_resume "job" "" []).2 = 2%nat.
Proof. vm_compute. split; reflexivity. Qed.

Lemma single_call_when_no_retry_witness :
  let env := {| OPENAI_API_KEY := Some "sk-demo"; OPENAI_MAX_RETRIES := 0;
                chat_completion := chat_completion demo_env |} in
  let user :=
    user_prompt (_extract_contact_bits sample_resume)
      (_detect_section_order sample_resume) sample_resume "job" "" in
  _ai_tailor_resume_html env sample_resume "job" "" [] = _call_once env user [].
Proof.
  intros env user.
  apply (single_call_when_no_retry env sample_resume "job" "" []).
  - reflexivity.
  - left. cbn. lia.
Defined.

(** A generation call that raises, or that yields nothing but blanks,
    gives the error page with the escaped message, and is logged like any
    other call. *)
Theorem call_once_error_page (env : tailor_env) (prompt_user : string) (w : world) :
  (forall e, chat_completion env (length w) system prompt_user = Raised e ->
     _call_once env prompt_user w =
     (error_page e, w ++ [{| sent_system := system; sent_user := prompt_user |}])) /\
  (forall content,
     chat_completion env (length w) system prompt_user = Returned content ->
     strip content = "" ->
     _call_once env prompt_user w =
     (error_page (OtherError "empty completion"),
      w ++ [{| sent_system := system; sent_user := prompt_user |}])).
Proof.
  split.
  - intros e He. unfold _call_once, _http_chat_completion. now rewrite He.
  - intros content Hc Hs. unfold _call_once, _http_chat_completion.
    rewrite Hc. cbn [bind]. now rewrite Hs.
Qed.

Lemma call_once_error_page_witness :
  (_call_once no_key_env "prompt" []).1 = error_page (OtherError "unreachable").
Proof.
  destruct (call_once_error_page no_key_env "prompt" []) as [H _].
  now rewrite (H (OtherError "unreachable") eq_refl).
Defined.

(** ** [find] and the position of a substring *)
Section Find.

Lemma occurs_at_0 (p s : string) : occurs_at p s 0 <-> startswith p s = true.
Proof.
  rewrite startswith_spec. split.
  - intros [a [b [-> Ha]]]. destruct a; [now exists b | discriminate].
  - intros [r ->]. now exists "", r.
Qed.

Lemma occurs_at_S (p : string) (c : ascii) (s : string) (j : nat) :
  occurs_at p (String c s) (S j) <-> occurs_at p s j.
Proof.
  split.
  - intros [a [b [H Ha]]]. destruct a as [|x a]; [discriminate|].
    simpl in H, Ha. injection H as -> ->. exists a, b. split; [reflexivity | lia].
  - intros [a [b [-> Ha]]]. exists (String c a), b. simpl. split; [reflexivity | lia].
Qed.

Lemma occurs_at_empty (p : string) (j : nat) : occurs_at p "" j -> j = O.
Proof.
  intros [a [b [H Ha]]]. destruct a; [now simpl in Ha | discriminate].
Qed.

Lemma find_range (p s : string) : (find p s = -1 \/ 0 <= find p s)%Z.
Proof.
  induction s as [|c s IH]; simpl.
  - destruct (startswith p ""); lia.
  - destruct (startswith p (String c s)); [lia|].
    destruct (Z.ltb_spec (find p s) 0); lia.
Qed.

Lemma find_absent (p s : string) :
  find p s = (-1)%Z -> forall j, ~ occurs_at p s j.
Proof.
  induction s as [|c s IH]; simpl.
  - destruct (startswith p "") eqn:E; [discriminate|].
    intros _ j H. pose proof (occurs_at_empty _ _ H) as ->.
    apply occurs_at_0 in H. congruence.
  - destruct (startswith p (String c s)) eqn:E; [discriminate|].
    destruct (Z.ltb_spec (find p s) 0) as [Hneg|Hpos]; [|lia].
    intros _ [|j] H.
    + apply occurs_at_0 in H. congruence.
    + apply occurs_at_S in H. revert H. apply IH.
      destruct (find_range p s); lia.
Qed.

Lemma find_position (p s : string) (i : nat) :
  find p s = Z.of_nat i -> position p s i.
Proof.
  revert i. induction s as [|c s IH]; intros i; simpl.
  - destruct (startswith p "") eqn:E; [|lia].
    intros Hi. assert (i = O) as -> by lia.
    split; [now apply occurs_at_0 | intros; lia].
  - destruct (startswith p (String c s)) eqn:E.
    + intros Hi. assert (i = O) as -> by lia.
      split; [now apply occurs_at_0 | intros; lia].
    + destruct (Z.ltb_spec (find p s) 0) as [Hneg|Hpos]; [lia|].
      intros Hi. destruct i as [|i]; [lia|].
      destruct (IH i ltac:(lia)) as [Hocc Hmin].
      split; [now apply occurs_at_S|].
      intros [|j] Hj.
      * apply occurs_at_0 in Hj. congruence.
      * apply occurs_at_S in Hj. apply Hmin in Hj. lia.
Qed.

Lemma position_find (p s : string) (i : nat) :
  position p s i -> find p s = Z.of_nat i.
Proof.
  intros [Hocc Hmin].
  destruct (find_range p s) as [Hneg|Hpos].
  - exfalso. exact (find_absent _ _ Hneg _ Hocc).
  - destruct (find_position p s (Z.to_nat (find p s)) ltac:(lia)) as [Hocc' Hmin'].
    apply Hmin in Hocc'. apply Hmin' in Hocc. lia.
Qed.

Lemma contains_appears (needle html : string) :
  contains (lower needle) (lower html) = true <-> appears_ci needle html.
Proof. apply contains_spec. Qed.

End Find.

(** ** Verification of the generated HTML *)
Section Verification.

Lemma chain_nondecreasing (ps : list nat) : chain (-1) ps <-> nondecreasing ps.
Proof.
  destruct ps as [|i ps]; [reflexivity|].
  simpl chain. transitivity (chain (Z.of_nat i) ps).
  - split; [tauto | intros; split; [lia | assumption]].
  - revert i. induction ps as [|j ps IH]; intros i.
    + reflexivity.
    + simpl. rewrite IH. split; intros [H1 H2]; (split; [lia | assumption]).
Qed.

Lemma order_loop_spec (text_l : string) (hs : list string) (pos : Z) :
  (-1 <= pos)%Z ->
  _order_ok_loop text_l pos hs = true <->
  exists ps : list nat,
    Forall2 (fun h i =>
      position (rstrip_chars ":" (lower (_normalize_heading h))) text_l i) hs ps /\
    chain pos ps.
Proof.
  revert pos. induction hs as [|h hs IH]; intros pos Hpos.
  - split; [intros _; exists []; split; [constructor | exact I] | reflexivity].
  - cbn [_order_ok_loop].
    set (k := rstrip_chars ":" (lower (_normalize_heading h))).
    fold (_order_ok_loop text_l).
    destruct (find_range k text_l) as [Hneg|Hnn].
    + rewrite Hneg. cbn [Z.eqb orb]. split; [discriminate|].
      intros [ps [HF _]]. inversion HF as [|? i ? ? [Hocc _] _]; subst.
      exfalso. exact (find_absent _ _ Hneg _ Hocc).
    + replace (find k text_l =? -1)%Z with false by (symmetry; apply Z.eqb_neq; lia).
      cbn [orb].
      pose proof (find_position k text_l (Z.to_nat (find k text_l)) ltac:(lia)) as Hp.
      destruct (Z.ltb_spec (find k text_l) pos) as [Hlt|Hge].
      * split; [discriminate|].
        intros [ps [HF Hc]]. inversion HF as [|? i ? ps' Hi HF']; subst.
        apply position_find in Hi. fold k in Hi. destruct Hc as [Hc _]. lia.
      * rewrite IH by lia. split.
        -- intros [ps [HF Hc]]. exists (Z.to_nat (find k text_l) :: ps).
           split; [constructor; assumption|].
           split; [lia|]. now rewrite Z2Nat.id by lia.
        -- intros [ps [HF Hc]]. inversion HF as [|? i ? ps' Hi HF']; subst.
           apply position_find in Hi. fold k in Hi. destruct Hc as [Hc1 Hc2].
           exists ps'. split; [assumption|]. now rewrite Hi.
Qed.

Lemma order_ok_spec (section_order : list string) (html : string) :
  _order_ok section_order html = true <-> order_kept section_order html.
Proof.
  unfold order_kept. destruct section_order as [|h hs].
  - split; [intros _; exists []; split; [constructor | exact I] | reflexivity].
  - unfold _order_ok. rewrite order_loop_spec by lia.
    split; intros [ps [HF Hc]]; exists ps; (split; [assumption|]);
      now apply chain_nondecreasing.
Qed.

Lemma truthy_spec (s : string) : truthy s = true <-> s <> "".
Proof. destruct s; simpl; split; congruence. Qed.

Lemma invariants_present_spec (invariants : contact_bits) (html : string) :
  html <> "" ->
  _ensure_invariants_present html invariants = true <-> header_present invariants html.
Proof.
  intros Hne. apply truthy_spec in Hne.
  unfold _ensure_invariants_present, header_present. rewrite Hne. cbn [negb andb].
  rewrite <- !contains_appears.
  destruct (name invariants) as [|a n], (email invariants) as [|b e]; cbn [truthy].
  - split; [intros _; split; congruence | reflexivity].
  - split; [intros H; split; [congruence | now intros _] | intros [_ H]; now apply H].
  - split; [intros H; split; [now intros _ | congruence] | intros [H _]; now apply H].
  - rewrite andb_true_iff. split.
    + intros [H1 H2]. split; now intros _.
    + intros [H1 H2]. split; [now apply H1 | now apply H2].
Qed.

(** The two checks on any non-empty output. *)
Lemma verified_spec (invariants : contact_bits) (section_order : list string)
    (html : string) :
  html <> "" ->
  verified invariants section_order html = true <->
  header_present invariants html /\ order_kept section_order html.
Proof.
  intros Hne. unfold verified.
  now rewrite andb_true_iff, invariants_present_spec, order_ok_spec.
Qed.

(** An empty output fails verification whatever was extracted. *)
Lemma verified_empty (invariants : contact_bits) (section_order : list string) :
  verified invariants section_order "" = false.
Proof. reflexivity. Qed.

End Verification.

(** ** [replace]: what it inserts and what it keeps *)
Section Replace.

Lemma truthy_app (a b : string) : truthy (a +:+ b) = truthy a || truthy b.
Proof. now destruct a. Qed.

Lemma contains_refl (p : string) : contains p p = true.
Proof. apply contains_spec. exists "", "". simpl. now rewrite app_empty_r. Qed.

Lemma contains_cons (p : string) (c : ascii) (s : string) :
  contains p s = true -> contains p (String c s) = true.
Proof. intros H. cbn [contains]. rewrite H. apply orb_true_r. Qed.

Lemma startswith_contains (p s : string) :
  startswith p s = true -> contains p s = true.
Proof. intros H. destruct s; cbn [contains]; now rewrite H. Qed.

Lemma startswith_app (p r : string) : startswith p (p +:+ r) = true.
Proof. apply startswith_spec. now exists r. Qed.

Lemma startswith_app_l (p a b : string) :
  startswith p a = true -> startswith p (a +:+ b) = true.
Proof.
  rewrite !startswith_spec. intros [r ->]. exists (r +:+ b). apply app_assoc_s.
Qed.

Lemma replace_aux_skip (old new : string) (u r : string) (k : nat) :
  replace_aux old new (String.length u + k) (u +:+ r) = replace_aux old new k r.
Proof. induction u as [|c u IH]; simpl; [reflexivity | exact IH]. Qed.

(** At an occurrence of [old] the result continues with [new] and resumes
    behind the occurrence. *)
Lemma replace_aux_hit (old new : string) (r : string) :
  old <> "" ->
  replace_aux old new 0 (old +:+ r) = new +:+ replace_aux old new 0 r.
Proof.
  intros Hne. destruct old as [|b old']; [congruence|].
  pose proof (startswith_app (String b old') r) as Hs.
  change (String b old' +:+ r) with (String b (old' +:+ r)) in *.
  cbn [replace_aux]. rewrite Hs. f_equal.
  replace (String.length (String b old') - 1)%nat with (String.length old' + 0)%nat
    by (simpl; lia).
  apply replace_aux_skip.
Qed.

Lemma replace_aux_miss (old new : string) (c : ascii) (s : string) :
  startswith old (String c s) = false ->
  replace_aux old new 0 (String c s) = String c (replace_aux old new 0 s).
Proof. intros H. cbn [replace_aux]. now rewrite H. Qed.

Lemma truthy_replace (old new : string) (s : string) :
  truthy new = true -> truthy s = true -> truthy (replace old new s) = true.
Proof.
  intros Hnew Hs. unfold replace. destruct old as [|b old'].
  - destruct s; [discriminate|]. cbn [intersperse]. now rewrite truthy_app, Hnew.
  - destruct s as [|c s]; [discriminate|]. cbn [replace_aux].
    destruct (startswith _ _); [|reflexivity].
    now rewrite truthy_app, Hnew.
Qed.

(** Where [old] occurs, the result holds [new]. *)
Lemma contains_replace (old new : string) (s : string) :
  old <> "" -> contains old s = true -> contains new (replace old new s) = true.
Proof.
  intros Hne. unfold replace.
  destruct old as [|b old'] eqn:E; [congruence|]. rewrite <- E in *.
  induction s as [|c s IH]; cbn [contains].
  - rewrite orb_false_r, E. discriminate.
  - destruct (startswith old (String c s)) eqn:Hs.
    + intros _. apply startswith_spec in Hs as [r Hr]. rewrite Hr.
      rewrite replace_aux_hit by assumption.
      apply contains_app_l, contains_refl.
    + cbn [orb]. intros H. rewrite replace_aux_miss by assumption.
      now apply contains_cons, IH.
Qed.

(** Without an occurrence of [old] the text is returned as it is. *)
Lemma replace_absent (old new : string) (s : string) :
  old <> "" -> contains old s = false -> replace old new s = s.
Proof.
  intros Hne. unfold replace.
  destruct old as [|b old'] eqn:E; [congruence|]. rewrite <- E in *.
  induction s as [|c s IH]; cbn [contains]; [reflexivity|].
  intros H. apply orb_false_iff in H as [H1 H2].
  rewrite replace_aux_miss by assumption. now rewrite IH.
Qed.

End Replace.

(** A pattern [p], searched without regard to case, survives the
    replacement of [old] when no occurrence of one can overlap an
    occurrence of the other: they disagree where both start, and the first
    character of each is absent from the rest of the other. *)
Section ReplaceKeeps.

Variables (a b : ascii) (p' old' new : string).
Let p : string := String a p'.
Let old : string := String b old'.

Hypothesis conflict_l : startswith p (lower old) = false.
Hypothesis conflict_r : startswith (lower old) p = false.
Hypothesis not_in_p : mem_char (lower_char b) p' = false.
Hypothesis not_in_old : mem_char a (lower old') = false.

Lemma startswith_app_cases (q x y : string) :
  startswith q (x +:+ y) = true -> startswith q x = true \/ startswith x q = true.
Proof.
  revert x. induction q as [|c q IH]; intros x; [now left|].
  destruct x as [|d x]; [now right|].
  cbn [String.append startswith].
  destruct (Ascii.eqb_spec c d) as [->|Hne]; [|discriminate].
  rewrite Ascii.eqb_refl. apply IH.
Qed.

Lemma old_excludes_p (s : string) :
  startswith old s = true -> startswith p (lower s) = false.
Proof.
  intros H. apply startswith_spec in H as [r ->]. rewrite lower_app.
  destruct (startswith p (lower old +:+ lower r)) eqn:E; [|reflexivity].
  apply startswith_app_cases in E as [E|E]; congruence.
Qed.

Lemma contains_skip (x y : string) :
  mem_char a x = false -> contains p (x +:+ y) = true -> contains p y = true.
Proof.
  induction x as [|c x IH]; [now intros _|].
  cbn [mem_char String.append contains]. intros Hm.
  apply orb_false_iff in Hm as [Hc Hx].
  unfold p at 1. cbn [startswith]. rewrite Hc. cbn [orb]. now apply IH.
Qed.

Lemma copy_prefix (q s : string) :
  mem_char (lower_char b) q = false ->
  startswith q (lower s) = true ->
  exists w r, s = w +:+ r /\ lower w = q /\
    replace_aux old new 0 s = w +:+ replace_aux old new 0 r.
Proof.
  revert s. induction q as [|x q IH]; intros s Hm Hs.
  - now exists "", s.
  - destruct s as [|c s]; [discriminate|].
    cbn [lower startswith] in Hs. cbn [mem_char] in Hm.
    apply orb_false_iff in Hm as [Hx Hq].
    destruct (Ascii.eqb_spec x (lower_char c)) as [->|]; [|discriminate].
    assert (Hbc : Ascii.eqb b c = false).
    { destruct (Ascii.eqb_spec b c) as [->|]; [|reflexivity].
      now rewrite Ascii.eqb_refl in Hx. }
    destruct (IH s Hq Hs) as [w [r [-> [Hw Hr]]]].
    exists (String c w), r. repeat split.
    + cbn [lower]. now rewrite Hw.
    + rewrite replace_aux_miss; [now rewrite Hr|].
      unfold old. cbn [startswith]. now rewrite Hbc.
Qed.

Lemma replace_keeps_here (s : string) :
  startswith p (lower s) = true ->
  contains p (lower (replace_aux old new 0 s)) = true.
Proof.
  intros Hs. destruct s as [|c s]; [discriminate|].
  assert (Hold : startswith old (String c s) = false).
  { destruct (startswith old (String c s)) eqn:E; [|reflexivity].
    apply old_excludes_p in E. congruence. }
  rewrite replace_aux_miss by assumption.
  unfold p in Hs. cbn [lower startswith] in Hs.
  destruct (Ascii.eqb_spec a (lower_char c)) as [Ha|]; [|discriminate].
  destruct (copy_prefix p' s not_in_p Hs) as [w [r [-> [Hw Hr]]]].
  apply startswith_contains. rewrite Hr. cbn [lower]. rewrite lower_app, Hw.
  unfold p. cbn [startswith]. rewrite <- Ha, Ascii.eqb_refl.
  apply startswith_app.
Qed.

Lemma replace_keeps_bounded (n : nat) (s : string) :
  (String.length s <= n)%nat ->
  contains p (lower s) = true ->
  contains p (lower (replace_aux old new 0 s)) = true.
Proof.
  revert s. induction n as [|n IH]; intros s Hlen Hc.
  - destruct s; [discriminate | simpl in Hlen; lia].
  - destruct s as [|c s]; [discriminate|].
    destruct (startswith old (String c s)) eqn:Hold.
    + pose proof (old_excludes_p _ Hold) as Hnot.
      apply startswith_spec in Hold as [r Hr]. rewrite Hr in *.
      rewrite replace_aux_hit by discriminate.
      rewrite lower_app. apply contains_app_r. apply IH.
      * rewrite length_app in Hlen. unfold old in Hlen. simpl in Hlen. lia.
      * rewrite lower_app in Hc, Hnot. unfold old in Hc, Hnot.
        cbn [lower String.append contains] in Hc.
        cbn [lower String.append] in Hnot. rewrite Hnot in Hc. cbn [orb] in Hc.
        now apply (contains_skip (lower old') (lower r)).
    + rewrite replace_aux_miss by assumption.
      cbn [lower contains] in Hc. apply orb_true_iff in Hc as [Hc|Hc].
      * rewrite <- (replace_aux_miss old new c s Hold).
        now apply replace_keeps_here.
      * cbn [lower]. apply contains_cons. apply IH; [simpl in Hlen; lia | assumption].
Qed.

Lemma replace_keeps (s : string) :
  contains p (lower s) = true -> contains p (lower (replace old new s)) = true.
Proof. apply (replace_keeps_bounded (String.length s)). lia. Qed.

End ReplaceKeeps.

(** ** Post-processing of a generation result *)
Section PostProcess.

#[local] Opaque css.

Lemma post_process_unfold (html : string) :
  post_process html =
  let h1 := with_doctype html in
  if negb (contains "<style" (lower h1)) then
    if contains "<head>" h1 then replace "<head>" ("<head>" +:+ nl +:+ css) h1
    else "<!doctype html><html><head>" +:+ css +:+ "</head><body>" +:+ h1 +:+
         "</body></html>"
  else if negb (contains "li{color" h1) then
    replace "</style>" ("li{color:#fff}" +:+ nl +:+ "</style>") h1
  else h1.
Proof.
  unfold post_process. fold (with_doctype html). cbv zeta.
  destruct (negb (contains "<style" (lower (with_doctype html)))); [|reflexivity].
  destruct (contains "<head>" (with_doctype html)); [reflexivity|].
  unfold or_else.
  destruct (negb (contains "<html" (lower (with_doctype html)))).
  - destruct (truthy (with_doctype html)); reflexivity.
  - reflexivity.
Qed.

(** The doctype line neither adds nor hides what the later tests look for. *)
Lemma with_doctype_tests (html : string) :
  contains "<style" (lower (with_doctype html)) = contains "<style" (lower html) /\
  contains "<head>" (with_doctype html) = contains "<head>" html /\
  contains "li{color" (with_doctype html) = contains "li{color" html /\
  contains "</style>" (with_doctype html) = contains "</style>" html.
Proof.
  unfold with_doctype.
  destruct (negb (contains "<!doctype" (lower html))); repeat split; reflexivity.
Qed.

Lemma with_doctype_has_doctype (html : string) :
  contains "<!doctype" (lower (with_doctype html)) = true.
Proof.
  unfold with_doctype.
  destruct (contains "<!doctype" (lower html)) eqn:E; cbn [negb]; [exact E|].
  reflexivity.
Qed.

Lemma contains_lower (p x : string) :
  contains p x = true -> contains (lower p) (lower x) = true.
Proof.
  rewrite !contains_spec. intros [u [v ->]].
  exists (lower u), (lower v). now rewrite !lower_app.
Qed.

Lemma contains_trans (p q s : string) :
  contains p q = true -> contains q s = true -> contains p s = true.
Proof.
  rewrite !contains_spec. intros [u [v ->]] [x [y ->]].
  exists (x +:+ u), (v +:+ y). now rewrite !app_assoc_s.
Qed.

Lemma post_process_doctype (html : string) :
  contains "<!doctype" (lower (post_process html)) = true.
Proof.
  rewrite post_process_unfold. cbv zeta.
  pose proof (with_doctype_has_doctype html) as H.
  destruct (negb (contains "<style" (lower (with_doctype html)))).
  - destruct (contains "<head>" (with_doctype html)).
    + now apply (replace_keeps "<" "<" "!doctype" "head>").
    + rewrite lower_app. now apply contains_app_l.
  - destruct (negb (contains "li{color" (with_doctype html))).
    + now apply (replace_keeps "<" "<" "!doctype" "/style>").
    + exact H.
Qed.

Lemma css_has_style : contains "<style" (lower css) = true.
Proof. vm_compute. reflexivity. Qed.

Lemma post_process_style (html : string) :
  contains "<style" (lower (post_process html)) = true.
Proof.
  rewrite post_process_unfold. cbv zeta.
  destruct (contains "<style" (lower (with_doctype html))) eqn:Hstyle; cbn [negb].
  - destruct (negb (contains "li{color" (with_doctype html))).
    + now apply (replace_keeps "<" "<" "style" "/style>").
    + exact Hstyle.
  - destruct (contains "<head>" (with_doctype html)) eqn:Hhead.
    + apply (contains_trans _ (lower ("<head>" +:+ nl +:+ css))).
      * rewrite !lower_app. apply contains_app_r, contains_app_r, css_has_style.
      * apply contains_lower. now apply contains_replace.
    + rewrite !lower_app. apply contains_app_r, contains_app_l, css_has_style.
Qed.

Lemma post_process_prepends (html : string) :
  contains "<!doctype" (lower html) = false ->
  startswith "<!doctype html>" (post_process html) = true.
Proof.
  intros Hno. rewrite post_process_unfold. cbv zeta.
  assert (Hh1 : with_doctype html = "<!doctype html>" +:+ nl +:+ html).
  { unfold with_doctype. now rewrite Hno. }
  assert (Hs : startswith "<!doctype html>" (with_doctype html) = true).
  { rewrite Hh1. apply startswith_app. }
  destruct (negb (contains "<style" (lower (with_doctype html)))).
  - destruct (contains "<head>" (with_doctype html)).
    + rewrite Hh1. unfold replace.
      change ("<!doctype html>" +:+ nl +:+ html)
        with ("<!doctype html>" +:+ (nl +:+ html)).
      generalize (nl +:+ html). intros r. reflexivity.
    + reflexivity.
  - destruct (negb (contains "li{color" (with_doctype html))).
    + rewrite Hh1. unfold replace. generalize (nl +:+ html). intros r. reflexivity.
    + exact Hs.
Qed.

End PostProcess.

(** C4, as stated, fails in three ways.  A result that carries its doctype
    behind some leading text is returned with that text in front, so the
    output does not begin with a doctype declaration.  A result that holds
    the characters ["<style"] in another tag counts as styled: it gets no
    style block, and none is in the output.  A result whose style block is
    closed by a tag that is not the literal ["</style>"] gets no
    list-item colour rule, although its block sets none. *)
Lemma post_process_claim_fails :
  (let result :=
     "Here is the resume: <!doctype html><html><head><style>li{color:#fff}</style>" +:+
     "</head><body><p>Jane Doe</p></body></html>" in
   truthy result = true /\
   post_process result = result /\
   startswith "<!doctype" (lower (post_process result)) = false) /\
  (let result := "<html><body><p>See the <styleguide> note</p></body></html>" in
   truthy result = true /\
   post_process result = "<!doctype html>" +:+ nl +:+ result /\
   contains "<style>" (lower (post_process result)) = false /\
   contains "</style>" (lower (post_process result)) = false) /\
  (let result :=
     "<!doctype html><html><head><STYLE>p{margin:0}</STYLE></head>" +:+
     "<body><ul><li>x</li></ul></body></html>" in
   truthy result = true /\
   contains "<style" (lower result) = true /\
   contains "li{color" result = false /\
   post_process result = result /\
   contains "li{color" (post_process result) = false).
Proof. vm_compute. repeat split; reflexivity. Qed.

(** C4, amended.  For every generation result the post-processed HTML
    contains the characters ["<!doctype"] in some letter case, and begins
    with ["<!doctype html>"] when the result held them nowhere (the line is
    then put in front).  It contains the characters ["<style"] in some
    letter case: when the result lacks them, the default style block is
    injected behind each literal ["<head>"], or, when there is no literal
    ["<head>"], the whole text is wrapped in a minimal document that holds
    the default block.  When the result holds ["<style"] in some letter
    case but not the literal ["li{color"], the list-item colour rule is put
    before each literal closing tag ["</style>"], and the text is left as
    it is when there is no such tag; a result that holds both ["<style"]
    and ["li{color"] is left as it is.  [h1] is the result behind its
    doctype line. *)
Theorem post_process_ensures (html : string) :
  let out := post_process html in
  let h1 := with_doctype html in
  contains "<!doctype" (lower out) = true /\
  (contains "<!doctype" (lower html) = false ->
   startswith "<!doctype html>" out = true) /\
  contains "<style" (lower out) = true /\
  (contains "<style" (lower html) = false -> contains "<head>" html = true ->
   out = replace "<head>" ("<head>" +:+ nl +:+ css) h1 /\
   contains ("<head>" +:+ nl +:+ css) out = true) /\
  (contains "<style" (lower html) = false -> contains "<head>" html = false ->
   out = "<!doctype html><html><head>" +:+ css +:+ "</head><body>" +:+ h1 +:+
         "</body></html>") /\
  (contains "<style" (lower html) = true -> contains "li{color" html = false ->
   out = replace "</style>" ("li{color:#fff}" +:+ nl +:+ "</style>") h1 /\
   (contains "</style>" html = true ->
    contains ("li{color:#fff}" +:+ nl +:+ "</style>") out = true) /\
   (contains "</style>" html = false -> out = h1)) /\
  (contains "<style" (lower html) = true -> contains "li{color" html = true ->
   out = h1).
Proof.
  intros out h1. subst out h1.
  destruct (with_doctype_tests html) as [Hstyle [Hhead [Hli Hend]]].
  split; [apply post_process_doctype|].
  split; [apply post_process_prepends|].
  split; [apply post_process_style|].
  rewrite post_process_unfold. cbv zeta. rewrite Hstyle, Hhead, Hli.
  split; [|split; [|split]].
  - intros Hs Hh. rewrite Hs, Hh. cbn [negb]. split; [reflexivity|].
    apply contains_replace; [discriminate|]. now rewrite Hhead.
  - intros Hs Hh. rewrite Hs, Hh. reflexivity.
  - intros Hs Hl. rewrite Hs, Hl. cbn [negb]. split; [reflexivity|]. split.
    + intros He. apply contains_replace; [discriminate|]. now rewrite Hend.
    + intros He. apply replace_absent; [discriminate|]. now rewrite Hend.
  - intros Hs Hl. rewrite Hs, Hl. reflexivity.
Qed.

Lemma post_process_ensures_witness :
  let html := "<html><body><style>p{margin:0}</style><ul><li>x</li></ul></body></html>" in
  contains ("li{color:#fff}" +:+ nl +:+ "</style>") (post_process html) = true /\
  startswith "<!doctype html>" (post_process html) = true.
Proof.
  intros html.
  destruct (post_process_ensures html) as (_ & Hdoc & _ & _ & _ & Hli & _).
  split.
  - apply Hli; vm_compute; reflexivity.
  - apply Hdoc. vm_compute. reflexivity.
Defined.

(** ** The generated HTML is never empty *)
Lemma post_process_truthy (html : string) :
  truthy html = true -> truthy (post_process html) = true.
Proof.
  intros Hne. rewrite post_process_unfold. cbv zeta.
  assert (H1 : truthy (with_doctype html) = true).
  { unfold with_doctype. now destruct (negb _). }
  destruct (negb (contains "<style" (lower (with_doctype html)))).
  - destruct (contains "<head>" (with_doctype html)); [|reflexivity].
    now apply truthy_replace.
  - destruct (negb (contains "li{color" (with_doctype html))); [|exact H1].
    now apply truthy_replace.
Qed.

Lemma call_once_truthy (env : tailor_env) (prompt_user : string) (w : world) :
  truthy (_call_once env prompt_user w).1 = true.
Proof.
  unfold _call_once, _http_chat_completion.
  destruct (chat_completion env (length w) system prompt_user) as [content|e];
    cbn [bind].
  - destruct (truthy (strip content)) eqn:E; cbn [negb fst].
    + now apply post_process_truthy.
    + reflexivity.
  - reflexivity.
Qed.

(** ** The rendering without a credential *)
Section Fallback.

Lemma replace_one_char (d : ascii) (new s : string) :
  replace (String d "") new s = subst_char d new s.
Proof.
  unfold replace. induction s as [|c s IH]; [reflexivity|].
  cbn [replace_aux startswith String.length Nat.sub subst_char].
  destruct (Ascii.eqb d c); rewrite IH; reflexivity.
Qed.

Lemma subst_char_app (d : ascii) (new a b : string) :
  subst_char d new (a +:+ b) = subst_char d new a +:+ subst_char d new b.
Proof.
  induction a as [|c a IH]; [reflexivity|].
  cbn [String.append subst_char]. now rewrite IH, app_assoc_s.
Qed.

(** The two replacements of the source escape each angle bracket once:
    the entity written for ["<"] holds no [">"]. *)
Lemma safe_resume_escape_angle (resume_text : string) :
  replace ">" "&gt;" (replace "<" "&lt;" resume_text) = escape_angle resume_text.
Proof.
  rewrite !replace_one_char.
  induction resume_text as [|c s IH]; [reflexivity|].
  cbn [subst_char escape_angle]. rewrite subst_char_app, IH. f_equal.
  rewrite (Ascii.eqb_sym "<" c).
  destruct (Ascii.eqb_spec c "<") as [->|Hlt]; [reflexivity|].
  cbn [subst_char]. rewrite (Ascii.eqb_sym ">" c).
  destruct (Ascii.eqb c ">"); reflexivity.
Qed.

Lemma or_else_empty (a : string) : or_else a "" = a.
Proof. now destruct a. Qed.

End Fallback.

(** C3. Without a generation credential the builder returns, whatever the
    resume, the job text and the interests are, and without any generation
    call, the fixed page: the opening lines with the doctype, the header
    with the escaped name (or its placeholder), email, phone and links, and
    a preformatted block holding the resume text with each ["<"] and [">"]
    escaped. *)
Theorem fallback_without_credential
    (env : tailor_env) (resume_text job_text interests : string) (w : world) :
  has_key (OPENAI_API_KEY env) = false ->
  let invariants := _extract_contact_bits resume_text in
  let header :=
    "<h1>" +:+ escape (or_else (name invariants) "Your Name") +:+ "</h1>" +:+ nl +:+
    "<div class=" +:+ dq +:+ "muted" +:+ dq +:+ ">" +:+
      escape (email invariants) +:+ " " +:+ escape (phone invariants) +:+
    "</div>" +:+ nl +:+
    "<p class=" +:+ dq +:+ "muted" +:+ dq +:+ ">" +:+
      join " • " (map escape (links invariants)) +:+ "</p>" +:+ nl in
  let pre_block :=
    "<pre style=" +:+ dq +:+ "white-space:pre-wrap" +:+ dq +:+ ">" +:+
    escape_angle resume_text +:+ "</pre>" in
  _ai_tailor_resume_html env resume_text job_text interests w =
  (fallback_head +:+ header +:+ "<h2>Original (not parsed)</h2>" +:+ nl +:+
   pre_block +:+ nl +:+ "</div>" +:+ nl +:+ "</html>", w) /\
  startswith "<!doctype html>" fallback_head = true.
Proof.
  intros Hkey invariants header pre_block. split; [|reflexivity].
  unfold _ai_tailor_resume_html. rewrite Hkey. cbn [negb].
  fold invariants. unfold fallback_html. cbv zeta.
  rewrite safe_resume_escape_angle, !or_else_empty.
  subst header pre_block. clearbody invariants.
  generalize (escape_angle resume_text) as safe.
  generalize (escape (or_else (name invariants) "Your Name")) as n.
  generalize (escape (email invariants)) as e.
  generalize (escape (phone invariants)) as ph.
  generalize (join " • " (map escape (links invariants))) as ls.
  intros. f_equal. f_equal. rewrite !app_assoc_s. reflexivity.
Qed.

Lemma fallback_without_credential_witness :
  let out := _ai_tailor_resume_html no_key_env "Jane <Doe>" "job" "" [] in
  out.2 = [] /\
  contains ("<pre style=" +:+ dq +:+ "white-space:pre-wrap" +:+ dq +:+
            ">Jane &lt;Doe&gt;</pre>") out.1 = true.
Proof.
  intros out. subst out.
  destruct (fallback_without_credential no_key_env "Jane <Doe>" "job" "" [] eq_refl)
    as [H _].
  cbv zeta in H. rewrite H. split; vm_compute; reflexivity.
Defined.

Example fallback_ex :
  contains ("<pre style=" +:+ dq +:+ "white-space:pre-wrap" +:+ dq +:+
            ">Jane &lt;Doe&gt; &amp; co</pre>")
    (_ai_tailor_resume_html
       {| OPENAI_API_KEY := Some ""; OPENAI_MAX_RETRIES := 1;
          chat_completion := fun _ _ _ => Raised (OtherError "unreachable") |}
       "Jane <Doe> &amp; co" "job" "" []).1 = true.
Proof. vm_compute. reflexivity. Qed.

(** ** The matcher lists exactly the matches *)
Section Matcher.

Lemma run_spec (p : ascii -> bool) (s : string) (n : nat) :
  (n <= run p s)%nat <->
  (n <= String.length s)%nat /\ all_str p (slice_to n s) = true.
Proof.
  revert n. induction s as [|c s IH]; intros n; cbn [run String.length].
  - destruct n; cbn [slice_to all_str]; split; try lia; intros; split; (lia || reflexivity).
  - destruct n as [|n]; cbn [slice_to all_str].
    + split; [intros _; split; [lia | reflexivity] | lia].
    + destruct (p c); cbn [andb].
      * rewrite <- Nat.succ_le_mono, IH. split; intros [H1 H2]; (split; [lia | assumption]).
      * split; [lia | intros [_ H]; discriminate].
Qed.

Lemma rep_lens_spec (g : bool) (p : ascii -> bool) (lo : nat) (hi : option nat)
    (s : string) (n : nat) :
  In n (rep_lens g p lo hi s) <-> (lo <= n <= rep_upper p hi s)%nat.
Proof.
  unfold rep_lens. destruct g; [rewrite <- in_rev|]; rewrite in_seq; lia.
Qed.

Lemma matches_eps (w : string) : matches Eps w <-> w = "".
Proof. split; [inversion 1; reflexivity | intros ->; constructor]. Qed.

Lemma slice_to_0 (s : string) : slice_to 0 s = "".
Proof. now destruct s. Qed.

Lemma slice_to_empty (n : nat) (s : string) :
  (n <= String.length s)%nat -> slice_to n s = "" -> n = O.
Proof.
  intros Hn H. apply (f_equal String.length) in H.
  rewrite length_slice_to in H by assumption. exact H.
Qed.

Lemma slice_from_app_exact' (a b : string) (n : nat) :
  n = String.length a -> slice_from n (a +:+ b) = b.
Proof. intros ->. apply slice_from_app_exact. Qed.

(** A prefix of [s] that is [w1 +:+ w2] splits at the length of [w1]. *)
Lemma slice_to_split (s w1 w2 : string) (n : nat) :
  (n <= String.length s)%nat -> slice_to n s = w1 +:+ w2 ->
  n = (String.length w1 + String.length w2)%nat /\
  slice_to (String.length w1) s = w1 /\
  slice_to (String.length w2) (slice_from (String.length w1) s) = w2.
Proof.
  intros Hn H.
  assert (Hlen : n = (String.length w1 + String.length w2)%nat).
  { apply (f_equal String.length) in H.
    rewrite length_slice_to, length_app in H by assumption. exact H. }
  split; [exact Hlen|].
  rewrite <- (slice_to_from n s), H, app_assoc_s.
  rewrite slice_to_app_exact, slice_from_app_exact, slice_to_app_exact.
  split; reflexivity.
Qed.

Theorem mlens_spec (r : regex) (s : string) (n : nat) :
  In n (mlens r s) <->
  (n <= String.length s)%nat /\ matches r (slice_to n s).
Proof.
  revert s n. induction r as [|p|r1 IH1 r2 IH2|r1 IH1 r2 IH2|r1 IH1|g p lo hi];
    intros s n; cbn [mlens].
  - (* Eps *)
    rewrite matches_eps. split.
    + intros [<-|[]]. split; [lia | apply slice_to_0].
    + intros [Hn H]. left. symmetry. eapply slice_to_empty; eassumption.
  - (* Cls *)
    destruct s as [|c s].
    + split; [intros [] | intros [Hn H]].
      simpl in Hn. assert (n = O) as -> by lia. inversion H.
    + destruct (p c) eqn:Hp.
      * split.
        -- intros [<-|[]]. split; [simpl; lia | now constructor].
        -- intros [Hn H]. left. destruct n as [|[|n]]; [inversion H | reflexivity |].
           cbn [slice_to] in H. inversion H as [|? ? ? Heq| | | | | |]; subst.
           destruct s; [simpl in Hn; lia | discriminate].
      * split; [intros [] | intros [Hn H]].
        destruct n as [|n]; [inversion H|].
        cbn [slice_to] in H. inversion H; subst. congruence.
  - (* Seq *)
    rewrite in_flat_map. split.
    + intros [n1 [H1 H2]]. apply in_map_iff in H2 as [n2 [<- H2]].
      apply IH1 in H1 as [Hn1 Hm1]. apply IH2 in H2 as [Hn2 Hm2].
      rewrite length_slice_from in Hn2. split; [lia|].
      rewrite slice_to_add. now constructor.
    + intros [Hn H]. inversion H; subst.
      match goal with
      | Heq : ?w1 +:+ ?w2 = slice_to _ _ |- _ =>
          symmetry in Heq;
          destruct (slice_to_split _ _ _ _ Hn Heq) as [Hlen [Hw1 Hw2]];
          exists (String.length w1); split;
          [ apply IH1; split; [lia | now rewrite Hw1]
          | apply in_map_iff; exists (String.length w2); split; [lia|];
            apply IH2; rewrite length_slice_from; split; [lia | now rewrite Hw2] ]
      end.
  - (* Alt *)
    rewrite in_app_iff, IH1, IH2. split.
    + intros [[Hn H]|[Hn H]]; (split; [assumption|]); [now apply M_alt_l | now apply M_alt_r].
    + intros [Hn H]. inversion H; subst; [left | right]; now split.
  - (* Opt *)
    rewrite in_app_iff, IH1. split.
    + intros [[Hn H]|[<-|[]]].
      * split; [assumption | now apply M_opt_some].
      * split; [lia |]. rewrite slice_to_0. apply M_opt_none.
    + intros [Hn H]. inversion H; subst.
      * left. now split.
      * right. left. symmetry. eapply slice_to_empty; [eassumption | now symmetry].
  - (* Rep *)
    rewrite rep_lens_spec. split.
    + intros [Hlo Hup].
      assert (Hrun : (n <= run p s)%nat).
      { unfold rep_upper in Hup. destruct hi; lia. }
      apply run_spec in Hrun as [Hn Hall]. split; [assumption|].
      constructor; rewrite ?length_slice_to by assumption; try assumption.
      unfold rep_upper in Hup. destruct hi; simpl; [lia | exact I].
    + intros [Hn H]. inversion H as [| | | | | | |? ? ? ? ? Hall Hlo Hhi]; subst.
      rewrite length_slice_to in Hlo, Hhi by assumption.
      assert (Hrun : (n <= run p s)%nat) by (apply run_spec; now split).
      split; [assumption|]. unfold rep_upper. destruct hi; simpl in Hhi; lia.
Qed.

(** A match at offset [i] is a match length listed for the text from
    [i] on. *)
Lemma match_at_mlens (r : regex) (s : string) (i : nat) (w : string) :
  match_at r s i w <->
  (i <= String.length s)%nat /\ In (String.length w) (mlens r (slice_from i s)) /\
  w = slice_to (String.length w) (slice_from i s).
Proof.
  split.
  - intros [a [b [-> [<- Hm]]]].
    rewrite slice_from_app_exact, slice_to_app_exact, length_app.
    split; [lia|]. split; [|reflexivity].
    apply mlens_spec. rewrite length_app, slice_to_app_exact. split; [lia | assumption].
  - intros [Hi [Hin Hw]]. apply mlens_spec in Hin as [Hn Hm].
    exists (slice_to i s), (slice_from (String.length w) (slice_from i s)).
    split; [|split].
    + rewrite Hw at 1. now rewrite slice_to_from, slice_to_from.
    + now apply length_slice_to.
    + now rewrite Hw.
Qed.

End Matcher.

(** ** [search] reports the leftmost match *)
Section Search.

Lemma slice_from_empty (k : nat) : slice_from k "" = "".
Proof. now destruct k. Qed.

Lemma search_from_spec (r : regex) (s : string) (i : nat) :
  match search_from r i s with
  | Some (j, n) =>
      exists k, j = (i + k)%nat /\ (k <= String.length s)%nat /\
        (exists rest, mlens r (slice_from k s) = n :: rest) /\
        forall k', (k' < k)%nat -> mlens r (slice_from k' s) = []
  | None => forall k, (k <= String.length s)%nat -> mlens r (slice_from k s) = []
  end.
Proof.
  revert i. induction s as [|c s IH]; intros i; cbn [search_from].
  - destruct (mlens r "") as [|n rest] eqn:E.
    + intros k _. now rewrite slice_from_empty.
    + exists O. repeat split; [lia | simpl; lia | now exists rest | lia].
  - destruct (mlens r (String c s)) as [|n rest] eqn:E.
    + specialize (IH (S i)). destruct (search_from r (S i) s) as [[j n]|].
      * destruct IH as [k [-> [Hk [Hhead Hbefore]]]].
        exists (S k). repeat split; [lia | simpl; lia | exact Hhead |].
        intros [|k'] Hlt; [exact E | apply Hbefore; lia].
      * intros [|k] Hk; [exact E | apply IH; simpl in Hk; lia].
    + exists O. repeat split; [lia | simpl; lia | now exists rest | lia].
Qed.

Theorem search_spec (r : regex) (s : string) :
  match search r s with
  | Some (i, n) =>
      match_at r s i (slice_to n (slice_from i s)) /\
      forall j w, match_at r s j w -> (i <= j)%nat
  | None => forall j w, ~ match_at r s j w
  end.
Proof.
  unfold search. pose proof (search_from_spec r s O) as H.
  destruct (search_from r O s) as [[i n]|].
  - destruct H as [k [-> [Hk [[rest Hhead] Hbefore]]]]. cbn [Nat.add].
    assert (Hin : In n (mlens r (slice_from k s))) by (rewrite Hhead; now left).
    pose proof Hin as Hin'. apply mlens_spec in Hin' as [Hn Hm].
    split.
    + apply match_at_mlens. rewrite length_slice_to by assumption.
      repeat split; assumption.
    + intros j w Hj. apply match_at_mlens in Hj as [_ [Hj _]].
      destruct (Nat.le_gt_cases k j) as [|Hlt]; [assumption|].
      rewrite (Hbefore j Hlt) in Hj. destruct Hj.
  - intros j w Hj. apply match_at_mlens in Hj as [Hle [Hj _]].
    rewrite (H j Hle) in Hj. destruct Hj.
Qed.

Lemma findall_matches (r : regex) (s : string) (k : nat) :
  Forall (matches r) (findall_aux r k s).
Proof.
  revert k. induction s as [|c s IH]; intros k; cbn [findall_aux]; [constructor|].
  destruct k as [|k]; [|apply IH].
  destruct (mlens r (String c s)) as [|n rest] eqn:E; [apply IH|].
  constructor; [|apply IH].
  assert (Hin : In n (mlens r (String c s))) by (rewrite E; now left).
  now apply mlens_spec in Hin as [_ Hm].
Qed.

End Search.

(** ** The keyword test of the name scan *)
Section Keywords.

Lemma mlens_lit_ci (k s : string) :
  mlens (lit_ci k) s =
  if startswith (lower k) (lower s) then [String.length k] else [].
Proof.
  revert s. induction k as [|c k IH]; intros s; [reflexivity|].
  cbn [lit_ci mlens]. destruct s as [|d s]; [reflexivity|].
  cbn [lower startswith]. unfold ci.
  rewrite (Ascii.eqb_sym (lower_char d) (lower_char c)).
  destruct (Ascii.eqb (lower_char c) (lower_char d)); [|reflexivity].
  cbn [flat_map slice_from]. rewrite IH, app_nil_r.
  destruct (startswith (lower k) (lower s)); reflexivity.
Qed.

Lemma keyword_search (ln : string) (i : nat) :
  match search_from KEYWORD_RE i ln with
  | Some _ => has_keyword ln = true
  | None => has_keyword ln = false
  end.
Proof.
  unfold has_keyword, KEYWORDS. cbn [existsb].
  revert i. induction ln as [|c s IH]; intros i.
  - reflexivity.
  - cbn [search_from]. unfold KEYWORD_RE at 1. cbn [mlens].
    rewrite !mlens_lit_ci.
    change (lower "education") with "education".
    change (lower "experience") with "experience".
    change (lower "projects") with "projects".
    change (lower "skills") with "skills".
    specialize (IH (S i)).
    cbn [lower contains].
    destruct (startswith "education" (String (lower_char c) (lower s)));
      [reflexivity|].
    destruct (startswith "experience" (String (lower_char c) (lower s)));
      [cbn [orb]; now rewrite ?orb_true_r|].
    destruct (startswith "projects" (String (lower_char c) (lower s)));
      [cbn [orb]; now rewrite ?orb_true_r|].
    destruct (startswith "skills" (String (lower_char c) (lower s)));
      [cbn [orb]; now rewrite ?orb_true_r|].
    cbn [app orb]. rewrite orb_false_r in IH.
    destruct (search_from KEYWORD_RE (S i) s); rewrite orb_false_r; exact IH.
Qed.

Lemma name_scan_spec (lines : list string) :
  name_scan lines =
  first_or_empty (List.find (fun ln => negb (has_keyword ln)) lines).
Proof.
  induction lines as [|ln rest IH]; [reflexivity|].
  cbn [name_scan List.find]. unfold search.
  pose proof (keyword_search ln O) as H.
  destruct (search_from KEYWORD_RE O ln); rewrite H; cbn [negb]; [exact IH | reflexivity].
Qed.

End Keywords.

(** ** Deduplication keeps first occurrences *)
Section FirstBy.

Variable key : string -> string.

Lemma filter_filter (f g : string -> bool) (l : list string) :
  List.filter f (List.filter g l) = List.filter (fun y => g y && f y) l.
Proof.
  induction l as [|x l IH]; [reflexivity|].
  cbn [List.filter]. destruct (g x); cbn [List.filter andb]; now rewrite IH.
Qed.

Lemma fresh_seen (seen : gset string) (x : string) (l : list string) :
  key x ∈ seen ->
  List.filter (fresh key seen) (List.filter (other_key key x) l) =
  List.filter (fresh key seen) l.
Proof.
  intros Hx. rewrite filter_filter. apply List.filter_ext. intros y.
  unfold other_key, fresh.
  destruct (String.eqb_spec (key y) (key x)) as [E|]; [|reflexivity].
  cbn [negb andb]. rewrite E. symmetry. apply negb_false_iff.
  now apply bool_decide_eq_true.
Qed.

Lemma fresh_insert (seen : gset string) (x : string) (l : list string) :
  List.filter (fresh key ({[key x]} ∪ seen)) l =
  List.filter (fresh key seen) (List.filter (other_key key x) l).
Proof.
  rewrite filter_filter. apply List.filter_ext. intros y.
  unfold other_key, fresh.
  destruct (String.eqb_spec (key y) (key x)) as [E|E]; cbn [negb andb].
  - apply negb_false_iff, bool_decide_eq_true.
    apply elem_of_union_l, elem_of_singleton. exact E.
  - f_equal. apply bool_decide_ext.
    rewrite elem_of_union, elem_of_singleton. tauto.
Qed.

Lemma fold_seen_step (l : list string) (acc : list string) (seen : gset string) :
  (fold_left (seen_step key) l (acc, seen)).1 =
  acc ++ List.filter (fresh key seen) (first_by key l).
Proof.
  revert acc seen. induction l as [|x r IH]; intros acc seen.
  - cbn. now rewrite app_nil_r.
  - cbn [fold_left first_by]. unfold seen_step at 2. cbn [fst snd].
    destruct (decide (key x ∈ seen)) as [Hin|Hout].
    + rewrite IH. cbn [List.filter].
      replace (fresh key seen x) with false
        by (symmetry; apply negb_false_iff; now apply bool_decide_eq_true).
      fold (other_key key x). now rewrite fresh_seen.
    + rewrite IH. cbn [List.filter].
      replace (fresh key seen x) with true
        by (symmetry; apply negb_true_iff; now apply bool_decide_eq_false).
      fold (other_key key x). rewrite fresh_insert, <- app_assoc. reflexivity.
Qed.

Lemma filter_fresh_empty (l : list string) : List.filter (fresh key ∅) l = l.
Proof.
  induction l as [|x l IH]; [reflexivity|]. cbn [List.filter].
  replace (fresh key ∅ x) with true; [now rewrite IH|].
  symmetry. apply negb_true_iff, bool_decide_eq_false. set_solver.
Qed.

Theorem fold_seen_step_first_by (l : list string) :
  (fold_left (seen_step key) l ([], ∅)).1 = first_by key l.
Proof. rewrite fold_seen_step. cbn [app]. apply filter_fresh_empty. Qed.

Lemma first_by_incl (l : list string) (x : string) :
  In x (first_by key l) -> In x l.
Proof.
  revert x. induction l as [|y l IH]; intros x; cbn [first_by]; [tauto|].
  intros [->|H]; [now left|]. right. apply IH.
  apply List.filter_In in H. now destruct H.
Qed.

Lemma first_by_covers (l : list string) (x : string) :
  In x l -> exists y, In y (first_by key l) /\ key y = key x.
Proof.
  induction l as [|z l IH]; cbn [first_by]; [intros []|].
  intros [->|H]; [exists x; split; [now left | reflexivity]|].
  destruct (IH H) as [y [Hy Hk]].
  destruct (String.eqb_spec (key y) (key z)) as [E|E].
  - exists z. split; [now left | congruence].
  - exists y. split; [|assumption]. right. apply List.filter_In.
    split; [assumption|]. now apply negb_true_iff, String.eqb_neq.
Qed.

Lemma NoDup_map_filter (f : string -> bool) (l : list string) :
  List.NoDup (map key l) -> List.NoDup (map key (List.filter f l)).
Proof.
  induction l as [|x l IH]; cbn [map List.filter]; [now intros|].
  intros H. inversion H as [|? ? Hx Hl]; subst.
  destruct (f x); [|now apply IH]. cbn [map]. constructor; [|now apply IH].
  intros Hin. apply Hx. apply in_map_iff in Hin as [y [Hy Hin]].
  apply in_map_iff. exists y. split; [assumption|].
  now apply List.filter_In in Hin as [Hin _].
Qed.

Theorem first_by_NoDup (l : list string) : List.NoDup (map key (first_by key l)).
Proof.
  induction l as [|x l IH]; cbn [first_by map]; constructor.
  - intros Hin. apply in_map_iff in Hin as [y [Hy Hin]].
    apply List.filter_In in Hin as [_ Hne].
    apply negb_true_iff, String.eqb_neq in Hne. congruence.
  - now apply NoDup_map_filter.
Qed.

Lemma filter_all (f : string -> bool) (l : list string) :
  (forall y, In y l -> f y = true) -> List.filter f l = l.
Proof.
  induction l as [|x l IH]; [reflexivity|]. intros H. cbn [List.filter].
  rewrite (H x) by now left. f_equal. apply IH. intros y Hy. apply H. now right.
Qed.

(** A list without repeated keys is left as it is. *)
Lemma first_by_fixed (l : list string) :
  List.NoDup (map key l) -> first_by key l = l.
Proof.
  induction l as [|x l IH]; [reflexivity|]. cbn [map first_by].
  intros H. inversion H as [|? ? Hx Hl]; subst. rewrite IH by assumption.
  f_equal. apply filter_all. intros y Hy.
  apply negb_true_iff, String.eqb_neq. intros E. apply Hx. rewrite <- E.
  now apply in_map.
Qed.

Theorem first_by_idempotent (l : list string) :
  first_by key (first_by key l) = first_by key l.
Proof. apply first_by_fixed, first_by_NoDup. Qed.

End FirstBy.

(** ** The contact extractor *)
Section Contact.

Lemma fold_left_ext {A B : Type} (f g : A -> B -> A) (l : list B) (a : A) :
  (forall a b, f a b = g a b) -> fold_left f l a = fold_left g l a.
Proof.
  intros H. revert a. induction l as [|x l IH]; intros a; [reflexivity|].
  cbn [fold_left]. now rewrite H, IH.
Qed.

Lemma uniq_first_seen (l : list string) : uniq l = first_seen l.
Proof.
  unfold uniq, first_seen. rewrite <- fold_seen_step_first_by. reflexivity.
Qed.

Lemma In_firstn {A : Type} (n : nat) (l : list A) (x : A) :
  In x (firstn n l) -> In x l.
Proof.
  revert l. induction n as [|n IH]; intros [|y l]; simpl; try tauto.
  intros [->|H]; [now left | right; now apply IH].
Qed.

Lemma NoDup_firstn {A : Type} (n : nat) (l : list A) :
  List.NoDup l -> List.NoDup (firstn n l).
Proof.
  revert l. induction n as [|n IH]; intros [|y l] H; simpl; try constructor.
  - inversion H; subst. intros Hin. now apply In_firstn in Hin.
  - inversion H; subst. now apply IH.
Qed.

Lemma first_seen_NoDup (l : list string) : List.NoDup (first_seen l).
Proof.
  unfold first_seen. rewrite <- (map_id (first_by (fun x => x) l)).
  apply (first_by_NoDup (fun x => x)).
Qed.

End Contact.

(** ** Matches are not affected by trimming the text *)
Section Trimming.

Ltac by_cases_on_ascii c :=
  destruct c as [[] [] [] [] [] [] [] []]; vm_compute;
  (reflexivity || (intros; discriminate)).

Lemma blank_not_email_local (c : ascii) : is_space c = true -> email_local c = false.
Proof. by_cases_on_ascii c. Qed.

Lemma blank_not_email_domain (c : ascii) : is_space c = true -> email_domain c = false.
Proof. by_cases_on_ascii c. Qed.

Lemma blank_not_alpha (c : ascii) : is_space c = true -> is_alpha c = false.
Proof. by_cases_on_ascii c. Qed.

Lemma blank_not_char (d : ascii) (c : ascii) :
  is_space d = false -> is_space c = true -> is_char d c = false.
Proof.
  intros Hd Hc. unfold is_char. destruct (Ascii.eqb_spec c d); [congruence | reflexivity].
Qed.

Ltac blank_cases c H :=
  destruct c as [[] [] [] [] [] [] [] []]; cbv in H; try discriminate H.

Lemma run_app_blank (p : ascii -> bool) (s w : string) :
  (forall c, is_space c = true -> p c = false) ->
  all_str is_space w = true -> run p (s +:+ w) = run p s.
Proof.
  intros Hp Hw. induction s as [|c s IH]; cbn [String.append run].
  - destruct w as [|c w]; [reflexivity|]. cbn [all_str] in Hw.
    apply andb_true_iff in Hw as [Hc _]. cbn [run]. now rewrite (Hp c Hc).
  - now rewrite IH.
Qed.

Lemma slice_from_app_le (n : nat) (s w : string) :
  (n <= String.length s)%nat -> slice_from n (s +:+ w) = slice_from n s +:+ w.
Proof.
  revert s. induction n as [|n IH]; intros s Hn.
  - now destruct s.
  - destruct s as [|c s]; [simpl in Hn; lia|]. apply IH. simpl in Hn. lia.
Qed.

Lemma slice_to_app_le (n : nat) (s w : string) :
  (n <= String.length s)%nat -> slice_to n (s +:+ w) = slice_to n s.
Proof.
  revert s. induction n as [|n IH]; intros s Hn.
  - now destruct s, w.
  - destruct s as [|c s]; [simpl in Hn; lia|].
    cbn [String.append slice_to]. rewrite IH; [reflexivity | simpl in Hn; lia].
Qed.

Lemma mlens_le (r : regex) (s : string) (n : nat) :
  In n (mlens r s) -> (n <= String.length s)%nat.
Proof. intros H. now apply mlens_spec in H. Qed.

Lemma flat_map_ext_In {A B : Type} (f g : A -> list B) (l : list A) :
  (forall x, In x l -> f x = g x) -> flat_map f l = flat_map g l.
Proof.
  induction l as [|x l IH]; [reflexivity|]. intros H. cbn [flat_map].
  rewrite (H x) by now left. rewrite IH; [reflexivity|].
  intros y Hy. apply H. now right.
Qed.

Lemma mlens_app_blank (r : regex) (w : string) :
  blank_free r -> all_str is_space w = true ->
  forall s, mlens r (s +:+ w) = mlens r s.
Proof.
  intros Hr Hw. induction r as [|p|r1 IH1 r2 IH2|r1 IH1 r2 IH2|r1 IH1|g p lo hi];
    intros s; cbn [mlens]; cbn [blank_free] in Hr.
  - reflexivity.
  - destruct s as [|c s]; [|reflexivity].
    destruct w as [|c w]; [reflexivity|]. cbn [all_str] in Hw.
    apply andb_true_iff in Hw as [Hc _]. cbn [String.append]. now rewrite (Hr c Hc).
  - destruct Hr as [H1 H2]. rewrite (IH1 H1). apply flat_map_ext_In.
    intros n Hn. apply mlens_le in Hn.
    now rewrite slice_from_app_le, (IH2 H2).
  - destruct Hr as [H1 H2]. now rewrite (IH1 H1), (IH2 H2).
  - now rewrite (IH1 Hr).
  - unfold rep_lens, rep_upper. now rewrite run_app_blank.
Qed.

Section Pattern.

Variable r : regex.
Hypothesis r_blank_free : blank_free r.
Hypothesis r_starts_nonblank : starts_nonblank r.

Lemma search_from_blank (w : string) (i : nat) :
  all_str is_space w = true -> search_from r i w = None.
Proof.
  destruct r_starts_nonblank as [Hnil Hcons].
  revert i. induction w as [|c w IH]; intros i Hw; cbn [search_from].
  - now rewrite Hnil.
  - cbn [all_str] in Hw. apply andb_true_iff in Hw as [Hc Hw].
    rewrite (Hcons c w Hc). now apply IH.
Qed.

Lemma search_from_app_blank (s w : string) (i : nat) :
  all_str is_space w = true -> search_from r i (s +:+ w) = search_from r i s.
Proof.
  intros Hw. revert i. induction s as [|c s IH]; intros i.
  - cbn [String.append]. rewrite search_from_blank by assumption.
    cbn [search_from]. destruct r_starts_nonblank as [-> _]. reflexivity.
  - pose proof (mlens_app_blank r w r_blank_free Hw (String c s)) as Hm.
    cbn [String.append] in *. cbn [search_from]. rewrite Hm.
    destruct (mlens r (String c s)); [apply IH | reflexivity].
Qed.

Lemma search_from_shift (s : string) (i : nat) :
  search_from r (S i) s =
  match search_from r i s with
  | Some (j, n) => Some (S j, n)
  | None => None
  end.
Proof.
  revert i. induction s as [|c s IH]; intros i; cbn [search_from].
  - destruct (mlens r ""); reflexivity.
  - destruct (mlens r (String c s)); [apply IH | reflexivity].
Qed.

Lemma group0_app_blank (s w : string) :
  all_str is_space w = true ->
  group0_or_empty r (s +:+ w) = group0_or_empty r s.
Proof.
  intros Hw. unfold group0_or_empty, search.
  rewrite search_from_app_blank by assumption.
  pose proof (search_from_spec r s O) as H.
  destruct (search_from r O s) as [[i n]|]; [|reflexivity].
  destruct H as [k [-> [Hk [[rest Hhead] _]]]]. cbn [Nat.add].
  assert (Hn : (n <= String.length (slice_from k s))%nat).
  { apply (mlens_le r). rewrite Hhead. now left. }
  now rewrite slice_from_app_le, slice_to_app_le.
Qed.

Lemma group0_cons_blank (c : ascii) (s : string) :
  is_space c = true -> group0_or_empty r (String c s) = group0_or_empty r s.
Proof.
  intros Hc. unfold group0_or_empty, search. cbn [search_from].
  destruct r_starts_nonblank as [_ Hcons]. rewrite (Hcons c s Hc).
  rewrite search_from_shift.
  destruct (search_from r O s) as [[j n]|]; reflexivity.
Qed.

Lemma findall_aux_blank (w : string) (k : nat) :
  all_str is_space w = true -> findall_aux r k w = [].
Proof.
  destruct r_starts_nonblank as [_ Hcons].
  revert k. induction w as [|c w IH]; intros k Hw; cbn [findall_aux]; [reflexivity|].
  cbn [all_str] in Hw. apply andb_true_iff in Hw as [Hc Hw].
  destruct k; [rewrite (Hcons c w Hc)|]; now apply IH.
Qed.

Lemma findall_aux_app_blank (s w : string) (k : nat) :
  all_str is_space w = true -> findall_aux r k (s +:+ w) = findall_aux r k s.
Proof.
  intros Hw. revert k. induction s as [|c s IH]; intros k.
  - cbn [String.append]. now rewrite findall_aux_blank.
  - pose proof (mlens_app_blank r w r_blank_free Hw (String c s)) as Hm.
    cbn [String.append] in *. cbn [findall_aux].
    destruct k as [|k]; [|apply IH]. rewrite Hm.
    destruct (mlens r (String c s)) as [|n rest] eqn:E; [apply IH|].
    assert (Hn : (n <= String.length (String c s))%nat).
    { apply (mlens_le r). rewrite E. now left. }
    pose proof (slice_to_app_le n (String c s) w Hn) as Hs.
    cbn [String.append] in Hs. now rewrite Hs, IH.
Qed.

Lemma findall_cons_blank (c : ascii) (s : string) :
  is_space c = true -> findall r (String c s) = findall r s.
Proof.
  intros Hc. unfold findall. cbn [findall_aux].
  destruct r_starts_nonblank as [_ Hcons]. now rewrite (Hcons c s Hc).
Qed.

Lemma rstrip_by_split (p : ascii -> bool) (s : string) :
  exists w, s = rstrip_by p s +:+ w /\ all_str p w = true.
Proof.
  induction s as [|c s [w [Hs Hw]]]; [now exists ""|].
  cbn [rstrip_by]. destruct (rstrip_by p s) as [|d t] eqn:E.
  - cbn [String.append] in Hs. subst w.
    destruct (p c) eqn:Hc.
    + exists (String c s). split; [reflexivity|]. cbn [all_str]. now rewrite Hc, Hw.
    + exists s. split; [reflexivity | assumption].
  - exists w. split; [|assumption]. cbn [String.append]. f_equal. exact Hs.
Qed.

Lemma group0_strip (s : string) :
  group0_or_empty r (strip s) = group0_or_empty r s.
Proof.
  unfold strip, strip_by.
  destruct (rstrip_by_split is_space (lstrip_by is_space s)) as [w [Hs Hw]].
  transitivity (group0_or_empty r (lstrip_by is_space s)).
  - rewrite Hs at 2. symmetry. now apply group0_app_blank.
  - clear w Hs Hw. induction s as [|c s IH]; [reflexivity|].
    cbn [lstrip_by]. destruct (is_space c) eqn:Hc; [|reflexivity].
    now rewrite IH, group0_cons_blank.
Qed.

Lemma findall_strip (s : string) : findall r (strip s) = findall r s.
Proof.
  unfold strip, strip_by.
  destruct (rstrip_by_split is_space (lstrip_by is_space s)) as [w [Hs Hw]].
  transitivity (findall r (lstrip_by is_space s)).
  - rewrite Hs at 2. symmetry. now apply findall_aux_app_blank.
  - clear w Hs Hw. induction s as [|c s IH]; [reflexivity|].
    cbn [lstrip_by]. destruct (is_space c) eqn:Hc; [|reflexivity].
    now rewrite IH, findall_cons_blank.
Qed.

End Pattern.

Lemma email_blank_free : blank_free CONTACT_EMAIL_RE.
Proof.
  cbn. repeat split; intros c Hc;
    first [ now apply blank_not_email_local | now apply blank_not_email_domain
          | now apply blank_not_alpha | now apply blank_not_char ].
Qed.

Lemma rep_lens_refused (g : bool) (p : ascii -> bool) (lo : nat) (hi : option nat)
    (c : ascii) (s : string) :
  p c = false -> (0 < lo)%nat -> rep_lens g p lo hi (String c s) = [].
Proof.
  intros Hp Hlo. unfold rep_lens, rep_upper. cbn [run]. rewrite Hp.
  replace (match hi with Some h => Nat.min h 0 | None => 0%nat end) with O
    by (destruct hi; [now rewrite Nat.min_0_r | reflexivity]).
  replace (1 - lo)%nat with O by lia. now destruct g.
Qed.

Lemma email_starts_nonblank : starts_nonblank CONTACT_EMAIL_RE.
Proof.
  split; [reflexivity|]. intros c s Hc.
  unfold CONTACT_EMAIL_RE. cbn [mlens].
  rewrite (rep_lens_refused true email_local 1 None c s); [reflexivity | | lia].
  now apply blank_not_email_local.
Qed.

Lemma link_blank_free : blank_free LINK_RE.
Proof.
  cbn. repeat split; intros c Hc; blank_cases c Hc; reflexivity.
Qed.

Lemma link_starts_nonblank : starts_nonblank LINK_RE.
Proof.
  split; [reflexivity|]. intros c s Hc. blank_cases c Hc; reflexivity.
Qed.

(** The email and the links are those of the text as given: trimming
    removes no match and adds none. *)
Theorem email_of_raw_text (resume_text : string) :
  email (_extract_contact_bits resume_text) =
  group0_or_empty CONTACT_EMAIL_RE resume_text.
Proof.
  unfold _extract_contact_bits. cbn [email].
  apply group0_strip; [apply email_blank_free | apply email_starts_nonblank].
Qed.

Theorem links_of_raw_text (resume_text : string) :
  links (_extract_contact_bits resume_text) =
  firstn 5 (first_seen (findall LINK_RE resume_text)).
Proof.
  unfold _extract_contact_bits. cbn [links].
  rewrite uniq_first_seen, findall_strip;
    [reflexivity | apply link_blank_free | apply link_starts_nonblank].
Qed.

(** *** The non-blank lines of the trimmed text *)

Lemma rev_string_acc (acc s : string) :
  rev_string acc s = rev_string "" s +:+ acc.
Proof.
  revert acc. induction s as [|c s IH]; intros acc; [reflexivity|].
  cbn [rev_string]. rewrite (IH (String c acc)), (IH (String c "")).
  now rewrite app_assoc_s.
Qed.

Lemma rev_string_cons (c : ascii) (s : string) :
  rev_string "" (String c s) = rev_string "" s +:+ String c "".
Proof. cbn [rev_string]. apply rev_string_acc. Qed.

Lemma rev_string_snoc (s : string) (d : ascii) :
  rev_string "" (s +:+ String d "") = String d (rev_string "" s).
Proof.
  induction s as [|c s IH]; [reflexivity|].
  cbn [String.append]. now rewrite !rev_string_cons, IH.
Qed.

Lemma strip_cons_blank (d : ascii) (y : string) :
  is_space d = true -> strip (String d y) = strip y.
Proof. intros Hd. unfold strip, strip_by. cbn [lstrip_by]. now rewrite Hd. Qed.

Lemma rstrip_by_snoc (p : ascii -> bool) (u : string) (d : ascii) :
  p d = true -> rstrip_by p (u +:+ String d "") = rstrip_by p u.
Proof.
  intros Hd. induction u as [|c u IH]; cbn [String.append rstrip_by].
  - now rewrite Hd.
  - now rewrite IH.
Qed.

Lemma strip_snoc_blank (d : ascii) (y : string) :
  is_space d = true -> strip (y +:+ String d "") = strip y.
Proof.
  intros Hd. unfold strip, strip_by. induction y as [|c y IH].
  - cbn. now rewrite Hd.
  - cbn [String.append lstrip_by]. destruct (is_space c); [exact IH|].
    now apply (rstrip_by_snoc is_space (String c y)).
Qed.

Lemma trimmed_lines_cons (x : string) (l : list string) :
  trimmed_lines (x :: l) =
  if keep_line x then strip x :: trimmed_lines l else trimmed_lines l.
Proof. unfold trimmed_lines. cbn [List.filter]. now destruct (keep_line x). Qed.

Lemma trimmed_lines_equiv (x y : string) (l : list string) :
  strip x = strip y -> trimmed_lines (x :: l) = trimmed_lines (y :: l).
Proof. intros H. rewrite !trimmed_lines_cons. unfold keep_line. now rewrite H. Qed.

Lemma trimmed_lines_blank (x : string) (l : list string) :
  strip x = "" -> trimmed_lines (x :: l) = trimmed_lines l.
Proof. intros H. rewrite trimmed_lines_cons. unfold keep_line. now rewrite H. Qed.

Lemma linebreak_is_blank (c : ascii) : is_linebreak c = true -> is_space c = true.
Proof. by_cases_on_ascii c. Qed.

(** A blank at the head of the line being read does not change the
    trimmed lines. *)
Lemma splitlines_aux_lead (d : ascii) (s cur : string) :
  is_space d = true ->
  trimmed_lines (splitlines_aux (cur +:+ String d "") s) =
  trimmed_lines (splitlines_aux cur s).
Proof.
  intros Hd. revert cur. induction s as [|c s IH]; intros cur.
  - cbn [splitlines_aux].
    destruct cur as [|a cur].
    + change ("" +:+ String d "") with (String d ""). cbv iota. cbn [rev_string].
      rewrite trimmed_lines_blank; [reflexivity|].
      rewrite strip_cons_blank by assumption. reflexivity.
    + change (String a cur +:+ String d "") with (String a (cur +:+ String d "")).
      cbv iota.
      change (String a (cur +:+ String d "")) with (String a cur +:+ String d "").
      apply trimmed_lines_equiv. rewrite rev_string_snoc. now apply strip_cons_blank.
  - cbn [splitlines_aux]. destruct (is_linebreak c).
    + apply trimmed_lines_equiv. rewrite rev_string_snoc. now apply strip_cons_blank.
    + apply (IH (String c cur)).
Qed.

Lemma code_eq (c : ascii) (n : N) : (code c =? n) = true -> c = chr n.
Proof.
  intros H. apply N.eqb_eq in H. unfold code, chr in *. rewrite <- H.
  symmetry. apply ascii_N_embedding.
Qed.

Lemma splitlines_after_lf (s : string) :
  trimmed_lines (splitlines_aux "" (String (chr 10) s)) =
  trimmed_lines (splitlines_aux "" s).
Proof.
  cbn [splitlines_aux]. change (is_linebreak (chr 10)) with true. cbv iota.
  rewrite trimmed_lines_blank by reflexivity.
  destruct s as [|e s]; [reflexivity|].
  change ((code (chr 10) =? 13) && (code e =? 10)) with false. reflexivity.
Qed.

Lemma splitlines_cons_blank (d : ascii) (t : string) :
  is_space d = true ->
  trimmed_lines (splitlines_aux "" (String d t)) = trimmed_lines (splitlines_aux "" t).
Proof.
  intros Hd. cbn [splitlines_aux]. destruct (is_linebreak d) eqn:Hlb.
  - rewrite trimmed_lines_blank by reflexivity.
    destruct t as [|e t]; [reflexivity|].
    destruct ((code d =? 13) && (code e =? 10)) eqn:Hcrlf; [|reflexivity].
    apply andb_true_iff in Hcrlf as [_ He]. apply code_eq in He. subst e.
    symmetry. apply splitlines_after_lf.
  - apply (splitlines_aux_lead d t "" Hd).
Qed.

Lemma trimmed_lines_lstrip (t : string) :
  trimmed_lines (splitlines (lstrip_by is_space t)) = trimmed_lines (splitlines t).
Proof.
  unfold splitlines. induction t as [|c t IH]; [reflexivity|].
  cbn [lstrip_by]. destruct (is_space c) eqn:Hc; [|reflexivity].
  now rewrite IH, splitlines_cons_blank.
Qed.

Lemma all_blank_tail (c : ascii) (w : string) :
  all_str is_space (String c w) = true ->
  is_space c = true /\ all_str is_space w = true.
Proof. cbn [all_str]. intros H. now apply andb_true_iff in H. Qed.

(** Blanks at the end of the text add no trimmed line. *)
Lemma splitlines_aux_blank_bounded (n : nat) (w cur : string) :
  (String.length w <= n)%nat -> all_str is_space w = true ->
  trimmed_lines (splitlines_aux cur w) = trimmed_lines (splitlines_aux cur "").
Proof.
  revert w cur. induction n as [|n IH]; intros w cur Hlen Hw.
  - destruct w; [reflexivity | simpl in Hlen; lia].
  - destruct w as [|d w]; [reflexivity|].
    apply all_blank_tail in Hw as [Hd Hw]. simpl in Hlen.
    cbn [splitlines_aux]. destruct (is_linebreak d).
    + assert (Hrest :
        trimmed_lines
          match w with
          | "" => []
          | String e s'' =>
              if (code d =? 13) && (code e =? 10)
              then splitlines_aux "" s'' else splitlines_aux "" w
          end = []).
      { destruct w as [|e w']; [reflexivity|].
        apply all_blank_tail in Hw as Hw'. destruct Hw' as [He Hw'].
        simpl in Hlen.
        destruct ((code d =? 13) && (code e =? 10)).
        - rewrite (IH w' "") by (assumption || lia). reflexivity.
        - rewrite (IH (String e w') "") by (assumption || (simpl; lia)). reflexivity. }
      rewrite trimmed_lines_cons, Hrest.
      destruct cur as [|a cur]; [reflexivity|].
      cbn [splitlines_aux]. now rewrite trimmed_lines_cons.
    + rewrite (IH w (String d cur)) by (assumption || lia).
      cbn [splitlines_aux]. rewrite rev_string_cons.
      destruct cur as [|a cur].
      * rewrite trimmed_lines_blank; [reflexivity|].
        cbn [rev_string String.append]. now rewrite strip_cons_blank.
      * apply trimmed_lines_equiv. now apply strip_snoc_blank.
Qed.

Lemma splitlines_aux_app_blank_bounded (n : nat) (core w cur : string) :
  (String.length core <= n)%nat -> all_str is_space w = true ->
  trimmed_lines (splitlines_aux cur (core +:+ w)) =
  trimmed_lines (splitlines_aux cur core).
Proof.
  intros Hlen Hw. revert core cur Hlen. induction n as [|n IH]; intros core cur Hlen.
  - destruct core; [|simpl in Hlen; lia]. cbn [String.append].
    apply (splitlines_aux_blank_bounded (String.length w)); [lia | assumption].
  - destruct core as [|c core].
    { cbn [String.append].
      apply (splitlines_aux_blank_bounded (String.length w)); [lia | assumption]. }
    simpl in Hlen. cbn [String.append splitlines_aux].
    destruct (is_linebreak c); [|apply IH; lia].
    rewrite !(trimmed_lines_cons (rev_string "" cur)). 
    assert (Hrest :
      trimmed_lines
        match core +:+ w with
        | "" => []
        | String e s'' =>
            if (code c =? 13) && (code e =? 10)
            then splitlines_aux "" s'' else splitlines_aux "" (core +:+ w)
        end =
      trimmed_lines
        match core with
        | "" => []
        | String e s'' =>
            if (code c =? 13) && (code e =? 10)
            then splitlines_aux "" s'' else splitlines_aux "" core
        end).
    { destruct core as [|e core'].
      - cbn [String.append].
        destruct w as [|e w']; [reflexivity|].
        apply all_blank_tail in Hw as Hw'. destruct Hw' as [He Hw'].
        destruct ((code c =? 13) && (code e =? 10)).
        + now rewrite (splitlines_aux_blank_bounded (String.length w') w' "").
        + now rewrite (splitlines_aux_blank_bounded (String.length (String e w'))
                         (String e w') "").
      - simpl in Hlen. cbn [String.append].
        destruct ((code c =? 13) && (code e =? 10)).
        + apply IH. lia.
        + apply (IH (String e core')). simpl. lia. }
    now rewrite Hrest.
Qed.

Theorem nonblank_lines_strip (t : string) :
  nonblank_lines (strip t) = nonblank_lines t.
Proof.
  change (trimmed_lines (splitlines (strip t)) = trimmed_lines (splitlines t)).
  rewrite <- (trimmed_lines_lstrip t). unfold strip, strip_by.
  set (l := lstrip_by is_space t).
  destruct (rstrip_by_split is_space l) as [w [Hs Hw]].
  pose proof (splitlines_aux_app_blank_bounded
                (String.length (rstrip_by is_space l)) (rstrip_by is_space l) w ""
                (le_n _) Hw) as H.
  rewrite <- Hs in H. symmetry. exact H.
Qed.

End Trimming.

Example contact_keyword_lines :
  name (_extract_contact_bits ("Skills and Education" +:+ nl +:+ "  John Roe  " +:+ nl +:+
                               "http://a.io www.b.io http://a.io")) = "John Roe" /\
  links (_extract_contact_bits ("Skills and Education" +:+ nl +:+ "  John Roe  " +:+ nl +:+
                                "http://a.io www.b.io http://a.io")) =
    ["http://a.io"; "www.b.io"].
Proof. vm_compute. split; reflexivity. Qed.

(** ** Section-order detection *)
Section SectionOrder.

Lemma in_list_In (x : string) (l : list string) : in_list x l = true <-> In x l.
Proof.
  unfold in_list. rewrite existsb_exists. split.
  - intros [y [Hy E]]. apply String.eqb_eq in E. now subst.
  - intros H. exists x. split; [assumption | apply String.eqb_refl].
Qed.

Lemma looks_like_heading_spec (line : string) :
  _looks_like_heading line = true <-> heading_spec line.
Proof.
  unfold _looks_like_heading, heading_spec. cbv zeta.
  set (s := strip line).
  set (s' := if ends_with_char ":" s then drop_last s else s).
  destruct (Nat.ltb_spec 80 (String.length s)) as [Hbig|Hle]; cbn [orb].
  { split; [discriminate | intros [H _]; lia]. }
  destruct (Nat.ltb_spec (String.length s) 3) as [Hsmall|Hge].
  { split; [discriminate | intros [H _]; lia]. }
  destruct (Nat.leb_spec (length (split s')) 6) as [Hw|Hw]; cbn [andb].
  - destruct (isupper s') eqn:Hu; cbn [orb].
    { split; [intros _ | reflexivity]. split; [lia|]. left. split; [lia | now left]. }
    destruct (istitle s') eqn:Ht.
    { split; [intros _ | reflexivity]. split; [lia|]. left. split; [lia | now right]. }
    rewrite in_list_In. split.
    + intros H. split; [lia | now right].
    + intros [_ [[_ [H|H]]|H]]; (discriminate || assumption).
  - rewrite in_list_In. split.
    + intros H. split; [lia | now right].
    + intros [_ [[H _]|H]]; [lia | assumption].
Qed.

(** The first loop is the deduplicating loop run over the normalized
    heading lines. *)
Lemma fold_order_step (lines : list string) (st : list string * gset string) :
  fold_left order_step lines st =
  fold_left dedup_step
    (map _normalize_heading (List.filter _looks_like_heading lines)) st.
Proof.
  revert st. induction lines as [|raw lines IH]; intros st; [reflexivity|].
  cbn [fold_left List.filter]. unfold order_step at 2.
  destruct (_looks_like_heading raw); cbn [map fold_left]; apply IH.
Qed.

Theorem detect_section_order_first_by (resume_text : string) :
  _detect_section_order resume_text =
  firstn 12 (first_by heading_key (heading_lines resume_text)).
Proof.
  unfold _detect_section_order, heading_lines. cbv zeta.
  rewrite fold_order_step.
  change dedup_step with (seen_step heading_key).
  now rewrite !fold_seen_step_first_by, first_by_idempotent.
Qed.

Lemma first_by_app (key : string -> string) (l1 l2 : list string) :
  first_by key (l1 ++ l2) =
  first_by key l1 ++
  List.filter (fun y => negb (existsb (fun x => String.eqb (key y) (key x)) l1))
    (first_by key l2).
Proof.
  induction l1 as [|x l1 IH].
  - cbn. symmetry. now apply filter_all.
  - cbn [app first_by]. rewrite IH, List.filter_app, filter_filter.
    cbn [app]. do 2 f_equal. apply List.filter_ext. intros y. cbn [existsb].
    rewrite negb_orb. apply andb_comm.
Qed.

Lemma nth_error_firstn_some {A : Type} (n i : nat) (l : list A) (x : A) :
  nth_error (firstn n l) i = Some x <-> (i < n)%nat /\ nth_error l i = Some x.
Proof.
  revert i l. induction n as [|n IH]; intros i l.
  - cbn. destruct i; split; (discriminate || lia).
  - destruct l as [|y l].
    + cbn. destruct i; split; try discriminate; intros [_ H]; discriminate.
    + destruct i as [|i]; cbn [firstn nth_error].
      * split; [intros H; split; [lia | assumption] | now intros [_ H]].
      * rewrite IH. split; intros [H1 H2]; (split; [lia | assumption]).
Qed.

Lemma first_by_app_order (key : string -> string) (l1 l2 : list string)
    (a b : string) (j : nat) :
  (exists x, In x l1 /\ key x = a) ->
  (forall x, In x l1 -> key x <> b) ->
  nth_error (map key (firstn 12 (first_by key (l1 ++ l2)))) j = Some b ->
  exists i, (i < j)%nat /\
    nth_error (map key (firstn 12 (first_by key (l1 ++ l2)))) i = Some a.
Proof.
  intros [x [Hx Hkx]] Hno.
  rewrite <- !List.firstn_map, first_by_app, List.map_app.
  set (KA := map key (first_by key l1)). set (KF := map key (List.filter _ _)).
  intros Hj. apply nth_error_firstn_some in Hj as [Hj12 Hj].
  assert (HnoKA : ~ In b KA).
  { intros Hin. apply in_map_iff in Hin as [y [Hy Hin]].
    apply first_by_incl in Hin. now apply (Hno y). }
  assert (Hlen : (length KA <= j)%nat).
  { destruct (Nat.le_gt_cases (length KA) j) as [|Hlt]; [assumption|].
    exfalso. apply HnoKA. rewrite nth_error_app1 in Hj by assumption.
    now apply nth_error_In in Hj. }
  destruct (first_by_covers key l1 x Hx) as [y [Hy Hky]].
  assert (Hin : In a KA).
  { apply in_map_iff. exists y. split; [congruence | assumption]. }
  apply In_nth_error in Hin as [i Hi].
  assert (Hi' : (i < length KA)%nat) by (apply nth_error_Some; congruence).
  exists i. split; [lia|].
  apply nth_error_firstn_some. split; [lia|].
  now rewrite nth_error_app1.
Qed.

End SectionOrder.

Example experience_then_education :
  _detect_section_order
    ("Summary" +:+ nl +:+ "Seasoned engineer with a long record." +:+ nl +:+
     "Experience" +:+ nl +:+ "built things for several companies" +:+ nl +:+
     "EDUCATION:" +:+ nl +:+ "experience:" +:+ nl +:+ "Education" +:+ nl) =
  ["Summary"; "Experience"; "EDUCATION"].
Proof. vm_compute. reflexivity. Qed.

(** ** The plaintext extractor *)

(** For every byte sequence the PDF extractor returns a string and never
    raises; when the document reports encryption and the decryption with
    the empty password raises, the result is the encryption sentinel; when
    anything else in the extraction raises (opening the bytes, reading the
    page list, extracting a page), the result is the sentinel that embeds
    the error. *)
Lemma extract_pdf_text_total
    (PdfReader : list Byte.byte -> outcome pdf_reader)
    (data : list Byte.byte) (max_chars : nat) :
  (exists s, _extract_pdf_text PdfReader data max_chars = Returned s) /\
  (forall reader e,
     PdfReader data = Returned reader -> is_encrypted reader = true ->
     decrypt reader "" = Raised e ->
     _extract_pdf_text PdfReader data max_chars =
     Returned "[PDF is encrypted; text not extracted]") /\
  (forall e,
     extract_pdf_body PdfReader data max_chars = Raised e ->
     _extract_pdf_text PdfReader data max_chars =
     Returned ("[Could not extract PDF text: " +:+ str_exn e +:+ "]")) /\
  (forall e,
     PdfReader data = Raised e ->
     extract_pdf_body PdfReader data max_chars = Raised e) /\
  (forall reader e,
     PdfReader data = Returned reader ->
     is_encrypted reader = false \/ returns (decrypt reader "") = true ->
     pages reader = Raised e \/
     (exists ps, pages reader = Returned ps /\ pages_loop max_chars [] ps = Raised e) ->
     extract_pdf_body PdfReader data max_chars = Raised e).
Proof.
  unfold _extract_pdf_text. repeat split.
  - destruct (extract_pdf_body PdfReader data max_chars) as [s|e]; cbn [try_except];
      eexists; reflexivity.
  - intros reader e Hr Henc Hdec. unfold extract_pdf_body.
    rewrite Hr. cbn [bind]. now rewrite Henc, Hdec.
  - intros e He. now rewrite He.
  - intros e He. unfold extract_pdf_body. now rewrite He.
  - intros reader e Hr Hdec Herr. unfold extract_pdf_body. rewrite Hr. cbn [bind].
    assert (Hrest :
      (do ps <- pages reader;
       do out <- pages_loop max_chars [] ps;
       let text := strip (join nl out) in
       Returned (if truthy text then slice_to max_chars text
                 else "[PDF had no extractable text]")) = Raised e).
    { destruct Herr as [Hp|[ps [Hp Hl]]]; rewrite Hp; cbn [bind];
        [reflexivity | now rewrite Hl]. }
    destruct Hdec as [Hno|Hok].
    + now rewrite Hno.
    + destruct (decrypt reader "") as [n|e']; [|discriminate].
      destruct (is_encrypted reader); exact Hrest.
Qed.

(** A [decrypt] that returns, whatever it returns, lets the extraction go
    on with the pages: only an exception counts as a failed decryption. *)
Lemma decrypt_returning_goes_on
    (PdfReader : list Byte.byte -> outcome pdf_reader)
    (data : list Byte.byte) (max_chars : nat) (reader : pdf_reader) (n : Z) :
  PdfReader data = Returned reader -> decrypt reader "" = Returned n ->
  extract_pdf_body PdfReader data max_chars =
  extract_pdf_body (fun _ => Returned {| is_encrypted := false;
                                         decrypt := decrypt reader;
                                         pages := pages reader |}) data max_chars.
Proof.
  intros Hr Hd. unfold extract_pdf_body. rewrite Hr. cbn [bind is_encrypted pages].
  rewrite Hd. now destruct (is_encrypted reader).
Qed.

(** C6.  The claim promises the encryption sentinel whenever the document
    reports encryption and the decryption with the empty password fails.
    The extractor tries the empty password and returns that sentinel, but
    only when [decrypt] raises.  [pypdf] reports a refused password by the
    value [decrypt] returns, which the extractor does not look at: the
    extraction goes on, reading the pages of the document that is still
    encrypted raises, and the result is the sentinel that embeds this
    error, not the encryption sentinel. *)
Theorem extract_pdf_text_refused_password
    (PdfReader : list Byte.byte -> outcome pdf_reader)
    (data : list Byte.byte) (max_chars : nat) (reader : pdf_reader) (n : Z) (e : exn) :
  PdfReader data = Returned reader -> is_encrypted reader = true ->
  decrypt reader "" = Returned n -> pages reader = Raised e ->
  _extract_pdf_text PdfReader data max_chars =
    Returned ("[Could not extract PDF text: " +:+ str_exn e +:+ "]") /\
  _extract_pdf_text PdfReader data max_chars <>
    Returned "[PDF is encrypted; text not extracted]".
Proof.
  intros Hr Henc Hdec Hp.
  assert (H : _extract_pdf_text PdfReader data max_chars =
              Returned ("[Could not extract PDF text: " +:+ str_exn e +:+ "]")).
  { unfold _extract_pdf_text, extract_pdf_body.
    rewrite Hr. cbn [bind]. now rewrite Henc, Hdec, Hp. }
  split; [exact H|]. rewrite H. intros E. discriminate E.
Qed.

Lemma extract_pdf_text_refused_password_witness :
  _extract_pdf_text pypdf_sample password_pdf MAX_TEXT =
    Returned "[Could not extract PDF text: File has not been decrypted]".
Proof.
  apply (extract_pdf_text_refused_password pypdf_sample password_pdf MAX_TEXT
           password_reader 0%Z (OtherError "File has not been decrypted"));
    vm_compute; reflexivity.
Defined.

Example pdf_text_ex :
  _extract_pdf_text
    (fun _ => Returned
       {| is_encrypted := false; decrypt := fun _ => Returned 0%Z;
          pages := Returned [ {| extract_text := Returned (Some "Jane Doe") |};
                              {| extract_text := Returned None |};
                              {| extract_text := Returned (Some "Skills ") |} ] |})
    [] MAX_TEXT = Returned ("Jane Doe" +:+ nl +:+ nl +:+ "Skills").
Proof. vm_compute. reflexivity. Qed.

(** ** The web text fetcher *)
Section Fetch.

Lemma max_text_value : MAX_TEXT = Z.to_nat 20000.
Proof. reflexivity. Qed.

Lemma fetch_body_capped (net : web) (url html : string) :
  fetch net url = Returned html ->
  exists s, fetch_body net url = Returned s /\ (String.length s <= MAX_TEXT)%nat.
Proof.
  intros Hf. unfold fetch_body. rewrite Hf. cbn [bind]. cbv zeta.
  set (text := unescape net _).
  destruct (truthy text).
  - eexists. split; [reflexivity | apply length_slice_to_le].
  - eexists. split; [reflexivity|]. rewrite max_text_value.
    cbn [String.length]. lia.
Qed.

End Fetch.

(** C5, as stated, fails: the sentinel of the error path embeds the error
    message whole, so a malformed URL of 20,000 characters yields a result
    longer than 20,000 characters. *)
Lemma fetch_error_sentinel_uncapped :
  let url := repeat_string (Z.to_nat 20000) "a" in
  match _get_text_from_url scheme_web url with
  | Returned s => (20000 <? N.of_nat (String.length s))%N
  | Raised _ => false
  end = true.
Proof. vm_compute. reflexivity. Qed.

(** C5, amended.  For every URL the fetcher returns a string and never
    raises; an empty URL gives the sentinel "[No job URL provided]"; an
    error while fetching gives the sentinel that embeds the error message,
    22 characters longer than the message; a page that was fetched gives at
    most 20,000 characters. *)
Theorem get_text_from_url_spec (net : web) (url : string) :
  (exists s, _get_text_from_url net url = Returned s) /\
  (url = "" -> _get_text_from_url net url = Returned "[No job URL provided]") /\
  (forall e, url <> "" -> fetch net url = Raised e ->
     _get_text_from_url net url =
       Returned ("[Could not fetch JD: " +:+ str_exn e +:+ "]") /\
     String.length ("[Could not fetch JD: " +:+ str_exn e +:+ "]") =
       (22 + String.length (str_exn e))%nat) /\
  (forall html, url <> "" -> fetch net url = Returned html ->
     exists s, _get_text_from_url net url = Returned s /\
               (String.length s <= Z.to_nat 20000)%nat).
Proof.
  unfold _get_text_from_url. repeat split.
  - destruct (truthy url); cbn [negb]; [|eexists; reflexivity].
    destruct (fetch_body net url); cbn [try_except]; eexists; reflexivity.
  - intros ->. reflexivity.
  - apply truthy_spec in H. rewrite H. cbn [negb].
    unfold fetch_body. rewrite H0. reflexivity.
  - rewrite !length_app. cbn [String.length]. lia.
  - intros html Hne Hf. apply truthy_spec in Hne. rewrite Hne. cbn [negb].
    destruct (fetch_body_capped net url html Hf) as [s [Hs Hlen]].
    exists s. rewrite Hs. split; [reflexivity | exact Hlen].
Qed.

Lemma get_text_from_url_spec_witness :
  _get_text_from_url page_web "" = Returned "[No job URL provided]" /\
  _get_text_from_url page_web "https://jobs.example/2" =
    Returned "[Could not fetch JD: <urlopen error timed out>]" /\
  exists s, _get_text_from_url page_web "https://jobs.example/1" = Returned s /\
            (String.length s <= Z.to_nat 20000)%nat.
Proof.
  split; [|split].
  - now apply (get_text_from_url_spec page_web "").
  - destruct (get_text_from_url_spec page_web "https://jobs.example/2")
      as (_ & _ & Herr & _).
    apply (Herr (OtherError "<urlopen error timed out>")); [discriminate | reflexivity].
  - destruct (get_text_from_url_spec page_web "https://jobs.example/1")
      as (_ & _ & _ & Hok).
    eapply Hok; [discriminate | reflexivity].
Defined.

Example fetch_text_ex :
  _get_text_from_url page_web "https://jobs.example/1" =
  Returned "Data Engineer SQL, Python".
Proof. vm_compute. reflexivity. Qed.

(** ** The quota check of the upload and tailor handlers *)
Section Quota.

Variable sv : services.

Ltac split_matches H :=
  repeat match type of H with
  | context [match ?x with _ => _ end] => destruct x eqn:?
  end.

Ltac settle H :=
  unfold bind in H; split_matches H;
  try discriminate;
  try (injection H as <-; cbn [statusCode _resp]; lia).

Lemma quota_gate_spec (user_id message : string) :
  match quota_gate sv user_id message with
  | Some r =>
      statusCode r = 429%Z /\
      exists n, _count_docs_for_user sv user_id = Returned n /\ (MAX_DOCS_PER_USER <= n)%Z
  | None =>
      (exists e, _count_docs_for_user sv user_id = Raised e) \/
      (exists n, _count_docs_for_user sv user_id = Returned n /\ (n < MAX_DOCS_PER_USER)%Z)
  end.
Proof.
  unfold quota_gate.
  destruct (_count_docs_for_user sv user_id) as [n|e].
  - destruct (Z.leb_spec MAX_DOCS_PER_USER n).
    + split; [reflexivity | now exists n].
    + right. now exists n.
  - left. now exists e.
Qed.

Lemma quota_gate_with_count (n : Z) (user_id message : string) :
  (n < MAX_DOCS_PER_USER)%Z -> quota_gate (with_count sv n) user_id message = None.
Proof.
  intros Hn. unfold quota_gate, _count_docs_for_user. cbn [with_count query_count].
  destruct (Z.leb_spec MAX_DOCS_PER_USER n); [lia | reflexivity].
Qed.

Lemma quota_gate_raised (user_id message : string) (e : exn) :
  _count_docs_for_user sv user_id = Raised e -> quota_gate sv user_id message = None.
Proof. intros H. unfold quota_gate. now rewrite H. Qed.

Lemma upload_rest_not_429 (user_id filename : string) (content_b64 : jval) (r : response) :
  upload_rest sv user_id filename content_b64 = Returned r -> (statusCode r <> 429)%Z.
Proof. intros H. unfold upload_rest in H. settle H. Qed.

Lemma tailor_rest_not_429 (user_id source_doc_id job_url interests : string)
    (r : response) :
  tailor_rest sv user_id source_doc_id job_url interests = Returned r ->
  (statusCode r <> 429)%Z.
Proof. intros H. unfold tailor_rest in H. settle H. Qed.

End Quota.

(** C9. In both handlers a count that raises is swallowed: the request
    runs on as it does for an owner below the limit, here with a count
    query that answers some [n < 10]; and a response with status 429 is
    returned only when the count was computed and is at least
    [MAX_DOCS_PER_USER]. *)
Theorem quota_check_swallows_failure (sv : services) :
  (forall body user_id e n,
     field body "userId" "demo" = Returned user_id ->
     _count_docs_for_user sv user_id = Raised e -> (n < MAX_DOCS_PER_USER)%Z ->
     handle_upload_resume sv body = handle_upload_resume (with_count sv n) body) /\
  (forall body r,
     handle_upload_resume sv body = Returned r -> statusCode r = 429%Z ->
     exists user_id n,
       field body "userId" "demo" = Returned user_id /\
       _count_docs_for_user sv user_id = Returned n /\ (MAX_DOCS_PER_USER <= n)%Z) /\
  (forall ev body user_id e n,
     _get_body sv ev = Returned body ->
     field body "userId" "demo" = Returned user_id ->
     _count_docs_for_user sv user_id = Raised e -> (n < MAX_DOCS_PER_USER)%Z ->
     handle_tailor sv ev = handle_tailor (with_count sv n) ev) /\
  (forall ev r,
     handle_tailor sv ev = Returned r -> statusCode r = 429%Z ->
     exists body user_id n,
       _get_body sv ev = Returned body /\
       field body "userId" "demo" = Returned user_id /\
       _count_docs_for_user sv user_id = Returned n /\ (MAX_DOCS_PER_USER <= n)%Z) /\
  MAX_DOCS_PER_USER = 10%Z.
Proof.
  split; [|split; [|split; [|split; [|reflexivity]]]].
  - intros body user_id e n Hu He Hn.
    unfold handle_upload_resume. rewrite Hu. cbn [bind].
    change (uuid4 (with_count sv n) 0) with (uuid4 sv 0).
    destruct (field body "filename" _) as [filename|]; [|reflexivity]. cbn [bind].
    destruct (dict_get body "contentBase64") as [content_b64|]; [|reflexivity].
    cbn [bind].
    destruct (negb _); [reflexivity|].
    destruct (negb _); [reflexivity|].
    rewrite (quota_gate_raised sv _ _ e He), quota_gate_with_count by assumption.
    reflexivity.
  - intros body r H Hs. unfold handle_upload_resume in H.
    destruct (field body "userId" "demo") as [user_id|]; [|discriminate].
    cbn [bind] in H.
    destruct (field body "filename" _) as [filename|]; [|discriminate].
    cbn [bind] in H.
    destruct (dict_get body "contentBase64") as [content_b64|]; [|discriminate].
    cbn [bind] in H.
    destruct (negb _); [injection H as <-; discriminate|].
    destruct (negb _); [injection H as <-; discriminate|].
    pose proof (quota_gate_spec sv user_id "Doc limit reached (10).") as Hg.
    destruct (quota_gate sv user_id "Doc limit reached (10).") as [r'|].
    + destruct Hg as [_ [n [Hc Hn]]]. now exists user_id, n.
    + apply upload_rest_not_429 in H. congruence.
  - intros ev body user_id e n Hb Hu He Hn.
    unfold handle_tailor.
    change (_get_body (with_count sv n) ev) with (_get_body sv ev).
    rewrite Hb. cbn [bind]. rewrite Hu. cbn [bind].
    destruct (field body "documentId" "") as [source_doc_id|]; [|reflexivity].
    cbn [bind].
    destruct (field body "jobUrl" "") as [job_url|]; [|reflexivity]. cbn [bind].
    destruct (field body "interests" "") as [interests|]; [|reflexivity]. cbn [bind].
    destruct (negb _); [reflexivity|].
    rewrite (quota_gate_raised sv _ _ e He), quota_gate_with_count by assumption.
    reflexivity.
  - intros ev r H Hs. unfold handle_tailor in H.
    destruct (_get_body sv ev) as [body|] eqn:Hb; [|discriminate]. cbn [bind] in H.
    destruct (field body "userId" "demo") as [user_id|] eqn:Hu; [|discriminate].
    cbn [bind] in H.
    destruct (field body "documentId" "") as [source_doc_id|]; [|discriminate].
    cbn [bind] in H.
    destruct (field body "jobUrl" "") as [job_url|]; [|discriminate]. cbn [bind] in H.
    destruct (field body "interests" "") as [interests|]; [|discriminate].
    cbn [bind] in H.
    destruct (negb _); [injection H as <-; discriminate|].
    pose proof (quota_gate_spec sv user_id "Document limit reached (10)") as Hg.
    destruct (quota_gate sv user_id "Document limit reached (10)") as [r'|].
    + destruct Hg as [_ [n [Hc Hn]]]. exists body, user_id, n.
      split; [reflexivity|]. split; [assumption|]. split; assumption.
    + apply tailor_rest_not_429 in H. congruence.
Qed.

Lemma quota_check_swallows_failure_witness :
  let sv := demo_services (Raised (OtherError "Read timeout")) in
  handle_upload_resume sv upload_body = handle_upload_resume (with_count sv 0) upload_body /\
  handle_tailor sv {| ev_body := None; isBase64Encoded := false |} =
  handle_tailor (with_count sv 0) {| ev_body := None; isBase64Encoded := false |}.
Proof.
  intros sv.
  destruct (quota_check_swallows_failure sv) as (Hup & _ & Htl & _).
  split.
  - apply (Hup upload_body "u1" (OtherError "Read timeout") 0%Z);
      vm_compute; reflexivity.
  - eapply (Htl _ _ "u1" (OtherError "Read timeout") 0%Z);
      vm_compute; reflexivity.
Defined.

Example upload_despite_failed_count :
  match handle_upload_resume (demo_services (Raised (OtherError "Read timeout"))) upload_body with
  | Returned r => statusCode r
  | Raised _ => (-1)%Z
  end = 200%Z.
Proof. vm_compute. reflexivity. Qed.

Example upload_over_quota :
  match handle_upload_resume (demo_services (Returned 10%Z)) upload_body with
  | Returned r => statusCode r
  | Raised _ => (-1)%Z
  end = 429%Z.
Proof. vm_compute. reflexivity. Qed.

Example tailor_despite_failed_count :
  match handle_tailor (demo_services
          (Raised (ClientError "ThrottlingException" "Rate exceeded" "Query")))
          {| ev_body := None; isBase64Encoded := false |} with
  | Returned r => statusCode r
  | Raised _ => (-1)%Z
  end = 404%Z.
Proof. vm_compute. reflexivity. Qed.

(** ** The skill-scoring route *)
Section Score.

Lemma score_divisor_positive (required : gset string) : (1 <= score_divisor required)%Z.
Proof. unfold score_divisor. lia. Qed.

Lemma skill_score_returns (resume required : gset string) :
  skill_score resume required =
  let coverage :=
    (float_of_Z (Z.of_nat (size (resume ∩ required))) /
     float_of_Z (score_divisor required))%float in
  Returned (round3 coverage, coverage).
Proof.
  unfold skill_score, py_truediv.
  pose proof (score_divisor_positive required) as Hpos.
  destruct (Z.eqb_spec (score_divisor required) 0); [lia | reflexivity].
Qed.

Lemma skill_score_empty (resume : gset string) :
  skill_score resume ∅ = Returned (0%float, 0%float).
Proof.
  rewrite skill_score_returns.
  replace (resume ∩ ∅) with (∅ : gset string) by (symmetry; apply (right_absorb_L _ _)).
  reflexivity.
Qed.

End Score.

(** C10. The score computation never raises: its divisor is
    [max(1, len(required))], which is at least 1, so the division returns
    for every pair of skill sets, and the route answers with status 200
    whenever the two skill values could be read; a request whose
    [requiredSkills] is the empty list, with any list of strings as
    [resumeSkills], is answered with coverage 0 and score 0.0. *)
Theorem score_never_divides_by_zero (resume required : gset string) :
  (1 <= score_divisor required)%Z /\
  score_divisor required = Z.max 1 (Z.of_nat (size required)) /\
  (exists coverage score, skill_score resume required = Returned (score, coverage)) /\
  skill_score resume ∅ = Returned (0%float, 0%float) /\
  (forall sv ev m have need,
     _get_body sv ev = Returned (JObj m) ->
     lower_set (match m !! "resumeSkills" with Some v => v | None => JList [] end) =
       Returned have ->
     lower_set (match m !! "requiredSkills" with Some v => v | None => JList [] end) =
       Returned need ->
     exists score coverage,
       handle_score sv ev =
       Returned (_resp 200 (obj [("score", JFloat score); ("coverage", JFloat coverage)]))) /\
  (forall sv ev m skills,
     _get_body sv ev = Returned (JObj m) ->
     m !! "requiredSkills" = Some (JList []) ->
     (m !! "resumeSkills" = None \/
      exists l, m !! "resumeSkills" = Some (JList l) /\ lower_items l = Returned skills) ->
     handle_score sv ev =
     Returned (_resp 200 (obj [("score", JFloat 0%float); ("coverage", JFloat 0%float)]))).
Proof.
  split; [apply score_divisor_positive|].
  split; [reflexivity|].
  split; [rewrite skill_score_returns; eexists; eexists; reflexivity|].
  split; [apply skill_score_empty|].
  split.
  { intros sv ev m have need Hb Hhave Hneed. unfold handle_score.
    rewrite Hb. cbn [bind dict_get]. rewrite Hhave, Hneed. cbn [bind].
    rewrite skill_score_returns. cbv zeta. cbn [bind fst snd].
    eexists. eexists. reflexivity. }
  intros sv ev m skills Hb Hreq Hres. unfold handle_score.
  rewrite Hb. cbn [bind dict_get]. rewrite Hreq.
  destruct Hres as [Hnone|[l [Hsome Hl]]].
  - rewrite Hnone. cbn [lower_set lower_items bind].
    change (list_to_set []) with (∅ : gset string).
    rewrite skill_score_empty. reflexivity.
  - rewrite Hsome. cbn [lower_set bind]. rewrite Hl. cbn [lower_items bind].
    change (list_to_set []) with (∅ : gset string).
    rewrite skill_score_empty. reflexivity.
Qed.

Lemma score_never_divides_by_zero_witness :
  handle_score
    (score_services (JObj (<["requiredSkills" := JList []]>
                             (<["resumeSkills" := JList [JStr "Python"; JStr "SQL"]]> ∅))))
    {| ev_body := Some "{}"; isBase64Encoded := false |} =
  Returned (_resp 200 (obj [("score", JFloat 0%float); ("coverage", JFloat 0%float)])).
Proof.
  destruct (score_never_divides_by_zero ∅ ∅) as (_ & _ & _ & _ & _ & H).
  eapply (H _ _ _ ["python"; "sql"]).
  - reflexivity.
  - reflexivity.
  - right. eexists. split; reflexivity.
Defined.

(** The scenario of the specification: two of the resume's skills, one of
    them required among two. *)
Example score_half :
  skill_score (list_to_set ["python"; "sql"]) (list_to_set ["python"; "go"]) =
  Returned (0.5%float, 0.5%float).
Proof. vm_compute. reflexivity. Qed.

Example score_third :
  skill_score (list_to_set ["python"]) (list_to_set ["python"; "go"; "rust"]) =
  Returned ((333 / 1000)%float, (1 / 3)%float).
Proof. vm_compute. reflexivity. Qed.

(** The scenario of the specification at the route: resume skills
    "Python" and "SQL" against required skills "python" and "go" give
    coverage 1/2 and score 0.5. *)
Theorem score_scenario :
  handle_score
    (score_services
       (obj [("resumeSkills", JList [JStr "Python"; JStr "SQL"]);
             ("requiredSkills", JList [JStr "python"; JStr "go"])]))
    {| ev_body := Some "{}"; isBase64Encoded := false |} =
  Returned (_resp 200 (obj [("score", JFloat 0.5%float); ("coverage", JFloat 0.5%float)])).
Proof. vm_compute. reflexivity. Qed.

(** * Properties of the router and the remaining routes *)

(** ** Paths *)
Section Paths.

Lemma collapse_slashes_cons2 (a b : ascii) (r : string) :
  collapse_slashes (String a (String b r)) =
  if Ascii.eqb a "/" && Ascii.eqb b "/" then collapse_slashes (String b r)
  else String a (String b r).
Proof. reflexivity. Qed.

Lemma startswith_slashes (a b : ascii) (r : string) :
  startswith "//" (String a (String b r)) = Ascii.eqb a "/" && Ascii.eqb b "/".
Proof.
  cbn [startswith]. rewrite (Ascii.eqb_sym "/" a), (Ascii.eqb_sym "/" b).
  destruct (Ascii.eqb a "/"), (Ascii.eqb b "/"); reflexivity.
Qed.

Lemma collapse_slashes_no_double (p : string) :
  startswith "//" (collapse_slashes p) = false.
Proof.
  induction p as [|a p IH]; [reflexivity|].
  destruct p as [|b r].
  - cbn [collapse_slashes startswith]. destruct (Ascii.eqb "/" a); reflexivity.
  - rewrite collapse_slashes_cons2.
    destruct (Ascii.eqb a "/" && Ascii.eqb b "/") eqn:E; [exact IH|].
    now rewrite startswith_slashes.
Qed.

Lemma collapse_slashes_fixed (p : string) :
  startswith "//" p = false -> collapse_slashes p = p.
Proof.
  destruct p as [|a [|b r]]; try reflexivity.
  rewrite startswith_slashes, collapse_slashes_cons2. now intros ->.
Qed.

Lemma ends_with_char_app (d : ascii) (p : string) :
  ends_with_char d (p +:+ String d "") = true.
Proof.
  induction p as [|a p IH]; cbn [String.append ends_with_char].
  - apply Ascii.eqb_refl.
  - destruct (p +:+ String d "") eqn:E; [destruct p; discriminate | exact IH].
Qed.

Lemma drop_last_app (d : ascii) (p : string) : drop_last (p +:+ String d "") = p.
Proof.
  induction p as [|a p IH]; cbn [String.append drop_last]; [reflexivity|].
  destruct (p +:+ String d "") eqn:E; [destruct p; discriminate|].
  now rewrite IH.
Qed.

Lemma collapse_slashes_app (p : string) :
  p <> "" -> ends_with_char "/" p = false ->
  collapse_slashes (p +:+ "/") = collapse_slashes p +:+ "/" /\
  collapse_slashes p <> "" /\
  ends_with_char "/" (collapse_slashes p) = false.
Proof.
  induction p as [|a p IH]; [congruence|]. intros _ He.
  destruct p as [|b r].
  - cbn in He. cbn [String.append]. rewrite collapse_slashes_cons2.
    cbn [collapse_slashes]. rewrite He. cbn [andb]. repeat split; [discriminate | exact He].
  - assert (Hr : ends_with_char "/" (String b r) = false) by exact He.
    destruct (IH ltac:(discriminate) Hr) as (E1 & E2 & E3).
    change (String a (String b r) +:+ "/") with (String a (String b (r +:+ "/"))).
    rewrite !collapse_slashes_cons2.
    destruct (Ascii.eqb a "/" && Ascii.eqb b "/").
    + change (String b (r +:+ "/")) with (String b r +:+ "/"). now rewrite E1.
    + repeat split; [discriminate | exact He].
Qed.

Lemma normalize_path_trailing (p : string) :
  p <> "" -> ends_with_char "/" p = false ->
  normalize_path (p +:+ "/") = normalize_path p.
Proof.
  intros Hp He. destruct (collapse_slashes_app p Hp He) as (E1 & E2 & E3).
  unfold normalize_path. rewrite E1, E3, ends_with_char_app, drop_last_app.
  cbn [andb]. destruct (collapse_slashes p) as [|c q] eqn:E; [congruence|].
  destruct (String.eqb_spec (String c q +:+ "/") "/") as [E4|_]; [|reflexivity].
  cbn [String.append] in E4. injection E4 as _ E4. destruct q; discriminate.
Qed.

Lemma normalize_path_leading (q : string) :
  normalize_path ("//" +:+ q) = normalize_path ("/" +:+ q).
Proof. reflexivity. Qed.

Lemma normalize_path_no_double (p : string) :
  startswith "//" (normalize_path p) = false.
Proof.
  unfold normalize_path. pose proof (collapse_slashes_no_double p) as H.
  destruct (ends_with_char "/" (collapse_slashes p) && _); [|exact H].
  destruct (collapse_slashes p) as [|a [|b [|c r]]]; try reflexivity.
  - cbn [drop_last startswith]. destruct (Ascii.eqb "/" a); reflexivity.
  - rewrite startswith_slashes in H. cbn [drop_last].
    destruct r; rewrite startswith_slashes; exact H.
Qed.

End Paths.

(** ** The router *)

Lemma request_path_with_rawPath (req : request) (c : ascii) (p : string) :
  request_path (with_rawPath req (String c p)) = normalize_path (String c p).
Proof. reflexivity. Qed.

Lemma lambda_handler_by_path (st : stores) (req : request) (p q : string) :
  request_path (with_rawPath req p) = request_path (with_rawPath req q) ->
  lambda_handler st (with_rawPath req p) = lambda_handler st (with_rawPath req q).
Proof.
  intros E. unfold lambda_handler. rewrite E. reflexivity.
Qed.

(** A request reaches the same route, and gets the same answer, with one
    closing slash more and with one opening slash more. *)
Theorem route_ignores_extra_slashes (st : stores) (req : request) (p : string) :
  p <> "" -> ends_with_char "/" p = false ->
  lambda_handler st (with_rawPath req (p +:+ "/")) =
    lambda_handler st (with_rawPath req p) /\
  lambda_handler st (with_rawPath req ("/" +:+ "/" +:+ p)) =
    lambda_handler st (with_rawPath req ("/" +:+ p)) /\
  startswith "//" (request_path (with_rawPath req p)) = false.
Proof.
  intros Hp He. split; [|split].
  - apply lambda_handler_by_path.
    destruct p as [|c r]; [congruence|].
    change (String c r +:+ "/") with (String c (r +:+ "/")).
    rewrite !request_path_with_rawPath.
    exact (normalize_path_trailing (String c r) Hp He).
  - apply lambda_handler_by_path. reflexivity.
  - destruct p as [|c r]; [congruence|].
    rewrite request_path_with_rawPath. apply normalize_path_no_double.
Qed.

Lemma route_ignores_extra_slashes_witness :
  lambda_handler demo_stores (with_rawPath (get_request "/") "/health/") =
  lambda_handler demo_stores (with_rawPath (get_request "/") "/health").
Proof.
  apply (route_ignores_extra_slashes demo_stores (get_request "/") "/health").
  - discriminate.
  - reflexivity.
Defined.

(** The preflight is answered whatever the path, and a pair of method and
    path outside the table is answered with 404, the normalized path and
    the uppercased method in the body; neither answer depends on a
    store. *)
Theorem router_table (st : stores) (req : request) :
  (request_method req = "OPTIONS" -> lambda_handler st req = Returned (Bare 200 "")) /\
  (request_method req <> "OPTIONS" ->
   routed (request_method req) (request_path req) = false ->
   lambda_handler st req =
   Returned (Json (_resp 404 (obj [("error", JStr "Not found");
                                   ("path", JStr (request_path req));
                                   ("method", JStr (request_method req))])))).
Proof.
  unfold lambda_handler.
  set (m := request_method req). set (p := request_path req). clearbody m p.
  split.
  - intros ->. reflexivity.
  - intros Hm. unfold routed, ROUTES. cbn [existsb fst snd in_list].
    destruct (String.eqb_spec m "OPTIONS") as [E|_]; [congruence|].
    destruct (String.eqb m "GET"), (String.eqb m "POST"), (String.eqb m "DELETE");
      cbn [andb orb];
      repeat match goal with
             | |- context [String.eqb p ?x] =>
                 destruct (String.eqb p x); cbn [andb orb]; try discriminate
             end;
      intros _; reflexivity.
Qed.

Ltac crack H :=
  repeat match type of H with
  | context [match ?x with _ => _ end] => destruct x eqn:?
  end.

(** ** Diagnostics *)

(** The diagnostics never raise and always run both probes, the second
    one also after the first has failed; the status is 200 when both
    probes returned and 500 otherwise, and a failed probe is listed with
    its error text. *)
Theorem diag_runs_both_probes (st : stores) :
  let ok := returns (probe_tcp_tls st) && returns (probe_models st) in
  exists first second,
    handle_diag st =
      _resp (if ok then 200 else 500)
            (obj [("ok", JBool ok); ("steps", JList [first; second])]) /\
    (forall e, probe_tcp_tls st = Raised e ->
       first = obj [("tcp_tls", JStr ("error: " +:+ str_exn e))]) /\
    (forall rtt, probe_tcp_tls st = Returned rtt ->
       first = obj [("tcp_tls", JStr "ok"); ("rtt_ms", JNum rtt)]) /\
    (forall e, probe_models st = Raised e ->
       second = obj [("models_error", JStr (str_exn e))]) /\
    (forall status, probe_models st = Returned status ->
       second = obj [("models_http_status", JNum status)]).
Proof.
  unfold handle_diag.
  destruct (probe_tcp_tls st) as [rtt|e1], (probe_models st) as [status|e2];
    cbn [returns andb fst snd app];
    eexists _, _; (split; [reflexivity|]);
    repeat split; intros ? [=]; subst; reflexivity.
Qed.

(** ** The stored HTML of a document *)

(** The document route raises only when the lookup of the document
    raises; it serves HTML, with status 200, only for a document that was
    found, whose content type begins with "text/html" and whose object
    could be read, and the body is then the decoded object; every other
    answer is a JSON error with status 400, 404, 415 or 500. *)
Theorem document_html_served (sv : services) (req : request) :
  let user_id := strip (qs_or (req_query req) "userId" "demo") in
  let doc_id := strip (qs_or (req_query req) "documentId" "") in
  (forall e, handle_get_document_html sv req = Raised e ->
     _find_doc_by_id sv user_id doc_id = Raised e) /\
  (forall r, handle_get_document_html sv req = Returned r ->
     match r with
     | Html code body =>
         code = 200%Z /\
         exists item key bytes ct,
           _find_doc_by_id sv user_id doc_id = Returned (Some item) /\
           doc_contentType item = Some ct /\ startswith "text/html" ct = true /\
           doc_s3Key item = Some key /\ key <> "" /\
           get_object sv key = Returned bytes /\ body = decode_utf8 sv bytes
     | Json x => In (statusCode x) [400; 404; 415; 500]%Z
     | Bare _ _ => False
     end).
Proof.
  intros user_id doc_id. unfold handle_get_document_html.
  fold user_id doc_id.
  split.
  - intros e H. unfold bind in H. crack H; try discriminate. now injection H as ->.
  - intros r H. unfold bind in H. crack H; try discriminate;
      injection H as <-; cbn [statusCode _resp In]; try tauto.
    split; [reflexivity|].
    match goal with
    | Hf : _find_doc_by_id _ _ _ = Returned (Some ?it),
      Hk : doc_s3Key ?it = Some ?k,
      Hg : get_object _ _ = Returned ?b,
      Hn : negb (startswith _ _) = false |- _ =>
        exists it, k, b;
        destruct (doc_contentType it) as [ct|] eqn:Hct;
          [exists ct; apply negb_false_iff in Hn | cbn in Hn; discriminate]
    end.
    repeat split; try assumption; try reflexivity. discriminate.
Qed.

(** ** The list of documents *)

Lemma add_url_signed (st : stores) (it : gmap string jval) :
  signed_from st it (add_url st it).
Proof.
  unfold signed_from, add_url.
  destruct (it !! "s3Key") as [k|] eqn:Hk; [|now split; [|left]].
  destruct (presign_item st k) as [u|e] eqn:Hu; [|now split; [|left]].
  split.
  - apply delete_insert_eq.
  - right. exists k, u. repeat split; try assumption. apply lookup_insert_eq.
Qed.

Lemma list_reply_spec (st : stores) (items : list (gmap string jval)) :
  exists signed,
    list_reply st items =
      _resp 200 (obj [("items", JList (map JObj signed));
                      ("count", JNum (Z.of_nat (length signed)))]) /\
    Forall2 (signed_from st) items signed.
Proof.
  exists (map (add_url st) items). split.
  - unfold list_reply. now rewrite List.map_map, List.length_map.
  - induction items as [|it items IH]; constructor; [apply add_url_signed | exact IH].
Qed.


(** ** Applications *)

(** The application route answers only with status 200, and its body is
    the very item it has put in the table: the owner trimmed, the job
    identifier of the request or a fresh one, the score and the status of
    the request, [0] and "CREATED" when the request has no such key, and
    the time. *)
Lemma create_application_echoes_item (st : stores) (b : gmap string jval)
    (r : response) :
  handle_create_application st (JObj b) = Returned r ->
  statusCode r = 200%Z /\
  put_application st (payload r) = Returned tt /\
  exists user_id,
    field (JObj b) "userId" "demo" = Returned user_id /\
    payload r =
      obj [("userId", JStr user_id);
           ("jobId", or_default (b !! "jobId") (JStr (uuid4 (core st) 0)));
           ("score", default (JNum 0) (b !! "score"));
           ("status", default (JStr "CREATED") (b !! "status"));
           ("createdAt", JNum (time_now (core st)))].
Proof.
  unfold handle_create_application. intros H.
  destruct (field (JObj b) "userId" "demo") as [user_id|e] eqn:Hf; [|discriminate].
  cbn [bind dict_get] in H.
  match type of H with
  | context [put_application st ?item] =>
      destruct (put_application st item) as [[]|e] eqn:Hp; [|discriminate]
  end.
  cbn [bind] in H. injection H as <-. cbn [statusCode payload _resp].
  split; [reflexivity|]. split; [exact Hp|].
  exists user_id. split; [reflexivity|].
  destruct (b !! "score"), (b !! "status"); reflexivity.
Qed.

(** ** Deleting a document *)

Lemma delete_index_spec (st : stores) (user_id document_id : string)
    (item : option (gmap string jval)) (b : bool) :
  delete_index st user_id document_id item = Returned b ->
  (b = true -> exists u d, delete_item st u d = Returned tt) /\
  (b = false -> item_truthy item = false /\ document_id = "").
Proof.
  unfold delete_index, item_truthy. intros H. unfold bind in H.
  crack H; try discriminate; injection H as <-;
    (split; intros; try discriminate);
    repeat match goal with u : unit |- _ => destruct u end; eauto.
  all: destruct document_id; [split; [assumption || reflexivity | reflexivity] | discriminate].
Qed.

Lemma delete_rest_spec (st : stores) (user_id document_id : string)
    (item : option (gmap string jval)) (explicit_key : jval) (r : response) :
  delete_rest st user_id document_id item explicit_key = Returned r ->
  statusCode r = 500%Z \/
  exists s3_deleted ddb_deleted,
    r = _resp 200 (obj [("ok", JBool true); ("s3Deleted", JBool s3_deleted);
                        ("ddbDeleted", JBool ddb_deleted); ("s3Key", explicit_key);
                        ("userId", JStr user_id);
                        ("documentId", reported_id document_id item)]) /\
    (s3_deleted = true ->
     jtruthy explicit_key = true /\ delete_object st explicit_key = Returned tt) /\
    (s3_deleted = false ->
     jtruthy explicit_key = false \/
     exists c m o, delete_object st explicit_key = Raised (ClientError c m o) /\
                   In c ["NoSuchKey"; "AccessDenied"]) /\
    (ddb_deleted = true -> exists u d, delete_item st u d = Returned tt) /\
    (ddb_deleted = false -> item_truthy item = false /\ document_id = "").
Proof.
  assert (F : forall s3 r,
    delete_finish st user_id document_id item explicit_key s3 = Returned r ->
    statusCode r = 500%Z \/
    exists ddb_deleted,
      r = _resp 200 (obj [("ok", JBool true); ("s3Deleted", JBool s3);
                          ("ddbDeleted", JBool ddb_deleted); ("s3Key", explicit_key);
                          ("userId", JStr user_id);
                          ("documentId", reported_id document_id item)]) /\
      (ddb_deleted = true -> exists u d, delete_item st u d = Returned tt) /\
      (ddb_deleted = false -> item_truthy item = false /\ document_id = "")).
  { intros s3 r0 H. unfold delete_finish in H.
    destruct (delete_index st user_id document_id item) as [b|[c m o|text]] eqn:Hi.
    - injection H as <-. right. exists b. split; [reflexivity|].
      exact (delete_index_spec _ _ _ _ _ Hi).
    - injection H as <-. now left.
    - discriminate. }
  unfold delete_rest. intros H.
  destruct (jtruthy explicit_key) eqn:Hk.
  - destruct (delete_object st explicit_key) as [[]|[c m o|text]] eqn:Hd.
    + destruct (F _ _ H) as [E|(b & E & H1 & H2)]; [now left|].
      right. exists true, b.
      split; [exact E|]. split; [intros _; now split|].
      split; [discriminate|]. now split.
    + destruct (negb (in_list c ["NoSuchKey"; "AccessDenied"])) eqn:Hc.
      * injection H as <-. now left.
      * destruct (F _ _ H) as [E|(b & E & H1 & H2)]; [now left|].
        right. exists false, b.
        split; [exact E|]. split; [discriminate|]. split; [|now split].
        intros _. right. exists c, m, o. split; [reflexivity|].
        apply in_list_In. now apply negb_false_iff in Hc.
    + discriminate.
  - destruct (F _ _ H) as [E|(b & E & H1 & H2)]; [now left|].
    right. exists false, b.
    split; [exact E|]. split; [discriminate|]. split; [|now split].
    intros _. now left.
Qed.

Lemma truthy_false (s : string) : truthy s = false -> s = "".
Proof. destruct s; [reflexivity | discriminate]. Qed.

Lemma truthy_true (s : string) : s <> "" -> truthy s = true.
Proof. destruct s; [congruence | reflexivity]. Qed.

(** What an answer of the delete route tells, the three fields as read. *)
Lemma delete_reply_inversion (st : stores) (req : request)
    (user_id document_id explicit_key : string) (r : response) :
  let body := delete_body (core st) (req_event req) in
  let qs := req_query req in
  pick body qs "userId" "demo" = Returned user_id ->
  pick body qs "documentId" "" = Returned document_id ->
  pick body qs "s3Key" "" = Returned explicit_key ->
  handle_delete_document st req = Returned r ->
  (statusCode r = 400%Z /\
   (user_id = "" \/ (document_id = "" /\ explicit_key = ""))) \/
  statusCode r = 500%Z \/
  (explicit_key = "" /\
   r = _resp 200 (obj [("ok", JBool true);
                       ("message", JStr "Document not found; nothing to delete")]) /\
   exists item, lookup_for_delete st user_id document_id = Returned item /\
                item_truthy item = false) \/
  (exists item key s3_deleted ddb_deleted,
     r = _resp 200 (obj [("ok", JBool true); ("s3Deleted", JBool s3_deleted);
                         ("ddbDeleted", JBool ddb_deleted); ("s3Key", key);
                         ("userId", JStr user_id);
                         ("documentId", reported_id document_id item)]) /\
     (s3_deleted = true -> jtruthy key = true /\ delete_object st key = Returned tt) /\
     (s3_deleted = false ->
      jtruthy key = false \/
      exists c m o, delete_object st key = Raised (ClientError c m o) /\
                    In c ["NoSuchKey"; "AccessDenied"]) /\
     (ddb_deleted = true -> exists u d, delete_item st u d = Returned tt) /\
     (ddb_deleted = false -> item_truthy item = false /\ document_id = "")).
Proof.
  intros body qs Hu Hd Hk. unfold handle_delete_document. fold body qs.
  rewrite Hu, Hd, Hk. cbn [bind]. intros H.
  destruct (negb (truthy user_id && (truthy document_id || truthy explicit_key))) eqn:Hreq.
  { injection H as <-. left. split; [reflexivity|].
    apply negb_true_iff in Hreq.
    destruct (truthy user_id) eqn:T1; [|left; now apply truthy_false].
    destruct (truthy document_id) eqn:T2; [discriminate|].
    destruct (truthy explicit_key) eqn:T3; [discriminate|].
    right. split; now apply truthy_false. }
  right.
  destruct (negb (truthy explicit_key)) eqn:Hkey.
  - apply negb_true_iff, truthy_false in Hkey. subst explicit_key.
    destruct (lookup_for_delete st user_id document_id) as [item|[c m o|text]] eqn:Hl.
    + destruct (negb (item_truthy item)) eqn:Hit.
      * injection H as <-. right. left. split; [reflexivity|]. split; [reflexivity|].
        exists item. split; [reflexivity|]. now apply negb_true_iff in Hit.
      * apply delete_rest_spec in H.
        destruct H as [H|(s3 & ddb & E & H1 & H2 & H3 & H4)]; [now left|].
        right. right. eexists item, _, s3, ddb. split; [exact E|]. auto.
    + injection H as <-. now left.
    + discriminate.
  - apply delete_rest_spec in H.
    destruct H as [H|(s3 & ddb & E & H1 & H2 & H3 & H4)]; [now left|].
    right. right. exists None, (JStr explicit_key), s3, ddb. split; [exact E|]. auto.
Qed.



(** ** File names *)
Section FileNames.

Lemma mem_char_app (d : ascii) (a b : string) :
  mem_char d (a +:+ b) = mem_char d a || mem_char d b.
Proof.
  induction a as [|c a IH]; [reflexivity|].
  cbn [String.append mem_char]. rewrite IH. now rewrite orb_assoc.
Qed.

Lemma after_last_none (d : ascii) (s : string) :
  mem_char d s = false -> after_last d s = s.
Proof.
  destruct s as [|c s]; [reflexivity|]. cbn [mem_char after_last].
  intros H. apply orb_false_elim in H as [H1 H2]. rewrite H2.
  rewrite Ascii.eqb_sym, H1. reflexivity.
Qed.

Lemma after_last_app (d : ascii) (a b : string) :
  mem_char d b = false -> after_last d (a +:+ String d b) = b.
Proof.
  intros Hb. induction a as [|c a IH]; cbn [String.append after_last].
  - now rewrite Hb, Ascii.eqb_refl.
  - rewrite mem_char_app. cbn [mem_char]. rewrite Ascii.eqb_refl.
    cbn [orb]. rewrite orb_true_r. exact IH.
Qed.

Lemma before_last_none (d : ascii) (s : string) :
  mem_char d s = false -> before_last d s = s.
Proof.
  destruct s as [|c s]; [reflexivity|]. cbn [mem_char before_last].
  intros H. apply orb_false_elim in H as [H1 H2]. rewrite H2.
  rewrite Ascii.eqb_sym, H1. reflexivity.
Qed.

Lemma before_last_app (d : ascii) (a b : string) :
  mem_char d b = false -> before_last d (a +:+ String d b) = a.
Proof.
  intros Hb. induction a as [|c a IH]; cbn [String.append before_last].
  - now rewrite Hb, Ascii.eqb_refl.
  - rewrite mem_char_app. cbn [mem_char]. rewrite Ascii.eqb_refl.
    cbn [orb]. rewrite orb_true_r. now rewrite IH.
Qed.

(** A text that holds [d] splits at the last [d]. *)
Lemma split_at_last (d : ascii) (s : string) :
  mem_char d s = true ->
  exists a b, s = a +:+ String d b /\ mem_char d b = false.
Proof.
  induction s as [|c s IH]; [discriminate|]. cbn [mem_char]. intros H.
  destruct (mem_char d s) eqn:Hs.
  - destruct (IH eq_refl) as (a & b & -> & Hb). now exists (String c a), b.
  - rewrite orb_false_r in H. apply Ascii.eqb_eq in H. subst c.
    now exists "", s.
Qed.

Lemma mem_char_after_last (d : ascii) (s : string) :
  mem_char d (after_last d s) = false.
Proof.
  destruct (mem_char d s) eqn:Hs.
  - destruct (split_at_last d s Hs) as (a & b & -> & Hb). now rewrite after_last_app.
  - now rewrite after_last_none.
Qed.

Lemma lower_char_is (d c : ascii) :
  is_alpha d = false -> Ascii.eqb d (lower_char c) = Ascii.eqb d c.
Proof.
  intros Hd. unfold lower_char. destruct (is_upper c) eqn:Hc; [|reflexivity].
  destruct (Ascii.eqb_spec d c) as [->|_].
  - unfold is_alpha in Hd. rewrite Hc in Hd. discriminate.
  - apply Ascii.eqb_neq. intros ->.
    revert Hd Hc. destruct c as [[] [] [] [] [] [] [] []]; vm_compute; congruence.
Qed.

Lemma mem_char_lower (d : ascii) (s : string) :
  is_alpha d = false -> mem_char d (lower s) = mem_char d s.
Proof.
  intros Hd. induction s as [|c s IH]; [reflexivity|].
  cbn [lower mem_char]. now rewrite IH, lower_char_is.
Qed.

Lemma lower_char_idem (c : ascii) : lower_char (lower_char c) = lower_char c.
Proof. destruct c as [[] [] [] [] [] [] [] []]; reflexivity. Qed.

Lemma lower_idem (s : string) : lower (lower s) = lower s.
Proof.
  induction s as [|c s IH]; [reflexivity|].
  cbn [lower]. now rewrite IH, lower_char_idem.
Qed.

End FileNames.

(** [_basename] is the part of a key behind its last slash, and the whole
    key when it has none; [_ext] is the part of a file name behind its last
    dot, in lowercase, and empty when the name has no dot.  Neither result
    holds the separator, and a name splits into the text before its last
    dot, the dot and the text behind it. *)
Theorem basename_ext_spec (s : string) :
  (forall dir name, s = dir +:+ "/" +:+ name -> mem_char "/" name = false ->
     _basename s = name) /\
  (mem_char "/" s = false -> _basename s = s) /\
  mem_char "/" (_basename s) = false /\
  (forall stem e, s = stem +:+ "." +:+ e -> mem_char "." e = false ->
     _ext s = lower e /\ before_last "." s = stem) /\
  (mem_char "." s = false -> _ext s = "" /\ before_last "." s = s) /\
  mem_char "." (_ext s) = false /\
  lower (_ext s) = _ext s /\
  (mem_char "." s = true -> s = before_last "." s +:+ "." +:+ after_last "." s).
Proof.
  unfold _basename, _ext.
  split; [|split; [|split; [|split; [|split; [|split; [|split]]]]]].
  - intros dir name -> Hn. now apply after_last_app.
  - apply after_last_none.
  - apply mem_char_after_last.
  - intros stem e -> He. rewrite mem_char_app. cbn [String.append mem_char].
    rewrite Ascii.eqb_refl, orb_true_r. split.
    + rewrite lower_app. cbn [String.append lower].
      apply (after_last_app "." (lower stem) (lower e)).
      now rewrite mem_char_lower.
    + now apply (before_last_app "." stem e).
  - intros H. rewrite H. split; [reflexivity | now apply before_last_none].
  - destruct (mem_char "." s); [apply mem_char_after_last | reflexivity].
  - destruct (mem_char "." s) eqn:Hs; [|reflexivity].
    destruct (split_at_last "." s Hs) as (a & b & -> & Hb).
    rewrite lower_app. change (lower (String "." b)) with (String "." (lower b)).
    rewrite (after_last_app "." (lower a) (lower b)) by now rewrite mem_char_lower.
    apply lower_idem.
  - intros Hs. destruct (split_at_last "." s Hs) as (a & b & -> & Hb).
    now rewrite before_last_app, after_last_app.
Qed.

(** ** What the answers of the upload and tailor routes tell *)

Lemma upload_rest_spec (sv : services) (user_id filename : string) (content : jval)
    (r : response) :
  upload_rest sv user_id filename content = Returned r ->
  In (statusCode r) [400; 413; 500]%Z \/
  exists data content_type url,
    b64decode sv content = Returned data /\ (length data <= TEN_MB)%nat /\
    content_type = match guess_type sv filename with
                   | Some t => or_else t "application/octet-stream"
                   | None => "application/octet-stream"
                   end /\
    let key := "resumes/" +:+ user_id +:+ "/" +:+ filename in
    put_object sv key data content_type = Returned tt /\
    put_item sv (obj [("userId", JStr user_id); ("documentId", JStr (uuid4 sv 1));
                      ("type", JStr "resume_original"); ("s3Key", JStr key);
                      ("contentType", JStr content_type);
                      ("size", JNum (Z.of_nat (length data)));
                      ("createdAt", JNum (time_now sv))]) = Returned tt /\
    generate_presigned_url sv key = Returned url /\
    r = _resp 200 (obj [("ok", JBool true); ("documentId", JStr (uuid4 sv 1));
                        ("bucket", JStr (BUCKET sv)); ("s3Key", JStr key);
                        ("size", JNum (Z.of_nat (length data)));
                        ("contentType", JStr content_type);
                        ("createdAt", JNum (time_now sv)); ("url", JStr url)]).
Proof.
  unfold upload_rest. intros H.
  destruct (b64decode sv content) as [data|e] eqn:Hb.
  2: { injection H as <-. left. cbn. tauto. }
  destruct (Nat.ltb_spec TEN_MB (length data)) as [Hl|Hl].
  { injection H as <-. left. cbn. tauto. }
  match type of H with
  | context [put_object sv ?k data ?ct] =>
      set (content_type := ct) in *;
      destruct (put_object sv k data content_type) as [[]|[c m o|text]] eqn:Hp
  end.
  - match type of H with
    | context [put_item sv ?it] => destruct (put_item sv it) as [[]|e] eqn:Hi
    end; [|discriminate].
    cbn [bind] in H.
    match type of H with
    | context [generate_presigned_url sv ?k] =>
        destruct (generate_presigned_url sv k) as [url|e] eqn:Hg
    end; [|discriminate].
    cbn [bind] in H. injection H as <-. right.
    exists data, content_type, url. cbv zeta. auto 10.
  - injection H as <-. left. cbn. tauto.
  - discriminate.
Qed.

(** The upload route answers with one of six statuses, and its 200 tells
    that the file was accepted and stored: the owner is not empty, the
    last extension of the file name is an allowed one, the decoded content
    has at most 10 MB, the object was put under
    "resumes/<owner>/<file name>" with the content type guessed from the
    file name, the index got an item with the same identifier, key, size,
    content type and time as the answer, and the answer names the bucket
    and carries the signed address of that key. *)
Theorem upload_reply (sv : services) (body : jval) (r : response) :
  handle_upload_resume sv body = Returned r ->
  In (statusCode r) [200; 400; 413; 415; 429; 500]%Z /\
  (statusCode r = 200%Z ->
   exists user_id filename content data content_type url,
     field body "userId" "demo" = Returned user_id /\ user_id <> "" /\
     field body "filename" ("resume-" +:+ uuid4 sv 0 +:+ ".txt") = Returned filename /\
     in_list (_ext filename) ALLOWED_EXTS = true /\
     dict_get body "contentBase64" = Returned (Some content) /\
     b64decode sv content = Returned data /\ (length data <= TEN_MB)%nat /\
     content_type = match guess_type sv filename with
                    | Some t => or_else t "application/octet-stream"
                    | None => "application/octet-stream"
                    end /\
     let key := "resumes/" +:+ user_id +:+ "/" +:+ filename in
     put_object sv key data content_type = Returned tt /\
     put_item sv (obj [("userId", JStr user_id); ("documentId", JStr (uuid4 sv 1));
                       ("type", JStr "resume_original"); ("s3Key", JStr key);
                       ("contentType", JStr content_type);
                       ("size", JNum (Z.of_nat (length data)));
                       ("createdAt", JNum (time_now sv))]) = Returned tt /\
     generate_presigned_url sv key = Returned url /\
     r = _resp 200 (obj [("ok", JBool true); ("documentId", JStr (uuid4 sv 1));
                         ("bucket", JStr (BUCKET sv)); ("s3Key", JStr key);
                         ("size", JNum (Z.of_nat (length data)));
                         ("contentType", JStr content_type);
                         ("createdAt", JNum (time_now sv)); ("url", JStr url)])).
Proof.
  unfold handle_upload_resume. intros H.
  destruct (field body "userId" "demo") as [user_id|] eqn:Hu; [|discriminate].
  destruct (field body "filename" _) as [filename|] eqn:Hf; [|discriminate].
  destruct (dict_get body "contentBase64") as [content|] eqn:Hc; [|discriminate].
  cbn [bind] in H.
  destruct (negb (truthy user_id && truthy filename && jtruthy (or_default content JNull)))
    eqn:Hreq.
  { injection H as <-. cbn. split; [tauto | discriminate]. }
  destruct (negb (in_list (_ext filename) ALLOWED_EXTS)) eqn:Hext.
  { injection H as <-. cbn. split; [tauto | discriminate]. }
  pose proof (quota_gate_spec sv user_id "Doc limit reached (10).") as Hq.
  destruct (quota_gate sv user_id "Doc limit reached (10).") as [q|].
  { injection H as <-. destruct Hq as [Hq _]. rewrite Hq. cbn. split; [tauto | discriminate]. }
  apply upload_rest_spec in H.
  destruct H as [H|(data & content_type & url & Hb & Hl & Hct0 & Hrest)].
  { split; [cbn in *; tauto|]. intros E. rewrite E in H. cbn in H. intuition discriminate. }
  cbv zeta in Hrest. destruct Hrest as (Hp & Hi & Hg & ->).
  split; [cbn; tauto|]. intros _.
  apply negb_false_iff in Hreq, Hext.
  apply andb_true_iff in Hreq as [Hreq Hct]. apply andb_true_iff in Hreq as [Hus Hfn].
  destruct content as [content|]; [|discriminate].
  assert (Hcont : or_default (Some content) JNull = content).
  { cbn [or_default] in *. destruct (jtruthy content); [reflexivity | discriminate]. }
  rewrite Hcont in Hb.
  exists user_id, filename, content, data, content_type, url. cbv zeta.
  repeat match goal with |- _ /\ _ => split end; try assumption; try reflexivity.
  now apply truthy_spec.
Qed.

Lemma upload_reply_witness :
  exists r user_id,
    handle_upload_resume (demo_services (Returned 0%Z)) upload_body = Returned r /\
    statusCode r = 200%Z /\
    field upload_body "userId" "demo" = Returned user_id /\ user_id <> "".
Proof.
  assert (H : exists r,
    handle_upload_resume (demo_services (Returned 0%Z)) upload_body = Returned r /\
    statusCode r = 200%Z) by (eexists; split; vm_compute; reflexivity).
  destruct H as (r & H & H200).
  destruct (upload_reply _ _ _ H) as [_ Hok].
  destruct (Hok H200) as (u & f & c & d & ct & url & Hu & Hne & _).
  exists r, u. auto.
Defined.

Lemma mem_char_before_last (d d' : ascii) (s : string) :
  mem_char d s = false -> mem_char d (before_last d' s) = false.
Proof.
  intros Hs. destruct (mem_char d' s) eqn:Hd.
  - destruct (split_at_last d' s Hd) as (a & b & -> & Hb).
    rewrite before_last_app by exact Hb.
    rewrite mem_char_app in Hs. now apply orb_false_elim in Hs.
  - now rewrite before_last_none.
Qed.

Lemma tailor_rest_spec (sv : services) (user_id source_doc_id job_url interests : string)
    (r : response) :
  tailor_rest sv user_id source_doc_id job_url interests = Returned r ->
  In (statusCode r) [400; 404; 500]%Z \/
  exists item src_key job_text url,
    _find_doc_by_id sv user_id source_doc_id = Returned (Some item) /\
    doc_s3Key item = Some src_key /\ src_key <> "" /\
    _get_text_from_url (net sv) job_url = Returned job_text /\
    let src_ct := default "application/octet-stream" (doc_contentType item) in
    let resume_text := read_resume sv src_key src_ct in
    let html := (_ai_tailor_resume_html (ai sv) resume_text job_text interests []).1 in
    let html_bytes := String.list_byte_of_string html in
    let base := before_last "." (_basename src_key) in
    let html_key :=
      "resumes/" +:+ user_id +:+ "/tailored/" +:+ base +:+ "__tailored_" +:+
      str_of_Z (time_now sv) +:+ ".html" in
    mem_char "/" base = false /\
    put_object sv html_key html_bytes "text/html; charset=utf-8" = Returned tt /\
    put_item sv
      (obj [("userId", JStr user_id); ("documentId", JStr (uuid4 sv 0));
            ("type", JStr "resume_tailored"); ("s3Key", JStr html_key);
            ("contentType", JStr "text/html");
            ("size", JNum (Z.of_nat (length html_bytes)));
            ("sourceDocumentId", JStr source_doc_id); ("jobUrl", JStr job_url);
            ("interests", JStr interests); ("createdAt", JNum (time_now sv))]) =
      Returned tt /\
    generate_presigned_url sv html_key = Returned url /\
    r = _resp 200
          (obj [("ok", JBool true); ("documentId", JStr (uuid4 sv 0));
                ("s3Key", JStr html_key); ("createdAt", JNum (time_now sv));
                ("type", JStr "resume_tailored"); ("url", JStr url);
                ("contentType", JStr "text/html")]).
Proof.
  unfold tailor_rest. intros H.
  destruct (_find_doc_by_id sv user_id source_doc_id) as [[item|]|] eqn:Hf;
    cbn [bind] in H; [| injection H as <-; left; cbn; tauto | discriminate].
  destruct (doc_s3Key item) as [[|c k]|] eqn:Hk;
    [injection H as <-; left; cbn; tauto | | injection H as <-; left; cbn; tauto].
  destruct (_get_text_from_url (net sv) job_url) as [job_text|] eqn:Hj; [|discriminate].
  cbn [bind] in H.
  match type of H with
  | context [put_object sv ?k ?b ?ct] =>
      destruct (put_object sv k b ct) as [[]|[c1 m1 o1|text]] eqn:Hp
  end; [| injection H as <-; left; cbn; tauto | discriminate].
  match type of H with
  | context [put_item sv ?it] => destruct (put_item sv it) as [[]|e] eqn:Hi
  end; [|discriminate].
  cbn [bind] in H.
  match type of H with
  | context [generate_presigned_url sv ?k] =>
      destruct (generate_presigned_url sv k) as [url|e] eqn:Hg
  end; [|discriminate].
  cbn [bind] in H. injection H as <-. right.
  exists item, (String c k), job_text, url. cbv zeta.
  rewrite or_else_empty in Hi.
  assert (Hct : default "application/octet-stream" (doc_contentType item) =
                match doc_contentType item with
                | Some t => t
                | None => "application/octet-stream"
                end) by (destruct (doc_contentType item); reflexivity).
  rewrite Hct.
  repeat match goal with |- _ /\ _ => split end;
    try assumption; try reflexivity; try discriminate.
  apply mem_char_before_last. apply mem_char_after_last.
Qed.

(** The tailor route answers with one of five statuses, and its 200
    tells what was stored: the source document was found with a key, the
    job text is what the fetcher returned for the job address, the object
    put is the output of the guardrail builder for the resume text read
    and that job text, its key is
    "resumes/<owner>/tailored/<base>__tailored_<time>.html" where <base>,
    the file name of the source key without its last extension, holds no
    slash, and the index got an item with the same identifier, key and
    time as the answer. *)
Theorem tailor_reply (sv : services) (ev : event) (r : response) :
  handle_tailor sv ev = Returned r ->
  In (statusCode r) [200; 400; 404; 429; 500]%Z /\
  (statusCode r = 200%Z ->
   exists body user_id source_doc_id job_url interests item src_key job_text url,
     _get_body sv ev = Returned body /\
     field body "userId" "demo" = Returned user_id /\
     field body "documentId" "" = Returned source_doc_id /\
     field body "jobUrl" "" = Returned job_url /\
     field body "interests" "" = Returned interests /\
     user_id <> "" /\ source_doc_id <> "" /\ job_url <> "" /\
     _find_doc_by_id sv user_id source_doc_id = Returned (Some item) /\
     doc_s3Key item = Some src_key /\ src_key <> "" /\
     _get_text_from_url (net sv) job_url = Returned job_text /\
     let src_ct := default "application/octet-stream" (doc_contentType item) in
     let resume_text := read_resume sv src_key src_ct in
     let html := (_ai_tailor_resume_html (ai sv) resume_text job_text interests []).1 in
     let html_bytes := String.list_byte_of_string html in
     let base := before_last "." (_basename src_key) in
     let html_key :=
       "resumes/" +:+ user_id +:+ "/tailored/" +:+ base +:+ "__tailored_" +:+
       str_of_Z (time_now sv) +:+ ".html" in
     mem_char "/" base = false /\
     put_object sv html_key html_bytes "text/html; charset=utf-8" = Returned tt /\
     put_item sv
       (obj [("userId", JStr user_id); ("documentId", JStr (uuid4 sv 0));
             ("type", JStr "resume_tailored"); ("s3Key", JStr html_key);
             ("contentType", JStr "text/html");
             ("size", JNum (Z.of_nat (length html_bytes)));
             ("sourceDocumentId", JStr source_doc_id); ("jobUrl", JStr job_url);
             ("interests", JStr interests); ("createdAt", JNum (time_now sv))]) =
       Returned tt /\
     generate_presigned_url sv html_key = Returned url /\
     r = _resp 200
           (obj [("ok", JBool true); ("documentId", JStr (uuid4 sv 0));
                 ("s3Key", JStr html_key); ("createdAt", JNum (time_now sv));
                 ("type", JStr "resume_tailored"); ("url", JStr url);
                 ("contentType", JStr "text/html")])).
Proof.
  unfold handle_tailor. intros H.
  destruct (_get_body sv ev) as [body|] eqn:Hb; [|discriminate]. cbn [bind] in H.
  destruct (field body "userId" "demo") as [user_id|] eqn:Hu; [|discriminate].
  destruct (field body "documentId" "") as [source_doc_id|] eqn:Hd; [|discriminate].
  destruct (field body "jobUrl" "") as [job_url|] eqn:Hj; [|discriminate].
  destruct (field body "interests" "") as [interests|] eqn:Hi; [|discriminate].
  cbn [bind] in H.
  destruct (negb (truthy user_id && truthy source_doc_id && truthy job_url)) eqn:Hreq.
  { injection H as <-. cbn. split; [tauto | discriminate]. }
  pose proof (quota_gate_spec sv user_id "Document limit reached (10)") as Hq.
  destruct (quota_gate sv user_id "Document limit reached (10)") as [q|].
  { injection H as <-. destruct Hq as [Hq _]. rewrite Hq. cbn. split; [tauto | discriminate]. }
  apply tailor_rest_spec in H.
  destruct H as [H|(item & src_key & job_text & url & Hrest)].
  { split; [cbn in *; tauto|]. intros E. rewrite E in H. cbn in H. intuition discriminate. }
  cbv zeta in Hrest.
  destruct Hrest as (Hf & Hk & Hne & Hg & Hbase & Hp & Hit & Hs & ->).
  split; [cbn; tauto|]. intros _.
  apply negb_false_iff in Hreq.
  apply andb_true_iff in Hreq as [Hreq T3]. apply andb_true_iff in Hreq as [T1 T2].
  exists body, user_id, source_doc_id, job_url, interests, item, src_key, job_text, url.
  cbv zeta.
  repeat match goal with |- _ /\ _ => split end;
    try assumption; try reflexivity; now apply truthy_spec.
Qed.

Lemma tailor_reply_witness :
  exists r,
    handle_tailor (demo_services (Returned 0%Z))
      {| ev_body := Some "{}"; isBase64Encoded := false |} = Returned r /\
    In (statusCode r) [200; 400; 404; 429; 500]%Z.
Proof.
  eexists. split.
  - vm_compute. reflexivity.
  - apply (tailor_reply (demo_services (Returned 0%Z))
             {| ev_body := Some "{}"; isBase64Encoded := false |}).
    vm_compute. reflexivity.
Defined.

(** ** The guardrail builder, whatever the backend does *)
Section Builder.

Variable env : tailor_env.

Lemma call_once_split (prompt_user : string) (w : world) :
  _call_once env prompt_user w =
  ((_call_once env prompt_user w).1,
   w ++ [{| sent_system := system; sent_user := prompt_user |}]).
Proof.
  rewrite <- (call_once_log env prompt_user w).
  now destruct (_call_once env prompt_user w).
Qed.

Lemma error_page_document (e : exn) :
  contains "<!doctype" (lower (error_page e)) = true /\
  contains "<style" (lower (error_page e)) = true.
Proof.
  unfold error_page. rewrite !lower_app. split.
  - apply contains_app_l. reflexivity.
  - apply contains_app_r, contains_app_l. apply css_has_style.
Qed.

Lemma call_once_document (prompt_user : string) (w : world) :
  contains "<!doctype" (lower (_call_once env prompt_user w).1) = true /\
  contains "<style" (lower (_call_once env prompt_user w).1) = true.
Proof.
  unfold _call_once, _http_chat_completion.
  destruct (chat_completion env (length w) system prompt_user) as [content|e];
    cbn [bind].
  - destruct (negb (truthy (strip content))); cbn [fst].
    + apply error_page_document.
    + split; [apply post_process_doctype | apply post_process_style].
  - apply error_page_document.
Qed.

Lemma fallback_document (invariants : contact_bits) (resume_text : string) :
  truthy (fallback_html invariants resume_text) = true /\
  contains "<!doctype" (lower (fallback_html invariants resume_text)) = true /\
  contains "<style" (lower (fallback_html invariants resume_text)) = true.
Proof.
  unfold fallback_html. cbv zeta.
  split; [reflexivity|].
  rewrite lower_app. split; apply contains_app_l; vm_compute; reflexivity.
Qed.

End Builder.

(** Whatever the backend answers and whatever the retry setting, the
    builder makes no call without a credential and otherwise one call
    with the prompt of the request, followed by at most one call with
    that prompt and the retry note; every call carries the system message,
    and the calls made before are kept. *)
Theorem builder_calls_bounded (env : tailor_env)
    (resume_text job_text interests : string) (w : world) :
  let user :=
    user_prompt (_extract_contact_bits resume_text) (_detect_section_order resume_text)
      resume_text job_text interests in
  let first := {| sent_system := system; sent_user := user |} in
  let second := {| sent_system := system; sent_user := user +:+ retry_suffix |} in
  let w' := (_ai_tailor_resume_html env resume_text job_text interests w).2 in
  (has_key (OPENAI_API_KEY env) = false /\ w' = w) \/
  (has_key (OPENAI_API_KEY env) = true /\
   (w' = w ++ [first] \/ ((0 < OPENAI_MAX_RETRIES env)%Z /\ w' = w ++ [first; second]))).
Proof.
  intros user first second. unfold _ai_tailor_resume_html. fold user.
  destruct (has_key (OPENAI_API_KEY env)); cbn [negb]; [right | left; now split].
  split; [reflexivity|].
  rewrite (call_once_split env user w).
  destruct (Z.ltb_spec 0 (OPENAI_MAX_RETRIES env)) as [Hr|Hr]; cbn [andb];
    [|left; reflexivity].
  match goal with
  | |- context [if ?c then _ else _] => destruct c
  end; [|left; reflexivity].
  rewrite (call_once_split env (user +:+ retry_suffix)).
  right. split; [exact Hr|].
  match goal with
  | |- context [if ?c then _ else _] => destruct c
  end; cbn [snd]; now rewrite <- app_assoc.
Qed.

(** Every document the builder returns, on the fallback path, after a
    failed call or after a call that answered, is not empty and, put in
    lower case, holds the characters [<!doctype] and the characters
    [<style].  This is what the post-processing checks for; the second
    is no style element where it opens a longer tag name. *)
Theorem builder_output_is_document (env : tailor_env)
    (resume_text job_text interests : string) (w : world) :
  let html := (_ai_tailor_resume_html env resume_text job_text interests w).1 in
  truthy html = true /\
  contains "<!doctype" (lower html) = true /\
  contains "<style" (lower html) = true.
Proof.
  unfold _ai_tailor_resume_html.
  destruct (negb (has_key (OPENAI_API_KEY env))); [apply fallback_document|].
  set (user := user_prompt _ _ _ _ _).
  rewrite (call_once_split env user w).
  pose proof (call_once_truthy env user w) as T1.
  pose proof (call_once_document env user w) as D1.
  match goal with
  | |- context [if ?c then _ else _] => destruct c
  end; [|cbn [fst]; tauto].
  match goal with
  | |- context [_call_once env ?p ?v] =>
      rewrite (call_once_split env p v);
      pose proof (call_once_truthy env p v) as T2;
      pose proof (call_once_document env p v) as D2
  end.
  match goal with
  | |- context [if ?c then _ else _] => destruct c
  end; cbn [fst]; tauto.
Qed.

(** ** Escaped text *)

Lemma escape_no_markup (d : ascii) (s : string) :
  In d ["<"; ">"; chr 34; "'"]%char -> mem_char d (escape s) = false.
Proof.
  intros Hd. induction s as [|c s IH]; [reflexivity|].
  cbn [escape]. rewrite mem_char_app, IH, orb_false_r.
  cbn [In] in Hd.
  destruct Hd as [<-|[<-|[<-|[<-|[]]]]];
    destruct c as [[] [] [] [] [] [] [] []]; reflexivity.
Qed.

Lemma contains_mem_char (d : ascii) (p s : string) :
  contains (String d p) s = true -> mem_char d s = true.
Proof.
  intros H. apply contains_spec in H as (a & b & ->).
  rewrite mem_char_app. cbn [String.append mem_char].
  now rewrite Ascii.eqb_refl, orb_true_r.
Qed.

(** What [html.escape] hands back holds no angle bracket and no quote, so
    the message of a failed call, written into the error page between
    "<pre>" and "</pre>", can neither close that element nor open
    another. *)
Theorem error_page_message_inert (e : exn) :
  let safe := escape (str_exn e) in
  error_page e =
    ("<!doctype html><html><head>" +:+ css +:+
     "</head><body><div class='card'><h2>Tailor error</h2><p " +:+
     "class='muted'>OpenAI request failed or timed out.</p><pre>") +:+
    safe +:+ "</pre></div></body></html>" /\
  (forall d, In d ["<"; ">"; chr 34; "'"]%char -> mem_char d safe = false) /\
  (forall tag, contains (String "<" tag) safe = false).
Proof.
  intros safe. split; [|split].
  - unfold error_page. fold safe. now rewrite !app_assoc_s.
  - intros d Hd. now apply escape_no_markup.
  - intros tag. destruct (contains (String "<" tag) safe) eqn:H; [|reflexivity].
    apply contains_mem_char in H. unfold safe in H.
    rewrite (escape_no_markup "<" (str_exn e)) in H by (cbn; tauto). discriminate.
Qed.

(** ** The plaintext extractor: shape of the result and page budget *)
Section PdfText.

Lemma lstrip_by_head (p : ascii -> bool) (s : string) (c : ascii) (r : string) :
  lstrip_by p s = String c r -> p c = false.
Proof.
  induction s as [|a s IH]; [discriminate|]. cbn [lstrip_by].
  destruct (p a) eqn:Ha; [exact IH|]. now intros [= <- _].
Qed.

Lemma rstrip_by_head (p : ascii -> bool) (s : string) (c : ascii) (r : string) :
  rstrip_by p s = String c r -> exists r', s = String c r'.
Proof.
  destruct s as [|a s]; [discriminate|]. cbn [rstrip_by].
  destruct (rstrip_by p s); [destruct (p a); [discriminate|] |];
    intros [= <- _]; now eexists.
Qed.

Lemma strip_head (s : string) (c : ascii) (r : string) :
  strip s = String c r -> is_space c = false.
Proof.
  unfold strip, strip_by. intros H.
  apply rstrip_by_head in H as [r' H]. now apply lstrip_by_head in H.
Qed.

Lemma slice_to_head (n : nat) (s : string) (c : ascii) (r : string) :
  slice_to n s = String c r -> exists r', s = String c r'.
Proof.
  destruct n, s; try discriminate. cbn [slice_to]. intros [= <- _]. now eexists.
Qed.

Lemma total_len_app (a b : list string) :
  total_len (a ++ b) = (total_len a + total_len b)%nat.
Proof.
  induction a as [|x a IH]; [reflexivity|].
  cbn [app total_len fold_right] in *. fold (total_len (a ++ b)). fold (total_len a).
  rewrite IH. lia.
Qed.

Lemma pages_loop_grows (n : nat) (ps : list pdf_page) (out out' : list string) :
  pages_loop n out ps = Returned out' -> (total_len out <= total_len out')%nat.
Proof.
  revert out. induction ps as [|p ps IH]; intros out H; cbn [pages_loop] in H.
  - injection H as <-. lia.
  - destruct (extract_text p) as [t|]; [|discriminate]. cbn [bind] in H.
    match type of H with
    | context [if ?c then _ else _] => destruct c
    end.
    + injection H as <-. rewrite total_len_app. lia.
    + apply IH in H. rewrite total_len_app in H. lia.
Qed.

Lemma pages_loop_over_budget (n : nat) (ps1 ps2 : list pdf_page) (out out1 : list string) :
  pages_loop n out ps1 = Returned out1 ->
  (11 * n < 10 * total_len out1)%nat ->
  (10 * total_len out <= 11 * n)%nat ->
  pages_loop n out (ps1 ++ ps2) = Returned out1.
Proof.
  revert out. induction ps1 as [|p ps1 IH]; intros out H Hover Hstart.
  - cbn [pages_loop] in H. injection H as <-. lia.
  - cbn [pages_loop app] in *.
    destruct (extract_text p) as [t|]; [|discriminate]. cbn [bind] in *.
    match type of H with
    | context [if ?c then _ else _] => destruct c eqn:Hc
    end; [exact H|].
    apply IH; [exact H | exact Hover|].
    apply Nat.ltb_ge in Hc. exact Hc.
Qed.

End PdfText.

(** Once the texts read exceed the limit by more than a tenth, the loop
    over the pages stops: the pages behind are not read, so what they hold,
    or that extracting them would raise, does not change the result. *)
Theorem pdf_pages_beyond_budget_unread
    (PdfReader : list Byte.byte -> outcome pdf_reader) (data : list Byte.byte)
    (max_chars : nat) (reader : pdf_reader) (ps1 ps2 : list pdf_page)
    (out : list string) :
  PdfReader data = Returned reader ->
  is_encrypted reader = false ->
  pages reader = Returned (ps1 ++ ps2) ->
  pages_loop max_chars [] ps1 = Returned out ->
  (11 * max_chars < 10 * total_len out)%nat ->
  pages_loop max_chars [] (ps1 ++ ps2) = Returned out /\
  _extract_pdf_text PdfReader data max_chars =
  Returned (if truthy (strip (join nl out))
            then slice_to max_chars (strip (join nl out))
            else "[PDF had no extractable text]").
Proof.
  intros HP He Hps Hloop Hover.
  assert (L : pages_loop max_chars [] (ps1 ++ ps2) = Returned out).
  { apply pages_loop_over_budget; [exact Hloop | exact Hover | cbn; lia]. }
  split; [exact L|].
  unfold _extract_pdf_text, extract_pdf_body.
  rewrite HP. cbn [bind]. rewrite He, Hps. cbn [bind]. rewrite L. reflexivity.
Qed.

(** The extractor returns one of its three notes (the one for an error
    with the text of the error) or a text of at most [max_chars] characters
    that does not begin with a blank; for a positive [max_chars] the result
    is never empty. *)
Theorem extract_pdf_text_shape
    (PdfReader : list Byte.byte -> outcome pdf_reader) (data : list Byte.byte)
    (max_chars : nat) :
  exists s,
    _extract_pdf_text PdfReader data max_chars = Returned s /\
    (s = "[PDF is encrypted; text not extracted]" \/
     s = "[PDF had no extractable text]" \/
     (exists e, s = "[Could not extract PDF text: " +:+ str_exn e +:+ "]") \/
     ((String.length s <= max_chars)%nat /\
      (forall c r, s = String c r -> is_space c = false) /\
      ((0 < max_chars)%nat -> s <> ""))).
Proof.
  unfold _extract_pdf_text.
  destruct (extract_pdf_body PdfReader data max_chars) as [s|e] eqn:Hb; cbn [try_except].
  2: { eexists. split; [reflexivity|]. right. right. left. now exists e. }
  exists s. split; [reflexivity|].
  unfold extract_pdf_body in Hb.
  destruct (PdfReader data) as [reader|]; [|discriminate]. cbn [bind] in Hb.
  assert (Hrest : forall s,
    (do ps <- pages reader;
     do out <- pages_loop max_chars [] ps;
     Returned (if truthy (strip (join nl out))
               then slice_to max_chars (strip (join nl out))
               else "[PDF had no extractable text]")) = Returned s ->
    s = "[PDF had no extractable text]" \/
    ((String.length s <= max_chars)%nat /\
     (forall c r, s = String c r -> is_space c = false) /\
     ((0 < max_chars)%nat -> s <> ""))).
  { intros s0 H. destruct (pages reader) as [ps|]; [|discriminate]. cbn [bind] in H.
    destruct (pages_loop max_chars [] ps) as [out|]; [|discriminate]. cbn [bind] in H.
    injection H as <-.
    destruct (truthy (strip (join nl out))) eqn:Ht; [right | now left].
    split; [apply length_slice_to_le|]. split.
    - intros c r E. apply slice_to_head in E as [r' E]. now apply strip_head in E.
    - intros Hn E. destruct max_chars; [lia|].
      destruct (strip (join nl out)); discriminate. }
  destruct (is_encrypted reader).
  - destruct (decrypt reader ""); [|injection Hb as <-; now left].
    destruct (Hrest _ Hb) as [->|H]; tauto.
  - destruct (Hrest _ Hb) as [->|H]; tauto.
Qed.

Lemma pdf_pages_beyond_budget_unread_witness :
  _extract_pdf_text (fun _ => Returned budget_reader) [] 10 = Returned "abcdefghij".
Proof.
  apply (pdf_pages_beyond_budget_unread (fun _ => Returned budget_reader) [] 10
           budget_reader
           [{| extract_text := Returned (Some "abcdefghijkl") |}]
           [{| extract_text := Raised (OtherError "broken page") |}]
           ["abcdefghijkl"]).
  - reflexivity.
  - reflexivity.
  - reflexivity.
  - reflexivity.
  - cbn. lia.
Defined.

(** ** Whitespace-normalized text *)
Section Words.

Lemma all_str_app (p : ascii -> bool) (a b : string) :
  all_str p (a +:+ b) = all_str p a && all_str p b.
Proof.
  induction a as [|c a IH]; [reflexivity|].
  cbn [String.append all_str]. rewrite IH. now rewrite andb_assoc.
Qed.

Lemma all_str_rev (p : ascii -> bool) (acc s : string) :
  all_str p (rev_string acc s) = all_str p s && all_str p acc.
Proof.
  revert acc. induction s as [|c s IH]; intros acc; cbn [rev_string all_str].
  - reflexivity.
  - rewrite IH. cbn [all_str]. destruct (p c), (all_str p s), (all_str p acc); reflexivity.
Qed.

Lemma rev_string_nonempty (acc s : string) :
  acc <> "" -> rev_string acc s <> "".
Proof.
  revert acc. induction s as [|c s IH]; intros acc H; cbn [rev_string]; [exact H|].
  apply IH. discriminate.
Qed.

Lemma rev_string_involutive (s : string) : rev_string "" (rev_string "" s) = s.
Proof.
  induction s as [|c s IH]; [reflexivity|].
  rewrite rev_string_cons, rev_string_snoc. now rewrite IH.
Qed.

(** The words of [split] are words. *)
Lemma split_ws_aux_words (s cur : string) :
  all_str (fun c => negb (is_space c)) cur = true -> Forall is_word (split_ws_aux cur s).
Proof.
  assert (W : forall cur c, all_str (fun c => negb (is_space c)) (String c cur) = true ->
                            is_word (rev_string "" (String c cur))).
  { intros cur0 c H. split.
    - cbn [rev_string]. apply rev_string_nonempty. discriminate.
    - rewrite all_str_rev. now rewrite H. }
  revert cur. induction s as [|c s IH]; intros cur Hcur; cbn [split_ws_aux].
  - destruct cur; constructor; [now apply W | constructor].
  - destruct (is_space c) eqn:Hc.
    + destruct cur; [now apply IH|]. constructor; [now apply W | now apply IH].
    + apply IH. cbn [all_str]. now rewrite Hc, Hcur.
Qed.

Lemma split_words (s : string) : Forall is_word (split s).
Proof. now apply split_ws_aux_words. Qed.

Lemma single_spaced_word (b : bool) (w t : string) :
  is_word w -> single_spaced_from b (w +:+ t) = single_spaced_from false t.
Proof.
  intros [Hne Hw]. revert b. induction w as [|c w IH]; intros b; [congruence|].
  cbn [all_str] in Hw. apply andb_true_iff in Hw as [Hc Hw].
  apply negb_true_iff in Hc.
  cbn [String.append single_spaced_from]. rewrite Hc.
  destruct w; [reflexivity|]. apply IH; [discriminate | exact Hw].
Qed.

Lemma single_spaced_join (ws : list string) :
  Forall is_word ws -> ws <> [] -> single_spaced_from true (join " " ws) = true.
Proof.
  induction ws as [|w ws IH]; [congruence|]. intros H _.
  inversion H as [|? ? Hw Hws]; subst.
  destruct ws as [|w2 ws].
  - cbn [join]. rewrite <- (app_empty_r w). now rewrite single_spaced_word.
  - change (join " " (w :: w2 :: ws)) with (w +:+ " " +:+ join " " (w2 :: ws)).
    rewrite single_spaced_word by exact Hw.
    cbn [String.append single_spaced_from]. apply IH; [exact Hws | discriminate].
Qed.

Lemma join_words_empty (ws : list string) :
  Forall is_word ws -> join " " ws = "" -> ws = [].
Proof.
  destruct ws as [|w ws]; [reflexivity|]. intros H E.
  inversion H as [|? ? [Hne _] _]; subst.
  destruct ws; cbn [join] in E; destruct w; try discriminate; congruence.
Qed.

Lemma single_spaced_normal (s : string) : single_spaced (join " " (split s)) = true.
Proof.
  pose proof (split_words s) as H.
  destruct (join " " (split s)) eqn:E; [reflexivity|].
  rewrite <- E. unfold single_spaced. rewrite E, <- E.
  apply single_spaced_join; [exact H|].
  intros E0. rewrite E0 in E. discriminate.
Qed.

(** Reading a word leaves it in the accumulator. *)
Lemma split_ws_aux_word (w cur t : string) :
  all_str (fun c => negb (is_space c)) w = true ->
  split_ws_aux cur (w +:+ t) = split_ws_aux (rev_string cur w) t.
Proof.
  revert cur. induction w as [|c w IH]; intros cur Hw; [reflexivity|].
  cbn [all_str] in Hw. apply andb_true_iff in Hw as [Hc Hw].
  apply negb_true_iff in Hc.
  cbn [String.append split_ws_aux rev_string]. rewrite Hc. now apply IH.
Qed.

(** Splitting what was joined gives the words back. *)
Lemma split_join (ws : list string) : Forall is_word ws -> split (join " " ws) = ws.
Proof.
  induction ws as [|w ws IH]; [reflexivity|]. intros H.
  inversion H as [|? ? [Hne Hw] Hws]; subst. unfold split in *.
  assert (R : forall t, split_ws_aux "" (w +:+ t) = split_ws_aux (rev_string "" w) t)
    by (intros t; now apply split_ws_aux_word).
  assert (Hr : exists c r, rev_string "" w = String c r).
  { destruct (rev_string "" w) eqn:E; [|now eexists _, _].
    destruct w; [congruence|]. cbn [rev_string] in E.
    exfalso. revert E. apply rev_string_nonempty. discriminate. }
  destruct Hr as (c & r & Hr).
  destruct ws as [|w2 ws].
  - cbn [join]. rewrite <- (app_empty_r w), R, Hr. cbn [split_ws_aux].
    rewrite <- Hr, rev_string_involutive. now rewrite app_empty_r.
  - change (join " " (w :: w2 :: ws)) with (w +:+ " " +:+ join " " (w2 :: ws)).
    rewrite R, Hr. cbn [String.append split_ws_aux]. cbn [is_space code].
    change (is_space " ") with true. cbv iota.
    rewrite <- Hr, rev_string_involutive. f_equal. now apply IH.
Qed.

Lemma normal_fixed (s : string) :
  join " " (split (join " " (split s))) = join " " (split s).
Proof. rewrite split_join; [reflexivity | apply split_words]. Qed.

End Words.

(** ** Normalized headings *)
Section Headings.

Lemma rstrip_by_keep (p : ascii -> bool) (u : string) (d : ascii) :
  p d = false -> rstrip_by p (u +:+ String d "") = u +:+ String d "".
Proof.
  intros Hd. induction u as [|c u IH]; cbn [String.append rstrip_by].
  - now rewrite Hd.
  - rewrite IH. destruct (u +:+ String d "") eqn:E; [destruct u; discriminate|].
    reflexivity.
Qed.

Lemma rstrip_by_last (p : ascii -> bool) (s : string) :
  rstrip_by p s = "" \/
  exists u d, rstrip_by p s = u +:+ String d "" /\ p d = false.
Proof.
  induction s as [|c s IH]; [now left|]. cbn [rstrip_by].
  destruct IH as [->|(u & d & -> & Hd)].
  - destruct (p c) eqn:Hc; [now left|]. right. now exists "", c.
  - right. exists (String c u), d. split; [|exact Hd].
    cbn [String.append].
    destruct (u +:+ String d "") eqn:E; [destruct u; discriminate|]. reflexivity.
Qed.

Lemma lstrip_by_suffix (p : ascii -> bool) (s : string) :
  exists w, s = w +:+ lstrip_by p s.
Proof.
  induction s as [|c s [w IH]]; [now exists ""|]. cbn [lstrip_by].
  destruct (p c); [|now exists ""].
  exists (String c w). cbn [String.append]. now rewrite <- IH.
Qed.

Lemma strip_by_all (q p : ascii -> bool) (s : string) :
  all_str q s = true -> all_str q (strip_by p s) = true.
Proof.
  intros H. unfold strip_by.
  destruct (lstrip_by_suffix p s) as [w E].
  destruct (rstrip_by_split p (lstrip_by p s)) as (v & E2 & _).
  rewrite E, all_str_app in H. apply andb_true_iff in H as [_ H].
  rewrite E2, all_str_app in H. now apply andb_true_iff in H as [H _].
Qed.

Lemma lstrip_by_fixed (p : ascii -> bool) (c : ascii) (s : string) :
  p c = false -> lstrip_by p (String c s) = String c s.
Proof. intros H. cbn [lstrip_by]. now rewrite H. Qed.

(** A text that begins and ends with characters outside [p] is left as it
    is by the strip. *)
Lemma strip_by_fixed (p : ascii -> bool) (c d : ascii) (r u : string) :
  p c = false -> p d = false -> String c r = u +:+ String d "" ->
  strip_by p (String c r) = String c r.
Proof.
  intros Hc Hd E. unfold strip_by. rewrite lstrip_by_fixed by exact Hc.
  rewrite E. now apply rstrip_by_keep.
Qed.

(** The first and the last character of a text that begins and ends with a
    character that is no blank are those of its normal form. *)
Lemma split_ws_aux_last (s cur : string) (d : ascii) :
  is_space d = false ->
  exists ws w, split_ws_aux cur (s +:+ String d "") = ws ++ [w +:+ String d ""].
Proof.
  intros Hd. revert cur. induction s as [|c s IH]; intros cur.
  - cbn [String.append split_ws_aux]. rewrite Hd. cbn [split_ws_aux].
    exists [], (rev_string "" cur). cbn [app rev_string].
    now rewrite (rev_string_acc (String d "") cur).
  - cbn [String.append split_ws_aux]. destruct (is_space c).
    + destruct cur.
      * apply IH.
      * destruct (IH "") as (ws & w & ->). now exists (rev_string "" (String a cur) :: ws), w.
    + apply IH.
Qed.

Lemma join_snoc (ws : list string) (x : string) :
  exists y, join " " (ws ++ [x]) = y +:+ x.
Proof.
  induction ws as [|w ws [y IH]]; [now exists ""|].
  destruct ws as [|w2 ws].
  - exists (w +:+ " "). cbn [app join]. now rewrite app_assoc_s.
  - change (join " " ((w :: w2 :: ws) ++ [x]))
      with (w +:+ " " +:+ join " " ((w2 :: ws) ++ [x])).
    rewrite IH. exists (w +:+ " " +:+ y). now rewrite !app_assoc_s.
Qed.

Lemma normal_last (s : string) (d : ascii) :
  is_space d = false ->
  exists y, join " " (split (s +:+ String d "")) = y +:+ String d "".
Proof.
  intros Hd. unfold split.
  destruct (split_ws_aux_last s "" d Hd) as (ws & w & ->).
  destruct (join_snoc ws (w +:+ String d "")) as [y ->].
  exists (y +:+ w). now rewrite app_assoc_s.
Qed.

Lemma normal_head (c : ascii) (r : string) :
  is_space c = false ->
  exists y, join " " (split (String c r)) = String c y.
Proof.
  intros Hc.
  assert (H : exists w ws, split (String c r) = String c w :: ws).
  { unfold split. cbn [split_ws_aux]. rewrite Hc.
    assert (G : forall s cur, exists w ws,
      split_ws_aux (cur +:+ String c "") s = String c w :: ws).
    { induction s as [|a s IH]; intros cur.
      - cbn [split_ws_aux]. destruct (cur +:+ String c "") eqn:E; [destruct cur; discriminate|].
        rewrite <- E, rev_string_snoc. now eexists _, _.
      - cbn [split_ws_aux]. destruct (is_space a).
        + destruct (cur +:+ String c "") eqn:E; [destruct cur; discriminate|].
          rewrite <- E, rev_string_snoc. now eexists _, _.
        + apply (IH (String a cur)). }
    apply (G r ""). }
  destruct H as (w & ws & ->).
  destruct ws; cbn [join String.append]; now eexists.
Qed.

Lemma plain_blank_stripped (c : ascii) :
  (negb (is_space c) || one_of (" " +:+ tab) c) = true ->
  mem_char c (" " +:+ tab +:+ ":-") = false -> is_space c = false.
Proof. destruct c as [[] [] [] [] [] [] [] []]; vm_compute; congruence. Qed.

Lemma all_str_head (q : ascii -> bool) (c : ascii) (r : string) :
  all_str q (String c r) = true -> q c = true.
Proof. cbn [all_str]. intros H. now apply andb_true_iff in H. Qed.

Lemma all_str_last (q : ascii -> bool) (u : string) (d : ascii) :
  all_str q (u +:+ String d "") = true -> q d = true.
Proof.
  rewrite all_str_app. cbn [all_str]. rewrite andb_true_r.
  intros H. now apply andb_true_iff in H.
Qed.

(** *** The strip set on ASCII text

    In an ASCII text neither the bullet nor the dash can stand, so that the
    strip of [_normalize_heading] removes the space, the tab, the colon and
    the hyphen, character by character. *)

Lemma starts_with_one_ascii (c : ascii) (s : string) :
  ascii_char c = true ->
  starts_with_one HEADING_STRIP (String c s) =
  if mem_char c (" " +:+ tab +:+ ":-") then Some (String c "") else None.
Proof.
  destruct c as [[] [] [] [] [] [] [] []]; intros H;
    try (vm_compute in H; discriminate H); vm_compute; reflexivity.
Qed.

Lemma starts_with_one_reversed_ascii (c : ascii) (s : string) :
  ascii_char c = true ->
  starts_with_one (map reversed HEADING_STRIP) (String c s) =
  if mem_char c (" " +:+ tab +:+ ":-") then Some (String c "") else None.
Proof.
  destruct c as [[] [] [] [] [] [] [] []]; intros H;
    try (vm_compute in H; discriminate H); vm_compute; reflexivity.
Qed.

Lemma lstrip_set_aux_ascii (set : list string) :
  starts_with_one set "" = None ->
  (forall c s, ascii_char c = true ->
     starts_with_one set (String c s) =
     if mem_char c (" " +:+ tab +:+ ":-") then Some (String c "") else None) ->
  forall n s, (String.length s <= n)%nat -> ascii_text s = true ->
    lstrip_set_aux n set s = lstrip_by (fun c => mem_char c (" " +:+ tab +:+ ":-")) s.
Proof.
  intros Hnil Hcons. induction n as [|n IH]; intros s Hn Hs.
  - destruct s; [reflexivity | cbn in Hn; lia].
  - destruct s as [|c s]; cbn [lstrip_set_aux lstrip_by].
    + now rewrite Hnil.
    + cbn [ascii_text all_str] in Hs. apply andb_true_iff in Hs as [Hc Hs].
      rewrite (Hcons c s Hc).
      destruct (mem_char c (" " +:+ tab +:+ ":-")); [|reflexivity].
      cbn [String.length slice_from]. apply IH; [cbn in Hn; lia | exact Hs].
Qed.

Lemma lstrip_by_snoc (p : ascii -> bool) (x : string) (c : ascii) :
  lstrip_by p (x +:+ String c "") =
  match lstrip_by p x with
  | EmptyString => if p c then "" else String c ""
  | r => r +:+ String c ""
  end.
Proof.
  induction x as [|a x IH]; cbn [String.append lstrip_by]; [reflexivity|].
  destruct (p a); [exact IH | reflexivity].
Qed.

(** Stripping the end of a text is stripping the front of the reversed
    text. *)
Lemma rstrip_by_reversed (p : ascii -> bool) (s : string) :
  reversed (lstrip_by p (reversed s)) = rstrip_by p s.
Proof.
  unfold reversed. induction s as [|c s IH]; [reflexivity|].
  rewrite rev_string_cons, lstrip_by_snoc. cbn [rstrip_by].
  destruct (lstrip_by p (rev_string "" s)) as [|a r] eqn:E.
  - cbn [rev_string] in IH. rewrite <- IH. now destruct (p c).
  - rewrite rev_string_snoc, IH.
    destruct (rstrip_by p s) eqn:E2; [|reflexivity].
    exfalso. cbn [rev_string] in IH.
    exact (rev_string_nonempty (String a "") r ltac:(discriminate) IH).
Qed.

Lemma all_str_lstrip_by (q p : ascii -> bool) (s : string) :
  all_str q s = true -> all_str q (lstrip_by p s) = true.
Proof.
  intros H. destruct (lstrip_by_suffix p s) as [w E].
  rewrite E, all_str_app in H. now apply andb_true_iff in H.
Qed.

Lemma strip_set_ascii (s : string) :
  ascii_text s = true ->
  strip_set HEADING_STRIP s = strip_chars (" " +:+ tab +:+ ":-") s.
Proof.
  intros Hs. unfold strip_set, rstrip_set, lstrip_set, strip_chars, strip_by.
  rewrite (lstrip_set_aux_ascii HEADING_STRIP eq_refl starts_with_one_ascii _ s
             (le_n _) Hs).
  set (x := lstrip_by _ s).
  assert (Hx : ascii_text x = true) by now apply all_str_lstrip_by.
  rewrite (lstrip_set_aux_ascii (map reversed HEADING_STRIP) eq_refl
             starts_with_one_reversed_ascii _ (reversed x) (le_n _)).
  - apply rstrip_by_reversed.
  - unfold reversed, ascii_text. rewrite all_str_rev. unfold ascii_text in Hx.
    now rewrite Hx.
Qed.

Lemma normalize_heading_ascii (h : string) :
  ascii_text h = true ->
  _normalize_heading h =
  join " " (split (strip (strip_chars (" " +:+ tab +:+ ":-") h))).
Proof. intros Hh. unfold _normalize_heading. now rewrite strip_set_ascii. Qed.

Lemma all_str_split_aux (q : ascii -> bool) (s cur : string) :
  all_str q s = true -> all_str q cur = true ->
  Forall (fun w => all_str q w = true) (split_ws_aux cur s).
Proof.
  revert cur. induction s as [|c s IH]; intros cur Hs Hcur; cbn [split_ws_aux].
  - destruct cur; constructor; [|constructor]. rewrite all_str_rev. now rewrite Hcur.
  - cbn [all_str] in Hs. apply andb_true_iff in Hs as [Hc Hs].
    destruct (is_space c).
    + destruct cur; [now apply IH|]. constructor; [|now apply IH].
      rewrite all_str_rev. now rewrite Hcur.
    + apply IH; [exact Hs|]. cbn [all_str]. now rewrite Hc, Hcur.
Qed.

Lemma all_str_join (q : ascii -> bool) (sep : string) (ws : list string) :
  all_str q sep = true -> Forall (fun w => all_str q w = true) ws ->
  all_str q (join sep ws) = true.
Proof.
  intros Hsep. induction ws as [|w ws IH]; intros H; [reflexivity|].
  inversion H as [|? ? Hw Hws]; subst.
  destruct ws as [|w2 ws]; [exact Hw|].
  change (join sep (w :: w2 :: ws)) with (w +:+ sep +:+ join sep (w2 :: ws)).
  rewrite !all_str_app, Hw, Hsep. now apply IH.
Qed.

(** The normal form of an ASCII text is an ASCII text. *)
Lemma ascii_normal (s : string) :
  ascii_text s = true -> ascii_text (join " " (split s)) = true.
Proof.
  intros Hs. apply all_str_join; [reflexivity|].
  now apply all_str_split_aux.
Qed.

Lemma normalize_heading_fixed (h : string) :
  ascii_text h = true -> plain_blanks h = true ->
  _normalize_heading (_normalize_heading h) = _normalize_heading h.
Proof.
  intros Ha Hp.
  set (S := " " +:+ tab +:+ ":-").
  assert (Hn : _normalize_heading h = join " " (split (strip (strip_chars S h))))
    by now apply normalize_heading_ascii.
  assert (An : ascii_text (_normalize_heading h) = true).
  { rewrite Hn. apply ascii_normal. unfold strip. apply strip_by_all.
    unfold strip_chars. now apply strip_by_all. }
  rewrite (normalize_heading_ascii _ An). fold S. rewrite Hn.
  assert (H1 : plain_blanks (strip_chars S h) = true) by now apply strip_by_all.
  destruct (strip_chars S h) as [|c r] eqn:E1; [reflexivity|].
  assert (Hc : mem_char c S = false).
  { unfold strip_chars, strip_by in E1.
    apply rstrip_by_head in E1 as [r' E1]. now apply lstrip_by_head in E1. }
  assert (Hlast : exists u d, String c r = u +:+ String d "" /\ mem_char d S = false).
  { unfold strip_chars, strip_by in E1.
    destruct (rstrip_by_last (fun c => mem_char c S) (lstrip_by (fun c => mem_char c S) h))
      as [E|(u & d & E & Hd)]; rewrite E in E1; [discriminate|].
    exists u, d. now rewrite <- E1. }
  destruct Hlast as (u & d & Eu & Hd).
  assert (Bc : is_space c = false).
  { apply plain_blank_stripped; [|exact Hc]. exact (all_str_head _ _ _ H1). }
  assert (Bd : is_space d = false).
  { apply plain_blank_stripped; [|exact Hd]. rewrite Eu in H1. exact (all_str_last _ _ _ H1). }
  assert (S1 : strip (String c r) = String c r) by exact (strip_by_fixed _ c d r u Bc Bd Eu).
  rewrite S1.
  destruct (normal_head c r Bc) as [y Ey].
  assert (El : exists z, join " " (split (String c r)) = z +:+ String d "").
  { rewrite Eu. now apply normal_last. }
  destruct El as [z Ez].
  assert (S2 : strip_chars S (join " " (split (String c r))) = join " " (split (String c r))).
  { rewrite Ey. apply (strip_by_fixed _ c d y z Hc Hd). now rewrite <- Ey. }
  rewrite S2.
  assert (S3 : strip (join " " (split (String c r))) = join " " (split (String c r))).
  { rewrite Ey. apply (strip_by_fixed _ c d y z Bc Bd). now rewrite <- Ey. }
  rewrite S3. apply normal_fixed.
Qed.

End Headings.

(** A normalized heading is whitespace-normalized: it neither begins nor
    ends with a blank and its words stand one space apart, so splitting it
    into words and joining them gives the heading back. *)
Theorem normalize_heading_single_spaced (h : string) :
  single_spaced (_normalize_heading h) = true /\
  Forall is_word (split (_normalize_heading h)) /\
  join " " (split (_normalize_heading h)) = _normalize_heading h.
Proof.
  unfold _normalize_heading. cbv zeta. split; [|split].
  - apply single_spaced_normal.
  - apply split_words.
  - apply normal_fixed.
Qed.

(** Normalizing is idempotent on an ASCII line whose blanks are spaces and
    tabs: a heading that was normalized stays as it is. *)
Theorem normalize_heading_idempotent (h : string) :
  ascii_text h = true -> plain_blanks h = true ->
  _normalize_heading (_normalize_heading h) = _normalize_heading h.
Proof. apply normalize_heading_fixed. Qed.

Lemma normalize_heading_idempotent_witness :
  _normalize_heading (_normalize_heading (" - Work   Experience: " +:+ tab)) =
  _normalize_heading (" - Work   Experience: " +:+ tab).
Proof.
  apply (normalize_heading_idempotent (" - Work   Experience: " +:+ tab));
    reflexivity.
Defined.

(** The bullet and the dash of the strip set are removed like its ASCII
    characters. *)
Example normalize_heading_bullets :
  _normalize_heading (BULLET +:+ " SKILLS " +:+ EM_DASH) = "SKILLS" /\
  _normalize_heading (" " +:+ EM_DASH +:+ ":" +:+ BULLET +:+ "- Work   Experience:" +:+ tab)
  = "Work Experience".
Proof. vm_compute. split; reflexivity. Qed.

(** ** The keys of the order check *)
Section OrderKeys.

Lemma all_str_impl (p q : ascii -> bool) (s : string) :
  (forall c, p c = true -> q c = true) -> all_str p s = true -> all_str q s = true.
Proof.
  intros Hpq. induction s as [|c s IH]; [reflexivity|]. cbn [all_str].
  intros H. apply andb_true_iff in H as [Hc Hs]. now rewrite (Hpq c Hc), IH.
Qed.

(** The lines of a text hold characters of the text, and no line
    boundary. *)
Lemma splitlines_aux_chars (q : ascii -> bool) (n : nat) :
  forall s cur,
    (String.length s <= n)%nat ->
    all_str q s = true ->
    all_str (fun c => q c && negb (is_linebreak c)) cur = true ->
    Forall (fun ln => all_str (fun c => q c && negb (is_linebreak c)) ln = true)
           (splitlines_aux cur s).
Proof.
  induction n as [|n IH]; intros s cur Hn Hs Hcur.
  - destruct s; [|cbn in Hn; lia]. cbn [splitlines_aux].
    destruct cur; constructor; [|constructor].
    rewrite all_str_rev. now rewrite Hcur.
  - destruct s as [|c s].
    + cbn [splitlines_aux]. destruct cur; constructor; [|constructor].
      rewrite all_str_rev. now rewrite Hcur.
    + cbn [String.length] in Hn. cbn [all_str] in Hs.
      apply andb_true_iff in Hs as [Hc Hs]. cbn [splitlines_aux].
      destruct (is_linebreak c) eqn:Hb.
      * constructor; [rewrite all_str_rev; now rewrite Hcur|].
        destruct s as [|d s]; [constructor|].
        destruct ((code c =? 13) && (code d =? 10)).
        -- apply IH; [cbn [String.length] in Hn; lia | | reflexivity].
           cbn [all_str] in Hs. now apply andb_true_iff in Hs.
        -- apply IH; [lia | exact Hs | reflexivity].
      * apply IH; [lia | exact Hs|]. cbn [all_str]. now rewrite Hc, Hb, Hcur.
Qed.

Lemma splitlines_plain (s ln : string) :
  plain_text s = true -> In ln (splitlines s) -> plain_blanks ln = true.
Proof.
  intros Hs Hin. unfold plain_text in Hs.
  pose proof (splitlines_aux_chars _ (String.length s) s "" (le_n _) Hs eq_refl) as F.
  rewrite List.Forall_forall in F. specialize (F ln Hin).
  revert F. apply all_str_impl. intros c H.
  apply andb_true_iff in H as [H1 H2].
  destruct (is_linebreak c); [discriminate|]. now rewrite orb_false_r in H1.
Qed.

Lemma splitlines_ascii (s ln : string) :
  ascii_text s = true -> In ln (splitlines s) -> ascii_text ln = true.
Proof.
  intros Hs Hin.
  pose proof (splitlines_aux_chars _ (String.length s) s "" (le_n _) Hs eq_refl) as F.
  rewrite List.Forall_forall in F. specialize (F ln Hin).
  revert F. apply all_str_impl. intros c H. now apply andb_true_iff in H.
Qed.

Lemma section_order_fixed (resume_text h : string) :
  ascii_text resume_text = true -> plain_text resume_text = true ->
  In h (_detect_section_order resume_text) -> _normalize_heading h = h.
Proof.
  intros Ha Hp Hin. rewrite detect_section_order_first_by in Hin.
  apply In_firstn, first_by_incl in Hin. unfold heading_lines in Hin.
  apply in_map_iff in Hin as (raw & <- & Hraw).
  apply List.filter_In in Hraw as [Hraw _].
  apply normalize_heading_fixed.
  - now apply (splitlines_ascii resume_text).
  - now apply (splitlines_plain resume_text).
Qed.

Lemma Forall2_ext_In {A B : Type} (P Q : A -> B -> Prop) (l : list A) (l' : list B) :
  (forall a b, In a l -> (P a b <-> Q a b)) -> Forall2 P l l' <-> Forall2 Q l l'.
Proof.
  revert l'. induction l as [|a l IH]; intros l' H.
  - split; intros F; inversion F; constructor.
  - split; intros F; inversion F; subst; constructor;
      try (apply (H a); [now left | assumption]);
      apply IH; try assumption; intros; apply H; now right.
Qed.

End OrderKeys.

(** For an ASCII resume whose blanks are spaces, tabs and line boundaries,
    the detected headings are fixed by the normalization, so the order
    check looks in the output for the very keys the prompt lists as
    "Normalized order keys": the lowercased headings without their closing
    colons. *)
Theorem order_check_uses_prompt_keys (resume_text : string) :
  ascii_text resume_text = true -> plain_text resume_text = true ->
  let section_order := _detect_section_order resume_text in
  Forall (fun h => _normalize_heading h = h) section_order /\
  map (fun h => rstrip_chars ":" (lower (_normalize_heading h))) section_order =
    map heading_key section_order /\
  forall html,
    _order_ok section_order html = true <->
    exists ps : list nat,
      Forall2 (fun h i => position (heading_key h) (lower html) i) section_order ps /\
      nondecreasing ps.
Proof.
  intros Ha Hp section_order.
  assert (F : forall h, In h section_order -> _normalize_heading h = h)
    by (intros h; now apply section_order_fixed).
  split; [now apply List.Forall_forall|]. split.
  - apply map_ext_in. intros h Hh. unfold heading_key. now rewrite (F h Hh).
  - intros html. rewrite order_ok_spec. unfold order_kept.
    split; intros (ps & H1 & H2); exists ps; (split; [|exact H2]);
      revert H1; apply Forall2_ext_In; intros h i Hh;
      unfold heading_key; now rewrite (F h Hh).
Qed.

(** The unit separator is a blank that is neither in the strip set of the
    normalization nor a line boundary: with it, a heading can change when it
    is normalized again. *)
Example normalize_heading_unit_separator :
  let line := ":" +:+ String (chr 31) ":SKILLS" in
  _detect_section_order line = [":SKILLS"] /\
  _normalize_heading ":SKILLS" = "SKILLS".
Proof. vm_compute. split; reflexivity. Qed.

Lemma order_check_uses_prompt_keys_witness :
  map (fun h => rstrip_chars ":" (lower (_normalize_heading h)))
      (_detect_section_order sample_resume) =
  map heading_key (_detect_section_order sample_resume).
Proof.
  apply (order_check_uses_prompt_keys sample_resume); reflexivity.
Defined.

(** ** The web text fetcher: what is left of the markup *)
Section Tags.

Lemma tag_needs_lt (c : ascii) (s : string) :
  is_char "<" c = false -> mlens TAG_RE (String c s) = [].
Proof. intros H. unfold TAG_RE. cbn [mlens flat_map]. now rewrite H. Qed.

Lemma tag_needs_body (s : string) : mlens TAG_RE (String "<" (String ">" s)) = [].
Proof. reflexivity. Qed.

Lemma matches_seq_inv (r1 r2 : regex) (w : string) :
  matches (Seq r1 r2) w -> exists w1 w2, w = w1 +:+ w2 /\ matches r1 w1 /\ matches r2 w2.
Proof. intros H. inversion H; subst. now eexists _, _. Qed.

Lemma matches_cls_inv (p : ascii -> bool) (w : string) :
  matches (Cls p) w -> exists c, w = String c "" /\ p c = true.
Proof. intros H. inversion H; subst. now eexists. Qed.

Lemma matches_rep_inv (g : bool) (p : ascii -> bool) (lo : nat) (hi : option nat)
    (w : string) :
  matches (Rep g p lo hi) w ->
  all_str p w = true /\ (lo <= String.length w)%nat /\ within hi (String.length w).
Proof. intros H. inversion H; subst. auto. Qed.

Lemma matches_opt_inv (r : regex) (w : string) :
  matches (Opt r) w -> w = "" \/ matches r w.
Proof. intros H. inversion H; subst; auto. Qed.

Lemma tag_match_has_gt (w : string) :
  matches TAG_RE w -> mem_char ">" w = true /\ (1 <= String.length w)%nat.
Proof.
  unfold TAG_RE. intros H.
  apply matches_seq_inv in H as (w1 & w23 & -> & H1 & H).
  apply matches_seq_inv in H as (w2 & w3 & -> & H2 & H3).
  apply matches_cls_inv in H1 as (c1 & -> & _).
  apply matches_cls_inv in H3 as (c3 & -> & E).
  unfold is_char in E. apply Ascii.eqb_eq in E. subst c3. split.
  - rewrite !mem_char_app. cbn [mem_char]. now rewrite !orb_true_r.
  - cbn [String.append String.length]. lia.
Qed.

Lemma mem_char_slice_to (d : ascii) (n : nat) (s : string) :
  mem_char d (slice_to n s) = true -> mem_char d s = true.
Proof.
  intros H. rewrite <- (slice_to_from n s), mem_char_app. now rewrite H.
Qed.

Lemma tag_needs_gt (s : string) : mem_char ">" s = false -> mlens TAG_RE s = [].
Proof.
  intros Hs. destruct (mlens TAG_RE s) as [|n l] eqn:E; [reflexivity|]. exfalso.
  assert (Hn : In n (mlens TAG_RE s)) by (rewrite E; now left).
  apply mlens_spec in Hn as [_ Hm]. apply tag_match_has_gt in Hm as [Hm _].
  apply mem_char_slice_to in Hm. congruence.
Qed.

Lemma sub_tag_no_gt (s : string) :
  mem_char ">" s = false -> sub_aux TAG_RE " " 0 s = s.
Proof.
  induction s as [|c s IH]; [reflexivity|]. intros H.
  cbn [sub_aux]. rewrite (tag_needs_gt _ H).
  cbn [mem_char] in H. apply orb_false_elim in H as [_ H]. now rewrite IH.
Qed.

Lemma sub_aux_skip (r : regex) (repl u t : string) (k : nat) :
  sub_aux r repl (String.length u + k) (u +:+ t) = sub_aux r repl k t.
Proof.
  induction u as [|c u IH]; [reflexivity|].
  cbn [String.length String.append Nat.add sub_aux]. exact IH.
Qed.

Lemma split_at_first (d : ascii) (s : string) :
  mem_char d s = true ->
  exists a b, s = a +:+ String d b /\ mem_char d a = false.
Proof.
  induction s as [|c s IH]; [discriminate|]. cbn [mem_char]. intros H.
  destruct (Ascii.eqb d c) eqn:E.
  - apply Ascii.eqb_eq in E. subst c. now exists "", s.
  - destruct (IH H) as (a & b & -> & Ha). exists (String c a), b.
    split; [reflexivity|]. cbn [mem_char]. now rewrite E, Ha.
Qed.

Lemma no_gt_all (m : string) :
  mem_char ">" m = false -> all_str (fun c => negb (Ascii.eqb c ">")) m = true.
Proof.
  induction m as [|c m IH]; [reflexivity|]. cbn [mem_char all_str].
  intros H. apply orb_false_elim in H as [H1 H2].
  rewrite Ascii.eqb_sym, H1. now rewrite IH.
Qed.

Lemma tag_found (m rest : string) :
  m <> "" -> mem_char ">" m = false ->
  mlens TAG_RE (String "<" (m +:+ String ">" rest)) <> [].
Proof.
  intros Hm Hgt E.
  assert (Hin : In (S (String.length m + 1))
                   (mlens TAG_RE (String "<" (m +:+ String ">" rest)))).
  { apply mlens_spec. split.
    - cbn [String.length]. rewrite length_app. cbn [String.length]. lia.
    - assert (Es : slice_to (S (String.length m + 1)) (String "<" (m +:+ String ">" rest)) =
                   "<" +:+ (m +:+ ">")).
      { cbn [slice_to String.append]. f_equal.
        change (String ">" rest) with (">" +:+ rest).
        rewrite <- app_assoc_s.
        replace (String.length m + 1)%nat with (String.length (m +:+ ">"))
          by (rewrite length_app; reflexivity).
        apply slice_to_app_exact. }
      rewrite Es. unfold TAG_RE.
      apply M_seq; [now apply M_cls|].
      apply M_seq; [|now apply M_cls].
      apply M_rep; [now apply no_gt_all | | exact I].
      destruct m; [congruence | cbn; lia]. }
  rewrite E in Hin. exact Hin.
Qed.

Lemma search_none_cons (r : regex) (c : ascii) (s : string) :
  mlens r (String c s) = [] -> search r s = None -> search r (String c s) = None.
Proof.
  unfold search. intros E H. cbn [search_from]. rewrite E.
  rewrite search_from_shift. now rewrite H.
Qed.

Lemma sub_tag_tagless (n : nat) :
  forall s, (String.length s <= n)%nat -> search TAG_RE (sub_aux TAG_RE " " 0 s) = None.
Proof.
  induction n as [|n IH]; intros s Hn.
  - destruct s; [reflexivity | cbn in Hn; lia].
  - destruct s as [|c s]; [reflexivity|]. cbn [String.length] in Hn.
    cbn [sub_aux]. destruct (mlens TAG_RE (String c s)) as [|m l] eqn:E.
    + assert (IHs : search TAG_RE (sub_aux TAG_RE " " 0 s) = None) by (apply IH; lia).
      apply search_none_cons; [|exact IHs].
      destruct (is_char "<" c) eqn:Hc; [|now apply tag_needs_lt].
      unfold is_char in Hc. apply Ascii.eqb_eq in Hc. subst c.
      destruct s as [|d s]; [reflexivity|].
      destruct (Ascii.eqb d ">") eqn:Hd.
      * apply Ascii.eqb_eq in Hd. subst d.
        cbn [sub_aux]. rewrite (tag_needs_lt ">" s) by reflexivity. apply tag_needs_body.
      * destruct (mem_char ">" (String d s)) eqn:Hg.
        -- exfalso. destruct (split_at_first ">" _ Hg) as (a & b & Ea & Ha).
           rewrite Ea in E. revert E. apply tag_found; [|exact Ha].
           destruct a; [|discriminate]. cbn [String.append] in Ea.
           injection Ea as -> _. now rewrite Ascii.eqb_refl in Hd.
        -- now rewrite (sub_tag_no_gt _ Hg).
    + assert (Hin : In m (mlens TAG_RE (String c s))) by (rewrite E; now left).
      apply mlens_spec in Hin as [Hl Hm]. apply tag_match_has_gt in Hm as [_ Hm].
      rewrite length_slice_to in Hm by exact Hl.
      destruct m as [|m]; [lia|]. cbn [String.length] in Hl.
      cbn [Nat.sub]. rewrite Nat.sub_0_r.
      rewrite <- (slice_to_from m s) at 1.
      replace m with (String.length (slice_to m s) + 0)%nat at 1
        by (rewrite length_slice_to; lia).
      rewrite sub_aux_skip.
      change (" " +:+ sub_aux TAG_RE " " 0 (slice_from m s))
        with (String " " (sub_aux TAG_RE " " 0 (slice_from m s))).
      apply search_none_cons; [now apply tag_needs_lt|].
      apply IH. rewrite length_slice_from. lia.
Qed.

End Tags.

(** When the page could be fetched, the text handed to the entity decoder
    has no tag left in it, and it is whitespace-normalized: no blank at
    either end and single spaces between the words. *)
Theorem fetched_text_tagless (net : web) (url html : string) :
  fetch net url = Returned html ->
  let stripped := sub TAG_RE " " (sub SCRIPT_STYLE_RE " " html) in
  let text := join " " (split stripped) in
  search TAG_RE stripped = None /\
  single_spaced text = true /\
  fetch_body net url =
  Returned (if truthy (unescape net text) then slice_to MAX_TEXT (unescape net text)
            else "[Fetched page had no visible text]").
Proof.
  intros Hf stripped text. split; [|split].
  - apply (sub_tag_tagless (String.length (sub SCRIPT_STYLE_RE " " html))). lia.
  - apply single_spaced_normal.
  - unfold fetch_body. now rewrite Hf.
Qed.

Lemma fetched_text_tagless_witness :
  search TAG_RE
    (sub TAG_RE " "
       (sub SCRIPT_STYLE_RE " "
          ("<html><head><style>p{}</style><SCRIPT>var a='<b>';</script></head>" +:+
           "<body><h1>Data   Engineer</h1>" +:+ nl +:+ "<p>SQL, Python</p></body></html>"))) =
  None.
Proof.
  apply (fetched_text_tagless page_web "https://jobs.example/1"). reflexivity.
Defined.

(** ** The phone number and the name of the contact extractor *)
Section Phone.

Lemma matches_length (r : regex) (w : string) :
  matches r w ->
  (min_len r <= String.length w)%nat /\
  (forall m, max_len r = Some m -> (String.length w <= m)%nat).
Proof.
  induction 1 as [|p c Hc|r1 r2 w1 w2 H1 [L1 U1] H2 [L2 U2]
                  |r1 r2 w H1 [L1 U1]|r1 r2 w H2 [L2 U2]
                  |r w H1 [L1 U1]|r|g p lo hi w Hall Hlo Hhi];
    cbn [min_len max_len String.length].
  - split; [lia|]. intros m [= <-]. lia.
  - split; [lia|]. intros m [= <-]. lia.
  - rewrite length_app. split; [lia|]. intros m Hm.
    destruct (max_len r1) as [a|], (max_len r2) as [b|]; try discriminate.
    injection Hm as <-. specialize (U1 a eq_refl). specialize (U2 b eq_refl). lia.
  - split; [lia|]. intros m Hm.
    destruct (max_len r1) as [a|], (max_len r2) as [b|]; try discriminate.
    injection Hm as <-. specialize (U1 a eq_refl). lia.
  - split; [lia|]. intros m Hm.
    destruct (max_len r1) as [a|], (max_len r2) as [b|]; try discriminate.
    injection Hm as <-. specialize (U2 b eq_refl). lia.
  - split; [lia | exact U1].
  - split; [lia|]. intros m _. lia.
  - split; [exact Hlo|]. intros m ->. exact Hhi.
Qed.

Lemma matches_chars (q : ascii -> bool) (r : regex) (w : string) :
  classes_within q r -> matches r w -> all_str q w = true.
Proof.
  intros Hq H. induction H as [|p c Hc|r1 r2 w1 w2 H1 IH1 H2 IH2
                  |r1 r2 w H1 IH1|r1 r2 w H2 IH2
                  |r w H1 IH1|r|g p lo hi w Hall Hlo Hhi];
    cbn [classes_within] in Hq.
  - reflexivity.
  - cbn [all_str]. now rewrite (Hq c Hc).
  - destruct Hq as [Q1 Q2]. rewrite all_str_app. now rewrite IH1, IH2.
  - destruct Hq as [Q1 Q2]. now apply IH1.
  - destruct Hq as [Q1 Q2]. now apply IH2.
  - now apply IH1.
  - reflexivity.
  - revert Hall. now apply all_str_impl.
Qed.

Lemma slice_from_add (n j : nat) (s : string) :
  slice_from (n + j) s = slice_from j (slice_from n s).
Proof.
  revert s. induction n as [|n IH]; intros s; [reflexivity|].
  destruct s as [|c s]; cbn [Nat.add slice_from]; [now destruct j | apply IH].
Qed.

Lemma flat_map_nil {A B : Type} (f : A -> list B) (l : list A) :
  (forall x, In x l -> f x = []) -> flat_map f l = [].
Proof.
  induction l as [|x l IH]; [reflexivity|]. intros H. cbn [flat_map].
  rewrite (H x) by now left. apply IH. intros y Hy. apply H. now right.
Qed.

Lemma flat_map_flat_map {A B C : Type} (f : B -> list C) (g : A -> list B)
    (l : list A) :
  flat_map f (flat_map g l) = flat_map (fun x => flat_map f (g x)) l.
Proof.
  induction l as [|x l IH]; [reflexivity|]. cbn [flat_map].
  now rewrite List.flat_map_app, IH.
Qed.

Lemma flat_map_map {A B C : Type} (f : B -> list C) (g : A -> B) (l : list A) :
  flat_map f (map g l) = flat_map (fun x => f (g x)) l.
Proof.
  induction l as [|x l IH]; [reflexivity|]. cbn [map flat_map]. now rewrite IH.
Qed.

Lemma map_flat_map {A B C : Type} (f : B -> C) (g : A -> list B) (l : list A) :
  map f (flat_map g l) = flat_map (fun x => map f (g x)) l.
Proof.
  induction l as [|x l IH]; [reflexivity|]. cbn [flat_map].
  now rewrite List.map_app, IH.
Qed.

Lemma mlens_then_seq (r1 r2 : regex) (k : string -> list nat) (s : string) :
  mlens_then (Seq r1 r2) k s = mlens_then r1 (mlens_then r2 k) s.
Proof.
  unfold mlens_then. cbn [mlens]. rewrite flat_map_flat_map.
  apply flat_map_ext. intros n. rewrite flat_map_map, map_flat_map.
  apply flat_map_ext. intros j. rewrite slice_from_add, List.map_map.
  apply map_ext. intros x. lia.
Qed.

Lemma all_blank_slice_from (n : nat) (u : string) :
  all_str is_space u = true -> all_str is_space (slice_from n u) = true.
Proof.
  revert u. induction n as [|n IH]; intros u H; [now destruct u|].
  destruct u as [|c u]; [reflexivity|]. cbn [slice_from]. apply IH.
  cbn [all_str] in H. now apply andb_true_iff in H.
Qed.

Lemma mlens_then_blank (r : regex) (k : string -> list nat) (u : string) :
  (forall u, all_str is_space u = true -> k u = []) ->
  all_str is_space u = true -> mlens_then r k u = [].
Proof.
  intros Hk Hu. unfold mlens_then. apply flat_map_nil. intros n _.
  rewrite Hk; [reflexivity | now apply all_blank_slice_from].
Qed.

Lemma slice_from_0 (s : string) : slice_from 0 s = s.
Proof. now destruct s. Qed.

Lemma mlens_then_app_blank (r : regex) :
  reps_blank_free r ->
  forall w, all_str is_space w = true ->
  forall k, ignores_trailing_blanks k ->
  forall x, mlens_then r k (x +:+ w) = mlens_then r k x.
Proof.
  induction r as [|p|r1 IH1 r2 IH2|r1 IH1 r2 IH2|r1 IH1|g p lo hi];
    intros Hr w Hw k [K1 K2] x; cbn [reps_blank_free] in Hr.
  - unfold mlens_then. cbn [mlens flat_map]. rewrite ?slice_from_0.
    now rewrite K1.
  - unfold mlens_then. destruct x as [|c x].
    + cbn [String.append mlens flat_map]. destruct w as [|c w]; [reflexivity|].
      cbn [mlens]. destruct (p c); [|reflexivity]. cbn [flat_map slice_from].
      rewrite ?slice_from_0.
      rewrite K2; [reflexivity|]. cbn [all_str] in Hw. now apply andb_true_iff in Hw.
    + cbn [String.append mlens]. destruct (p c); [|reflexivity].
      cbn [flat_map slice_from]. rewrite ?slice_from_0. now rewrite K1.
  - destruct Hr as [H1 H2]. rewrite !mlens_then_seq. apply (IH1 H1 w Hw). split.
    + intros w' x' Hw'. apply (IH2 H2 w' Hw'). now split.
    + intros u Hu. now apply mlens_then_blank.
  - destruct Hr as [H1 H2]. unfold mlens_then. cbn [mlens].
    rewrite !List.flat_map_app. f_equal.
    + apply (IH1 H1 w Hw k). now split.
    + apply (IH2 H2 w Hw k). now split.
  - unfold mlens_then. cbn [mlens]. rewrite !List.flat_map_app. f_equal.
    + apply (IH1 Hr w Hw k). now split.
    + cbn [flat_map]. rewrite ?slice_from_0. now rewrite K1.
  - unfold mlens_then. cbn [mlens]. unfold rep_lens, rep_upper.
    rewrite run_app_blank by assumption.
    apply flat_map_ext_In. intros n Hn.
    assert (Hl : (n <= String.length x)%nat).
    { apply (mlens_le (Rep g p lo hi)). exact Hn. }
    now rewrite slice_from_app_le, K1.
Qed.

Lemma ignores_seq (r1 r2 : regex) :
  reps_blank_free r1 -> ignores_trailing_blanks (mlens r2) ->
  ignores_trailing_blanks (mlens (Seq r1 r2)).
Proof.
  intros H1 H2. split.
  - intros w x Hw. exact (mlens_then_app_blank r1 H1 w Hw (mlens r2) H2 x).
  - intros u Hu. apply (mlens_then_blank r1 (mlens r2) u); [apply H2 | exact Hu].
Qed.

Lemma blank_not_digit (c : ascii) : is_space c = true -> is_digit c = false.
Proof. destruct c as [[] [] [] [] [] [] [] []]; vm_compute; congruence. Qed.

Lemma phone_ignores_trailing_blanks : ignores_trailing_blanks (mlens CONTACT_PHONE_RE).
Proof.
  unfold CONTACT_PHONE_RE.
  repeat (apply ignores_seq;
          [cbn [reps_blank_free]; repeat split; try exact blank_not_digit; exact I|]).
  split.
  - intros w x Hw. apply mlens_app_blank; [|exact Hw]. exact blank_not_digit.
  - intros u Hu. cbn [mlens]. unfold rep_lens, rep_upper.
    assert (R : run is_digit u = O).
    { destruct u as [|c u]; [reflexivity|]. cbn [all_str] in Hu.
      apply andb_true_iff in Hu as [Hc _]. cbn [run].
      now rewrite (blank_not_digit c Hc). }
    rewrite R. reflexivity.
Qed.

Lemma phone_starts_nonblank : starts_nonblank CONTACT_PHONE_RE.
Proof.
  split; [reflexivity|]. intros c s Hc.
  destruct c as [[] [] [] [] [] [] [] []];
    try (vm_compute in Hc; discriminate Hc); vm_compute; reflexivity.
Qed.

Lemma phone_search_app_blank (s w : string) (i : nat) :
  all_str is_space w = true ->
  search_from CONTACT_PHONE_RE i (s +:+ w) = search_from CONTACT_PHONE_RE i s.
Proof.
  intros Hw. revert i. induction s as [|c s IH]; intros i.
  - cbn [String.append].
    rewrite (search_from_blank _ phone_starts_nonblank) by assumption.
    reflexivity.
  - pose proof (proj1 phone_ignores_trailing_blanks w (String c s) Hw) as Hm.
    cbn [String.append] in *. cbn [search_from]. rewrite Hm.
    destruct (mlens CONTACT_PHONE_RE (String c s)); [apply IH | reflexivity].
Qed.

Lemma phone_group0_strip (s : string) :
  group0_or_empty CONTACT_PHONE_RE (strip s) = group0_or_empty CONTACT_PHONE_RE s.
Proof.
  unfold strip, strip_by.
  destruct (rstrip_by_split is_space (lstrip_by is_space s)) as [w [Hs Hw]].
  transitivity (group0_or_empty CONTACT_PHONE_RE (lstrip_by is_space s)).
  - set (t := lstrip_by is_space s) in *. clearbody t.
    set (u := rstrip_by is_space t) in *. clearbody u. subst t.
    unfold group0_or_empty, search.
    rewrite phone_search_app_blank by assumption.
    pose proof (search_from_spec CONTACT_PHONE_RE u O) as H.
    destruct (search_from CONTACT_PHONE_RE O u) as [[i n]|]; [|reflexivity].
    destruct H as [k [-> [Hk [[rest Hhead] _]]]]. cbn [Nat.add].
    assert (Hn : (n <= String.length (slice_from k u))%nat).
    { apply (mlens_le CONTACT_PHONE_RE). rewrite Hhead. now left. }
    now rewrite slice_from_app_le, slice_to_app_le.
  - clear w Hs Hw. induction s as [|c s IH]; [reflexivity|].
    cbn [lstrip_by]. destruct (is_space c) eqn:Hc; [|reflexivity].
    rewrite IH. symmetry. now apply (group0_cons_blank _ phone_starts_nonblank).
Qed.

Lemma phone_classes : classes_within phone_char CONTACT_PHONE_RE.
Proof.
  unfold CONTACT_PHONE_RE. cbn [classes_within].
  repeat split; intros c; destruct c as [[] [] [] [] [] [] [] []];
    vm_compute; congruence.
Qed.

Lemma phone_last_four (w : string) :
  matches CONTACT_PHONE_RE w ->
  exists pre last4,
    w = pre +:+ last4 /\ String.length last4 = 4%nat /\ all_str is_digit last4 = true.
Proof.
  unfold CONTACT_PHONE_RE. intros H.
  apply matches_seq_inv in H as (w1 & x1 & -> & _ & H).
  apply matches_seq_inv in H as (w2 & x2 & -> & _ & H).
  apply matches_seq_inv in H as (w3 & x3 & -> & _ & H).
  apply matches_seq_inv in H as (w4 & w5 & -> & _ & H).
  apply matches_rep_inv in H as (Hd & Hlo & Hhi). cbn [within] in Hhi.
  exists (w1 +:+ w2 +:+ w3 +:+ w4), w5.
  split; [now rewrite !app_assoc_s|]. split; [lia | exact Hd].
Qed.

Lemma contains_slice_to (p : string) (n : nat) (s : string) :
  contains p (slice_to n s) = true -> contains p s = true.
Proof.
  intros H. rewrite <- (slice_to_from n s). now apply contains_app_l.
Qed.

Lemma lower_slice_to (n : nat) (s : string) :
  lower (slice_to n s) = slice_to n (lower s).
Proof.
  revert s. induction n as [|n IH]; intros s; [now destruct s|].
  destruct s as [|c s]; [reflexivity|]. cbn [slice_to lower]. now rewrite IH.
Qed.

Lemma has_keyword_slice_to (n : nat) (ln : string) :
  has_keyword ln = false -> has_keyword (slice_to n ln) = false.
Proof.
  intros H. destruct (has_keyword (slice_to n ln)) eqn:E; [|reflexivity].
  unfold has_keyword in *. apply existsb_exists in E as (k & Hk & E).
  rewrite lower_slice_to in E. apply contains_slice_to in E.
  rewrite <- H. symmetry. apply existsb_exists. now exists k.
Qed.

Lemma all_str_slice_to (q : ascii -> bool) (n : nat) (s : string) :
  all_str q s = true -> all_str q (slice_to n s) = true.
Proof.
  intros H. rewrite <- (slice_to_from n s), all_str_app in H.
  now apply andb_true_iff in H.
Qed.

Lemma all_str_true (s : string) : all_str (fun _ => true) s = true.
Proof. induction s as [|c s IH]; [reflexivity | exact IH]. Qed.

Lemma splitlines_no_linebreak (s ln : string) :
  In ln (splitlines s) -> all_str (fun c => negb (is_linebreak c)) ln = true.
Proof.
  intros Hin. pose proof (all_str_true s) as Hs.
  pose proof (splitlines_aux_chars _ (String.length s) s "" (le_n _) Hs eq_refl) as F.
  rewrite List.Forall_forall in F. exact (F ln Hin).
Qed.

End Phone.

(** The phone number of the contact extractor is the match [search]
    reports for the phone pattern in the resume text, which stands at the
    leftmost offset at which the pattern matches, and is empty when the
    pattern matches nowhere; a number found has 8 to 19 characters, all of
    them digits, separators, a plus sign or parentheses, and ends in four
    digits. *)
Theorem contact_phone_spec (resume_text : string) :
  let ph := phone (_extract_contact_bits resume_text) in
  match search CONTACT_PHONE_RE resume_text with
  | Some (i, n) =>
      ph = slice_to n (slice_from i resume_text) /\
      match_at CONTACT_PHONE_RE resume_text i ph /\
      (forall j w, match_at CONTACT_PHONE_RE resume_text j w -> (i <= j)%nat) /\
      (8 <= String.length ph <= 19)%nat /\
      all_str phone_char ph = true /\
      exists pre last4,
        ph = pre +:+ last4 /\ String.length last4 = 4%nat /\
        all_str is_digit last4 = true
  | None => ph = "" /\ forall j w, ~ match_at CONTACT_PHONE_RE resume_text j w
  end.
Proof.
  intros ph.
  assert (E : ph = group0_or_empty CONTACT_PHONE_RE resume_text).
  { unfold ph, _extract_contact_bits. cbn [phone]. apply phone_group0_strip. }
  unfold group0_or_empty in E.
  pose proof (search_spec CONTACT_PHONE_RE resume_text) as H.
  destruct (search CONTACT_PHONE_RE resume_text) as [[i n]|]; [|now split].
  destruct H as [Hm Hleft]. rewrite <- E in Hm.
  split; [exact E|]. split; [exact Hm|]. split; [exact Hleft|].
  destruct Hm as (a & b & _ & _ & Hm).
  pose proof (matches_length _ _ Hm) as [Hlo Hhi].
  specialize (Hhi 19%nat eq_refl).
  change (min_len CONTACT_PHONE_RE) with 8%nat in Hlo.
  split; [lia|]. split; [exact (matches_chars _ _ _ phone_classes Hm)|].
  now apply phone_last_four.
Qed.

(** The name of the contact extractor has at most 120 characters, holds
    none of the four section keywords in any letter case, holds no line
    boundary and does not begin with a blank; it is empty or the beginning
    of a trimmed line of the trimmed text. *)
Theorem contact_name_shape (resume_text : string) :
  let nm := name (_extract_contact_bits resume_text) in
  (String.length nm <= 120)%nat /\
  has_keyword nm = false /\
  all_str (fun c => negb (is_linebreak c)) nm = true /\
  (forall c r, nm = String c r -> is_space c = false) /\
  (nm = "" \/
   exists raw, In raw (splitlines (strip resume_text)) /\ strip raw <> "" /\
               nm = slice_to 120 (strip raw)).
Proof.
  intros nm. unfold nm, _extract_contact_bits. cbn [name].
  rewrite name_scan_spec.
  split; [apply length_slice_to_le|].
  destruct (List.find _ _) as [ln|] eqn:Hfind; cbn [first_or_empty].
  2: { repeat split; try reflexivity; [discriminate | now left]. }
  apply List.find_some in Hfind as [Hin Hkw].
  apply negb_true_iff in Hkw.
  apply In_firstn in Hin. unfold nonblank_lines in Hin.
  apply in_map_iff in Hin as (raw & <- & Hraw).
  apply List.filter_In in Hraw as [Hraw Hne].
  split; [now apply has_keyword_slice_to|].
  split.
  { apply all_str_slice_to. apply strip_by_all.
    now apply (splitlines_no_linebreak (strip resume_text)). }
  split.
  { intros c r E. apply slice_to_head in E as [r' E]. now apply strip_head in E. }
  right. exists raw. split; [exact Hraw|]. split; [|reflexivity].
  now apply truthy_spec.
Qed.

(** ** Counting and finding documents *)

Lemma scan_total_returns (counts : list Z) :
  forall total page more,
    page :: more = map Returned counts ->
    scan_total total page more = Returned (total + fold_right Z.add 0 counts)%Z.
Proof.
  induction counts as [|n counts IH]; intros total page more E; [discriminate|].
  cbn [map] in E. injection E as -> E. cbn [fold_right].
  destruct more as [|next rest].
  - destruct counts; [|discriminate]. cbn [scan_total bind fold_right]. f_equal. lia.
  - cbn [scan_total bind]. rewrite (IH _ _ _ E). f_equal. lia.
Qed.

Lemma scan_total_raises (before : list Z) (e : exn) (after : list (outcome Z)) :
  forall total page more,
    page :: more = map Returned before ++ Raised e :: after ->
    scan_total total page more = Raised e.
Proof.
  induction before as [|n before IH]; intros total page more E.
  - cbn [map app] in E. injection E as -> _. now destruct more.
  - cbn [map app] in E. injection E as -> E.
    destruct more as [|next rest]; [destruct before; discriminate|].
    cbn [scan_total bind]. now apply IH.
Qed.

(** When the count query is refused with a client error that is a
    "ValidationException" or whose message holds "Query condition missed
    key schema", the count is the sum of the counts of all pages of the
    scan; a page that raises ends the count with its exception; any other
    client error of the query is raised again as it is. *)
Theorem count_docs_scan_fallback (sv : services) (user_id err msg op : string) :
  query_count sv user_id = Raised (ClientError err msg op) ->
  let pages := (scan_count sv user_id).1 :: (scan_count sv user_id).2 in
  let fallback :=
    String.eqb err "ValidationException" ||
    contains "Query condition missed key schema" msg in
  (fallback = true ->
   (forall counts, pages = map Returned counts ->
      _count_docs_for_user sv user_id = Returned (fold_right Z.add 0 counts)%Z) /\
   (forall before e after, pages = map Returned before ++ Raised e :: after ->
      _count_docs_for_user sv user_id = Raised e)) /\
  (fallback = false ->
   _count_docs_for_user sv user_id = Raised (ClientError err msg op)).
Proof.
  intros Hq pages fallback. unfold _count_docs_for_user. rewrite Hq. fold fallback.
  split; intros ->; [|reflexivity]. split.
  - intros counts E. now rewrite (scan_total_returns counts 0 _ _ E).
  - intros before e after E. exact (scan_total_raises before e after 0%Z _ _ E).
Qed.

Lemma count_docs_scan_fallback_witness :
  _count_docs_for_user paged_services "u1" = Returned 12%Z.
Proof.
  destruct (count_docs_scan_fallback paged_services "u1" "ValidationException"
              "Query condition missed key schema element: userId" "Query" eq_refl)
    as [H _].
  destruct (H eq_refl) as [H1 _].
  exact (H1 [4; 5; 3]%Z eq_refl).
Defined.

#[local] Set Warnings "-clear-no-such-hyp".

(** The lookup of a document finds an item exactly when [get_item]
    returned it or when, [get_item] having returned nothing or raised a
    client error, the scan lists it first; it raises exactly when
    [get_item] raised something else than a client error, or the scan it
    fell back to raised, a client error included. *)
Theorem find_doc_by_id_spec (sv : services) (user_id document_id : string) :
  let found := _find_doc_by_id sv user_id document_id in
  let falls_back :=
    get_item sv user_id document_id = Returned None \/
    exists c m o, get_item sv user_id document_id = Raised (ClientError c m o) in
  (forall item, found = Returned (Some item) <->
     get_item sv user_id document_id = Returned (Some item) \/
     (falls_back /\ exists rest, scan_item sv user_id document_id = Returned (item :: rest))) /\
  (found = Returned None <->
     falls_back /\ scan_item sv user_id document_id = Returned []) /\
  (forall e, found = Raised e <->
     (get_item sv user_id document_id = Raised e /\
      forall c m o, e <> ClientError c m o) \/
     (falls_back /\ scan_item sv user_id document_id = Raised e)).
Proof.
  intros found falls_back. unfold found, falls_back, _find_doc_by_id.
  destruct (get_item sv user_id document_id) as [[item0|]|[c0 m0 o0|text]];
    destruct (scan_item sv user_id document_id) as [[|it rest]|e0];
    cbn [bind head]; repeat split; intros; naive_solver.
Qed.

(** ** Post-processing twice, and text behind a verified output *)
Section PostProcessAgain.

#[local] Opaque css.

Lemma css_has_li : contains "li{color" css = true.
Proof. Transparent css. vm_compute. reflexivity. Opaque css. Qed.

Lemma post_process_li (html : string) :
  contains "li{color" (post_process html) = true \/
  contains "</style>" (post_process html) = false.
Proof.
  rewrite post_process_unfold. cbv zeta.
  destruct (with_doctype_tests html) as (_ & _ & Eli & Est).
  set (h1 := with_doctype html) in *.
  destruct (negb (contains "<style" (lower h1))).
  - left. destruct (contains "<head>" h1) eqn:Hh.
    + apply (contains_trans _ ("<head>" +:+ nl +:+ css)).
      * apply contains_app_r, contains_app_r. apply css_has_li.
      * apply contains_replace; [discriminate | exact Hh].
    + apply contains_app_r, contains_app_l. apply css_has_li.
  - destruct (contains "li{color" h1) eqn:Hli; cbn [negb]; [now left|].
    destruct (contains "</style>" h1) eqn:Hs.
    + left. apply (contains_trans _ ("li{color:#fff}" +:+ nl +:+ "</style>")).
      * reflexivity.
      * apply contains_replace; [discriminate | exact Hs].
    + right. rewrite replace_absent; [exact Hs | discriminate | exact Hs].
Qed.

End PostProcessAgain.

(** Post-processing is idempotent: applied to its own output it changes
    nothing. *)
Theorem post_process_idempotent (html : string) :
  post_process (post_process html) = post_process html.
Proof.
  set (out := post_process html).
  pose proof (post_process_doctype html) as Hd.
  pose proof (post_process_style html) as Hs.
  pose proof (post_process_li html) as Hl. fold out in Hd, Hs, Hl.
  rewrite (post_process_unfold out). cbv zeta.
  assert (E : with_doctype out = out) by (unfold with_doctype; now rewrite Hd).
  rewrite E, Hs. cbn [negb].
  destruct (contains "li{color" out) eqn:Hli; cbn [negb]; [reflexivity|].
  destruct Hl as [Hl|Hl]; [discriminate|].
  apply replace_absent; [discriminate | exact Hl].
Qed.

Section Suffix.

Lemma slice_to_app_ge (u v : string) (n : nat) :
  (String.length u <= n)%nat ->
  slice_to n (u +:+ v) = u +:+ slice_to (n - String.length u) v.
Proof.
  revert n. induction u as [|c u IH]; intros n Hn.
  - cbn [String.append String.length]. now rewrite Nat.sub_0_r.
  - cbn [String.length] in Hn. destruct n as [|n]; [lia|].
    cbn [String.append slice_to String.length Nat.sub]. rewrite IH by lia. reflexivity.
Qed.

Lemma occurs_at_inside (p a b : string) (j : nat) :
  occurs_at p (a +:+ b) j -> (j + String.length p <= String.length a)%nat ->
  occurs_at p a j.
Proof.
  intros (x & y & E & Hx) Hj.
  exists x, (slice_to (String.length a - String.length (x +:+ p)) y). split; [|exact Hx].
  assert (Ha : a = slice_to (String.length a) (a +:+ b))
    by (symmetry; apply slice_to_app_exact).
  rewrite E, <- app_assoc_s in Ha.
  rewrite slice_to_app_ge in Ha by (rewrite length_app; lia).
  now rewrite app_assoc_s in Ha.
Qed.

Lemma occurs_at_bound (p a : string) (i : nat) :
  occurs_at p a i -> (i + String.length p <= String.length a)%nat.
Proof. intros (x & y & -> & <-). rewrite !length_app. lia. Qed.

Lemma find_app_found (p a b : string) :
  (0 <= find p a)%Z -> find p (a +:+ b) = find p a.
Proof.
  intros H.
  assert (E : find p a = Z.of_nat (Z.to_nat (find p a))) by lia.
  rewrite E. apply position_find.
  apply find_position in E as [Ho Hl]. split.
  - destruct Ho as (x & y & -> & Hx). exists x, (y +:+ b).
    split; [now rewrite !app_assoc_s | exact Hx].
  - intros j Hj. destruct (Nat.le_gt_cases (Z.to_nat (find p a)) j) as [|Hlt]; [assumption|].
    apply Hl. apply (occurs_at_inside p a b j Hj).
    apply occurs_at_bound in Ho. lia.
Qed.

Lemma order_loop_suffix (text_l t : string) (hs : list string) (pos : Z) :
  _order_ok_loop text_l pos hs = true ->
  _order_ok_loop (text_l +:+ t) pos hs = true.
Proof.
  revert pos. induction hs as [|h hs IH]; intros pos; [reflexivity|].
  cbn [_order_ok_loop].
  set (key := rstrip_chars ":" (lower (_normalize_heading h))).
  destruct ((find key text_l =? -1)%Z || (find key text_l <? pos)%Z) eqn:E; [discriminate|].
  apply orb_false_elim in E as [E1 E2]. apply Z.eqb_neq in E1.
  assert (F : find key (text_l +:+ t) = find key text_l).
  { apply find_app_found. destruct (find_range key text_l); [congruence | assumption]. }
  intros H. rewrite F. apply Z.eqb_neq in E1. rewrite E1, E2. cbn [orb]. now apply IH.
Qed.

Lemma order_ok_suffix (section_order : list string) (html t : string) :
  _order_ok section_order html = true -> _order_ok section_order (html +:+ t) = true.
Proof.
  unfold _order_ok. destruct section_order as [|h hs]; [reflexivity|].
  rewrite lower_app. apply order_loop_suffix.
Qed.

Lemma invariants_suffix (invariants : contact_bits) (html t : string) :
  _ensure_invariants_present html invariants = true ->
  _ensure_invariants_present (html +:+ t) invariants = true.
Proof.
  unfold _ensure_invariants_present. rewrite truthy_app, lower_app.
  destruct (truthy html); [|discriminate]. cbn [negb orb andb].
  destruct (truthy (name invariants)), (truthy (email invariants)); cbn [andb];
    intros H; try reflexivity.
  - apply andb_true_iff in H as [H1 H2].
    now rewrite (contains_app_l _ _ _ H1), (contains_app_l _ _ _ H2).
  - now apply contains_app_l.
  - now apply contains_app_l.
Qed.

End Suffix.

(** On ASCII texts, text behind a verified output leaves it verified: both
    checks look for first occurrences, which appended text does not move.
    (Beyond ASCII, lowercasing a text can depend on what follows, and the
    statement is not made there.) *)
Theorem verified_keeps_under_suffix (invariants : contact_bits)
    (section_order : list string) (html tail : string) :
  ascii_text (name invariants) = true -> ascii_text (email invariants) = true ->
  Forall (fun h => ascii_text h = true) section_order ->
  ascii_text html = true -> ascii_text tail = true ->
  verified invariants section_order html = true ->
  verified invariants section_order (html +:+ tail) = true.
Proof.
  intros _ _ _ _ _. unfold verified. intros H. apply andb_true_iff in H as [H1 H2].
  now rewrite invariants_suffix, order_ok_suffix.
Qed.

Lemma verified_keeps_under_suffix_witness :
  verified (_extract_contact_bits sample_resume) (_detect_section_order sample_resume)
    (("<h1>Jane Doe</h1><p>jane.doe@example.com</p><h2>Experience</h2>" +:+
      "<p>Acme Corp, Engineer</p><h2>Education</h2><p>State University</p>") +:+
     "<p>experience is what counts</p>") = true.
Proof.
  apply (verified_keeps_under_suffix (_extract_contact_bits sample_resume)
           (_detect_section_order sample_resume));
    try (vm_compute; reflexivity).
  vm_compute. repeat constructor.
Defined.

(** ** The fallback page *)

Lemma escape_angle_inert (s : string) :
  mem_char "<" (escape_angle s) = false /\ mem_char ">" (escape_angle s) = false.
Proof.
  induction s as [|c s [IH1 IH2]]; [now split|].
  cbn [escape_angle]. rewrite !mem_char_app, IH1, IH2, !orb_false_r.
  destruct (Ascii.eqb c "<") eqn:E1; [now split|].
  destruct (Ascii.eqb c ">") eqn:E2; [now split|].
  cbn [mem_char]. rewrite !orb_false_r, (Ascii.eqb_sym "<"), (Ascii.eqb_sym ">").
  now rewrite E1, E2.
Qed.

(** Nothing taken from the resume can open or close an element of the
    fallback page.  The page is its fixed markup around five insertions:
    the name (or its placeholder), the email and the phone number, each
    written through [html.escape]; the links, each written through
    [html.escape] and joined by bullets; and the resume text with every
    angle bracket written as an entity.  None of the first four holds an
    angle bracket or a quote, and the last holds no angle bracket. *)
Theorem fallback_page_inert (resume_text : string) :
  let invariants := _extract_contact_bits resume_text in
  let shown_name := escape (or_else (name invariants) "Your Name") in
  let shown_email := escape (email invariants) in
  let shown_phone := escape (phone invariants) in
  let shown_links := map escape (links invariants) in
  let shown_resume := escape_angle resume_text in
  fallback_html invariants resume_text =
    fallback_head +:+
    "<h1>" +:+ shown_name +:+ "</h1>" +:+ nl +:+
    "<div class=" +:+ dq +:+ "muted" +:+ dq +:+ ">" +:+
    shown_email +:+ " " +:+ shown_phone +:+ "</div>" +:+ nl +:+
    "<p class=" +:+ dq +:+ "muted" +:+ dq +:+ ">" +:+
    join " • " shown_links +:+ "</p>" +:+ nl +:+
    "<h2>Original (not parsed)</h2>" +:+ nl +:+ "<pre style=" +:+ dq +:+
    "white-space:pre-wrap" +:+ dq +:+ ">" +:+ shown_resume +:+ "</pre>" +:+
    nl +:+ "</div>" +:+ nl +:+ "</html>" /\
  (forall piece d,
     In piece (shown_name :: shown_email :: shown_phone :: shown_links) ->
     In d ["<"; ">"; chr 34; "'"]%char -> mem_char d piece = false) /\
  mem_char "<" shown_resume = false /\ mem_char ">" shown_resume = false.
Proof.
  intros invariants shown_name shown_email shown_phone shown_links shown_resume.
  split; [|split].
  - unfold fallback_html. cbv zeta.
    rewrite safe_resume_escape_angle, !or_else_empty. reflexivity.
  - intros piece d Hp Hd.
    assert (E : exists x, piece = escape x).
    { destruct Hp as [<-|[<-|[<-|Hp]]]; [now eexists | now eexists | now eexists |].
      apply in_map_iff in Hp as (x & <- & _). now eexists. }
    destruct E as [x ->]. now apply escape_no_markup.
  - apply escape_angle_inert.
Qed.

(** ** Canonical section names *)
Section Canon.

Lemma ends_with_char_lower (d : ascii) (s : string) :
  is_alpha d = false -> ends_with_char d (lower s) = ends_with_char d s.
Proof.
  intros Hd. induction s as [|c s IH]; [reflexivity|].
  cbn [lower ends_with_char]. destruct s as [|c2 s].
  - cbn [lower]. rewrite !(Ascii.eqb_sym _ d). now apply lower_char_is.
  - cbn [lower] in *. exact IH.
Qed.

Lemma drop_last_lower (s : string) : drop_last (lower s) = lower (drop_last s).
Proof.
  induction s as [|c s IH]; [reflexivity|].
  cbn [lower drop_last]. destruct s as [|c2 s]; [reflexivity|].
  cbn [lower] in *. now rewrite IH.
Qed.

Lemma canon_names (name : string) :
  In name SECTION_CANON ->
  (3 <= String.length name <= 79)%nat /\ ends_with_char ":" name = false.
Proof.
  unfold SECTION_CANON. cbn [In]. intros H.
  repeat (destruct H as [<-|H]; [cbn; split; [lia | reflexivity]|]).
  destruct H.
Qed.

End Canon.

(** A line that holds, between blanks, a canonical section name in any
    letter case, with or without one closing colon, is taken for a
    heading. *)
Theorem canonical_names_are_headings (line name : string) :
  In name SECTION_CANON ->
  lower (strip line) = name \/ lower (strip line) = name +:+ ":" ->
  _looks_like_heading line = true.
Proof.
  intros Hin Hl. destruct (canon_names name Hin) as [Hlen Hend].
  unfold _looks_like_heading. cbv zeta. set (s := strip line) in *.
  assert (Hs : String.length s = String.length (lower s)) by now rewrite length_lower.
  assert (Hc : ends_with_char ":" s = ends_with_char ":" (lower s))
    by (symmetry; now apply ends_with_char_lower).
  destruct Hl as [Hl|Hl]; rewrite Hl in Hs, Hc.
  - rewrite Hs, Hc, Hend.
    destruct (Nat.ltb_spec 80 (String.length name)); [lia|].
    destruct (Nat.ltb_spec (String.length name) 3); [lia|]. cbn [orb].
    destruct (_ && _); [reflexivity|]. rewrite Hl. now apply in_list_In.
  - rewrite length_app in Hs. cbn [String.length] in Hs.
    rewrite Hs, Hc, (ends_with_char_app ":" name).
    destruct (Nat.ltb_spec 80 (String.length name + 1)); [lia|].
    destruct (Nat.ltb_spec (String.length name + 1) 3); [lia|]. cbn [orb].
    destruct (_ && _); [reflexivity|].
    rewrite <- drop_last_lower, Hl, (drop_last_app ":" name). now apply in_list_In.
Qed.

Lemma canonical_names_are_headings_witness :
  _looks_like_heading ("  tEcHnIcAl sKiLLs: " +:+ tab) = true.
Proof.
  apply (canonical_names_are_headings ("  tEcHnIcAl sKiLLs: " +:+ tab) "technical skills").
  - cbn. tauto.
  - right. reflexivity.
Defined.

(** * The vocabulary of the statements and the functions of the module *)

(** ** Letter case *)
Section LetterCase.

Lemma code_lt (c : ascii) : code c < 256.
Proof. apply N_ascii_bounded. Qed.

Lemma code_chr (n : N) : n < 256 -> code (chr n) = n.
Proof. apply N_ascii_embedding. Qed.

Lemma chr_code (c : ascii) : chr (code c) = c.
Proof. apply ascii_N_embedding. Qed.

Lemma code_inj (a b : ascii) : code a = code b -> a = b.
Proof. intros H. rewrite <- (chr_code a), <- (chr_code b). now rewrite H. Qed.

Lemma code_lower_char (c : ascii) :
  code (lower_char c) = if is_upper c then code c + 32 else code c.
Proof.
  unfold lower_char. destruct (is_upper c) eqn:E; [|reflexivity].
  apply code_chr. unfold is_upper in E. cbv zeta in E.
  apply andb_true_iff in E as [_ E]. apply N.leb_le in E. lia.
Qed.

(** Two characters are the same letter exactly when their lower-case
    forms are equal. *)
Lemma same_letter_lower (a b : ascii) :
  same_letter a b = true <-> lower_char a = lower_char b.
Proof.
  transitivity (code (lower_char a) = code (lower_char b));
    [|split; [apply code_inj | now intros ->]].
  rewrite !code_lower_char. unfold same_letter, is_upper. cbv zeta.
  pose proof (code_lt a) as La. pose proof (code_lt b) as Lb.
  rewrite !orb_true_iff, !andb_true_iff, !N.eqb_eq, !N.leb_le.
  assert (E : Ascii.eqb a b = true <-> code a = code b).
  { rewrite Ascii.eqb_eq. split; [now intros -> | apply code_inj]. }
  rewrite E.
  destruct (N.leb_spec 65 (code a)), (N.leb_spec (code a) 90),
           (N.leb_spec 65 (code b)), (N.leb_spec (code b) 90);
    cbn [andb]; lia.
Qed.

Lemma same_ci_lower (u v : string) : same_ci u v = true <-> lower u = lower v.
Proof.
  revert v. induction u as [|a u IH]; intros [|b v]; cbn [same_ci lower];
    try (split; [reflexivity || discriminate | reflexivity || discriminate]).
  rewrite andb_true_iff, same_letter_lower, IH.
  split; [intros [-> ->]; reflexivity | intros [= -> ->]; now split].
Qed.

Lemma same_ci_length (u v : string) :
  same_ci u v = true -> String.length u = String.length v.
Proof.
  rewrite same_ci_lower. intros H.
  now rewrite <- (length_lower u), <- (length_lower v), H.
Qed.

Lemma lower_no_upper (s : string) :
  all_str (fun c => negb (is_upper c)) (lower s) = true.
Proof.
  induction s as [|c s IH]; [reflexivity|]. cbn [lower all_str]. rewrite IH, andb_true_r.
  destruct c as [[] [] [] [] [] [] [] []]; reflexivity.
Qed.

Lemma lower_fixed (l : string) :
  all_str (fun c => negb (is_upper c)) l = true -> lower l = l.
Proof.
  induction l as [|c l IH]; [reflexivity|]. cbn [all_str lower].
  intros H. apply andb_true_iff in H as [Hc Hl]. rewrite (IH Hl).
  unfold lower_char. apply negb_true_iff in Hc. now rewrite Hc.
Qed.

(** The lower-case form of a text is what [lower] computes. *)
Lemma lowercase_of_lower (s l : string) : lowercase_of s l <-> l = lower s.
Proof.
  unfold lowercase_of. rewrite same_ci_lower. split.
  - intros [H1 H2]. now rewrite <- H1, lower_fixed.
  - intros ->. split; [apply lower_idem | apply lower_no_upper].
Qed.

Lemma lower_split (s x y : string) :
  lower s = x +:+ y ->
  exists s1 s2, s = s1 +:+ s2 /\ lower s1 = x /\ lower s2 = y.
Proof.
  revert s. induction x as [|c x IH]; intros s H.
  - now exists "", s.
  - destruct s as [|d s]; [discriminate|]. cbn [lower String.append] in H.
    injection H as Hc H. destruct (IH s H) as (s1 & s2 & -> & H1 & H2).
    exists (String d s1), s2. cbn [lower String.append]. now rewrite Hc, H1.
Qed.

(** An occurrence up to letter case is an occurrence of the lowered
    needle in the lowered text. *)
Lemma occurs_ci_at_lower (k s : string) (i : nat) :
  occurs_ci_at k s i <-> occurs_at (lower k) (lower s) i.
Proof.
  unfold occurs_ci_at, occurs_at. split.
  - intros (a & w & b & -> & <- & Hw). apply same_ci_lower in Hw.
    exists (lower a), (lower b). rewrite !lower_app, Hw, length_lower. now split.
  - intros (a & b & E & <-).
    destruct (lower_split _ _ _ E) as (s1 & s2 & -> & H1 & H2).
    destruct (lower_split _ _ _ H2) as (w & s3 & -> & H3 & H4).
    exists s1, w, s3. split; [reflexivity|]. split.
    + now rewrite <- H1, length_lower.
    + now apply same_ci_lower.
Qed.

Lemma occurs_ci_contains (k s : string) :
  occurs_ci k s <-> contains (lower k) (lower s) = true.
Proof.
  rewrite contains_spec. unfold occurs_ci. split.
  - intros [i H]. apply occurs_ci_at_lower in H as (a & b & E & _). now exists a, b.
  - intros (a & b & E). exists (String.length a). apply occurs_ci_at_lower.
    now exists a, b.
Qed.

Lemma first_ci_position (k s : string) (i : nat) :
  first_ci k s i <-> position (lower k) (lower s) i.
Proof.
  unfold first_ci, position. rewrite occurs_ci_at_lower.
  split; intros [H1 H2]; (split; [exact H1|]); intros j Hj; apply H2;
    now apply occurs_ci_at_lower.
Qed.

End LetterCase.

(** ** Stripping *)
Section Stripping.

Lemma string_snoc_cases (t : string) :
  t = "" \/ exists x c, t = x +:+ String c "".
Proof.
  induction t as [|a t IH]; [now left|]. right.
  destruct IH as [->|(x & c & ->)]; [now exists "", a | now exists (String a x), c].
Qed.

Lemma app_snoc_inj (x y : string) (c d : ascii) :
  x +:+ String c "" = y +:+ String d "" -> x = y /\ c = d.
Proof.
  revert y. induction x as [|a x IH]; intros [|b y] H; cbn [String.append] in H.
  - now injection H as ->.
  - injection H as _ H. destruct y; discriminate.
  - injection H as _ H. destruct x; discriminate.
  - injection H as -> H. destruct (IH y H) as [-> ->]. now split.
Qed.

Lemma lstrip_by_split (p : ascii -> bool) (s : string) :
  exists w, s = w +:+ lstrip_by p s /\ all_str p w = true.
Proof.
  induction s as [|c s (w & E & Hw)]; [now exists ""|]. cbn [lstrip_by].
  destruct (p c) eqn:Hc; [|now exists ""].
  exists (String c w). cbn [String.append all_str]. rewrite Hc, Hw. now rewrite <- E.
Qed.

Lemma lstrip_by_app_all (p : ascii -> bool) (l y : string) :
  all_str p l = true -> lstrip_by p (l +:+ y) = lstrip_by p y.
Proof.
  induction l as [|c l IH]; [reflexivity|]. cbn [all_str String.append lstrip_by].
  intros H. apply andb_true_iff in H as [Hc Hl]. rewrite Hc. now apply IH.
Qed.

Lemma lstrip_by_all (p : ascii -> bool) (r : string) :
  all_str p r = true -> lstrip_by p r = "".
Proof.
  intros H. rewrite <- (app_empty_r r). now rewrite lstrip_by_app_all.
Qed.

Lemma rstrip_by_app_all (p : ascii -> bool) (r t : string) :
  all_str p r = true -> rstrip_by p (t +:+ r) = rstrip_by p t.
Proof.
  revert t. induction r as [|d r IH]; intros t H; [now rewrite app_empty_r|].
  cbn [all_str] in H. apply andb_true_iff in H as [Hd Hr].
  change (String d r) with (String d "" +:+ r).
  rewrite <- app_assoc_s, IH by exact Hr. now apply rstrip_by_snoc.
Qed.

(** The description of a stripped text fits one text only, the one that
    [strip_by] computes. *)
Lemma strip_by_unique (p : ascii -> bool) (l t r : string) :
  all_str p l = true -> all_str p r = true ->
  (forall c x, t = String c x -> p c = false) ->
  (forall x c, t = x +:+ String c "" -> p c = false) ->
  strip_by p (l +:+ t +:+ r) = t.
Proof.
  intros Hl Hr Hfirst Hlast. unfold strip_by. rewrite lstrip_by_app_all by exact Hl.
  destruct t as [|c x].
  - cbn [String.append]. now rewrite lstrip_by_all.
  - cbn [String.append lstrip_by]. rewrite (Hfirst c x eq_refl).
    change (String c (x +:+ r)) with (String c x +:+ r).
    rewrite rstrip_by_app_all by exact Hr.
    destruct (string_snoc_cases (String c x)) as [E|(y & d & E)]; [discriminate|].
    rewrite E. apply rstrip_by_keep. now apply (Hlast y).
Qed.

Lemma strip_by_decomposes (p : ascii -> bool) (s : string) :
  exists l r, s = l +:+ strip_by p s +:+ r /\
    all_str p l = true /\ all_str p r = true /\
    (forall c x, strip_by p s = String c x -> p c = false) /\
    (forall x c, strip_by p s = x +:+ String c "" -> p c = false).
Proof.
  destruct (lstrip_by_split p s) as (l & El & Hl).
  destruct (rstrip_by_split p (lstrip_by p s)) as (r & Er & Hr).
  exists l, r. unfold strip_by. split; [now rewrite <- Er|].
  split; [exact Hl|]. split; [exact Hr|]. split.
  - intros c x E. apply rstrip_by_head in E as [x' E]. now apply lstrip_by_head in E.
  - intros x c E.
    destruct (rstrip_by_last p (lstrip_by p s)) as [E0|(u & d & E1 & Hd)].
    + rewrite E0 in E. destruct x; discriminate.
    + rewrite E1 in E. apply app_snoc_inj in E as [_ <-]. exact Hd.
Qed.

(** Trimming is what [strip] computes. *)
Lemma trimmed_strip (s t : string) : trimmed s t <-> t = strip s.
Proof.
  unfold trimmed, strip. split.
  - intros (l & r & -> & Hl & Hr & Hf & Hb). symmetry. now apply strip_by_unique.
  - intros ->. apply strip_by_decomposes.
Qed.

(** *** The strip set of the headings on ASCII text *)

Lemma edge_unit (c : ascii) :
  mem_char c (" " +:+ tab +:+ ":-") = true -> In (String c "") HEADING_STRIP.
Proof.
  destruct c as [[] [] [] [] [] [] [] []]; intros H;
    try (vm_compute in H; discriminate H); cbn; tauto.
Qed.

Lemma unit_ascii (u : string) :
  In u HEADING_STRIP -> ascii_text u = true ->
  exists c, u = String c "" /\ mem_char c (" " +:+ tab +:+ ":-") = true.
Proof.
  intros [<-|[<-|[<-|[<-|[<-|[<-|[]]]]]]] H; try discriminate H;
    eexists; split; reflexivity.
Qed.

Lemma ascii_text_app (a b : string) :
  ascii_text (a +:+ b) = ascii_text a && ascii_text b.
Proof. apply all_str_app. Qed.

Lemma run_of_ascii (l : string) :
  run_of HEADING_STRIP l -> ascii_text l = true ->
  all_str (fun c => mem_char c (" " +:+ tab +:+ ":-")) l = true.
Proof.
  induction 1 as [|u l Hu Hl IH]; intros Ha; [reflexivity|].
  rewrite ascii_text_app in Ha. apply andb_true_iff in Ha as [Hau Hal].
  destruct (unit_ascii u Hu Hau) as (c & -> & Hc).
  cbn [String.append all_str]. apply andb_true_iff. split; [exact Hc | now apply IH].
Qed.

Lemma all_edge_run (l : string) :
  all_str (fun c => mem_char c (" " +:+ tab +:+ ":-")) l = true ->
  run_of HEADING_STRIP l.
Proof.
  induction l as [|c l IH]; [constructor|]. cbn [all_str].
  intros H. apply andb_true_iff in H as [Hc Hl].
  change (String c l) with (String c "" +:+ l).
  constructor; [now apply edge_unit | now apply IH].
Qed.

(** On ASCII text the strip of [_normalize_heading] computes the one text
    that [stripped_of] describes. *)
Lemma stripped_of_strip_set (s t : string) :
  ascii_text s = true ->
  stripped_of HEADING_STRIP s t <-> t = strip_set HEADING_STRIP s.
Proof.
  intros Ha. rewrite strip_set_ascii by exact Ha. unfold strip_chars. split.
  - intros (l & r & -> & Hl & Hr & Hb & He).
    rewrite !ascii_text_app in Ha.
    apply andb_true_iff in Ha as [Hal Ha]. apply andb_true_iff in Ha as [Hat Har].
    symmetry. apply strip_by_unique.
    + now apply run_of_ascii.
    + now apply run_of_ascii.
    + intros c x ->.
      destruct (mem_char c (" " +:+ tab +:+ ":-")) eqn:Hc; [|reflexivity].
      exfalso. apply (Hb (String c "") (edge_unit c Hc)). now exists x.
    + intros x c ->.
      destruct (mem_char c (" " +:+ tab +:+ ":-")) eqn:Hc; [|reflexivity].
      exfalso. apply (He (String c "") (edge_unit c Hc)). now exists x.
  - intros ->.
    destruct (strip_by_decomposes (fun c => mem_char c (" " +:+ tab +:+ ":-")) s)
      as (l & r & E & Hl & Hr & Hf & Hb).
    set (t := strip_by _ s) in *.
    assert (Hat : ascii_text t = true).
    { rewrite E, !ascii_text_app in Ha.
      apply andb_true_iff in Ha as [_ Ha]. now apply andb_true_iff in Ha as [Ha _]. }
    exists l, r. split; [exact E|].
    split; [now apply all_edge_run|]. split; [now apply all_edge_run|]. split.
    + intros u Hu [x Ex]. rewrite Ex, ascii_text_app in Hat.
      apply andb_true_iff in Hat as [Hau _].
      destruct (unit_ascii u Hu Hau) as (c & -> & Hc).
      rewrite (Hf c x Ex) in Hc. discriminate.
    + intros u Hu [x Ex]. rewrite Ex, ascii_text_app in Hat.
      apply andb_true_iff in Hat as [_ Hau].
      destruct (unit_ascii u Hu Hau) as (c & -> & Hc).
      rewrite (Hb x c Ex) in Hc. discriminate.
Qed.

End Stripping.

(** ** Words *)
Section WordsOf.

Lemma span (p : ascii -> bool) (s : string) :
  exists a rest, s = a +:+ rest /\ all_str p a = true /\
    forall c x, rest = String c x -> p c = false.
Proof.
  induction s as [|c s (a & rest & -> & Ha & Hr)].
  - exists "", "". repeat split. discriminate.
  - destruct (p c) eqn:Hc.
    + exists (String c a), rest. cbn [String.append all_str]. rewrite Hc, Ha.
      repeat split. exact Hr.
    + exists "", (String c (a +:+ rest)). repeat split. now intros ? ? [= <- _].
Qed.

Lemma split_app_blank (b y : string) :
  all_str is_space b = true -> split (b +:+ y) = split y.
Proof.
  unfold split. induction b as [|c b IH]; [reflexivity|]. cbn [all_str].
  intros H. apply andb_true_iff in H as [Hc Hb].
  cbn [String.append split_ws_aux]. rewrite Hc. now apply IH.
Qed.

Lemma split_blank (b : string) : all_str is_space b = true -> split b = [].
Proof. intros H. rewrite <- (app_empty_r b). now rewrite split_app_blank. Qed.

Lemma rev_string_word (w : string) : w <> "" -> rev_string "" w <> "".
Proof.
  destruct w as [|a w]; [congruence|]. intros _. cbn [rev_string].
  apply rev_string_nonempty. discriminate.
Qed.

Lemma split_app_word (w rest : string) :
  w <> "" -> all_str (fun c => negb (is_space c)) w = true ->
  (forall c x, rest = String c x -> is_space c = true) ->
  split (w +:+ rest) = w :: split rest.
Proof.
  intros Hne Hw Hrest. unfold split. rewrite split_ws_aux_word by exact Hw.
  pose proof (rev_string_word w Hne) as Hr.
  destruct rest as [|c x]; cbn [split_ws_aux].
  - destruct (rev_string "" w) eqn:E; [congruence|].
    rewrite <- E. now rewrite rev_string_involutive.
  - rewrite (Hrest c x eq_refl).
    destruct (rev_string "" w) eqn:E; [congruence|].
    rewrite <- E. now rewrite rev_string_involutive.
Qed.

Lemma words_of_split_here (n : nat) :
  forall s, (String.length s <= n)%nat -> words_of s (split s).
Proof.
  induction n as [|n IH]; intros s Hn.
  - destruct s; [|cbn in Hn; lia]. now apply (words_end "").
  - destruct (span is_space s) as (b & rest & -> & Hb & Hrest).
    rewrite split_app_blank by exact Hb.
    destruct (span (fun c => negb (is_space c)) rest) as (w & rest' & -> & Hw & Hrest').
    destruct w as [|a w].
    + destruct rest' as [|c x].
      * rewrite app_empty_r. now apply words_end.
      * exfalso. pose proof (Hrest c x eq_refl) as H1.
        pose proof (Hrest' c x eq_refl) as H2. rewrite H1 in H2. discriminate.
    + assert (Hblank : forall c x, rest' = String c x -> is_space c = true).
      { intros c x E. apply Hrest' in E. now apply negb_false_iff in E. }
      rewrite split_app_word; [|discriminate | exact Hw | exact Hblank].
      apply words_next; [exact Hb | discriminate | exact Hw | exact Hblank|].
      apply IH. rewrite !length_app in Hn. cbn [String.length] in Hn. lia.
Qed.

(** The words of a text are what [split] computes. *)
Lemma words_of_split (s : string) (ws : list string) :
  words_of s ws <-> ws = split s.
Proof.
  split.
  - induction 1 as [b Hb|b w rest ws Hb Hne Hw Hrest _ IH].
    + symmetry. now apply split_blank.
    + rewrite split_app_blank by exact Hb.
      rewrite split_app_word by assumption. now rewrite IH.
  - intros ->. now apply (words_of_split_here (String.length s)).
Qed.

Lemma concat_join (sep : string) (ws : list string) :
  String.concat sep ws = join sep ws.
Proof.
  induction ws as [|w ws IH]; [reflexivity|].
  destruct ws as [|w2 ws]; [reflexivity|].
  change (String.concat sep (w :: w2 :: ws))
    with (w +:+ sep +:+ String.concat sep (w2 :: ws)).
  now rewrite IH.
Qed.

End WordsOf.

(** ** Normal forms and keys of headings *)
Section HeadingKeys.

(** On ASCII text the normal form of a heading is what
    [_normalize_heading] computes. *)
Lemma normal_form_normalize (h n : string) :
  ascii_text h = true -> normal_form h n <-> n = _normalize_heading h.
Proof.
  intros Ha. unfold normal_form, _normalize_heading. cbv zeta. split.
  - intros (t & u & ws & Ht & Hu & Hws & ->).
    apply (stripped_of_strip_set h t Ha) in Ht. apply trimmed_strip in Hu.
    apply words_of_split in Hws. subst. apply concat_join.
  - intros ->. exists (strip_set HEADING_STRIP h), (strip (strip_set HEADING_STRIP h)),
      (split (strip (strip_set HEADING_STRIP h))).
    split; [now apply stripped_of_strip_set|]. split; [now apply trimmed_strip|].
    split; [now apply words_of_split|]. symmetry. apply concat_join.
Qed.

Lemma all_colons (w : string) :
  all_str (is_char ":") w = all_str (fun c => mem_char c ":") w.
Proof.
  induction w as [|c w IH]; [reflexivity|]. cbn [all_str mem_char]. rewrite IH.
  unfold is_char. now rewrite orb_false_r.
Qed.

(** The key of a normalized heading is what the loops compute. *)
Lemma key_of_heading_key (n k : string) : key_of n k <-> k = heading_key n.
Proof.
  unfold key_of, heading_key, rstrip_chars. split.
  - intros (l & colons & Hl & -> & Hc & He). apply lowercase_of_lower in Hl.
    rewrite <- Hl. rewrite all_colons in Hc. rewrite rstrip_by_app_all by exact Hc.
    destruct (string_snoc_cases k) as [->|(x & c & ->)]; [reflexivity|].
    symmetry. apply rstrip_by_keep.
    destruct (mem_char c ":") eqn:E; [|reflexivity].
    exfalso. apply He. exists x. cbn [mem_char] in E. rewrite orb_false_r in E.
    apply Ascii.eqb_eq in E. now subst c.
  - intros ->.
    destruct (rstrip_by_split (fun c => mem_char c ":") (lower n)) as (w & E & Hw).
    exists (lower n), w. split; [now apply lowercase_of_lower|].
    split; [exact E|]. split; [now rewrite all_colons|].
    intros [x Ex].
    destruct (rstrip_by_last (fun c => mem_char c ":") (lower n))
      as [E0|(u & d & E1 & Hd)].
    + rewrite E0 in Ex. destruct x; discriminate.
    + rewrite E1 in Ex. apply app_snoc_inj in Ex as [_ ->]. discriminate Hd.
Qed.

Lemma heading_key_of_spec (h k : string) :
  ascii_text h = true ->
  heading_key_of h k <-> k = heading_key (_normalize_heading h).
Proof.
  intros Ha. unfold heading_key_of. split.
  - intros (n & Hn & Hk). apply (normal_form_normalize h n Ha) in Hn.
    apply key_of_heading_key in Hk. now subst.
  - intros ->. exists (_normalize_heading h).
    split; [now apply normal_form_normalize | now apply key_of_heading_key].
Qed.

End HeadingKeys.

(** * Verification of the generated HTML *)
Section VerificationShown.

Lemma lower_heading_key (n : string) : lower (heading_key n) = heading_key n.
Proof.
  apply lower_fixed. unfold heading_key, rstrip_chars.
  destruct (rstrip_by_split (fun c => mem_char c ":") (lower n)) as (w & E & _).
  pose proof (lower_no_upper n) as H. rewrite E, all_str_app in H.
  now apply andb_true_iff in H.
Qed.

Lemma header_shown_present (invariants : contact_bits) (html : string) :
  header_shown invariants html <-> header_present invariants html.
Proof.
  unfold header_shown, header_present.
  now rewrite !occurs_ci_contains, <- !contains_appears.
Qed.

Lemma order_shown_kept (section_order : list string) (html : string) :
  Forall (fun h => ascii_text h = true) section_order ->
  order_shown section_order html <-> order_kept section_order html.
Proof.
  intros Ha. unfold order_shown, order_kept. split.
  - intros (keys & ps & Hk & Hp & Hn). exists ps. split; [|exact Hn]. clear Hn.
    revert keys ps Hk Hp.
    induction Ha as [|h hs Hh _ IH]; intros keys ps Hk Hp.
    + inversion Hk; subst. inversion Hp; subst. constructor.
    + inversion Hk as [|? k ? keys' Hhk Hk']; subst.
      inversion Hp as [|? i ? ps' Hki Hp']; subst.
      constructor; [|now apply (IH keys')].
      apply (heading_key_of_spec h k Hh) in Hhk. subst k.
      apply first_ci_position in Hki. now rewrite lower_heading_key in Hki.
  - intros (ps & Hp & Hn).
    exists (map (fun h => heading_key (_normalize_heading h)) section_order), ps.
    split; [|split; [|exact Hn]]; clear Hn.
    + clear Hp. induction Ha as [|h hs Hh _ IH]; cbn [map]; constructor; [|exact IH].
      now apply heading_key_of_spec.
    + revert ps Hp. induction Ha as [|h hs Hh _ IH]; intros ps Hp;
        inversion Hp as [|? i ? ps' Hi Hp']; subst; cbn [map]; constructor.
      * apply first_ci_position. now rewrite lower_heading_key.
      * now apply IH.
Qed.

End VerificationShown.



(** The check is blind to letter case, and sees letter case only: a name
    in capitals in the output is found, a name spelt otherwise is not. *)
Example verification_ignores_case :
  let invariants := {| name := "Jane Doe"; email := "Jane@Example.com";
                       phone := ""; links := [] |} in
  verified invariants ["Work Experience:"; "EDUCATION"]
    "<h1>JANE DOE</h1><p>jane@example.COM</p><h2>work experience</h2><h2>Education</h2>"
    = true /\
  verified invariants [] "<h1>Jane  Doe</h1><p>jane@example.com</p>" = false /\
  verified invariants ["Education"; "Experience"]
    "<h1>Jane Doe</h1><p>jane@example.com</p><h2>Experience</h2><h2>Education</h2>"
    = false.
Proof. vm_compute. repeat split; reflexivity. Qed.

(** * Lines and headings *)

(** ** Lines *)
Section LinesOf.

Lemma splitlines_aux_line (l cur rest : string) :
  no_break l = true ->
  splitlines_aux cur (l +:+ rest) = splitlines_aux (rev_string cur l) rest.
Proof.
  revert cur. induction l as [|c l IH]; intros cur H; [reflexivity|].
  unfold no_break in H. cbn [all_str] in H. apply andb_true_iff in H as [Hc Hl].
  apply negb_true_iff in Hc.
  cbn [String.append splitlines_aux rev_string]. rewrite Hc. now apply IH.
Qed.

Lemma splitlines_last (l : string) :
  l <> "" -> no_break l = true -> splitlines l = [l].
Proof.
  intros Hne Hl. unfold splitlines. rewrite <- (app_empty_r l) at 1.
  rewrite splitlines_aux_line by exact Hl. cbn [splitlines_aux].
  pose proof (rev_string_word l Hne) as Hr.
  destruct (rev_string "" l) eqn:E; [congruence|].
  rewrite <- E. now rewrite rev_string_involutive.
Qed.

Lemma splitlines_crlf (l rest : string) :
  no_break l = true ->
  splitlines (l +:+ String (chr 13) (String (chr 10) rest)) = l :: splitlines rest.
Proof.
  intros Hl. unfold splitlines. rewrite splitlines_aux_line by exact Hl.
  cbn [splitlines_aux]. change (is_linebreak (chr 13)) with true. cbv iota.
  change ((code (chr 13) =? 13) && (code (chr 10) =? 10)) with true. cbv iota.
  now rewrite rev_string_involutive.
Qed.

Lemma splitlines_next (l rest : string) (c : ascii) :
  no_break l = true -> is_linebreak c = true ->
  (code c = 13 -> forall x, rest <> String (chr 10) x) ->
  splitlines (l +:+ String c rest) = l :: splitlines rest.
Proof.
  intros Hl Hc Hcr. unfold splitlines. rewrite splitlines_aux_line by exact Hl.
  cbn [splitlines_aux]. rewrite Hc, rev_string_involutive. f_equal.
  destruct rest as [|d x]; [reflexivity|].
  destruct ((code c =? 13) && (code d =? 10)) eqn:E; [|reflexivity].
  exfalso. apply andb_true_iff in E as [E1 E2].
  apply N.eqb_eq in E1, E2. apply (Hcr E1 x). f_equal.
  apply code_inj. now rewrite E2.
Qed.

Lemma lines_of_splitlines_here (n : nat) :
  forall s, (String.length s <= n)%nat -> lines_of s (splitlines s).
Proof.
  induction n as [|n IH]; intros s Hn.
  - destruct s; [constructor | cbn in Hn; lia].
  - destruct (span (fun c => negb (is_linebreak c)) s) as (l & rest & -> & Hl & Hrest).
    destruct rest as [|c rest].
    + rewrite app_empty_r. destruct l as [|a l]; [constructor|].
      rewrite splitlines_last; [|discriminate | exact Hl].
      constructor; [discriminate | exact Hl].
    + pose proof (Hrest c rest eq_refl) as Hc. apply negb_false_iff in Hc.
      rewrite length_app in Hn. cbn [String.length] in Hn.
      destruct ((code c =? 13) && match rest with
                                  | String d _ => code d =? 10
                                  | EmptyString => false
                                  end) eqn:E.
      * apply andb_true_iff in E as [E1 E2]. destruct rest as [|d x]; [discriminate|].
        apply N.eqb_eq in E1, E2.
        assert (c = chr 13) as -> by (apply code_inj; now rewrite E1).
        assert (d = chr 10) as -> by (apply code_inj; now rewrite E2).
        rewrite splitlines_crlf by exact Hl. apply lines_crlf; [exact Hl|].
        apply IH. cbn [String.length] in Hn. lia.
      * assert (Hcr : code c = 13 -> forall x, rest <> String (chr 10) x).
        { intros E1 x ->. apply andb_false_iff in E as [E|E].
          - apply N.eqb_neq in E. contradiction.
          - discriminate E. }
        rewrite splitlines_next by assumption.
        apply lines_next; [exact Hl | exact Hc | exact Hcr|].
        apply IH. lia.
Qed.

(** The lines of a text are what [splitlines] computes. *)
Lemma lines_of_splitlines (s : string) (ls : list string) :
  lines_of s ls <-> ls = splitlines s.
Proof.
  split.
  - induction 1 as [|l Hne Hl|l rest ls Hl _ IH|l c rest ls Hl Hc Hcr _ IH].
    + reflexivity.
    + symmetry. now apply splitlines_last.
    + rewrite splitlines_crlf by exact Hl. now rewrite IH.
    + rewrite splitlines_next by assumption. now rewrite IH.
  - intros ->. now apply (lines_of_splitlines_here (String.length s)).
Qed.

End LinesOf.

(** ** Upper case and title case *)
Section Cases.

Lemma has_char_cons (p : ascii -> bool) (c : ascii) (s : string) :
  has_char p (String c s) <-> p c = true \/ has_char p s.
Proof.
  unfold has_char. split.
  - intros (a & d & b & E & Hd). destruct a as [|a0 a]; cbn [String.append] in E.
    + injection E as -> _. now left.
    + injection E as _ ->. right. now exists a, d, b.
  - intros [H|(a & d & b & -> & Hd)]; [now exists "", c, s|].
    now exists (String c a), d, b.
Qed.

Lemma has_char_existsb (p : ascii -> bool) (s : string) :
  existsb_str p s = true <-> has_char p s.
Proof.
  induction s as [|c s IH]; cbn [existsb_str].
  - split; [discriminate|]. intros (a & d & b & E & _). destruct a; discriminate.
  - now rewrite orb_true_iff, has_char_cons, IH.
Qed.

Lemma upper_case_isupper (s : string) : isupper s = true <-> upper_case s.
Proof.
  unfold isupper, upper_case. rewrite andb_true_iff, negb_true_iff.
  rewrite <- !has_char_existsb. split; intros [H1 H2]; (split; [exact H1|]).
  - now rewrite H2.
  - now destruct (existsb_str is_lower s).
Qed.

Lemma behind_letter_cons (ch : ascii) (a : string) :
  behind_letter (String ch a) <-> behind_letter_from (is_alpha ch) a.
Proof.
  unfold behind_letter_from, behind_letter. split.
  - intros (a' & d & E & Hd). destruct a' as [|x a']; cbn [String.append] in E.
    + injection E as -> <-. now left.
    + injection E as _ ->. right. now exists a', d.
  - intros [[-> H]|(a' & d & -> & Hd)]; [now exists "", ch|].
    now exists (String ch a'), d.
Qed.

Lemma behind_letter_start (prev : bool) :
  behind_letter_from prev "" <-> prev = true.
Proof.
  unfold behind_letter_from, behind_letter. split; [|now left].
  intros [[_ H]|(a' & d & E & _)]; [exact H|]. destruct a'; discriminate.
Qed.

Lemma titled_from_cons (cased prev : bool) (ch : ascii) (s : string) :
  titled_from cased prev (String ch s) <->
  (is_upper ch = true -> prev = false) /\ (is_lower ch = true -> prev = true) /\
  titled_from (cased || is_alpha ch) (is_alpha ch) s.
Proof.
  unfold titled_from. rewrite has_char_cons, orb_true_iff. split.
  - intros [Hc Hall]. split; [|split; [|split]].
    + intros Hu. destruct (Hall "" ch s eq_refl) as [H _].
      destruct prev; [|reflexivity]. exfalso. apply (H Hu). now apply behind_letter_start.
    + intros Hl. destruct (Hall "" ch s eq_refl) as [_ H].
      now apply behind_letter_start, H.
    + tauto.
    + intros a c b ->. destruct (Hall (String ch a) c b eq_refl) as [H1 H2].
      unfold behind_letter_from in H1, H2 |- *.
      assert (E : (String ch a = "" /\ prev = true) \/ behind_letter (String ch a) <->
                  behind_letter_from (is_alpha ch) a).
      { rewrite <- behind_letter_cons. split; [|now right].
        intros [[E _]|H]; [discriminate | exact H]. }
      unfold behind_letter_from in E. rewrite <- E. now split.
  - intros (Hu & Hl & Hc & Hall). split; [tauto|].
    intros a c b E. destruct a as [|x a]; cbn [String.append] in E.
    + injection E as <- <-. rewrite behind_letter_start. split.
      * intros H. rewrite (Hu H). discriminate.
      * exact Hl.
    + injection E as <- ->. destruct (Hall a c b eq_refl) as [H1 H2].
      assert (E : behind_letter_from prev (String ch a) <->
                  behind_letter_from (is_alpha ch) a).
      { rewrite <- behind_letter_cons. unfold behind_letter_from. split; [|now right].
        intros [[E _]|H]; [discriminate | exact H]. }
      rewrite E. now split.
Qed.

Lemma upper_not_lower (c : ascii) : is_upper c = true -> is_lower c = true -> False.
Proof. destruct c as [[] [] [] [] [] [] [] []]; vm_compute; congruence. Qed.

Lemma titled_from_aux (s : string) (cased prev : bool) :
  istitle_aux cased prev s = true <-> titled_from cased prev s.
Proof.
  revert cased prev. induction s as [|ch s IH]; intros cased prev.
  - cbn [istitle_aux]. unfold titled_from. split.
    + intros ->. split; [now left|]. intros a c b E. destruct a; discriminate.
    + intros [[H|(a & c & b & E & _)] _]; [exact H|]. destruct a; discriminate.
  - rewrite titled_from_cons. cbn [istitle_aux]. unfold is_alpha.
    destruct (is_upper ch) eqn:Hu.
    + cbn [orb]. rewrite orb_true_r. destruct prev.
      * split; [discriminate|]. intros [H _]. now specialize (H eq_refl).
      * rewrite IH. split.
        -- intros H. split; [reflexivity|]. split; [|exact H].
           intros Hl. exfalso. exact (upper_not_lower ch Hu Hl).
        -- intros (_ & _ & H). exact H.
    + destruct (is_lower ch) eqn:Hl.
      * cbn [orb]. rewrite orb_true_r. destruct prev.
        -- rewrite IH. split.
           ++ intros H. split; [discriminate|]. split; [reflexivity | exact H].
           ++ intros (_ & _ & H). exact H.
        -- split; [discriminate|]. intros (_ & H & _). now specialize (H eq_refl).
      * cbn [orb]. rewrite orb_false_r, IH. split.
        -- intros H. split; [discriminate|]. split; [discriminate | exact H].
        -- intros (_ & _ & H). exact H.
Qed.

Lemma title_case_istitle (s : string) : istitle s = true <-> title_case s.
Proof.
  unfold istitle. rewrite titled_from_aux. unfold titled_from, title_case.
  assert (E : forall a, behind_letter_from false a <-> behind_letter a).
  { intros a. unfold behind_letter_from. split; [|now right].
    intros [[_ H]|H]; [discriminate | exact H]. }
  split.
  - intros [H1 H2]. split.
    + destruct H1 as [H1|H1]; [discriminate | exact H1].
    + intros a c b Hs. destruct (H2 a c b Hs) as [U L]. rewrite E in U, L. now split.
  - intros [H1 H2]. split; [now right|].
    intros a c b Hs. destruct (H2 a c b Hs) as [U L]. rewrite E. now split.
Qed.

End Cases.

(** ** Headings *)
Section HeadingLines.

Lemma ends_with_char_snoc (x : string) (c d : ascii) :
  ends_with_char d (x +:+ String c "") = Ascii.eqb c d.
Proof.
  induction x as [|a x IH]; [reflexivity|]. cbn [String.append ends_with_char].
  destruct (x +:+ String c "") eqn:E; [destruct x; discriminate|]. exact IH.
Qed.

Lemma drop_last_snoc (x : string) (c : ascii) : drop_last (x +:+ String c "") = x.
Proof.
  induction x as [|a x IH]; [reflexivity|]. cbn [String.append drop_last].
  destruct (x +:+ String c "") eqn:E; [destruct x; discriminate|]. now rewrite IH.
Qed.

Lemma ends_with_char_spec (d : ascii) (t : string) :
  ends_with_char d t = true <-> ends_with (String d "") t.
Proof.
  unfold ends_with. destruct (string_snoc_cases t) as [->|(x & c & ->)].
  - split; [discriminate|]. intros [x E]. destruct x; discriminate.
  - rewrite ends_with_char_snoc, Ascii.eqb_eq. split.
    + intros ->. now exists x.
    + intros [y E]. now apply app_snoc_inj in E.
Qed.

Lemma canon_lower (c : string) : In c SECTION_CANON -> lower c = c.
Proof.
  unfold SECTION_CANON. cbn [In]. intuition (subst; reflexivity).
Qed.

Lemma canon_same_ci (s : string) :
  In (lower s) SECTION_CANON <-> exists c, In c SECTION_CANON /\ same_ci s c = true.
Proof.
  split.
  - intros H. exists (lower s). split; [exact H|].
    apply same_ci_lower. now rewrite lower_idem.
  - intros (c & Hc & E). apply same_ci_lower in E.
    rewrite (canon_lower c Hc) in E. now rewrite E.
Qed.

(** The description of a heading line is the test of
    [_looks_like_heading]. *)
Lemma is_heading_looks (line : string) :
  is_heading line <-> _looks_like_heading line = true.
Proof.
  rewrite looks_like_heading_spec. unfold is_heading, heading_spec. cbv zeta. split.
  - intros (t & s & Ht & Hlen & Hs & Hcase). apply trimmed_strip in Ht. subst t.
    split; [exact Hlen|].
    assert (E : (if ends_with_char ":" (strip line) then drop_last (strip line)
                 else strip line) = s).
    { destruct Hs as [Hs|[Hs Hne]].
      - rewrite Hs, ends_with_char_snoc. cbn [Ascii.eqb]. apply drop_last_snoc.
      - destruct (ends_with_char ":" (strip line)) eqn:E0; [|exact Hs].
        apply ends_with_char_spec in E0. contradiction. }
    rewrite E. destruct Hcase as [(ws & Hws & Hn & Hc)|Hc].
    + left. apply words_of_split in Hws. subst ws. split; [exact Hn|].
      now rewrite upper_case_isupper, title_case_istitle.
    + right. now apply canon_same_ci.
  - intros [Hlen Hcase].
    exists (strip line),
      (if ends_with_char ":" (strip line) then drop_last (strip line) else strip line).
    split; [now apply trimmed_strip|]. split; [exact Hlen|]. split.
    + destruct (ends_with_char ":" (strip line)) eqn:E0.
      * left. apply ends_with_char_spec in E0 as [x E0]. rewrite E0.
        now rewrite drop_last_snoc.
      * right. split; [reflexivity|]. intros H. apply ends_with_char_spec in H.
        congruence.
    + destruct Hcase as [[Hn Hc]|Hc].
      * left. exists (split (if ends_with_char ":" (strip line)
                             then drop_last (strip line) else strip line)).
        split; [now apply words_of_split|]. split; [exact Hn|].
        now rewrite <- upper_case_isupper, <- title_case_istitle.
      * right. now apply canon_same_ci.
Qed.

Lemma those_filter {A : Type} (f : A -> bool) (P : A -> Prop) (l k : list A) :
  (forall x, P x <-> f x = true) -> those P l k <-> k = List.filter f l.
Proof.
  intros Hf. split.
  - induction 1 as [|x l k Hx _ IH|x l k Hx _ IH]; cbn [List.filter].
    + reflexivity.
    + apply Hf in Hx. now rewrite Hx, IH.
    + destruct (f x) eqn:E; [|exact IH]. apply Hf in E. contradiction.
  - intros ->. induction l as [|x l IH]; cbn [List.filter]; [constructor|].
    destruct (f x) eqn:E.
    + apply those_keep; [now apply Hf | exact IH].
    + apply those_drop; [|exact IH]. intros H. apply Hf in H. congruence.
Qed.

Lemma filter_combine_map (key : string -> string) (g : string -> bool) (l : list string) :
  List.filter (fun p : string * string => g p.2) (combine l (map key l)) =
  combine (List.filter (fun x => g (key x)) l)
          (map key (List.filter (fun x => g (key x)) l)).
Proof.
  induction l as [|x l IH]; [reflexivity|]. cbn [map combine List.filter snd].
  destruct (g (key x)); [|exact IH]. cbn [map combine]. now rewrite IH.
Qed.

(** First occurrences by key, on the entries paired with their keys. *)
Lemma firsts_combine (key : string -> string) (l : list string) :
  firsts snd (combine l (map key l)) =
  combine (first_by key l) (map key (first_by key l)).
Proof.
  induction l as [|x l IH]; [reflexivity|]. cbn [map combine firsts first_by snd].
  rewrite IH. f_equal.
  apply (filter_combine_map key (fun k => negb (String.eqb k (key x)))).
Qed.

Lemma map_fst_combine (key : string -> string) (l : list string) :
  map fst (combine l (map key l)) = l.
Proof. induction l as [|x l IH]; [reflexivity|]. cbn [map combine fst]. now rewrite IH. Qed.

Lemma firsts_first_by (key : string -> string) (l : list string) (n : nat) :
  map fst (firstn n (firsts snd (combine l (map key l)))) = firstn n (first_by key l).
Proof. now rewrite firsts_combine, <- List.firstn_map, map_fst_combine. Qed.

Lemma firsts_length (key : string -> string) (l : list string) :
  length (firsts snd (combine l (map key l))) = length (first_by key l).
Proof. rewrite firsts_combine, length_combine, length_map. apply Nat.min_id. Qed.

End HeadingLines.

Section DetectedOrder.

Lemma Forall2_map_self {A B : Type} (P : A -> B -> Prop) (f : A -> B) (l : list A) :
  (forall x, In x l -> P x (f x)) -> Forall2 P l (map f l).
Proof.
  induction l as [|x l IH]; intros H; cbn [map]; constructor.
  - apply H. now left.
  - apply IH. intros y Hy. apply H. now right.
Qed.

Lemma nth_error_map_some {A B : Type} (f : A -> B) (l : list A) (i : nat) (b : B) :
  nth_error (map f l) i = Some b -> exists a, nth_error l i = Some a /\ f a = b.
Proof.
  revert i. induction l as [|x l IH]; intros [|i] H; try discriminate.
  - injection H as <-. now exists x.
  - now apply IH.
Qed.

(** What the in-particular part of C8 needs of the first occurrences: when
    nothing is cut, an entry with key [b] stands behind an entry with key
    [a] as soon as a line with key [a] stands before every line with
    key [b]. *)
Lemma first_by_both (key : string -> string) (l1 l2 : list string) (a b : string) :
  (exists x, In x l1 /\ key x = a) ->
  (forall x, In x l1 -> key x <> b) ->
  (exists y, In y l2 /\ key y = b) ->
  (length (first_by key (l1 ++ l2)) <= 12)%nat ->
  exists i j na nb, (i < j)%nat /\
    nth_error (firstn 12 (first_by key (l1 ++ l2))) i = Some na /\ key na = a /\
    nth_error (firstn 12 (first_by key (l1 ++ l2))) j = Some nb /\ key nb = b.
Proof.
  intros Ha Hb (y & Hy & Ky) Hlen.
  destruct (first_by_covers key (l1 ++ l2) y) as (nb & Hnb & Knb);
    [apply in_or_app; now right|].
  rewrite Ky in Knb.
  rewrite <- (List.firstn_all2 (n := 12) (first_by key (l1 ++ l2))) in Hnb by exact Hlen.
  apply In_nth_error in Hnb as [j Hj].
  assert (Hjk : nth_error (map key (firstn 12 (first_by key (l1 ++ l2)))) j = Some b)
    by (rewrite nth_error_map, Hj; cbn; now rewrite Knb).
  destruct (first_by_app_order key l1 l2 a b j Ha Hb Hjk) as (i & Hij & Hi).
  apply nth_error_map_some in Hi as (na & Hi & Kna).
  now exists i, j, na, nb.
Qed.

End DetectedOrder.



(** * The contact extractor *)

(** ** Scanning a text for the matches of a pattern *)
Section Scanning.

Variable r : regex.

(** No match of the pattern is empty, and the match the matcher tries
    first is the longest. *)
Hypothesis r_nonempty : forall s n, In n (mlens r s) -> (1 <= n)%nat.
Hypothesis r_longest : forall s n rest m,
  mlens r s = n :: rest -> In m rest -> (m <= n)%nat.

Lemma findall_aux_skip (k : nat) (s : string) :
  findall_aux r k s = findall r (slice_from k s).
Proof.
  unfold findall. revert k. induction s as [|c s IH]; intros [|k]; try reflexivity.
  cbn [findall_aux slice_from]. apply IH.
Qed.

Lemma findall_miss (c : ascii) (s : string) :
  mlens r (String c s) = [] -> findall r (String c s) = findall r s.
Proof. intros H. unfold findall. cbn [findall_aux]. now rewrite H. Qed.

Lemma findall_hit (s : string) (n : nat) (rest : list nat) :
  mlens r s = n :: rest ->
  findall r s = slice_to n s :: findall r (slice_from n s).
Proof.
  intros H. assert (Hn : (1 <= n)%nat) by (apply (r_nonempty s); rewrite H; now left).
  destruct s as [|c s].
  - pose proof (mlens_le r "" n) as Hl. rewrite H in Hl.
    specialize (Hl (or_introl eq_refl)). cbn in Hl. lia.
  - unfold findall at 1. cbn [findall_aux]. rewrite H. f_equal.
    rewrite findall_aux_skip. destruct n as [|n]; [lia|].
    cbn [slice_from Nat.sub]. now rewrite Nat.sub_0_r.
Qed.

Lemma findall_none (s : string) :
  (forall k, (k <= String.length s)%nat -> mlens r (slice_from k s) = []) ->
  findall r s = [].
Proof.
  induction s as [|c s IH]; intros H; [reflexivity|].
  rewrite findall_miss by exact (H O (Nat.le_0_l _)).
  apply IH. intros k Hk. apply (H (S k)). cbn [String.length]. lia.
Qed.

Lemma findall_lead (k : nat) (s : string) :
  (k <= String.length s)%nat ->
  (forall k', (k' < k)%nat -> mlens r (slice_from k' s) = []) ->
  findall r s = findall r (slice_from k s).
Proof.
  revert s. induction k as [|k IH]; intros s Hk H; [now destruct s|].
  destruct s as [|c s]; [cbn in Hk; lia|].
  rewrite findall_miss by exact (H O (Nat.lt_0_succ _)).
  cbn [slice_from]. apply IH; [cbn in Hk; lia|].
  intros k' Hk'. apply (H (S k')). lia.
Qed.

Lemma slice_from_twice (i n : nat) (s : string) :
  slice_from n (slice_from i s) = slice_from (i + n) s.
Proof.
  revert s. induction i as [|i IH]; intros s; [now destruct s|].
  destruct s as [|c s]; [now destruct n|]. cbn [slice_from Nat.add]. apply IH.
Qed.

Lemma scan_findall_here (m : nat) :
  forall s, (String.length s <= m)%nat -> scan r s (findall r s).
Proof.
  induction m as [|m IH]; intros s Hm.
  - destruct s; [|cbn in Hm; lia]. apply scan_none.
    intros i w (a & b & E & _ & Hw).
    destruct a; [|discriminate E]. destruct w; [|discriminate E].
    assert (Hin : In O (mlens r "")) by (apply mlens_spec; split; [cbn; lia | exact Hw]).
    apply r_nonempty in Hin. lia.
  - pose proof (search_spec r s) as Hs. pose proof (search_from_spec r s O) as Hf.
    unfold search in Hs. destruct (search_from r 0 s) as [[i n]|].
    + destruct Hs as [Hmatch Hleft].
      destruct Hf as (k & -> & Hk & [rest Hhead] & Hnone). cbn [Nat.add] in *.
      assert (Hn : (1 <= n)%nat)
        by (apply (r_nonempty (slice_from k s)); rewrite Hhead; now left).
      assert (Hnl : (n <= String.length (slice_from k s))%nat)
        by (apply (mlens_le r); rewrite Hhead; now left).
      rewrite length_slice_from in Hnl.
      rewrite (findall_lead k s Hk Hnone), (findall_hit _ _ _ Hhead), slice_from_twice.
      assert (E : s = slice_to k s +:+ slice_to n (slice_from k s) +:+ slice_from (k + n) s).
      { rewrite <- slice_from_twice, slice_to_from, slice_to_from. reflexivity. }
      assert (La : String.length (slice_to k s) = k) by now apply length_slice_to.
      rewrite E at 1. apply scan_hit.
      * destruct Hmatch as (a & b & _ & _ & Hw). exact Hw.
      * intros E0. apply (f_equal String.length) in E0.
        rewrite length_slice_to in E0 by (rewrite length_slice_from; lia).
        cbn in E0. lia.
      * rewrite <- E, La. exact Hleft.
      * rewrite <- E, La. intros w' Hw'.
        apply match_at_mlens in Hw' as (_ & Hin & _). rewrite Hhead in Hin.
        rewrite length_slice_to by (rewrite length_slice_from; lia).
        destruct Hin as [<-|Hin]; [lia|]. exact (r_longest _ _ _ _ Hhead Hin).
      * apply IH. rewrite length_slice_from. lia.
    + rewrite findall_none by (intros k Hk; now apply Hf).
      apply scan_none. exact Hs.
Qed.

(** What [findall] returns is the scan of the text. *)
Lemma scan_findall (s : string) : scan r s (findall r s).
Proof. now apply (scan_findall_here (String.length s)). Qed.

End Scanning.

Lemma app_inv_head_s (a x y : string) : a +:+ x = a +:+ y -> x = y.
Proof.
  induction a as [|c a IH]; [trivial|]. cbn [String.append].
  intros [= H]. now apply IH.
Qed.

(** The scan of a text is determined by the text. *)
Lemma scan_functional (r : regex) (s : string) (ws ws' : list string) :
  scan r s ws -> scan r s ws' -> ws = ws'.
Proof.
  intros H. revert ws'.
  induction H as [s Hno|a w rest ws Hw Hne Hleft Hlong _ IH]; intros ws' H'.
  - inversion H' as [|a' w' rest' ws0 Hw' _ _ _ _ E]; [reflexivity|].
    exfalso. subst. apply (Hno (String.length a') w'). now exists a', rest'.
  - inversion H' as [s0 Hno|a' w' rest' ws0 Hw' Hne' Hleft' Hlong' Hrest' E]; subst.
    + exfalso. apply (Hno (String.length a) w). now exists a, rest.
    + assert (M : match_at r (a +:+ w +:+ rest) (String.length a) w)
        by now exists a, rest.
      assert (M' : match_at r (a +:+ w +:+ rest) (String.length a') w')
        by (rewrite <- E; now exists a', rest').
      assert (La : String.length a' = String.length a).
      { apply Nat.le_antisymm.
        - rewrite E in Hleft'. exact (Hleft' _ _ M).
        - exact (Hleft _ _ M'). }
      assert (Ea : a' = a).
      { rewrite <- (slice_to_app_exact a' (w' +:+ rest')), E, La.
        apply slice_to_app_exact. }
      subst a'. apply app_inv_head_s in E.
      assert (Lw : String.length w' = String.length w).
      { apply Nat.le_antisymm.
        - exact (Hlong _ M').
        - rewrite E in Hlong'. exact (Hlong' _ M). }
      assert (Ew : w' = w).
      { rewrite <- (slice_to_app_exact w' rest'), E, Lw. apply slice_to_app_exact. }
      subst w'. apply app_inv_head_s in E. subst rest'. f_equal. now apply IH.
Qed.

(** ** The link pattern *)
Section Links.

Lemma link_classes : classes_within (fun c => negb (is_space c)) LINK_RE.
Proof.
  unfold LINK_RE. cbn [classes_within lit_ci].
  repeat split; try exact I; intros c; destruct c as [[] [] [] [] [] [] [] []];
    vm_compute; congruence.
Qed.

Lemma link_nonempty (s : string) (n : nat) : In n (mlens LINK_RE s) -> (1 <= n)%nat.
Proof.
  intros H. apply mlens_spec in H as [Hn Hm].
  apply matches_length in Hm as [Hlo _].
  change (min_len LINK_RE) with 5%nat in Hlo.
  rewrite length_slice_to in Hlo by exact Hn. lia.
Qed.

Lemma flat_map_head {A B : Type} (f : A -> list B) (l : list A) (x : B) (t : list B) :
  flat_map f l = x :: t -> exists k t', In k l /\ f k = x :: t'.
Proof.
  induction l as [|a l IH]; [discriminate|]. cbn [flat_map].
  destruct (f a) as [|y u] eqn:E.
  - intros H. destruct (IH H) as (k & t' & Hk & Ek). exists k, t'. split; [now right | exact Ek].
  - intros [= -> _]. exists a, u. split; [now left | exact E].
Qed.

Lemma rev_seq_head (j : nat) (x : nat) (t : list nat) :
  rev (seq 1 j) = x :: t -> x = j.
Proof.
  destruct j as [|j]; [discriminate|].
  rewrite seq_S, rev_app_distr. cbn [rev app]. now intros [= <- _].
Qed.

Lemma run_slice_from (p : ascii -> bool) (k : nat) (s : string) :
  (k <= run p s)%nat -> run p (slice_from k s) = (run p s - k)%nat.
Proof.
  revert s. induction k as [|k IH]; intros s Hk.
  - destruct s; cbn [slice_from]; lia.
  - destruct s as [|c s]; [cbn in Hk; lia|]. cbn [run] in Hk |- *.
    destruct (p c); [|lia]. cbn [slice_from]. rewrite IH by lia. lia.
Qed.

Lemma link_within_run (s : string) (m : nat) :
  In m (mlens LINK_RE s) -> (m <= run (fun c => negb (is_space c)) s)%nat.
Proof.
  intros H. apply mlens_spec in H as [Hm Hw]. apply run_spec. split; [exact Hm|].
  exact (matches_chars _ _ _ link_classes Hw).
Qed.

(** The match of the link pattern that the matcher tries first reaches to
    the next blank, and so is the longest. *)
Lemma link_longest (s : string) (n : nat) (rest : list nat) (m : nat) :
  mlens LINK_RE s = n :: rest -> In m rest -> (m <= n)%nat.
Proof.
  intros H Hm.
  assert (Hn : n = run (fun c => negb (is_space c)) s).
  { set (P := Alt (Seq (lit_ci "http") (Seq (Opt (Cls (ci "s"))) (lit_ci "://")))
                    (lit_ci "www.")).
    assert (H0 : flat_map
                   (fun k => map (Nat.add k)
                      (rep_lens true (fun c => negb (is_space c)) 1 None (slice_from k s)))
                   (mlens P s) = n :: rest) by exact H.
    apply flat_map_head in H0 as (k & t' & Hk & Ek).
    destruct (rep_lens true (fun c => negb (is_space c)) 1 None (slice_from k s))
      as [|x u] eqn:E; [discriminate|].
    cbn [map] in Ek. injection Ek as <- _.
    unfold rep_lens, rep_upper in E. cbv zeta in E.
    replace (S (run (fun c => negb (is_space c)) (slice_from k s)) - 1)%nat
      with (run (fun c => negb (is_space c)) (slice_from k s)) in E by lia.
    apply rev_seq_head in E. subst x.
    assert (Hkr : (k <= run (fun c => negb (is_space c)) s)%nat).
    { apply mlens_spec in Hk as [Hkl Hkm]. apply run_spec. split; [exact Hkl|].
      assert (HC : classes_within (fun c => negb (is_space c)) P /\
                   (forall c, negb (is_space c) = true -> negb (is_space c) = true))
        by exact link_classes.
      exact (matches_chars _ _ _ (proj1 HC) Hkm). }
    rewrite run_slice_from by exact Hkr. lia. }
  rewrite Hn. apply link_within_run. rewrite H. now right.
Qed.

(** The links that [findall] returns are the scan of the text. *)
Lemma links_scan (s : string) : scan LINK_RE s (findall LINK_RE s).
Proof. apply scan_findall; [exact link_nonempty | exact link_longest]. Qed.

End Links.

(** ** Greedy patterns: the first match tried is the longest *)
Section Greedy.

Lemma rev_seq_below (len a : nat) (l1 l2 : list nat) (k : nat) :
  rev (seq a len) = l1 ++ k :: l2 -> forall j, In j l2 -> (j < k)%nat.
Proof.
  revert l1. induction len as [|len IH]; intros l1 E j Hj.
  - destruct l1; discriminate.
  - rewrite seq_S, rev_app_distr in E. cbn [rev app] in E.
    destruct l1 as [|x l1]; cbn [app] in E; injection E as Ex E.
    + subst l2 k. apply in_rev, in_seq in Hj. lia.
    + now apply (IH l1).
Qed.

Lemma head_longest_rep (p : ascii -> bool) (lo : nat) (hi : option nat) :
  head_longest (Rep true p lo hi).
Proof.
  intros s n rest m H Hm. cbn [mlens] in H. unfold rep_lens in H. cbv zeta in H.
  pose proof (rev_seq_below _ _ [] rest n H m Hm). lia.
Qed.

Lemma mlens_cls_seq (c : ascii -> bool) (r : regex) (s : string) :
  mlens (Seq (Cls c) r) s =
  match s with
  | String x s' => if c x then map (Nat.add 1) (mlens r s') else []
  | EmptyString => []
  end.
Proof.
  cbn [mlens]. destruct s as [|x s']; [reflexivity|].
  destruct (c x); [|reflexivity]. cbn [flat_map slice_from]. apply app_nil_r.
Qed.

Lemma head_longest_cls_seq (c : ascii -> bool) (r : regex) :
  head_longest r -> head_longest (Seq (Cls c) r).
Proof.
  intros Hr s n rest m H Hm. rewrite mlens_cls_seq in H.
  destruct s as [|x s']; [discriminate|]. destruct (c x); [|discriminate].
  destruct (mlens r s') as [|n0 rest0] eqn:E; [discriminate|].
  cbn [map] in H. injection H as <- <-.
  apply in_map_iff in Hm as (m0 & <- & Hm0).
  pose proof (Hr s' n0 rest0 m0 E Hm0). lia.
Qed.

(** A greedy repetition followed by a pattern: the first match tried is
    the longest when this holds of the pattern that follows and a later
    start of that pattern inside the run reaches at least as far as an
    earlier one. *)
Lemma head_longest_rep_seq (p : ascii -> bool) (lo : nat) (r2 : regex) (s : string) :
  head_longest r2 ->
  (forall k k' n t m,
     (k < k')%nat -> (k' <= run p s)%nat ->
     mlens r2 (slice_from k' s) = n :: t -> In m (mlens r2 (slice_from k s)) ->
     (k + m <= k' + n)%nat) ->
  forall n rest m,
    mlens (Seq (Rep true p lo None) r2) s = n :: rest -> In m rest -> (m <= n)%nat.
Proof.
  intros H2 Hreach n rest m H Hm. cbn [mlens] in H.
  unfold rep_lens, rep_upper in H. cbv zeta in H.
  set (L := rev (seq lo (S (run p s) - lo))) in H.
  assert (G : forall l2 l1, L = l1 ++ l2 ->
              flat_map (fun k => map (Nat.add k) (mlens r2 (slice_from k s))) l2 = n :: rest ->
              (m <= n)%nat); [|exact (G L [] eq_refl H)].
  induction l2 as [|k l2 IH]; intros l1 EL E; [discriminate|].
  cbn [flat_map] in E.
  destruct (mlens r2 (slice_from k s)) as [|n0 t0] eqn:Ek.
  - cbn [map app] in E. apply (IH (l1 ++ [k])); [|exact E].
    now rewrite <- app_assoc.
  - cbn [map app] in E. injection E as <- <-.
    apply in_app_or in Hm as [Hm|Hm].
    + apply in_map_iff in Hm as (m0 & <- & Hm0).
      pose proof (H2 _ _ _ _ Ek Hm0). lia.
    + apply in_flat_map in Hm as (k0 & Hk0 & Hm).
      apply in_map_iff in Hm as (m0 & <- & Hm0).
      assert (Hlt : (k0 < k)%nat) by exact (rev_seq_below _ _ _ _ _ EL k0 Hk0).
      assert (Hk : (k <= run p s)%nat).
      { assert (Hin : In k L) by (rewrite EL; apply in_or_app; right; now left).
        unfold L in Hin. apply in_rev, in_seq in Hin. lia. }
      exact (Hreach k0 k n0 t0 m0 Hlt Hk Ek Hm0).
Qed.

Lemma run_char (p : ascii -> bool) (j : nat) (u : string) :
  (j < run p u)%nat -> exists c r, slice_from j u = String c r /\ p c = true.
Proof.
  revert u. induction j as [|j IH]; intros u H.
  - destruct u as [|c r]; [cbn in H; lia|]. cbn [run] in H.
    destruct (p c) eqn:E; [|lia]. now exists c, r.
  - destruct u as [|c r]; [cbn in H; lia|]. cbn [run] in H.
    destruct (p c); [|lia]. cbn [slice_from]. apply IH. lia.
Qed.

Lemma mlens_cls_head (c : ascii -> bool) (r : regex) (s : string) (n : nat) :
  In n (mlens (Seq (Cls c) r) s) -> exists x s', s = String x s' /\ c x = true.
Proof.
  rewrite mlens_cls_seq. destruct s as [|x s']; [intros []|].
  destruct (c x) eqn:E; [|intros []]. intros _. now exists x, s'.
Qed.

End Greedy.

(** ** The email pattern *)
Section Email.

Lemma email_nonempty (s : string) (n : nat) :
  In n (mlens CONTACT_EMAIL_RE s) -> (1 <= n)%nat.
Proof.
  intros H. apply mlens_spec in H as [Hn Hm].
  apply matches_length in Hm as [Hlo _].
  change (min_len CONTACT_EMAIL_RE) with 6%nat in Hlo.
  rewrite length_slice_to in Hlo by exact Hn. lia.
Qed.

Lemma at_not_local (c : ascii) : is_char "@" c = true -> email_local c = false.
Proof. destruct c as [[] [] [] [] [] [] [] []]; vm_compute; congruence. Qed.

Lemma dot_not_alpha (c : ascii) : is_char "." c = true -> is_alpha c = false.
Proof. destruct c as [[] [] [] [] [] [] [] []]; vm_compute; congruence. Qed.

(** The dot and the letters behind it: a match that begins at an earlier
    dot ends before the next dot. *)
Lemma tld_reach (s : string) (k k' n m : nat) (t : list nat) :
  (k < k')%nat ->
  mlens (Seq (Cls (is_char ".")) (Rep true is_alpha 2 None)) (slice_from k' s) = n :: t ->
  In m (mlens (Seq (Cls (is_char ".")) (Rep true is_alpha 2 None)) (slice_from k s)) ->
  (k + m <= k' + n)%nat.
Proof.
  intros Hlt Hk' Hm.
  assert (Hdot : exists x s', slice_from k' s = String x s' /\ is_char "." x = true).
  { apply (mlens_cls_head (is_char ".") (Rep true is_alpha 2 None) _ n). rewrite Hk'. now left. }
  destruct Hdot as (x & s' & Ex & Hx).
  rewrite mlens_cls_seq in Hm.
  destruct (slice_from k s) as [|y u] eqn:Ey; [destruct Hm|].
  destruct (is_char "." y); [|destruct Hm].
  apply in_map_iff in Hm as (m0 & <- & Hm0).
  cbn [mlens] in Hm0. apply rep_lens_spec in Hm0 as [_ Hup]. cbn [rep_upper] in Hup.
  destruct (Nat.le_gt_cases (k + (1 + m0)) k') as [|Hgt]; [lia|]. exfalso.
  assert (Hu : u = slice_from (S k) s).
  { replace (S k) with (k + 1)%nat by lia.
    rewrite <- (slice_from_twice k 1 s), Ey. reflexivity. }
  destruct (run_char is_alpha (k' - S k) u) as (c & r0 & Ec & Hc); [lia|].
  rewrite Hu, slice_from_twice in Ec.
  replace (S k + (k' - S k))%nat with k' in Ec by lia.
  rewrite Ex in Ec. injection Ec as <- _.
  rewrite (dot_not_alpha x Hx) in Hc. discriminate.
Qed.

(** The match of the email pattern that the matcher tries first is the
    longest. *)
Lemma email_longest : head_longest CONTACT_EMAIL_RE.
Proof.
  intros s. unfold CONTACT_EMAIL_RE. apply head_longest_rep_seq.
  - apply head_longest_cls_seq. intros u. apply head_longest_rep_seq.
    + apply head_longest_cls_seq, head_longest_rep.
    + intros k k' n t m Hlt _. apply tld_reach. exact Hlt.
  - intros k k' n t m Hlt Hk' _ Hm. exfalso.
    apply mlens_cls_head in Hm as (x & s' & Ex & Hx).
    destruct (run_char email_local k s) as (c & r0 & Ec & Hc); [lia|].
    rewrite Ex in Ec. injection Ec as <- _.
    rewrite (at_not_local x Hx) in Hc. discriminate.
Qed.

End Email.

(** ** The name line *)
Section NameLine.

Lemma strip_empty_blank (s : string) : strip s = "" -> all_str is_space s = true.
Proof.
  intros E. destruct (strip_by_decomposes is_space s) as (l & r & Es & Hl & Hr & _).
  fold (strip s) in Es. rewrite E in Es. cbn [String.append] in Es.
  rewrite Es, all_str_app, Hl, Hr. reflexivity.
Qed.

Lemma nonblank_of_lines (ls : list string) :
  nonblank_of ls (map strip (List.filter (fun ln => truthy (strip ln)) ls)).
Proof.
  induction ls as [|l ls IH]; cbn [List.filter map]; [constructor|].
  destruct (truthy (strip l)) eqn:E.
  - cbn [map]. apply nonblank_keep; [now apply trimmed_strip| |exact IH].
    now apply truthy_spec.
  - apply nonblank_skip; [|exact IH]. apply strip_empty_blank.
    destruct (strip l); [reflexivity | discriminate].
Qed.

Lemma names_section_has_keyword (ln : string) :
  names_section ln <-> has_keyword ln = true.
Proof.
  unfold names_section, has_keyword. rewrite existsb_exists. split.
  - intros (k & Hk & H). exists k. split; [exact Hk|].
    apply occurs_ci_contains in H.
    assert (E : lower k = k).
    { cbn in Hk. destruct Hk as [<-|[<-|[<-|[<-|[]]]]]; reflexivity. }
    now rewrite E in H.
  - intros (k & Hk & H). exists k. split; [exact Hk|].
    apply occurs_ci_contains.
    assert (E : lower k = k).
    { cbn in Hk. destruct Hk as [<-|[<-|[<-|[<-|[]]]]]; reflexivity. }
    now rewrite E.
Qed.

Lemma find_first_without (l : list string) :
  match List.find (fun ln => negb (has_keyword ln)) l with
  | Some x => first_without names_section l x
  | None => Forall names_section l
  end.
Proof.
  induction l as [|y l IH]; cbn [List.find]; [constructor|].
  destruct (has_keyword y) eqn:E; cbn [negb].
  - apply names_section_has_keyword in E.
    destruct (List.find (fun ln => negb (has_keyword ln)) l) as [x|].
    + destruct IH as (pre & post & -> & Hpre & Hx).
      exists (y :: pre), post. repeat split; [now constructor | exact Hx].
    + now constructor.
  - exists [], l. repeat split; [constructor|].
    intros H. apply names_section_has_keyword in H. congruence.
Qed.

Lemma cut_to_slice (n : nat) (s : string) : cut_to n s (slice_to n s).
Proof.
  exists (slice_from n s). split; [symmetry; apply slice_to_from|].
  destruct (Nat.le_gt_cases n (String.length s)) as [H|H].
  - left. now apply length_slice_to.
  - right. rewrite slice_to_all by lia. split; [|lia].
    pose proof (slice_to_from n s) as E. rewrite slice_to_all in E by lia.
    destruct (slice_from n s) as [|c r]; [reflexivity|]. exfalso.
    apply (f_equal String.length) in E. rewrite length_app in E.
    cbn [String.length] in E. lia.
Qed.

Lemma firsts_first_seen (l : list string) : firsts (fun u => u) l = first_seen l.
Proof.
  unfold first_seen. induction l as [|x l IH]; cbn [firsts first_by]; [reflexivity|].
  now rewrite IH.
Qed.

End NameLine.

(** ** The match that [search] reports *)
Section Found.

Lemma search_longest (r : regex) (s : string) (i n : nat) :
  head_longest r -> search r s = Some (i, n) ->
  forall w, match_at r s i w -> (String.length w <= n)%nat.
Proof.
  intros Hr E w (a & b & Es & Ha & Hw).
  pose proof (search_from_spec r s O) as H. fold (search r s) in H. rewrite E in H.
  destruct H as (k & Ek & _ & (rest & Hhead) & _). cbn [Nat.add] in Ek. subst k.
  assert (Eb : slice_from i s = w +:+ b).
  { rewrite Es, <- Ha. apply slice_from_app_exact. }
  assert (Hin : In (String.length w) (mlens r (slice_from i s))).
  { apply mlens_spec. rewrite Eb, slice_to_app_exact. split; [|exact Hw].
    rewrite length_app. lia. }
  rewrite Hhead in Hin. destruct Hin as [<-|Hin]; [lia|].
  exact (Hr _ _ _ _ Hhead Hin).
Qed.

End Found.


